(** * Redex: keep-rule parser, basic-block instrumentation, inter-dex packing

    A shallow embedding of three files of the Redex optimizer
    - [libredex/ProguardParser.cpp]        (module [ProguardParser]),
    - [opt/instrument/BlockInstrument.cpp] (module [BlockInstrument]),
    - [opt/interdex/InterDex.cpp]          (module [InterDex]),
    together with the properties of these functions that are checked
    against the design document.

    Conventions of the embedding.
    - [size_t] values are integers in [Z]; every arithmetic operation of
      the source is followed by its wrap-around [size_t].
    - [always_assert] and out-of-range [at] abort the process; functions
      that can abort return a [result], whose [Fatal] carries the message.
    - [std::string] is [string]; [std::unordered_set<std::string>] is
      [gset string]; [std::map<K, V>] is [gmap K V].
    - Interned handles ([DexType*], [DexClass*], [DexMethod*]) are the
      names they are interned under. *)

From Stdlib Require Import ZArith Lia Bool List Ascii String Sorted Permutation.
From Stdlib Require Import OrderedTypeEx.
From stdpp Require Import base decidable option list gmap strings fin_maps.

Import ListNotations.
#[global] Set Warnings "-clear-no-such-hyp".
Local Open Scope Z_scope.
Local Open Scope string_scope.
Local Open Scope list_scope.

(** ** Aborting computations *)

Inductive result (A : Type) : Type :=
| Ok (a : A)
| Fatal (msg : string).
Arguments Ok {A} a.
Arguments Fatal {A} msg.

#[global] Instance result_ret : MRet result := fun A a => Ok a.
#[global] Instance result_bind : MBind result := fun A B k r =>
  match r with
  | Ok a => k a
  | Fatal msg => Fatal msg
  end.

(** [always_assert_log(cond, msg)] *)
Definition always_assert_log (cond : bool) (msg : string) : result unit :=
  if cond then Ok tt else Fatal msg.

Definition is_ok {A} (r : result A) : bool :=
  match r with Ok _ => true | Fatal _ => false end.

(** ** Machine integers *)

Definition size_t (z : Z) : Z := z mod 2 ^ 64.
Definition SIZE_MAX : Z := 2 ^ 64 - 1.

(** [static_cast<int16_t>] of an unsigned value. *)
Definition int16_t (z : Z) : Z := (z + 2 ^ 15) mod 2 ^ 16 - 2 ^ 15.

(** [std::to_string] on a non-negative integer. *)
Fixpoint digits_of (fuel : nat) (n : N) (acc : string) : string :=
  match fuel with
  | O => acc
  | S fuel' =>
      let d := String (ascii_of_N (48 + N.modulo n 10)) acc in
      if N.ltb n 10 then d else digits_of fuel' (N.div n 10) d
  end.

Definition to_string (z : Z) : string :=
  let n := Z.to_N z in digits_of (S (N.to_nat (N.log2 n))) n "".

(** [boost::algorithm::starts_with(s, prefix)] *)
Fixpoint starts_with (s prefix : string) : bool :=
  match prefix, s with
  | EmptyString, _ => true
  | String c p', String d s' => if Ascii.eqb c d then starts_with s' p' else false
  | String _ _, EmptyString => false
  end.

(** [std::count_if] *)
Definition count_if {A} (p : A -> bool) (l : list A) : Z :=
  Z.of_nat (length (List.filter p l)).


(** The longest prefix of [l] whose elements satisfy [p]. *)
Fixpoint take_while_b {A} (p : A -> bool) (l : list A) : list A :=
  match l with
  | [] => []
  | x :: l' => if p x then x :: take_while_b p l' else []
  end.

(** Index of the first occurrence of [x], as [std::find] returns it. *)
Fixpoint find_index (x : string) (l : list string) (i : nat) : option nat :=
  match l with
  | [] => None
  | y :: l' => if String.eqb y x then Some i else find_index x l' (S i)
  end.

(** * Part I: the embedding *)

(** ** libredex/ProguardParser.cpp *)

Module TokenType.

(** [enum class TokenType] of the lexer. *)
Inductive t :=
| openCurlyBracket | closeCurlyBracket | openBracket | closeBracket
| semiColon | colon | notToken | comma | slash
| classToken | publicToken | final | abstract | interface | enumToken
| extends | implements | privateToken | protectedToken | staticToken
| volatileToken | transient | annotation | annotation_application
| synchronized | native | strictfp | synthetic | bridge | varargs
| command | identifier | arrayType | filepath | target_version_token
| filter_pattern | eof_token | comment
(* Input/Output Options *)
| include | basedirectory | dump | injars | outjars | libraryjars
| keepdirectories | target | dontskipnonpubliclibraryclasses
(* Keep Options *)
| keep | keepclassmembers | keepclasseswithmembers | keepnames
| keepclassmembernames | keepclasseswithmembernames | printseeds
(* Keep Option Modifiers *)
| includedescriptorclasses_token | allowshrinking_token
| allowoptimization_token | allowobfuscation_token
(* Shrinking Options *)
| dontshrink | printusage | whyareyoukeeping
(* Optimization Options *)
| dontoptimize | optimizations | optimizationpasses | assumenosideeffects
| assumevalues | mergeinterfacesaggressively | allowaccessmodification_token
| returns
(* Obfuscation Options *)
| dontobfuscate | printmapping | repackageclasses | keepattributes
| dontusemixedcaseclassnames_token | keeppackagenames
(* Preverification Options *)
| dontpreverify_token
(* General Options *)
| printconfiguration | dontwarn | verbose_token
| unknownToken.

#[global] Instance eq_dec : EqDecision t.
Proof. solve_decision. Defined.

Definition eqb (a b : t) : bool := bool_decide (a = b).

End TokenType.

Module ProguardParser.

(** *** Tokens and the rule data model *)

Record Token := {
  type : TokenType.t;
  data : string;
  line : Z;
}.

(** Modelled from the spec: [Token::is_command] (ProguardLexer.h is not part
    of the sources).  A token is command-kind if its kind is one of the
    directive keywords; these are the kinds that the switch of [parse]
    dispatches on. *)
Definition is_command (tok : Token) : bool :=
  match type tok with
  | TokenType.include | TokenType.basedirectory | TokenType.dump
  | TokenType.injars | TokenType.outjars | TokenType.libraryjars
  | TokenType.keepdirectories | TokenType.target
  | TokenType.dontskipnonpubliclibraryclasses
  | TokenType.keep | TokenType.keepclassmembers
  | TokenType.keepclasseswithmembers | TokenType.keepnames
  | TokenType.keepclassmembernames | TokenType.keepclasseswithmembernames
  | TokenType.printseeds
  | TokenType.dontshrink | TokenType.printusage | TokenType.whyareyoukeeping
  | TokenType.dontoptimize | TokenType.optimizations
  | TokenType.optimizationpasses | TokenType.assumenosideeffects
  | TokenType.assumevalues | TokenType.mergeinterfacesaggressively
  | TokenType.allowaccessmodification_token | TokenType.returns
  | TokenType.dontobfuscate | TokenType.printmapping
  | TokenType.repackageclasses | TokenType.keepattributes
  | TokenType.dontusemixedcaseclassnames_token | TokenType.keeppackagenames
  | TokenType.dontpreverify_token
  | TokenType.printconfiguration | TokenType.dontwarn | TokenType.verbose_token
  | TokenType.command => true
  | _ => false
  end.

(** [DexAccessFlags], a bit set. *)
Abbreviation DexAccessFlags := Z (only parsing).
Definition ACC_PUBLIC : Z := 0x1.
Definition ACC_PRIVATE : Z := 0x2.
Definition ACC_PROTECTED : Z := 0x4.
Definition ACC_STATIC : Z := 0x8.
Definition ACC_FINAL : Z := 0x10.
Definition ACC_VOLATILE : Z := 0x40.
Definition ACC_TRANSIENT : Z := 0x80.
Definition ACC_NATIVE : Z := 0x100.
Definition ACC_INTERFACE : Z := 0x200.
Definition ACC_ABSTRACT : Z := 0x400.
Definition ACC_SYNTHETIC : Z := 0x1000.
Definition ACC_ANNOTATION : Z := 0x2000.
Definition ACC_ENUM : Z := 0x4000.
Definition ACC_CONSTRUCTOR : Z := 0x10000.

Inductive ValueType := ValueUnknownType | ValueBool.

Record AssumeReturnValue := {
  value_type : ValueType;
  value_v : Z;
}.

Record MemberSpecification := {
  requiredSetAccessFlags : DexAccessFlags;
  requiredUnsetAccessFlags : DexAccessFlags;
  member_annotationType : string;
  name : string;
  descriptor : string;
  return_value : AssumeReturnValue;
}.

Record ClassSpecification := {
  (** [(name, negated)] *)
  classNames : list (string * bool);
  annotationType : string;
  extendsClassName : string;
  extendsAnnotationType : string;
  setAccessFlags : DexAccessFlags;
  unsetAccessFlags : DexAccessFlags;
  fieldSpecifications : list MemberSpecification;
  methodSpecifications : list MemberSpecification;
}.

Record KeepSpec := {
  includedescriptorclasses : bool;
  allowshrinking : bool;
  allowoptimization : bool;
  allowobfuscation : bool;
  mark_classes : bool;
  mark_conditionally : bool;
  class_spec : ClassSpecification;
  source_filename : string;
  source_line : Z;
}.

(** The value-initialised objects. *)
Definition default_MemberSpecification : MemberSpecification :=
  {| requiredSetAccessFlags := 0; requiredUnsetAccessFlags := 0;
     member_annotationType := ""; name := ""; descriptor := "";
     return_value := {| value_type := ValueUnknownType; value_v := 0 |} |}.

Definition default_ClassSpecification : ClassSpecification :=
  {| classNames := []; annotationType := ""; extendsClassName := "";
     extendsAnnotationType := ""; setAccessFlags := 0; unsetAccessFlags := 0;
     fieldSpecifications := []; methodSpecifications := [] |}.

Definition default_KeepSpec : KeepSpec :=
  {| includedescriptorclasses := false; allowshrinking := false;
     allowoptimization := false; allowobfuscation := false;
     mark_classes := true; mark_conditionally := false;
     class_spec := default_ClassSpecification;
     source_filename := ""; source_line := 0 |}.

Record Stats := {
  unknown_tokens : Z;
  parse_errors : Z;
  unknown_commands : Z;
  unimplemented : Z;
}.

(** *** The token cursor

    [TokenIndex]: the vector is fixed, so the cursor is the list of the
    tokens from [it] to [vec.end()].  The lexer closes every vector with an
    [eof_token]; reading at [vec.end()] is read as that token. *)
Abbreviation TokenIndex := (list Token) (only parsing).

Definition idx_type (idx : TokenIndex) : TokenType.t :=
  match idx with
  | [] => TokenType.eof_token
  | tok :: _ => type tok
  end.

Definition idx_data (idx : TokenIndex) : string :=
  match idx with
  | [] => ""
  | tok :: _ => data tok
  end.

Definition idx_line (idx : TokenIndex) : Z :=
  match idx with
  | [] => 0
  | tok :: _ => line tok
  end.

Definition idx_is_command (idx : TokenIndex) : bool :=
  match idx with
  | [] => false
  | tok :: _ => is_command tok
  end.

Definition is_type (idx : TokenIndex) (tok : TokenType.t) : bool :=
  TokenType.eqb (idx_type idx) tok.

Fixpoint skip_comments (idx : TokenIndex) : TokenIndex :=
  match idx with
  | tok :: rest =>
      if TokenType.eqb (type tok) TokenType.comment then skip_comments rest else idx
  | [] => []
  end.

Definition redex_assert (cond : bool) (msg : string) : result unit :=
  always_assert_log cond msg.

Definition next (idx : TokenIndex) : result TokenIndex :=
  _ ← redex_assert (match idx with [] => false | _ => true end) "it != vec.end()";
  _ ← redex_assert (negb (is_type idx TokenType.eof_token))
        "type() != TokenType::eof_token";
  Ok (skip_comments (tl idx)).

Definition str_next (idx : TokenIndex) : result (string * TokenIndex) :=
  let val := idx_data idx in
  idx ← next idx;
  Ok (val, idx).

(** Every loop of the parser consumes a token per round, so the number of
    tokens left bounds its rounds; a loop that outlived this bound would
    abort. *)
Definition loop_bound_exceeded {A} : result A := Fatal "loop bound exceeded".

(** *** Simple commands *)

Definition parse_boolean_command (idx : TokenIndex) (boolean_option : TokenType.t)
    (value : bool) : result (option bool * TokenIndex) :=
  if negb (is_type idx boolean_option) then Ok (None, idx)
  else idx ← next idx; Ok (Some value, idx).

Fixpoint skip_to_next_command_loop (bound : nat) (idx : TokenIndex)
    : result TokenIndex :=
  if negb (is_type idx TokenType.eof_token) && negb (idx_is_command idx) then
    match bound with
    | O => loop_bound_exceeded
    | S bound' => idx ← next idx; skip_to_next_command_loop bound' idx
    end
  else Ok idx.

Definition skip_to_next_command (idx : TokenIndex) : result TokenIndex :=
  skip_to_next_command_loop (length idx) idx.

Definition parse_single_filepath_command (idx : TokenIndex)
    (filepath_command_token : TokenType.t) : result (option string * TokenIndex) :=
  if negb (is_type idx filepath_command_token) then Ok (None, idx)
  else
    idx ← next idx; (* Consume the command token. *)
    (* Fail without consumption if this is an end of file token. *)
    if is_type idx TokenType.eof_token then Ok (Some "", idx)
    (* Fail without consumption if this is a command token. *)
    else if idx_is_command idx then Ok (Some "", idx)
    (* Parse the filename. *)
    else if negb (is_type idx TokenType.filepath) then Ok (Some "", idx)
    else '(s, idx) ← str_next idx; Ok (Some s, idx).

Fixpoint parse_filepaths_loop (bound : nat) (idx : TokenIndex)
    (res : list string) : result (list string * TokenIndex) :=
  if is_type idx TokenType.filepath then
    match bound with
    | O => loop_bound_exceeded
    | S bound' =>
        '(s, idx) ← str_next idx;
        parse_filepaths_loop bound' idx (res ++ [s])
    end
  else Ok (res, idx).

(** [parse_filepaths<kOptional>]; the template argument only selects a
    diagnostic. *)
Definition parse_filepaths (idx : TokenIndex) : result (list string * TokenIndex) :=
  parse_filepaths_loop (length idx) idx [].

(** [return {}] of a [std::optional] is the empty optional. *)
Definition parse_filepath_command (idx : TokenIndex)
    (filepath_command_token : TokenType.t) (basedir : string)
    : result (option (list string) * TokenIndex) :=
  if negb (is_type idx filepath_command_token) then Ok (None, idx)
  else
    idx ← next idx; (* Consume the command token. *)
    if is_type idx TokenType.eof_token then Ok (None, idx)
    else if idx_is_command idx then Ok (None, idx)
    else if negb (is_type idx TokenType.filepath) then Ok (None, idx)
    else '(fps, idx) ← parse_filepaths idx; Ok (Some fps, idx).

Definition parse_optional_filepath_command (idx : TokenIndex)
    (filepath_command_token : TokenType.t)
    : result (option (list string) * TokenIndex) :=
  if negb (is_type idx filepath_command_token) then Ok (None, idx)
  else
    idx ← next idx; (* Consume the command token. *)
    '(fps, idx) ← parse_filepaths idx;
    Ok (Some fps, idx).

Definition parse_jars (idx : TokenIndex) (jar_token : TokenType.t)
    (basedir : string) : result (option (list string) * TokenIndex) :=
  if is_type idx jar_token then
    idx ← next idx; (* Consume the jar token. *)
    if is_type idx TokenType.eof_token then Ok (None, idx)
    else '(fps, idx) ← parse_filepaths idx; Ok (Some fps, idx)
  else Ok (None, idx).

Definition parse_repackageclasses (idx : TokenIndex) : result (bool * TokenIndex) :=
  if negb (is_type idx TokenType.repackageclasses) then Ok (false, idx)
  else
    (* Ignore repackageclasses. *)
    idx ← next idx;
    if is_type idx TokenType.identifier
    then idx ← next idx; Ok (true, idx)
    else Ok (true, idx).

Definition parse_target (idx : TokenIndex) : result (option string * TokenIndex) :=
  if is_type idx TokenType.target then
    idx ← next idx; (* Consume the target command token. *)
    if negb (is_type idx TokenType.target_version_token) then Ok (Some "", idx)
    else '(s, idx) ← str_next idx; Ok (Some s, idx)
  else Ok (None, idx).

Definition test_and_consume (idx : TokenIndex) (to_test : TokenType.t)
    : result (bool * TokenIndex) :=
  if negb (is_type idx to_test) then Ok (false, idx)
  else idx ← next idx; Ok (true, idx).

Fixpoint parse_filter_list_loop (bound : nat) (idx : TokenIndex)
    (filters : list string) : result (list string * TokenIndex) :=
  if is_type idx TokenType.filter_pattern then
    match bound with
    | O => loop_bound_exceeded
    | S bound' =>
        '(s, idx) ← str_next idx;
        parse_filter_list_loop bound' idx (filters ++ [s])
    end
  else Ok (filters, idx).

Definition parse_filter_list_command (idx : TokenIndex)
    (filter_command_token : TokenType.t)
    : result (option (list string) * TokenIndex) :=
  if negb (is_type idx filter_command_token) then Ok (None, idx)
  else
    idx ← next idx;
    '(filters, idx) ← parse_filter_list_loop (length idx) idx [];
    Ok (Some filters, idx).

Definition parse_optimizationpasses_command (idx : TokenIndex)
    : result (option bool * TokenIndex) :=
  if negb (is_type idx TokenType.optimizationpasses) then Ok (None, idx)
  else
    idx ← next idx;
    (* Comsume the next token. *)
    if is_type idx TokenType.eof_token then Ok (Some false, idx)
    else idx ← next idx; Ok (Some true, idx).

(** *** Keep options *)

Definition is_modifier (tok : TokenType.t) : bool :=
  TokenType.eqb tok TokenType.includedescriptorclasses_token
  || TokenType.eqb tok TokenType.allowshrinking_token
  || TokenType.eqb tok TokenType.allowoptimization_token
  || TokenType.eqb tok TokenType.allowobfuscation_token.

Definition set_includedescriptorclasses (k : KeepSpec) (b : bool) : KeepSpec :=
  {| includedescriptorclasses := b; allowshrinking := allowshrinking k;
     allowoptimization := allowoptimization k;
     allowobfuscation := allowobfuscation k; mark_classes := mark_classes k;
     mark_conditionally := mark_conditionally k; class_spec := class_spec k;
     source_filename := source_filename k; source_line := source_line k |}.
Definition set_allowshrinking (k : KeepSpec) (b : bool) : KeepSpec :=
  {| includedescriptorclasses := includedescriptorclasses k; allowshrinking := b;
     allowoptimization := allowoptimization k;
     allowobfuscation := allowobfuscation k; mark_classes := mark_classes k;
     mark_conditionally := mark_conditionally k; class_spec := class_spec k;
     source_filename := source_filename k; source_line := source_line k |}.
Definition set_allowoptimization (k : KeepSpec) (b : bool) : KeepSpec :=
  {| includedescriptorclasses := includedescriptorclasses k;
     allowshrinking := allowshrinking k; allowoptimization := b;
     allowobfuscation := allowobfuscation k; mark_classes := mark_classes k;
     mark_conditionally := mark_conditionally k; class_spec := class_spec k;
     source_filename := source_filename k; source_line := source_line k |}.
Definition set_allowobfuscation (k : KeepSpec) (b : bool) : KeepSpec :=
  {| includedescriptorclasses := includedescriptorclasses k;
     allowshrinking := allowshrinking k;
     allowoptimization := allowoptimization k; allowobfuscation := b;
     mark_classes := mark_classes k;
     mark_conditionally := mark_conditionally k; class_spec := class_spec k;
     source_filename := source_filename k; source_line := source_line k |}.
Definition set_class_spec (k : KeepSpec) (c : ClassSpecification) : KeepSpec :=
  {| includedescriptorclasses := includedescriptorclasses k;
     allowshrinking := allowshrinking k;
     allowoptimization := allowoptimization k;
     allowobfuscation := allowobfuscation k; mark_classes := mark_classes k;
     mark_conditionally := mark_conditionally k; class_spec := c;
     source_filename := source_filename k; source_line := source_line k |}.

Fixpoint parse_modifiers_loop (bound : nat) (idx : TokenIndex) (keep : KeepSpec)
    : result (bool * KeepSpec * TokenIndex) :=
  if is_type idx TokenType.comma then
    match bound with
    | O => loop_bound_exceeded
    | S bound' =>
        idx ← next idx;
        if negb (is_modifier (idx_type idx)) then Ok (false, keep, idx)
        else
          let keep :=
            match idx_type idx with
            | TokenType.includedescriptorclasses_token =>
                set_includedescriptorclasses keep true
            | TokenType.allowshrinking_token => set_allowshrinking keep true
            | TokenType.allowoptimization_token => set_allowoptimization keep true
            | TokenType.allowobfuscation_token => set_allowobfuscation keep true
            | _ => keep
            end in
          idx ← next idx;
          parse_modifiers_loop bound' idx keep
    end
  else Ok (true, keep, idx).

Definition parse_modifiers (idx : TokenIndex) (keep : KeepSpec)
    : result (bool * KeepSpec * TokenIndex) :=
  parse_modifiers_loop (length idx) idx keep.

Definition process_access_modifier (type : TokenType.t) : option DexAccessFlags :=
  match type with
  | TokenType.publicToken => Some ACC_PUBLIC
  | TokenType.privateToken => Some ACC_PRIVATE
  | TokenType.final => Some ACC_FINAL
  | TokenType.abstract => Some ACC_ABSTRACT
  | TokenType.synthetic => Some ACC_SYNTHETIC
  | TokenType.staticToken => Some ACC_STATIC
  | TokenType.volatileToken => Some ACC_VOLATILE
  | TokenType.native => Some ACC_NATIVE
  | TokenType.protectedToken => Some ACC_PROTECTED
  | TokenType.transient => Some ACC_TRANSIENT
  | _ => None
  end.

Definition is_negation_or_class_access_modifier (type : TokenType.t) : bool :=
  match type with
  | TokenType.notToken | TokenType.publicToken | TokenType.privateToken
  | TokenType.protectedToken | TokenType.final | TokenType.abstract
  | TokenType.synthetic | TokenType.native | TokenType.staticToken
  | TokenType.volatileToken | TokenType.transient => true
  | _ => false
  end.

Definition is_access_flag_set (accessFlags checkingFlag : DexAccessFlags) : bool :=
  negb (Z.eqb (Z.land accessFlags checkingFlag) 0).

Definition set_access_flag (accessFlags settingFlag : DexAccessFlags)
    : DexAccessFlags :=
  Z.lor accessFlags settingFlag.

(** The loop of [parse_access_flags].  The iterator is moved by hand here:
    [++access_it] is the tail of the token list, comments included. *)
Fixpoint parse_access_flags_loop (bound : nat) (idx : TokenIndex)
    (setFlags_ unsetFlags_ : DexAccessFlags) (negated : bool)
    : result (bool * DexAccessFlags * DexAccessFlags * TokenIndex) :=
  if is_negation_or_class_access_modifier (idx_type idx) then
    match bound with
    | O => loop_bound_exceeded
    | S bound' =>
        let '(negated, access_it) :=
          if is_type idx TokenType.notToken then (true, tl idx) else (negated, idx) in
        match process_access_modifier (idx_type access_it) with
        | Some access_flag =>
            let idx := tl access_it in
            if negated then
              if is_access_flag_set setFlags_ access_flag
              then Ok (false, setFlags_, unsetFlags_, idx)
              else parse_access_flags_loop bound' idx setFlags_
                     (set_access_flag unsetFlags_ access_flag) false
            else
              if is_access_flag_set unsetFlags_ access_flag
              then Ok (false, setFlags_, unsetFlags_, idx)
              else parse_access_flags_loop bound' idx
                     (set_access_flag setFlags_ access_flag) unsetFlags_ false
        | None => Ok (true, setFlags_, unsetFlags_, idx)
        end
    end
  else Ok (true, setFlags_, unsetFlags_, idx).

Definition parse_access_flags (idx : TokenIndex)
    (setFlags_ unsetFlags_ : DexAccessFlags)
    : result (bool * DexAccessFlags * DexAccessFlags * TokenIndex) :=
  parse_access_flags_loop (length idx) idx setFlags_ unsetFlags_ false.

(** Parse [!](class|interface|enum|@interface). *)
Definition parse_class_token (idx : TokenIndex)
    (setFlags_ unsetFlags_ : DexAccessFlags)
    : result (bool * DexAccessFlags * DexAccessFlags * TokenIndex) :=
  '(negated, idx) ←
    (if is_type idx TokenType.notToken
     then idx ← next idx; Ok (true, idx)
     else Ok (false, idx));
  let set_flag flag :=
    if (negated : bool)
    then (setFlags_, set_access_flag unsetFlags_ flag)
    else (set_access_flag setFlags_ flag, unsetFlags_) in
  (* Make sure the next keyword is interface, class, enum. *)
  match idx_type idx with
  | TokenType.interface =>
      let '(s, u) := set_flag ACC_INTERFACE in idx ← next idx; Ok (true, s, u, idx)
  | TokenType.enumToken =>
      let '(s, u) := set_flag ACC_ENUM in idx ← next idx; Ok (true, s, u, idx)
  | TokenType.annotation =>
      let '(s, u) := set_flag ACC_ANNOTATION in idx ← next idx; Ok (true, s, u, idx)
  | TokenType.classToken =>
      idx ← next idx; Ok (true, setFlags_, unsetFlags_, idx)
  | _ => Ok (false, setFlags_, unsetFlags_, idx)
  end.

(** Consume an expected token, indicating if that TokenType was found. *)
Definition consume_token (idx : TokenIndex) (tok : TokenType.t)
    : result (bool * TokenIndex) :=
  if negb (is_type idx tok) then Ok (false, idx)
  else idx ← next idx; Ok (true, idx).

(** Consume an expected semicolon, complaining if one was not found. *)
Definition gobble_semicolon (idx : TokenIndex) : result (bool * TokenIndex) :=
  '(ok, idx) ← consume_token idx TokenType.semiColon;
  if negb ok then Ok (false, idx) else Ok (true, idx).

Fixpoint skip_to_semicolon_loop (bound : nat) (idx : TokenIndex)
    : result TokenIndex :=
  if negb (is_type idx TokenType.semiColon)
     && negb (is_type idx TokenType.eof_token) then
    match bound with
    | O => loop_bound_exceeded
    | S bound' => idx ← next idx; skip_to_semicolon_loop bound' idx
    end
  else Ok idx.

Definition skip_to_semicolon (idx : TokenIndex) : result TokenIndex :=
  idx ← skip_to_semicolon_loop (length idx) idx;
  if is_type idx TokenType.semiColon then next idx else Ok idx.

Definition push_field (c : ClassSpecification) (m : MemberSpecification)
    : ClassSpecification :=
  {| classNames := classNames c; annotationType := annotationType c;
     extendsClassName := extendsClassName c;
     extendsAnnotationType := extendsAnnotationType c;
     setAccessFlags := setAccessFlags c; unsetAccessFlags := unsetAccessFlags c;
     fieldSpecifications := fieldSpecifications c ++ [m];
     methodSpecifications := methodSpecifications c |}.

Definition push_method (c : ClassSpecification) (m : MemberSpecification)
    : ClassSpecification :=
  {| classNames := classNames c; annotationType := annotationType c;
     extendsClassName := extendsClassName c;
     extendsAnnotationType := extendsAnnotationType c;
     setAccessFlags := setAccessFlags c; unsetAccessFlags := unsetAccessFlags c;
     fieldSpecifications := fieldSpecifications c;
     methodSpecifications := methodSpecifications c ++ [m] |}.

(** The external services of the parser: the wildcard translation of
    ProguardRegex and the sort of the C++ library. *)
Class ParserServices := {
  convert_wildcard_type : string -> string;
  std_sort : forall A : Type, (A -> A -> bool) -> list A -> list A;
}.

Section WithServices.
Context `{ParserServices}.

Definition parse_annotation_type (idx : TokenIndex) : result (string * TokenIndex) :=
  if negb (is_type idx TokenType.annotation_application) then Ok ("", idx)
  else
    idx ← next idx;
    if negb (is_type idx TokenType.identifier) then Ok ("", idx)
    else
      let typ := idx_data idx in
      idx ← next idx;
      Ok (convert_wildcard_type typ, idx).

(** The argument list of a method specification, behind the opening
    bracket; [None] when the member specification is given up. *)
Fixpoint parse_args_loop (bound : nat) (idx : TokenIndex) (arg : string)
    : result (option string * TokenIndex) :=
  (* If there is a ")" next we are done. *)
  if is_type idx TokenType.closeBracket then
    '(_, idx) ← consume_token idx TokenType.closeBracket;
    Ok (Some arg, idx)
  else if negb (is_type idx TokenType.identifier) then Ok (None, idx)
  else
    match bound with
    | O => loop_bound_exceeded
    | S bound' =>
        let typ := idx_data idx in
        '(_, idx) ← consume_token idx TokenType.identifier;
        let arg := arg +:+ convert_wildcard_type typ in
        (* The next TokenType better be a comma or a closing bracket. *)
        if negb (is_type idx TokenType.comma)
           && negb (is_type idx TokenType.closeBracket)
        then Ok (None, idx)
        else if is_type idx TokenType.comma then
          '(_, idx) ← consume_token idx TokenType.comma;
          if negb (is_type idx TokenType.identifier) then Ok (None, idx)
          else parse_args_loop bound' idx arg
        else parse_args_loop bound' idx arg
    end.

Definition with_name_descriptor (m : MemberSpecification) (n d : string)
    : MemberSpecification :=
  {| requiredSetAccessFlags := requiredSetAccessFlags m;
     requiredUnsetAccessFlags := requiredUnsetAccessFlags m;
     member_annotationType := member_annotationType m;
     name := n; descriptor := d; return_value := return_value m |}.

Definition with_return_value (m : MemberSpecification) (v : Z)
    : MemberSpecification :=
  {| requiredSetAccessFlags := requiredSetAccessFlags m;
     requiredUnsetAccessFlags := requiredUnsetAccessFlags m;
     member_annotationType := member_annotationType m;
     name := name m; descriptor := descriptor m;
     return_value := {| value_type := ValueBool; value_v := v |} |}.

Definition starts_with_open_bracket (s : string) : bool :=
  match s with
  | String c _ => Ascii.eqb c "("%char
  | EmptyString => false
  end.

(** The part of [parse_member_specification] behind the name: the optional
    argument list, the optional return value and the semicolon. *)
Definition parse_member_tail (idx : TokenIndex) (class_spec : ClassSpecification)
    (allow_return : bool) (member_specification : MemberSpecification)
    : result (bool * ClassSpecification * TokenIndex) :=
  (* Check to see if this is a method specification. *)
  '(member, idx) ←
    (if is_type idx TokenType.openBracket then
       '(_, idx) ← consume_token idx TokenType.openBracket;
       '(arg, idx) ← parse_args_loop (length idx) idx "(";
       match arg with
       | None => Ok (None, idx)
       | Some arg =>
           let arg := arg +:+ ")" +:+ descriptor member_specification in
           Ok (Some (with_name_descriptor member_specification
                       (name member_specification) arg), idx)
       end
     else Ok (Some member_specification, idx));
  match member with
  | None => Ok (false, class_spec, idx)
  | Some member_specification =>
      (* if with value, look for return *)
      '(member_specification, idx) ←
        (if allow_return && is_type idx TokenType.returns then
           idx ← next idx;
           let rident := idx_data idx in
           '(member_specification, idx) ←
             (if String.eqb rident "true"
              then idx ← next idx; Ok (with_return_value member_specification 1, idx)
              else Ok (member_specification, idx));
           if String.eqb rident "false"
           then idx ← next idx; Ok (with_return_value member_specification 0, idx)
           else Ok (member_specification, idx)
         else Ok (member_specification, idx));
      (* Make sure member specification ends with a semicolon. *)
      '(ok, idx) ← gobble_semicolon idx;
      if negb ok then Ok (false, class_spec, idx)
      else if starts_with_open_bracket (descriptor member_specification)
      then Ok (true, push_method class_spec member_specification, idx)
      else Ok (true, push_field class_spec member_specification, idx)
  end.

Definition parse_member_specification (idx : TokenIndex)
    (class_spec : ClassSpecification) (allow_return : bool)
    : result (bool * ClassSpecification * TokenIndex) :=
  '(annotation, idx) ← parse_annotation_type idx;
  '(ok, setFlags, unsetFlags, idx) ← parse_access_flags idx 0 0;
  let member_specification :=
    {| requiredSetAccessFlags := setFlags; requiredUnsetAccessFlags := unsetFlags;
       member_annotationType := annotation; name := ""; descriptor := "";
       return_value := {| value_type := ValueUnknownType; value_v := 0 |} |} in
  if negb ok then
    (* There was a problem parsing the access flags. *)
    idx ← skip_to_semicolon idx; Ok (false, class_spec, idx)
  (* The next TokenType better be an identifier. *)
  else if negb (is_type idx TokenType.identifier) then
    idx ← skip_to_semicolon idx; Ok (false, class_spec, idx)
  else
    let ident := idx_data idx in
    (* Check for "*". *)
    if String.eqb ident "*" then
      idx ← next idx;
      '(ok, idx) ← gobble_semicolon idx;
      if negb ok then Ok (false, class_spec, idx)
      else Ok (true,
               push_field (push_method class_spec member_specification)
                 member_specification, idx)
    (* Check for <methods> *)
    else if String.eqb ident "<methods>" then
      idx ← next idx;
      '(ok, idx) ← gobble_semicolon idx;
      if negb ok then Ok (false, class_spec, idx)
      else Ok (true, push_method class_spec member_specification, idx)
    (* Check for <fields> *)
    else if String.eqb ident "<fields>" then
      idx ← next idx;
      '(ok, idx) ← gobble_semicolon idx;
      if negb ok then Ok (false, class_spec, idx)
      else Ok (true, push_field class_spec member_specification, idx)
    (* Check for <init> *)
    else if String.eqb ident "<init>" then
      let member_specification :=
        {| requiredSetAccessFlags := set_access_flag setFlags ACC_CONSTRUCTOR;
           requiredUnsetAccessFlags := unsetFlags;
           member_annotationType := annotation;
           name := "<init>"; descriptor := "V";
           return_value := return_value member_specification |} in
      idx ← next idx;
      parse_member_tail idx class_spec allow_return member_specification
    (* This TokenType is the type for the member specification. *)
    else if negb (is_type idx TokenType.identifier) then
      idx ← skip_to_semicolon idx; Ok (false, class_spec, idx)
    else
      let typ := idx_data idx in
      idx ← next idx;
      let member_specification :=
        with_name_descriptor member_specification "" (convert_wildcard_type typ) in
      if negb (is_type idx TokenType.identifier) then
        idx ← skip_to_semicolon idx; Ok (false, class_spec, idx)
      else
        '(n, idx) ← str_next idx;
        parse_member_tail idx class_spec allow_return
          (with_name_descriptor member_specification n
             (descriptor member_specification)).

Fixpoint parse_member_specifications_loop (bound : nat) (idx : TokenIndex)
    (class_spec : ClassSpecification) (allow_return ok : bool)
    : result (bool * ClassSpecification * TokenIndex) :=
  if negb (is_type idx TokenType.closeCurlyBracket)
     && negb (is_type idx TokenType.eof_token) then
    match bound with
    | O => loop_bound_exceeded
    | S bound' =>
        '(member_ok, class_spec, idx) ←
          parse_member_specification idx class_spec allow_return;
        if negb member_ok then
          (* We failed to parse a member specification so skip to the next
             semicolon. *)
          idx ← skip_to_semicolon idx;
          parse_member_specifications_loop bound' idx class_spec allow_return false
        else parse_member_specifications_loop bound' idx class_spec allow_return ok
    end
  else Ok (ok, class_spec, idx).

Definition parse_member_specifications (idx : TokenIndex)
    (class_spec : ClassSpecification) (allow_return : bool)
    : result (bool * ClassSpecification * TokenIndex) :=
  if is_type idx TokenType.openCurlyBracket then
    idx ← next idx;
    '(ok, class_spec, idx) ←
      parse_member_specifications_loop (length idx) idx class_spec allow_return true;
    if is_type idx TokenType.closeCurlyBracket
    then idx ← next idx; Ok (ok, class_spec, idx)
    else Ok (ok, class_spec, idx)
  else Ok (true, class_spec, idx).

Definition member_comparison (m1 m2 : MemberSpecification) : bool :=
  String.ltb (name m1) (name m2).

Definition parse_class_name (idx : TokenIndex) : result (option string * TokenIndex) :=
  if negb (is_type idx TokenType.identifier) then Ok (None, idx)
  else '(s, idx) ← str_next idx; Ok (Some s, idx).

(** The lambda [maybe_negated] of [parse_class_names]. *)
Definition maybe_negated (idx : TokenIndex) (negated : bool)
    : result (bool * TokenIndex) :=
  if is_type idx TokenType.notToken
  then idx ← next idx; Ok (true, idx)
  else Ok (negated, idx).

Fixpoint parse_class_names_loop (bound : nat) (idx : TokenIndex)
    (class_names : list (string * bool))
    : result (bool * list (string * bool) * TokenIndex) :=
  (* Maybe consume comma delimited list *)
  if is_type idx TokenType.comma then
    match bound with
    | O => loop_bound_exceeded
    | S bound' =>
        (* Consume comma *)
        idx ← next idx;
        '(negated, idx) ← maybe_negated idx false;
        '(cn, idx) ← parse_class_name idx;
        match cn with
        | Some cn =>
            parse_class_names_loop bound' idx (class_names ++ [(cn, negated)])
        | None => Ok (false, class_names, idx)
        end
    end
  else Ok (true, class_names, idx).

Definition parse_class_names (idx : TokenIndex) (class_names : list (string * bool))
    : result (bool * list (string * bool) * TokenIndex) :=
  '(negated, idx) ← maybe_negated idx false;
  '(cn, idx) ← parse_class_name idx;
  match cn with
  | Some cn =>
      parse_class_names_loop (length idx) idx (class_names ++ [(cn, negated)])
  | None => Ok (false, class_names, idx)
  end.

Definition parse_class_specification (idx : TokenIndex) (allow_return : bool)
    : result (option ClassSpecification * TokenIndex) :=
  '(annotation, idx) ← parse_annotation_type idx;
  '(ok, setFlags, unsetFlags, idx) ← parse_access_flags idx 0 0;
  if negb ok then Ok (None, idx)
  else
    '(ok, setFlags, unsetFlags, idx) ← parse_class_token idx setFlags unsetFlags;
    if negb ok then Ok (None, idx)
    else
      (* Parse the class name(s). *)
      '(ok, class_names, idx) ← parse_class_names idx [];
      if negb ok then Ok (None, idx)
      else
        (* Parse extends/implements if present, treating implements like
           extends. *)
        '(ok, extends_annotation, extends_class, idx) ←
          (if is_type idx TokenType.extends || is_type idx TokenType.implements
           then
             idx ← next idx;
             '(extends_annotation, idx) ← parse_annotation_type idx;
             if negb (is_type idx TokenType.identifier)
             then Ok (false, extends_annotation, "", idx)
             else '(s, idx) ← str_next idx; Ok (true, extends_annotation, s, idx)
           else Ok (true, "", "", idx));
        let class_spec :=
          {| classNames := class_names; annotationType := annotation;
             extendsClassName := extends_class;
             extendsAnnotationType := extends_annotation;
             setAccessFlags := setFlags; unsetAccessFlags := unsetFlags;
             fieldSpecifications := []; methodSpecifications := [] |} in
        (* Parse the member specifications, if there are any *)
        '(member_ok, class_spec, idx) ←
          parse_member_specifications idx class_spec allow_return;
        if negb ok || negb member_ok then Ok (None, idx)
        else
          Ok (Some
                {| classNames := classNames class_spec;
                   annotationType := annotationType class_spec;
                   extendsClassName := extendsClassName class_spec;
                   extendsAnnotationType := extendsAnnotationType class_spec;
                   setAccessFlags := setAccessFlags class_spec;
                   unsetAccessFlags := unsetAccessFlags class_spec;
                   fieldSpecifications :=
                     std_sort _ member_comparison (fieldSpecifications class_spec);
                   methodSpecifications :=
                     std_sort _ member_comparison (methodSpecifications class_spec) |},
              idx).

(** [KeepSpecSet], the insertion-ordered set of ProguardConfiguration.h, seen
    through [emplace]. *)
Class KeepSpecSet (Rules : Type) := {
  emplace : Rules -> KeepSpec -> Rules;
}.

Section WithKeepSpecSet.
Context {Rules : Type} `{KeepSpecSet Rules}.

Definition parse_keep (idx : TokenIndex) (keep_kind : TokenType.t) (spec : Rules)
    (mark_classes mark_conditionally allowshrinking allow_return : bool)
    (filename : string) (line : Z) : result (option bool * Rules * TokenIndex) :=
  if is_type idx keep_kind then
    idx ← next idx; (* Consume the keep token *)
    let keep :=
      {| includedescriptorclasses := includedescriptorclasses default_KeepSpec;
         allowshrinking := allowshrinking;
         allowoptimization := allowoptimization default_KeepSpec;
         allowobfuscation := allowobfuscation default_KeepSpec;
         mark_classes := mark_classes;
         mark_conditionally := mark_conditionally;
         class_spec := class_spec default_KeepSpec;
         source_filename := filename;
         source_line := line |} in
    '(ok, keep, idx) ← parse_modifiers idx keep;
    if negb ok then
      idx ← skip_to_next_command idx;
      Ok (Some false, spec, idx)
    else
      '(class_spec, idx) ← parse_class_specification idx allow_return;
      let keep :=
        match class_spec with
        | Some class_spec => set_class_spec keep class_spec
        | None => keep
        end in
      Ok (Some (bool_decide (is_Some class_spec)), emplace spec keep, idx)
  else Ok (None, spec, idx).

Record ProguardConfiguration := {
  ok : bool;
  includes : list string;
  basedirectory : string;
  injars : list string;
  outjars : list string;
  libraryjars : list string;
  keepdirectories : list string;
  target_version : string;
  printseeds : list string;
  shrink : bool;
  printusage : list string;
  optimize : bool;
  optimization_filters : list string;
  allowaccessmodification : bool;
  dontobfuscate : bool;
  printmapping : list string;
  keepattributes : list string;
  dontusemixedcaseclassnames : bool;
  keeppackagenames : list string;
  dontpreverify : bool;
  printconfiguration : list string;
  dontwarn : list string;
  verbose : bool;
  keep_rules : Rules;
  assumenosideeffects_rules : Rules;
  assumevalues_rules : Rules;
  whyareyoukeeping_rules : Rules;
}.

(** Assignments to one member of the configuration. *)
Definition set_includes (c : ProguardConfiguration) (v : list string) : ProguardConfiguration :=
  {| ok := ok c;
     includes := v;
     basedirectory := basedirectory c;
     injars := injars c;
     outjars := outjars c;
     libraryjars := libraryjars c;
     keepdirectories := keepdirectories c;
     target_version := target_version c;
     printseeds := printseeds c;
     shrink := shrink c;
     printusage := printusage c;
     optimize := optimize c;
     optimization_filters := optimization_filters c;
     allowaccessmodification := allowaccessmodification c;
     dontobfuscate := dontobfuscate c;
     printmapping := printmapping c;
     keepattributes := keepattributes c;
     dontusemixedcaseclassnames := dontusemixedcaseclassnames c;
     keeppackagenames := keeppackagenames c;
     dontpreverify := dontpreverify c;
     printconfiguration := printconfiguration c;
     dontwarn := dontwarn c;
     verbose := verbose c;
     keep_rules := keep_rules c;
     assumenosideeffects_rules := assumenosideeffects_rules c;
     assumevalues_rules := assumevalues_rules c;
     whyareyoukeeping_rules := whyareyoukeeping_rules c |}.
Definition set_basedirectory (c : ProguardConfiguration) (v : string) : ProguardConfiguration :=
  {| ok := ok c;
     includes := includes c;
     basedirectory := v;
     injars := injars c;
     outjars := outjars c;
     libraryjars := libraryjars c;
     keepdirectories := keepdirectories c;
     target_version := target_version c;
     printseeds := printseeds c;
     shrink := shrink c;
     printusage := printusage c;
     optimize := optimize c;
     optimization_filters := optimization_filters c;
     allowaccessmodification := allowaccessmodification c;
     dontobfuscate := dontobfuscate c;
     printmapping := printmapping c;
     keepattributes := keepattributes c;
     dontusemixedcaseclassnames := dontusemixedcaseclassnames c;
     keeppackagenames := keeppackagenames c;
     dontpreverify := dontpreverify c;
     printconfiguration := printconfiguration c;
     dontwarn := dontwarn c;
     verbose := verbose c;
     keep_rules := keep_rules c;
     assumenosideeffects_rules := assumenosideeffects_rules c;
     assumevalues_rules := assumevalues_rules c;
     whyareyoukeeping_rules := whyareyoukeeping_rules c |}.
Definition set_injars (c : ProguardConfiguration) (v : list string) : ProguardConfiguration :=
  {| ok := ok c;
     includes := includes c;
     basedirectory := basedirectory c;
     injars := v;
     outjars := outjars c;
     libraryjars := libraryjars c;
     keepdirectories := keepdirectories c;
     target_version := target_version c;
     printseeds := printseeds c;
     shrink := shrink c;
     printusage := printusage c;
     optimize := optimize c;
     optimization_filters := optimization_filters c;
     allowaccessmodification := allowaccessmodification c;
     dontobfuscate := dontobfuscate c;
     printmapping := printmapping c;
     keepattributes := keepattributes c;
     dontusemixedcaseclassnames := dontusemixedcaseclassnames c;
     keeppackagenames := keeppackagenames c;
     dontpreverify := dontpreverify c;
     printconfiguration := printconfiguration c;
     dontwarn := dontwarn c;
     verbose := verbose c;
     keep_rules := keep_rules c;
     assumenosideeffects_rules := assumenosideeffects_rules c;
     assumevalues_rules := assumevalues_rules c;
     whyareyoukeeping_rules := whyareyoukeeping_rules c |}.
Definition set_outjars (c : ProguardConfiguration) (v : list string) : ProguardConfiguration :=
  {| ok := ok c;
     includes := includes c;
     basedirectory := basedirectory c;
     injars := injars c;
     outjars := v;
     libraryjars := libraryjars c;
     keepdirectories := keepdirectories c;
     target_version := target_version c;
     printseeds := printseeds c;
     shrink := shrink c;
     printusage := printusage c;
     optimize := optimize c;
     optimization_filters := optimization_filters c;
     allowaccessmodification := allowaccessmodification c;
     dontobfuscate := dontobfuscate c;
     printmapping := printmapping c;
     keepattributes := keepattributes c;
     dontusemixedcaseclassnames := dontusemixedcaseclassnames c;
     keeppackagenames := keeppackagenames c;
     dontpreverify := dontpreverify c;
     printconfiguration := printconfiguration c;
     dontwarn := dontwarn c;
     verbose := verbose c;
     keep_rules := keep_rules c;
     assumenosideeffects_rules := assumenosideeffects_rules c;
     assumevalues_rules := assumevalues_rules c;
     whyareyoukeeping_rules := whyareyoukeeping_rules c |}.
Definition set_libraryjars (c : ProguardConfiguration) (v : list string) : ProguardConfiguration :=
  {| ok := ok c;
     includes := includes c;
     basedirectory := basedirectory c;
     injars := injars c;
     outjars := outjars c;
     libraryjars := v;
     keepdirectories := keepdirectories c;
     target_version := target_version c;
     printseeds := printseeds c;
     shrink := shrink c;
     printusage := printusage c;
     optimize := optimize c;
     optimization_filters := optimization_filters c;
     allowaccessmodification := allowaccessmodification c;
     dontobfuscate := dontobfuscate c;
     printmapping := printmapping c;
     keepattributes := keepattributes c;
     dontusemixedcaseclassnames := dontusemixedcaseclassnames c;
     keeppackagenames := keeppackagenames c;
     dontpreverify := dontpreverify c;
     printconfiguration := printconfiguration c;
     dontwarn := dontwarn c;
     verbose := verbose c;
     keep_rules := keep_rules c;
     assumenosideeffects_rules := assumenosideeffects_rules c;
     assumevalues_rules := assumevalues_rules c;
     whyareyoukeeping_rules := whyareyoukeeping_rules c |}.
Definition set_keepdirectories (c : ProguardConfiguration) (v : list string) : ProguardConfiguration :=
  {| ok := ok c;
     includes := includes c;
     basedirectory := basedirectory c;
     injars := injars c;
     outjars := outjars c;
     libraryjars := libraryjars c;
     keepdirectories := v;
     target_version := target_version c;
     printseeds := printseeds c;
     shrink := shrink c;
     printusage := printusage c;
     optimize := optimize c;
     optimization_filters := optimization_filters c;
     allowaccessmodification := allowaccessmodification c;
     dontobfuscate := dontobfuscate c;
     printmapping := printmapping c;
     keepattributes := keepattributes c;
     dontusemixedcaseclassnames := dontusemixedcaseclassnames c;
     keeppackagenames := keeppackagenames c;
     dontpreverify := dontpreverify c;
     printconfiguration := printconfiguration c;
     dontwarn := dontwarn c;
     verbose := verbose c;
     keep_rules := keep_rules c;
     assumenosideeffects_rules := assumenosideeffects_rules c;
     assumevalues_rules := assumevalues_rules c;
     whyareyoukeeping_rules := whyareyoukeeping_rules c |}.
Definition set_target_version (c : ProguardConfiguration) (v : string) : ProguardConfiguration :=
  {| ok := ok c;
     includes := includes c;
     basedirectory := basedirectory c;
     injars := injars c;
     outjars := outjars c;
     libraryjars := libraryjars c;
     keepdirectories := keepdirectories c;
     target_version := v;
     printseeds := printseeds c;
     shrink := shrink c;
     printusage := printusage c;
     optimize := optimize c;
     optimization_filters := optimization_filters c;
     allowaccessmodification := allowaccessmodification c;
     dontobfuscate := dontobfuscate c;
     printmapping := printmapping c;
     keepattributes := keepattributes c;
     dontusemixedcaseclassnames := dontusemixedcaseclassnames c;
     keeppackagenames := keeppackagenames c;
     dontpreverify := dontpreverify c;
     printconfiguration := printconfiguration c;
     dontwarn := dontwarn c;
     verbose := verbose c;
     keep_rules := keep_rules c;
     assumenosideeffects_rules := assumenosideeffects_rules c;
     assumevalues_rules := assumevalues_rules c;
     whyareyoukeeping_rules := whyareyoukeeping_rules c |}.
Definition set_printseeds (c : ProguardConfiguration) (v : list string) : ProguardConfiguration :=
  {| ok := ok c;
     includes := includes c;
     basedirectory := basedirectory c;
     injars := injars c;
     outjars := outjars c;
     libraryjars := libraryjars c;
     keepdirectories := keepdirectories c;
     target_version := target_version c;
     printseeds := v;
     shrink := shrink c;
     printusage := printusage c;
     optimize := optimize c;
     optimization_filters := optimization_filters c;
     allowaccessmodification := allowaccessmodification c;
     dontobfuscate := dontobfuscate c;
     printmapping := printmapping c;
     keepattributes := keepattributes c;
     dontusemixedcaseclassnames := dontusemixedcaseclassnames c;
     keeppackagenames := keeppackagenames c;
     dontpreverify := dontpreverify c;
     printconfiguration := printconfiguration c;
     dontwarn := dontwarn c;
     verbose := verbose c;
     keep_rules := keep_rules c;
     assumenosideeffects_rules := assumenosideeffects_rules c;
     assumevalues_rules := assumevalues_rules c;
     whyareyoukeeping_rules := whyareyoukeeping_rules c |}.
Definition set_shrink (c : ProguardConfiguration) (v : bool) : ProguardConfiguration :=
  {| ok := ok c;
     includes := includes c;
     basedirectory := basedirectory c;
     injars := injars c;
     outjars := outjars c;
     libraryjars := libraryjars c;
     keepdirectories := keepdirectories c;
     target_version := target_version c;
     printseeds := printseeds c;
     shrink := v;
     printusage := printusage c;
     optimize := optimize c;
     optimization_filters := optimization_filters c;
     allowaccessmodification := allowaccessmodification c;
     dontobfuscate := dontobfuscate c;
     printmapping := printmapping c;
     keepattributes := keepattributes c;
     dontusemixedcaseclassnames := dontusemixedcaseclassnames c;
     keeppackagenames := keeppackagenames c;
     dontpreverify := dontpreverify c;
     printconfiguration := printconfiguration c;
     dontwarn := dontwarn c;
     verbose := verbose c;
     keep_rules := keep_rules c;
     assumenosideeffects_rules := assumenosideeffects_rules c;
     assumevalues_rules := assumevalues_rules c;
     whyareyoukeeping_rules := whyareyoukeeping_rules c |}.
Definition set_printusage (c : ProguardConfiguration) (v : list string) : ProguardConfiguration :=
  {| ok := ok c;
     includes := includes c;
     basedirectory := basedirectory c;
     injars := injars c;
     outjars := outjars c;
     libraryjars := libraryjars c;
     keepdirectories := keepdirectories c;
     target_version := target_version c;
     printseeds := printseeds c;
     shrink := shrink c;
     printusage := v;
     optimize := optimize c;
     optimization_filters := optimization_filters c;
     allowaccessmodification := allowaccessmodification c;
     dontobfuscate := dontobfuscate c;
     printmapping := printmapping c;
     keepattributes := keepattributes c;
     dontusemixedcaseclassnames := dontusemixedcaseclassnames c;
     keeppackagenames := keeppackagenames c;
     dontpreverify := dontpreverify c;
     printconfiguration := printconfiguration c;
     dontwarn := dontwarn c;
     verbose := verbose c;
     keep_rules := keep_rules c;
     assumenosideeffects_rules := assumenosideeffects_rules c;
     assumevalues_rules := assumevalues_rules c;
     whyareyoukeeping_rules := whyareyoukeeping_rules c |}.
Definition set_optimize (c : ProguardConfiguration) (v : bool) : ProguardConfiguration :=
  {| ok := ok c;
     includes := includes c;
     basedirectory := basedirectory c;
     injars := injars c;
     outjars := outjars c;
     libraryjars := libraryjars c;
     keepdirectories := keepdirectories c;
     target_version := target_version c;
     printseeds := printseeds c;
     shrink := shrink c;
     printusage := printusage c;
     optimize := v;
     optimization_filters := optimization_filters c;
     allowaccessmodification := allowaccessmodification c;
     dontobfuscate := dontobfuscate c;
     printmapping := printmapping c;
     keepattributes := keepattributes c;
     dontusemixedcaseclassnames := dontusemixedcaseclassnames c;
     keeppackagenames := keeppackagenames c;
     dontpreverify := dontpreverify c;
     printconfiguration := printconfiguration c;
     dontwarn := dontwarn c;
     verbose := verbose c;
     keep_rules := keep_rules c;
     assumenosideeffects_rules := assumenosideeffects_rules c;
     assumevalues_rules := assumevalues_rules c;
     whyareyoukeeping_rules := whyareyoukeeping_rules c |}.
Definition set_optimization_filters (c : ProguardConfiguration) (v : list string) : ProguardConfiguration :=
  {| ok := ok c;
     includes := includes c;
     basedirectory := basedirectory c;
     injars := injars c;
     outjars := outjars c;
     libraryjars := libraryjars c;
     keepdirectories := keepdirectories c;
     target_version := target_version c;
     printseeds := printseeds c;
     shrink := shrink c;
     printusage := printusage c;
     optimize := optimize c;
     optimization_filters := v;
     allowaccessmodification := allowaccessmodification c;
     dontobfuscate := dontobfuscate c;
     printmapping := printmapping c;
     keepattributes := keepattributes c;
     dontusemixedcaseclassnames := dontusemixedcaseclassnames c;
     keeppackagenames := keeppackagenames c;
     dontpreverify := dontpreverify c;
     printconfiguration := printconfiguration c;
     dontwarn := dontwarn c;
     verbose := verbose c;
     keep_rules := keep_rules c;
     assumenosideeffects_rules := assumenosideeffects_rules c;
     assumevalues_rules := assumevalues_rules c;
     whyareyoukeeping_rules := whyareyoukeeping_rules c |}.
Definition set_allowaccessmodification (c : ProguardConfiguration) (v : bool) : ProguardConfiguration :=
  {| ok := ok c;
     includes := includes c;
     basedirectory := basedirectory c;
     injars := injars c;
     outjars := outjars c;
     libraryjars := libraryjars c;
     keepdirectories := keepdirectories c;
     target_version := target_version c;
     printseeds := printseeds c;
     shrink := shrink c;
     printusage := printusage c;
     optimize := optimize c;
     optimization_filters := optimization_filters c;
     allowaccessmodification := v;
     dontobfuscate := dontobfuscate c;
     printmapping := printmapping c;
     keepattributes := keepattributes c;
     dontusemixedcaseclassnames := dontusemixedcaseclassnames c;
     keeppackagenames := keeppackagenames c;
     dontpreverify := dontpreverify c;
     printconfiguration := printconfiguration c;
     dontwarn := dontwarn c;
     verbose := verbose c;
     keep_rules := keep_rules c;
     assumenosideeffects_rules := assumenosideeffects_rules c;
     assumevalues_rules := assumevalues_rules c;
     whyareyoukeeping_rules := whyareyoukeeping_rules c |}.
Definition set_dontobfuscate (c : ProguardConfiguration) (v : bool) : ProguardConfiguration :=
  {| ok := ok c;
     includes := includes c;
     basedirectory := basedirectory c;
     injars := injars c;
     outjars := outjars c;
     libraryjars := libraryjars c;
     keepdirectories := keepdirectories c;
     target_version := target_version c;
     printseeds := printseeds c;
     shrink := shrink c;
     printusage := printusage c;
     optimize := optimize c;
     optimization_filters := optimization_filters c;
     allowaccessmodification := allowaccessmodification c;
     dontobfuscate := v;
     printmapping := printmapping c;
     keepattributes := keepattributes c;
     dontusemixedcaseclassnames := dontusemixedcaseclassnames c;
     keeppackagenames := keeppackagenames c;
     dontpreverify := dontpreverify c;
     printconfiguration := printconfiguration c;
     dontwarn := dontwarn c;
     verbose := verbose c;
     keep_rules := keep_rules c;
     assumenosideeffects_rules := assumenosideeffects_rules c;
     assumevalues_rules := assumevalues_rules c;
     whyareyoukeeping_rules := whyareyoukeeping_rules c |}.
Definition set_printmapping (c : ProguardConfiguration) (v : list string) : ProguardConfiguration :=
  {| ok := ok c;
     includes := includes c;
     basedirectory := basedirectory c;
     injars := injars c;
     outjars := outjars c;
     libraryjars := libraryjars c;
     keepdirectories := keepdirectories c;
     target_version := target_version c;
     printseeds := printseeds c;
     shrink := shrink c;
     printusage := printusage c;
     optimize := optimize c;
     optimization_filters := optimization_filters c;
     allowaccessmodification := allowaccessmodification c;
     dontobfuscate := dontobfuscate c;
     printmapping := v;
     keepattributes := keepattributes c;
     dontusemixedcaseclassnames := dontusemixedcaseclassnames c;
     keeppackagenames := keeppackagenames c;
     dontpreverify := dontpreverify c;
     printconfiguration := printconfiguration c;
     dontwarn := dontwarn c;
     verbose := verbose c;
     keep_rules := keep_rules c;
     assumenosideeffects_rules := assumenosideeffects_rules c;
     assumevalues_rules := assumevalues_rules c;
     whyareyoukeeping_rules := whyareyoukeeping_rules c |}.
Definition set_keepattributes (c : ProguardConfiguration) (v : list string) : ProguardConfiguration :=
  {| ok := ok c;
     includes := includes c;
     basedirectory := basedirectory c;
     injars := injars c;
     outjars := outjars c;
     libraryjars := libraryjars c;
     keepdirectories := keepdirectories c;
     target_version := target_version c;
     printseeds := printseeds c;
     shrink := shrink c;
     printusage := printusage c;
     optimize := optimize c;
     optimization_filters := optimization_filters c;
     allowaccessmodification := allowaccessmodification c;
     dontobfuscate := dontobfuscate c;
     printmapping := printmapping c;
     keepattributes := v;
     dontusemixedcaseclassnames := dontusemixedcaseclassnames c;
     keeppackagenames := keeppackagenames c;
     dontpreverify := dontpreverify c;
     printconfiguration := printconfiguration c;
     dontwarn := dontwarn c;
     verbose := verbose c;
     keep_rules := keep_rules c;
     assumenosideeffects_rules := assumenosideeffects_rules c;
     assumevalues_rules := assumevalues_rules c;
     whyareyoukeeping_rules := whyareyoukeeping_rules c |}.
Definition set_dontusemixedcaseclassnames (c : ProguardConfiguration) (v : bool) : ProguardConfiguration :=
  {| ok := ok c;
     includes := includes c;
     basedirectory := basedirectory c;
     injars := injars c;
     outjars := outjars c;
     libraryjars := libraryjars c;
     keepdirectories := keepdirectories c;
     target_version := target_version c;
     printseeds := printseeds c;
     shrink := shrink c;
     printusage := printusage c;
     optimize := optimize c;
     optimization_filters := optimization_filters c;
     allowaccessmodification := allowaccessmodification c;
     dontobfuscate := dontobfuscate c;
     printmapping := printmapping c;
     keepattributes := keepattributes c;
     dontusemixedcaseclassnames := v;
     keeppackagenames := keeppackagenames c;
     dontpreverify := dontpreverify c;
     printconfiguration := printconfiguration c;
     dontwarn := dontwarn c;
     verbose := verbose c;
     keep_rules := keep_rules c;
     assumenosideeffects_rules := assumenosideeffects_rules c;
     assumevalues_rules := assumevalues_rules c;
     whyareyoukeeping_rules := whyareyoukeeping_rules c |}.
Definition set_keeppackagenames (c : ProguardConfiguration) (v : list string) : ProguardConfiguration :=
  {| ok := ok c;
     includes := includes c;
     basedirectory := basedirectory c;
     injars := injars c;
     outjars := outjars c;
     libraryjars := libraryjars c;
     keepdirectories := keepdirectories c;
     target_version := target_version c;
     printseeds := printseeds c;
     shrink := shrink c;
     printusage := printusage c;
     optimize := optimize c;
     optimization_filters := optimization_filters c;
     allowaccessmodification := allowaccessmodification c;
     dontobfuscate := dontobfuscate c;
     printmapping := printmapping c;
     keepattributes := keepattributes c;
     dontusemixedcaseclassnames := dontusemixedcaseclassnames c;
     keeppackagenames := v;
     dontpreverify := dontpreverify c;
     printconfiguration := printconfiguration c;
     dontwarn := dontwarn c;
     verbose := verbose c;
     keep_rules := keep_rules c;
     assumenosideeffects_rules := assumenosideeffects_rules c;
     assumevalues_rules := assumevalues_rules c;
     whyareyoukeeping_rules := whyareyoukeeping_rules c |}.
Definition set_dontpreverify (c : ProguardConfiguration) (v : bool) : ProguardConfiguration :=
  {| ok := ok c;
     includes := includes c;
     basedirectory := basedirectory c;
     injars := injars c;
     outjars := outjars c;
     libraryjars := libraryjars c;
     keepdirectories := keepdirectories c;
     target_version := target_version c;
     printseeds := printseeds c;
     shrink := shrink c;
     printusage := printusage c;
     optimize := optimize c;
     optimization_filters := optimization_filters c;
     allowaccessmodification := allowaccessmodification c;
     dontobfuscate := dontobfuscate c;
     printmapping := printmapping c;
     keepattributes := keepattributes c;
     dontusemixedcaseclassnames := dontusemixedcaseclassnames c;
     keeppackagenames := keeppackagenames c;
     dontpreverify := v;
     printconfiguration := printconfiguration c;
     dontwarn := dontwarn c;
     verbose := verbose c;
     keep_rules := keep_rules c;
     assumenosideeffects_rules := assumenosideeffects_rules c;
     assumevalues_rules := assumevalues_rules c;
     whyareyoukeeping_rules := whyareyoukeeping_rules c |}.
Definition set_printconfiguration (c : ProguardConfiguration) (v : list string) : ProguardConfiguration :=
  {| ok := ok c;
     includes := includes c;
     basedirectory := basedirectory c;
     injars := injars c;
     outjars := outjars c;
     libraryjars := libraryjars c;
     keepdirectories := keepdirectories c;
     target_version := target_version c;
     printseeds := printseeds c;
     shrink := shrink c;
     printusage := printusage c;
     optimize := optimize c;
     optimization_filters := optimization_filters c;
     allowaccessmodification := allowaccessmodification c;
     dontobfuscate := dontobfuscate c;
     printmapping := printmapping c;
     keepattributes := keepattributes c;
     dontusemixedcaseclassnames := dontusemixedcaseclassnames c;
     keeppackagenames := keeppackagenames c;
     dontpreverify := dontpreverify c;
     printconfiguration := v;
     dontwarn := dontwarn c;
     verbose := verbose c;
     keep_rules := keep_rules c;
     assumenosideeffects_rules := assumenosideeffects_rules c;
     assumevalues_rules := assumevalues_rules c;
     whyareyoukeeping_rules := whyareyoukeeping_rules c |}.
Definition set_dontwarn (c : ProguardConfiguration) (v : list string) : ProguardConfiguration :=
  {| ok := ok c;
     includes := includes c;
     basedirectory := basedirectory c;
     injars := injars c;
     outjars := outjars c;
     libraryjars := libraryjars c;
     keepdirectories := keepdirectories c;
     target_version := target_version c;
     printseeds := printseeds c;
     shrink := shrink c;
     printusage := printusage c;
     optimize := optimize c;
     optimization_filters := optimization_filters c;
     allowaccessmodification := allowaccessmodification c;
     dontobfuscate := dontobfuscate c;
     printmapping := printmapping c;
     keepattributes := keepattributes c;
     dontusemixedcaseclassnames := dontusemixedcaseclassnames c;
     keeppackagenames := keeppackagenames c;
     dontpreverify := dontpreverify c;
     printconfiguration := printconfiguration c;
     dontwarn := v;
     verbose := verbose c;
     keep_rules := keep_rules c;
     assumenosideeffects_rules := assumenosideeffects_rules c;
     assumevalues_rules := assumevalues_rules c;
     whyareyoukeeping_rules := whyareyoukeeping_rules c |}.
Definition set_verbose (c : ProguardConfiguration) (v : bool) : ProguardConfiguration :=
  {| ok := ok c;
     includes := includes c;
     basedirectory := basedirectory c;
     injars := injars c;
     outjars := outjars c;
     libraryjars := libraryjars c;
     keepdirectories := keepdirectories c;
     target_version := target_version c;
     printseeds := printseeds c;
     shrink := shrink c;
     printusage := printusage c;
     optimize := optimize c;
     optimization_filters := optimization_filters c;
     allowaccessmodification := allowaccessmodification c;
     dontobfuscate := dontobfuscate c;
     printmapping := printmapping c;
     keepattributes := keepattributes c;
     dontusemixedcaseclassnames := dontusemixedcaseclassnames c;
     keeppackagenames := keeppackagenames c;
     dontpreverify := dontpreverify c;
     printconfiguration := printconfiguration c;
     dontwarn := dontwarn c;
     verbose := v;
     keep_rules := keep_rules c;
     assumenosideeffects_rules := assumenosideeffects_rules c;
     assumevalues_rules := assumevalues_rules c;
     whyareyoukeeping_rules := whyareyoukeeping_rules c |}.
Definition set_keep_rules (c : ProguardConfiguration) (v : Rules) : ProguardConfiguration :=
  {| ok := ok c;
     includes := includes c;
     basedirectory := basedirectory c;
     injars := injars c;
     outjars := outjars c;
     libraryjars := libraryjars c;
     keepdirectories := keepdirectories c;
     target_version := target_version c;
     printseeds := printseeds c;
     shrink := shrink c;
     printusage := printusage c;
     optimize := optimize c;
     optimization_filters := optimization_filters c;
     allowaccessmodification := allowaccessmodification c;
     dontobfuscate := dontobfuscate c;
     printmapping := printmapping c;
     keepattributes := keepattributes c;
     dontusemixedcaseclassnames := dontusemixedcaseclassnames c;
     keeppackagenames := keeppackagenames c;
     dontpreverify := dontpreverify c;
     printconfiguration := printconfiguration c;
     dontwarn := dontwarn c;
     verbose := verbose c;
     keep_rules := v;
     assumenosideeffects_rules := assumenosideeffects_rules c;
     assumevalues_rules := assumevalues_rules c;
     whyareyoukeeping_rules := whyareyoukeeping_rules c |}.
Definition set_assumenosideeffects_rules (c : ProguardConfiguration) (v : Rules) : ProguardConfiguration :=
  {| ok := ok c;
     includes := includes c;
     basedirectory := basedirectory c;
     injars := injars c;
     outjars := outjars c;
     libraryjars := libraryjars c;
     keepdirectories := keepdirectories c;
     target_version := target_version c;
     printseeds := printseeds c;
     shrink := shrink c;
     printusage := printusage c;
     optimize := optimize c;
     optimization_filters := optimization_filters c;
     allowaccessmodification := allowaccessmodification c;
     dontobfuscate := dontobfuscate c;
     printmapping := printmapping c;
     keepattributes := keepattributes c;
     dontusemixedcaseclassnames := dontusemixedcaseclassnames c;
     keeppackagenames := keeppackagenames c;
     dontpreverify := dontpreverify c;
     printconfiguration := printconfiguration c;
     dontwarn := dontwarn c;
     verbose := verbose c;
     keep_rules := keep_rules c;
     assumenosideeffects_rules := v;
     assumevalues_rules := assumevalues_rules c;
     whyareyoukeeping_rules := whyareyoukeeping_rules c |}.
Definition set_assumevalues_rules (c : ProguardConfiguration) (v : Rules) : ProguardConfiguration :=
  {| ok := ok c;
     includes := includes c;
     basedirectory := basedirectory c;
     injars := injars c;
     outjars := outjars c;
     libraryjars := libraryjars c;
     keepdirectories := keepdirectories c;
     target_version := target_version c;
     printseeds := printseeds c;
     shrink := shrink c;
     printusage := printusage c;
     optimize := optimize c;
     optimization_filters := optimization_filters c;
     allowaccessmodification := allowaccessmodification c;
     dontobfuscate := dontobfuscate c;
     printmapping := printmapping c;
     keepattributes := keepattributes c;
     dontusemixedcaseclassnames := dontusemixedcaseclassnames c;
     keeppackagenames := keeppackagenames c;
     dontpreverify := dontpreverify c;
     printconfiguration := printconfiguration c;
     dontwarn := dontwarn c;
     verbose := verbose c;
     keep_rules := keep_rules c;
     assumenosideeffects_rules := assumenosideeffects_rules c;
     assumevalues_rules := v;
     whyareyoukeeping_rules := whyareyoukeeping_rules c |}.
Definition set_whyareyoukeeping_rules (c : ProguardConfiguration) (v : Rules) : ProguardConfiguration :=
  {| ok := ok c;
     includes := includes c;
     basedirectory := basedirectory c;
     injars := injars c;
     outjars := outjars c;
     libraryjars := libraryjars c;
     keepdirectories := keepdirectories c;
     target_version := target_version c;
     printseeds := printseeds c;
     shrink := shrink c;
     printusage := printusage c;
     optimize := optimize c;
     optimization_filters := optimization_filters c;
     allowaccessmodification := allowaccessmodification c;
     dontobfuscate := dontobfuscate c;
     printmapping := printmapping c;
     keepattributes := keepattributes c;
     dontusemixedcaseclassnames := dontusemixedcaseclassnames c;
     keeppackagenames := keeppackagenames c;
     dontpreverify := dontpreverify c;
     printconfiguration := printconfiguration c;
     dontwarn := dontwarn c;
     verbose := verbose c;
     keep_rules := keep_rules c;
     assumenosideeffects_rules := assumenosideeffects_rules c;
     assumevalues_rules := assumevalues_rules c;
     whyareyoukeeping_rules := v |}.

Inductive Target := Keep | AssumeNoSideEffects | AssumeValues | WhyAreYouKeeping.

Record KeepSpecDesc := {
  desc_token_type : TokenType.t;
  desc_spec_set : Target;
  desc_mark_classes : bool;
  desc_mark_conditionally : bool;
  desc_allowshrinking : bool;
  desc_allow_return : bool;
}.

(** [get_spec_set] yields a pointer to a member of the configuration: the
    member is read with [get_spec_set] and written with [put_spec_set]. *)
Definition get_spec_set (d : KeepSpecDesc) (pg_config : ProguardConfiguration) : Rules :=
  match desc_spec_set d with
  | Keep => keep_rules pg_config
  | AssumeNoSideEffects => assumenosideeffects_rules pg_config
  | AssumeValues => assumevalues_rules pg_config
  | WhyAreYouKeeping => whyareyoukeeping_rules pg_config
  end.

Definition put_spec_set (d : KeepSpecDesc) (pg_config : ProguardConfiguration)
    (s : Rules) : ProguardConfiguration :=
  match desc_spec_set d with
  | Keep => set_keep_rules pg_config s
  | AssumeNoSideEffects => set_assumenosideeffects_rules pg_config s
  | AssumeValues => set_assumevalues_rules pg_config s
  | WhyAreYouKeeping => set_whyareyoukeeping_rules pg_config s
  end.

Definition KEEP_SPECS : list KeepSpecDesc :=
  [ (* Keep commands. *)
    {| desc_token_type := TokenType.keep; desc_spec_set := Keep;
       desc_mark_classes := true; desc_mark_conditionally := false;
       desc_allowshrinking := false; desc_allow_return := false |};
    {| desc_token_type := TokenType.keepclassmembers; desc_spec_set := Keep;
       desc_mark_classes := false; desc_mark_conditionally := false;
       desc_allowshrinking := false; desc_allow_return := false |};
    {| desc_token_type := TokenType.keepclasseswithmembers; desc_spec_set := Keep;
       desc_mark_classes := false; desc_mark_conditionally := true;
       desc_allowshrinking := false; desc_allow_return := false |};
    {| desc_token_type := TokenType.keepnames; desc_spec_set := Keep;
       desc_mark_classes := true; desc_mark_conditionally := false;
       desc_allowshrinking := true; desc_allow_return := false |};
    {| desc_token_type := TokenType.keepclassmembernames; desc_spec_set := Keep;
       desc_mark_classes := false; desc_mark_conditionally := false;
       desc_allowshrinking := true; desc_allow_return := false |};
    {| desc_token_type := TokenType.keepclasseswithmembernames;
       desc_spec_set := Keep;
       desc_mark_classes := false; desc_mark_conditionally := true;
       desc_allowshrinking := true; desc_allow_return := false |};
    (* Not-keep commands. *)
    {| desc_token_type := TokenType.assumenosideeffects;
       desc_spec_set := AssumeNoSideEffects;
       desc_mark_classes := false; desc_mark_conditionally := false;
       desc_allowshrinking := false; desc_allow_return := true |};
    {| desc_token_type := TokenType.assumevalues; desc_spec_set := AssumeValues;
       desc_mark_classes := false; desc_mark_conditionally := false;
       desc_allowshrinking := false; desc_allow_return := true |};
    {| desc_token_type := TokenType.whyareyoukeeping;
       desc_spec_set := WhyAreYouKeeping;
       desc_mark_classes := false; desc_mark_conditionally := false;
       desc_allowshrinking := false; desc_allow_return := false |} ].

Definition add_parse_errors (stats : Stats) (n : Z) : Stats :=
  {| unknown_tokens := unknown_tokens stats;
     parse_errors := parse_errors stats + n;
     unknown_commands := unknown_commands stats;
     unimplemented := unimplemented stats |}.

Definition add_unknown_commands (stats : Stats) (n : Z) : Stats :=
  {| unknown_tokens := unknown_tokens stats;
     parse_errors := parse_errors stats;
     unknown_commands := unknown_commands stats + n;
     unimplemented := unimplemented stats |}.

Definition add_unimplemented (stats : Stats) (n : Z) : Stats :=
  {| unknown_tokens := unknown_tokens stats;
     parse_errors := parse_errors stats;
     unknown_commands := unknown_commands stats;
     unimplemented := unimplemented stats + n |}.

(** The lambdas [check_empty] and [check_keep] of [parse]. *)
Definition check_empty (stats : Stats) (val : list string) : Stats :=
  match val with
  | [] => add_parse_errors stats 1
  | _ => stats
  end.

Definition check_keep (stats : Stats) (val_ok : bool) : Stats :=
  if negb val_ok then add_parse_errors stats 1 else stats.

(** The loop of the lambda [parse_all_keep]. *)
Fixpoint parse_all_keep (keep_specs : list KeepSpecDesc) (idx : TokenIndex)
    (pg_config : ProguardConfiguration) (stats : Stats)
    (filename : string) (line : Z)
    : result (bool * TokenIndex * ProguardConfiguration * Stats) :=
  match keep_specs with
  | [] => Ok (false, idx, pg_config, stats)
  | keep_spec :: rest =>
      '(val_ok, spec, idx) ←
        parse_keep idx (desc_token_type keep_spec) (get_spec_set keep_spec pg_config)
          (desc_mark_classes keep_spec) (desc_mark_conditionally keep_spec)
          (desc_allowshrinking keep_spec) (desc_allow_return keep_spec)
          filename line;
      let pg_config := put_spec_set keep_spec pg_config spec in
      match val_ok with
      | Some val_ok => Ok (true, idx, pg_config, check_keep stats val_ok)
      | None => parse_all_keep rest idx pg_config stats filename line
      end
  end.

(** [always_assert(opt)] followed by the use of [*opt]. *)
Definition assert_some {A} (opt : option A) (msg : string) : result A :=
  match opt with
  | Some a => Ok a
  | None => Fatal msg
  end.

(** The [switch] of [parse], for a command token. *)
Definition parse_command (idx : TokenIndex) (pg_config : ProguardConfiguration)
    (stats : Stats) (filename : string) (line : Z)
    : result (TokenIndex * ProguardConfiguration * Stats) :=
  let filepaths (r : result (option (list string) * TokenIndex))
                (get : ProguardConfiguration -> list string)
                (set : ProguardConfiguration -> list string -> ProguardConfiguration)
                (checked : bool) :=
    '(opt, idx) ← r;
    val ← assert_some opt "always_assert";
    Ok (idx, set pg_config (get pg_config ++ val),
        if checked then check_empty stats val else stats) in
  let flag (r : result (bool * TokenIndex))
           (set : ProguardConfiguration -> bool -> ProguardConfiguration) :=
    '(res, idx) ← r;
    _ ← always_assert_log res "always_assert(res)";
    Ok (idx, set pg_config true, stats) in
  match idx_type idx with
  | TokenType.include =>
      filepaths (parse_filepath_command idx TokenType.include (basedirectory pg_config))
        includes set_includes true
  | TokenType.basedirectory =>
      '(sfc, idx) ← parse_single_filepath_command idx TokenType.basedirectory;
      sfc ← assert_some sfc "always_assert(sfc)";
      Ok (idx, set_basedirectory pg_config sfc,
          if String.eqb sfc "" then add_parse_errors stats 1 else stats)
  | TokenType.injars =>
      filepaths (parse_jars idx TokenType.injars (basedirectory pg_config))
        injars set_injars true
  | TokenType.outjars =>
      filepaths (parse_jars idx TokenType.outjars (basedirectory pg_config))
        outjars set_outjars true
  | TokenType.libraryjars =>
      filepaths (parse_jars idx TokenType.libraryjars (basedirectory pg_config))
        libraryjars set_libraryjars true
  | TokenType.keepdirectories =>
      filepaths (parse_filepath_command idx TokenType.keepdirectories
                   (basedirectory pg_config))
        keepdirectories set_keepdirectories true
  | TokenType.target =>
      '(target, idx) ← parse_target idx;
      target ← assert_some target "always_assert(target)";
      Ok (idx,
          if negb (String.eqb target "") then set_target_version pg_config target
          else pg_config,
          stats)
  | TokenType.dontskipnonpubliclibraryclasses =>
      '(res, idx) ← test_and_consume idx TokenType.dontskipnonpubliclibraryclasses;
      _ ← always_assert_log res "always_assert(res)";
      (* Silenty ignore the dontskipnonpubliclibraryclasses option. *)
      Ok (idx, pg_config, stats)
  | TokenType.keep | TokenType.keepclassmembers | TokenType.keepclasseswithmembers
  | TokenType.keepnames | TokenType.keepclassmembernames
  | TokenType.keepclasseswithmembernames | TokenType.assumenosideeffects
  | TokenType.assumevalues | TokenType.whyareyoukeeping =>
      (* Keep(-like) Options *)
      '(res, idx, pg_config, stats) ←
        parse_all_keep KEEP_SPECS idx pg_config stats filename line;
      _ ← always_assert_log res "always_assert(res)";
      Ok (idx, pg_config, stats)
  | TokenType.printseeds =>
      filepaths (parse_optional_filepath_command idx TokenType.printseeds)
        printseeds set_printseeds false
  | TokenType.dontshrink =>
      '(val, idx) ← parse_boolean_command idx TokenType.dontshrink false;
      val ← assert_some val "always_assert(val)";
      Ok (idx, set_shrink pg_config val, stats)
  | TokenType.printusage =>
      filepaths (parse_optional_filepath_command idx TokenType.printusage)
        printusage set_printusage false
  | TokenType.dontoptimize =>
      '(val, idx) ← parse_boolean_command idx TokenType.dontoptimize false;
      val ← assert_some val "always_assert(val)";
      Ok (idx, set_optimize pg_config val, stats)
  | TokenType.optimizations =>
      filepaths (parse_filter_list_command idx TokenType.optimizations)
        optimization_filters set_optimization_filters true
  | TokenType.optimizationpasses =>
      '(op, idx) ← parse_optimizationpasses_command idx;
      op ← assert_some op "always_assert(op)";
      Ok (idx, pg_config, if negb op then add_parse_errors stats 1 else stats)
  | TokenType.allowaccessmodification_token =>
      flag (test_and_consume idx TokenType.allowaccessmodification_token)
        set_allowaccessmodification
  | TokenType.dontobfuscate =>
      flag (test_and_consume idx TokenType.dontobfuscate) set_dontobfuscate
  | TokenType.printmapping =>
      filepaths (parse_optional_filepath_command idx TokenType.printmapping)
        printmapping set_printmapping false
  | TokenType.repackageclasses =>
      '(res, idx) ← parse_repackageclasses idx;
      _ ← always_assert_log res "always_assert(res)";
      Ok (idx, pg_config, stats)
  | TokenType.keepattributes =>
      filepaths (parse_filter_list_command idx TokenType.keepattributes)
        keepattributes set_keepattributes true
  | TokenType.dontusemixedcaseclassnames_token =>
      flag (test_and_consume idx TokenType.dontusemixedcaseclassnames_token)
        set_dontusemixedcaseclassnames
  | TokenType.keeppackagenames =>
      filepaths (parse_filter_list_command idx TokenType.keeppackagenames)
        keeppackagenames set_keeppackagenames true
  | TokenType.dontpreverify_token =>
      flag (test_and_consume idx TokenType.dontpreverify_token) set_dontpreverify
  | TokenType.printconfiguration =>
      filepaths (parse_optional_filepath_command idx TokenType.printconfiguration)
        printconfiguration set_printconfiguration false
  | TokenType.dontwarn =>
      filepaths (parse_filter_list_command idx TokenType.dontwarn)
        dontwarn set_dontwarn true
  | TokenType.verbose_token =>
      flag (test_and_consume idx TokenType.verbose_token) set_verbose
  | TokenType.command | TokenType.dump | TokenType.mergeinterfacesaggressively
  | TokenType.returns =>
      _ ← always_assert_log (idx_is_command idx) "idx.it->is_command()";
      let name := idx_data idx in
      (* It is benign to drop -dontnote *)
      let stats :=
        if negb (String.eqb name "dontnote") then add_unimplemented stats 1
        else stats in
      idx ← next idx;
      idx ← skip_to_next_command idx;
      Ok (idx, pg_config, stats)
  (* These should not reach the switch. *)
  | _ =>
      _ ← always_assert_log (negb (idx_is_command idx)) "!idx.it->is_command()";
      Fatal "UNREACHABLE"
  end.

Fixpoint parse_loop (bound : nat) (idx : TokenIndex)
    (pg_config : ProguardConfiguration) (stats : Stats) (filename : string)
    : result (ProguardConfiguration * Stats) :=
  match idx with
  | [] => Ok (pg_config, stats)
  | _ :: _ =>
      (* Break out if we are at the end of the TokenType stream. *)
      if is_type idx TokenType.eof_token then Ok (pg_config, stats)
      else
        match bound with
        | O => loop_bound_exceeded
        | S bound' =>
            if is_type idx TokenType.comment then
              idx ← next idx;
              parse_loop bound' idx pg_config stats filename
            else
              let line := idx_line idx in
              if negb (idx_is_command idx) then
                idx ← next idx;
                idx ← skip_to_next_command idx;
                parse_loop bound' idx pg_config (add_unknown_commands stats 1)
                  filename
              else
                '(idx, pg_config, stats) ←
                  parse_command idx pg_config stats filename line;
                parse_loop bound' idx pg_config stats filename
        end
  end.

(** [parse(vec, pg_config, stats, filename)] *)
Definition parse (vec : list Token) (pg_config : ProguardConfiguration)
    (stats : Stats) (filename : string)
    : result (ProguardConfiguration * Stats) :=
  parse_loop (length vec) vec pg_config stats filename.

Definition add_unknown_tokens (stats : Stats) (n : Z) : Stats :=
  {| unknown_tokens := unknown_tokens stats + n;
     parse_errors := parse_errors stats;
     unknown_commands := unknown_commands stats;
     unimplemented := unimplemented stats |}.

Definition set_ok (c : ProguardConfiguration) (v : bool)
    : ProguardConfiguration :=
  {| ok := v;
     includes := includes c;
     basedirectory := basedirectory c;
     injars := injars c;
     outjars := outjars c;
     libraryjars := libraryjars c;
     keepdirectories := keepdirectories c;
     target_version := target_version c;
     printseeds := printseeds c;
     shrink := shrink c;
     printusage := printusage c;
     optimize := optimize c;
     optimization_filters := optimization_filters c;
     allowaccessmodification := allowaccessmodification c;
     dontobfuscate := dontobfuscate c;
     printmapping := printmapping c;
     keepattributes := keepattributes c;
     dontusemixedcaseclassnames := dontusemixedcaseclassnames c;
     keeppackagenames := keeppackagenames c;
     dontpreverify := dontpreverify c;
     printconfiguration := printconfiguration c;
     dontwarn := dontwarn c;
     verbose := verbose c;
     keep_rules := keep_rules c;
     assumenosideeffects_rules := assumenosideeffects_rules c;
     assumevalues_rules := assumevalues_rules c;
     whyareyoukeeping_rules := whyareyoukeeping_rules c |}.

(** Check for bad tokens. *)
Definition check_bad_tokens (tokens : list Token) (ret : Stats) (ok : bool)
    : Stats * bool :=
  fold_left
    (fun '(ret, ok) tok =>
       if TokenType.eqb (type tok) TokenType.unknownToken
       then (add_unknown_tokens ret 1, false)
       else (ret, ok))
    tokens (ret, ok).

(** [parse(config, pg_config, filename)], from the tokens [lex(config)] on
    (the lexer is not part of the sources). *)
Definition parse_config (tokens : list Token) (pg_config : ProguardConfiguration)
    (filename : string) : result (Stats * ProguardConfiguration) :=
  let ret :=
    {| unknown_tokens := 0; parse_errors := 0; unknown_commands := 0;
       unimplemented := 0 |} in
  let ok := true in
  let '(ret, ok) := check_bad_tokens tokens ret ok in
  if negb ok then Ok (ret, set_ok pg_config false)
  else
    '(pg_config, ret) ← parse tokens pg_config ret filename;
    if Z.eqb (parse_errors ret) 0 then Ok (ret, set_ok pg_config ok)
    else Ok (ret, set_ok pg_config false).

End WithKeepSpecSet.

End WithServices.

(** *** Vocabulary of the properties *)

(** The [KeepSpec] that [parse_keep] starts from for the directive [d]. *)
Definition initial_keep (d : KeepSpecDesc) (filename : string) (line : Z) : KeepSpec :=
  {| includedescriptorclasses := false;
     allowshrinking := desc_allowshrinking d;
     allowoptimization := false;
     allowobfuscation := false;
     mark_classes := desc_mark_classes d;
     mark_conditionally := desc_mark_conditionally d;
     class_spec := default_ClassSpecification;
     source_filename := filename;
     source_line := line |}.

(** [l] is sorted with respect to [comp], as the C++ standard has it:
    no element compares less than an element in front of it. *)
Definition sorted_by {A} (comp : A -> A -> bool) (l : list A) : Prop :=
  StronglySorted (fun a b => comp b a = false) l.

(** [comp] induces a strict weak ordering. *)
Definition strict_weak_order {A} (comp : A -> A -> bool) : Prop :=
  (forall a, comp a a = false)
  /\ (forall a b c, comp a b = true -> comp b c = true -> comp a c = true)
  /\ (forall a b c,
        comp a b = false -> comp b a = false ->
        comp b c = false -> comp c b = false ->
        comp a c = false /\ comp c a = false).

(** What the C++ standard promises of [std::sort]: the range is permuted
    into sorted order.  The order of equivalent elements is left open. *)
Definition std_sort_contract `{ParserServices} : Prop :=
  forall (A : Type) (comp : A -> A -> bool) (l : list A),
    strict_weak_order comp ->
    Permutation l (std_sort A comp l) /\ sorted_by comp (std_sort A comp l).

(** [l'] keeps the members of [l] that have the name [n] in the order of [l]. *)
Definition keeps_order_of_name (n : string) (l l' : list MemberSpecification) : Prop :=
  List.filter (fun m => String.eqb (name m) n) l'
  = List.filter (fun m => String.eqb (name m) n) l.

(** [in_bounds P r]: the run [r] has not outlived the bound of a loop, and
    its result, if there is one, satisfies [P]. *)
Definition in_bounds {A} (P : A -> Prop) (r : result A) : Prop :=
  match r with
  | Ok a => P a
  | Fatal msg => msg <> "loop bound exceeded"
  end.

(** [returns P r]: the run [r] does not abort, and its result satisfies [P]. *)
Definition returns {A} (P : A -> Prop) (r : result A) : Prop :=
  match r with
  | Ok a => P a
  | Fatal _ => False
  end.

(** The tokens left at [idx'] are those left at [idx], or fewer of them. *)
Definition le_idx (idx idx' : list Token) : Prop :=
  idx' = idx \/ (length idx' < length idx)%nat.

Definition lt_idx (idx idx' : list Token) : Prop :=
  (length idx' < length idx)%nat.

(** The last token of the vector is the end-of-file token. *)
Fixpoint ends_with_eof (idx : list Token) : bool :=
  match idx with
  | [] => false
  | tok :: rest =>
      match rest with
      | [] => TokenType.eqb (type tok) TokenType.eof_token
      | _ :: _ => ends_with_eof rest
      end
  end.

(** An end-of-file token carries no text. *)
Definition eof_without_data (tok : Token) : bool :=
  negb (TokenType.eqb (type tok) TokenType.eof_token) || String.eqb (data tok) "".

(** A token vector as the parser expects it: closed by an end-of-file token,
    and no end-of-file token with a text. *)
Definition lexed (idx : list Token) : bool :=
  ends_with_eof idx && forallb eof_without_data idx.

(** No access flag is required both set and unset. *)
Definition flags_consistent (setFlags unsetFlags : Z) : Prop :=
  Z.land setFlags unsetFlags = 0.

Definition member_flags_consistent (m : MemberSpecification) : Prop :=
  flags_consistent (requiredSetAccessFlags m) (requiredUnsetAccessFlags m).

Definition class_flags_consistent (c : ClassSpecification) : Prop :=
  flags_consistent (setAccessFlags c) (unsetAccessFlags c)
  /\ Forall member_flags_consistent (fieldSpecifications c)
  /\ Forall member_flags_consistent (methodSpecifications c).

(** The flags of the class token and of [<init>], which are no access
    modifiers. *)
Definition ACC_CLASS_KIND : Z :=
  Z.lor (Z.lor ACC_INTERFACE ACC_ENUM) (Z.lor ACC_ANNOTATION ACC_CONSTRUCTOR).

(** The list of the configuration that a file path directive extends. *)
Definition filepath_list {Rules : Type} (directive : TokenType.t)
    (c : @ProguardConfiguration Rules)
    : option (list string) :=
  match directive with
  | TokenType.include => Some (includes c)
  | TokenType.injars => Some (injars c)
  | TokenType.outjars => Some (outjars c)
  | TokenType.libraryjars => Some (libraryjars c)
  | TokenType.keepdirectories => Some (keepdirectories c)
  | _ => None
  end.

(** *** A small configuration *)

(** The rules in the order of their insertion. *)
#[global] Instance list_KeepSpecSet : KeepSpecSet (list KeepSpec) := {
  emplace s k := s ++ [k];
}.

(** Insertion sort: [x] goes in front of the first element it compares less
    than. *)
Fixpoint sort_insert {A} (comp : A -> A -> bool) (x : A) (l : list A) : list A :=
  match l with
  | [] => [x]
  | y :: l' => if comp x y then x :: y :: l' else y :: sort_insert comp x l'
  end.

(** Inserting the elements from the first to the last keeps equivalent
    elements in their order; *)
Definition insertion_sort {A} (comp : A -> A -> bool) (l : list A) : list A :=
  fold_left (fun sorted x => sort_insert comp x sorted) l [].

(** inserting them from the last to the first reverses it. *)
Definition backward_insertion_sort {A} (comp : A -> A -> bool) (l : list A)
    : list A :=
  fold_right (sort_insert comp) [] l.

(** A translation of the simplest type patterns. *)
Definition sample_convert_wildcard_type (typ : string) : string :=
  if String.eqb typ "int" then "I"
  else if String.eqb typ "long" then "J"
  else if String.eqb typ "boolean" then "Z"
  else if String.eqb typ "void" then "V"
  else "L" +:+ typ +:+ ";".

Definition forward_services : ParserServices :=
  {| convert_wildcard_type := sample_convert_wildcard_type;
     std_sort := @insertion_sort |}.

Definition backward_services : ParserServices :=
  {| convert_wildcard_type := sample_convert_wildcard_type;
     std_sort := @backward_insertion_sort |}.

Definition tok (ty : TokenType.t) (d : string) (l : Z) : Token :=
  {| type := ty; data := d; line := l |}.

Definition empty_configuration : @ProguardConfiguration (list KeepSpec) :=
  {| ok := true; includes := []; basedirectory := ""; injars := [];
     outjars := []; libraryjars := []; keepdirectories := [];
     target_version := ""; printseeds := []; shrink := true; printusage := [];
     optimize := true; optimization_filters := [];
     allowaccessmodification := false; dontobfuscate := false;
     printmapping := []; keepattributes := [];
     dontusemixedcaseclassnames := false; keeppackagenames := [];
     dontpreverify := false; printconfiguration := []; dontwarn := [];
     verbose := false; keep_rules := []; assumenosideeffects_rules := [];
     assumevalues_rules := []; whyareyoukeeping_rules := [] |}.

Definition empty_stats : Stats :=
  {| unknown_tokens := 0; parse_errors := 0; unknown_commands := 0;
     unimplemented := 0 |}.

(** [class Foo { int a; long a; }] *)
Definition tokens_two_fields : list Token :=
  [ tok TokenType.classToken "class" 1; tok TokenType.identifier "Foo" 1;
    tok TokenType.openCurlyBracket "{" 1;
    tok TokenType.identifier "int" 1; tok TokenType.identifier "a" 1;
    tok TokenType.semiColon ";" 1;
    tok TokenType.identifier "long" 1; tok TokenType.identifier "a" 1;
    tok TokenType.semiColon ";" 1;
    tok TokenType.closeCurlyBracket "}" 1; tok TokenType.eof_token "" 1 ].

(** [-keep,allowshrinking class Foo] *)
Definition tokens_keep_allowshrinking : list Token :=
  [ tok TokenType.keep "keep" 1; tok TokenType.comma "," 1;
    tok TokenType.allowshrinking_token "allowshrinking" 1;
    tok TokenType.classToken "class" 1; tok TokenType.identifier "Foo" 1;
    tok TokenType.eof_token "" 2 ].

(** [-assumenosideeffects,allowshrinking class Foo { boolean isLoggable() return false; }] *)
Definition tokens_assume_allowshrinking : list Token :=
  [ tok TokenType.assumenosideeffects "assumenosideeffects" 1;
    tok TokenType.comma "," 1;
    tok TokenType.allowshrinking_token "allowshrinking" 1;
    tok TokenType.classToken "class" 1; tok TokenType.identifier "Foo" 1;
    tok TokenType.openCurlyBracket "{" 1;
    tok TokenType.identifier "boolean" 1; tok TokenType.identifier "isLoggable" 1;
    tok TokenType.openBracket "(" 1; tok TokenType.closeBracket ")" 1;
    tok TokenType.returns "return" 1; tok TokenType.identifier "false" 1;
    tok TokenType.semiColon ";" 1;
    tok TokenType.closeCurlyBracket "}" 1; tok TokenType.eof_token "" 2 ].

(** [-keepnames class Foo] *)
Definition tokens_keepnames : list Token :=
  [ tok TokenType.keepnames "keepnames" 1;
    tok TokenType.classToken "class" 1; tok TokenType.identifier "Foo" 1;
    tok TokenType.eof_token "" 2 ].

(** [-keep,class Foo]: the modifier list is malformed. *)
Definition tokens_keep_bad_modifier : list Token :=
  [ tok TokenType.keep "keep" 1; tok TokenType.comma "," 1;
    tok TokenType.classToken "class" 1; tok TokenType.identifier "Foo" 1;
    tok TokenType.eof_token "" 2 ].

(** [-keep class Foo extends ;]: the class specification is malformed. *)
Definition tokens_keep_bad_class : list Token :=
  [ tok TokenType.keep "keep" 1;
    tok TokenType.classToken "class" 1; tok TokenType.identifier "Foo" 1;
    tok TokenType.extends "extends" 1; tok TokenType.semiColon ";" 1;
    tok TokenType.eof_token "" 2 ].

(** [-injars a.jar b.jar] followed by [-dontshrink] *)
Definition tokens_injars : list Token :=
  [ tok TokenType.injars "injars" 1; tok TokenType.filepath "a.jar" 1;
    tok TokenType.filepath "b.jar" 1; tok TokenType.dontshrink "dontshrink" 2;
    tok TokenType.eof_token "" 3 ].

(** [-include] at the end of the input *)
Definition tokens_include_eof : list Token :=
  [ tok TokenType.include "include" 1; tok TokenType.eof_token "" 2 ].

(** [-basedirectory] followed by [-dontshrink] *)
Definition tokens_basedirectory : list Token :=
  [ tok TokenType.basedirectory "basedirectory" 1;
    tok TokenType.dontshrink "dontshrink" 2; tok TokenType.eof_token "" 3 ].

(** [-dump x.txt] followed by [-keepnames class Foo] *)
Definition tokens_dump : list Token :=
  tok TokenType.dump "dump" 1 :: tok TokenType.filepath "x.txt" 1 :: tokens_keepnames.

(** [foo bar], no directive at all *)
Definition tokens_no_directive : list Token :=
  [ tok TokenType.identifier "foo" 1; tok TokenType.identifier "bar" 1;
    tok TokenType.eof_token "" 2 ].

(** [public !final class Foo { private static int a; public <init>(); }] *)
Definition tokens_access_flags : list Token :=
  [ tok TokenType.publicToken "public" 1; tok TokenType.notToken "!" 1;
    tok TokenType.final "final" 1;
    tok TokenType.classToken "class" 1; tok TokenType.identifier "Foo" 1;
    tok TokenType.openCurlyBracket "{" 1;
    tok TokenType.privateToken "private" 1; tok TokenType.staticToken "static" 1;
    tok TokenType.identifier "int" 1; tok TokenType.identifier "a" 1;
    tok TokenType.semiColon ";" 1;
    tok TokenType.publicToken "public" 1; tok TokenType.identifier "<init>" 1;
    tok TokenType.openBracket "(" 1; tok TokenType.closeBracket ")" 1;
    tok TokenType.semiColon ";" 1;
    tok TokenType.closeCurlyBracket "}" 1; tok TokenType.eof_token "" 2 ].

End ProguardParser.

(** ** opt/instrument/BlockInstrument.cpp *)

Module BlockInstrument.

Definition BIT_VECTOR_SIZE : Z := 16.
Definition PROFILING_DATA_VERSION : Z := 3.

(** [enum class BlockType], a flag set. *)
Abbreviation BlockType := Z (only parsing).
Module BlockType.
Definition Unspecified : BlockType := 0.
Definition Instrumentable : BlockType := Z.shiftl 1 0.
Definition Empty : BlockType := Z.shiftl 1 1.
Definition Useless : BlockType := Z.shiftl 1 2.
Definition Normal : BlockType := Z.shiftl 1 3.
Definition Catch : BlockType := Z.shiftl 1 4.
Definition MoveException : BlockType := Z.shiftl 1 5.
Definition NoSourceBlock : BlockType := Z.shiftl 1 6.
End BlockType.

(** [operator|] and [operator&] on [BlockType]. *)
Definition bt_or (a b : BlockType) : BlockType := Z.lor a b.
Definition bt_and (a b : BlockType) : BlockType := Z.land a b.

Inductive InstrumentedType :=
| MethodOnly          (* = 1: too many basic blocks, method tracing only *)
| Both                (* = 2 *)
| UnableToTrackBlock. (* = 3: no onMethodExit was instrumented *)

(** [static_cast<int>(InstrumentedType)] *)
Definition InstrumentedType_to_int (t : InstrumentedType) : Z :=
  match t with
  | MethodOnly => 1
  | Both => 2
  | UnableToTrackBlock => 3
  end.

(** *** The IR pieces the instrumenter touches *)

Abbreviation reg_t := Z (only parsing).
Abbreviation DexMethod := string (only parsing).
Abbreviation BlockId := Z (only parsing).
Abbreviation SourceBlock := (string * Z)%type (only parsing). (* (src, id) *)

Inductive IROpcode :=
| OPCODE_NOP
| OPCODE_CONST
| OPCODE_INVOKE_STATIC
| OPCODE_OR_INT_LIT16
| OPCODE_MOVE_RESULT
| OPCODE_MOVE_RESULT_WIDE
| OPCODE_MOVE_RESULT_OBJECT
| IOPCODE_MOVE_RESULT_PSEUDO
| IOPCODE_MOVE_RESULT_PSEUDO_OBJECT
| IOPCODE_MOVE_RESULT_PSEUDO_WIDE
| OPCODE_MOVE_EXCEPTION
| IOPCODE_LOAD_PARAM
| OPCODE_MONITOR_EXIT
| OPCODE_RETURN_VOID
| OPCODE_RETURN
| OPCODE_THROW
| OPCODE_GOTO
| OPCODE_OTHER (code : Z).

(** [opcode::is_move_result_any] *)
Definition is_move_result_any (op : IROpcode) : bool :=
  match op with
  | OPCODE_MOVE_RESULT | OPCODE_MOVE_RESULT_WIDE | OPCODE_MOVE_RESULT_OBJECT
  | IOPCODE_MOVE_RESULT_PSEUDO | IOPCODE_MOVE_RESULT_PSEUDO_OBJECT
  | IOPCODE_MOVE_RESULT_PSEUDO_WIDE => true
  | _ => false
  end.

Record IRInstruction := {
  insn_opcode : IROpcode;
  insn_literal : Z;
  insn_dest : option reg_t;
  insn_srcs : list reg_t;
  insn_method : option DexMethod;
}.

Inductive MethodItemType :=
| MFLOW_TRY | MFLOW_CATCH | MFLOW_OPCODE | MFLOW_DEX_OPCODE | MFLOW_TARGET
| MFLOW_DEBUG | MFLOW_POSITION | MFLOW_SOURCE_BLOCK | MFLOW_FALLTHROUGH.

Definition is_MFLOW_OPCODE (t : MethodItemType) : bool :=
  match t with MFLOW_OPCODE => true | _ => false end.

Record MethodItemEntry := {
  mie_type : MethodItemType;
  mie_opcode : IROpcode;   (* [insn->opcode()], read only under MFLOW_OPCODE *)
}.

(** An [IRList::iterator] into a block is the index of the entry it points
    to; [b->end()] is the length of the block's entry list. *)
Abbreviation iterator := nat (only parsing).

(** A [cfg::Block] as the instrumenter sees it: its entries, and the answers
    of the block queries that the CFG library computes. *)
Record Block := {
  block_id : BlockId;
  block_entries : list MethodItemEntry;
  num_opcodes : Z;
  is_catch : bool;
  starts_with_move_result : bool;
  starts_with_move_exception : bool;
  get_first_insn : iterator;
  get_last_insn : iterator;
  get_first_non_param_loading_insn : iterator;
  succs : list BlockId;
  get_outgoing_throws_in_order : list BlockId;
  has_source_blocks : bool;
}.

Definition block_end (b : Block) : iterator := length (block_entries b).

(** The editable control-flow graph is owned by the CFG library; the
    instrumenter only uses the operations below. *)
Class ControlFlowGraph (Cfg : Type) := {
  entry_block : Cfg -> Block;
  (** [cfg.blocks().size()] *)
  blocks_size : Cfg -> Z;
  (** the blocks handed to [block_start_fn], in the order in which
      [source_blocks::impl::visit_in_order] enters them *)
  visit_in_order : Cfg -> list Block;
  allocate_temp : Cfg -> reg_t * Cfg;
  (** [block->insert_before(block->to_cfg_instruction_iterator(pos), insns)] *)
  insert_before : Cfg -> BlockId -> iterator -> list IRInstruction -> Cfg;
  (** [cfg.real_exit_blocks(false)] *)
  real_exit_blocks : Cfg -> list Block;
  recompute_registers_size : Cfg -> Cfg;
  (** [source_blocks::gather_source_blocks(block)] *)
  gather_source_blocks : Cfg -> Block -> list SourceBlock;
}.

(** [InstrumentPass::Options], the fields read in this file. *)
Record Options := {
  instrument_catches : bool;
  instrument_blocks_without_source_block : bool;
  num_shards : Z;
  num_stats_per_method : Z;
  analysis_method_names : list string;
  max_num_blocks : Z;
  allowlist : gset string;
  blocklist : gset string;
  only_cold_start_class : bool;
  instrument_only_root_store : bool;
}.

Abbreviation BitId := Z (only parsing).

Record BlockInfo := {
  bi_block : Block;
  bi_type : BlockType;
  bi_it : option iterator;  (* [None] is the value-initialised iterator *)
  bi_bit_id : BitId;
}.

(** The constructor [BlockInfo(b, t, i)]. *)
Definition mkBlockInfo (b : Block) (t : BlockType) (i : option iterator) : BlockInfo :=
  {| bi_block := b; bi_type := t; bi_it := i; bi_bit_id := SIZE_MAX |}.

Definition set_bit_id (i : BlockInfo) (id : BitId) : BlockInfo :=
  {| bi_block := bi_block i; bi_type := bi_type i; bi_it := bi_it i; bi_bit_id := id |}.

(** [(i.type & type) == type] *)
Definition has_type (type : BlockType) (i : BlockInfo) : bool :=
  Z.eqb (bt_and (bi_type i) type) type.

Definition is_instrumentable (i : BlockInfo) : bool :=
  has_type BlockType.Instrumentable i.

Record MethodInfo := {
  method : DexMethod;
  too_many_blocks : bool;
  offset : Z;
  num_non_entry_blocks : Z;
  num_vectors : Z;
  num_exit_calls : Z;
  num_empty_blocks : Z;
  num_useless_blocks : Z;
  num_no_source_blocks : Z;
  num_blocks_too_large : Z;
  num_catches : Z;
  num_instrumented_catches : Z;
  num_instrumented_blocks : Z;
  bit_id_2_block_id : list BlockId;
  bit_id_2_source_blocks : list (list SourceBlock);
  rejected_blocks : gmap Z BlockType;
}.

Definition get_instrumented_type (i : MethodInfo) : InstrumentedType :=
  if too_many_blocks i then MethodOnly
  else if Z.eqb (num_exit_calls i) 0 && negb (Z.eqb (num_vectors i) 0)
       then UnableToTrackBlock
       else Both.

(** The [instrument] field of a metadata row in [write_metadata]. *)
Definition metadata_instrument_field (info : MethodInfo) : string :=
  to_string (InstrumentedType_to_int (get_instrumented_type info)).

(** First index [>= i] of [l] (an [i]-shifted suffix) whose entry satisfies
    [p]; the index one past the end when there is none. *)
Fixpoint find_from {A} (p : A -> bool) (l : list A) (i : iterator) : iterator :=
  match l with
  | [] => i
  | x :: l' => if p x then i else find_from p l' (S i)
  end.

Definition only_terminal_return_or_throw_blocks `{ControlFlowGraph Cfg}
    (cfg : Cfg) : list Block :=
  List.filter (fun b => match succs b with [] => true | _ => false end)
              (real_exit_blocks cfg).

Definition get_first_non_move_result_insn (b : Block) : iterator :=
  find_from (fun e => is_MFLOW_OPCODE (mie_type e)
                      && negb (is_move_result_any (mie_opcode e)))
            (block_entries b) 0%nat.

Definition get_first_next_of_move_except (b : Block) : iterator :=
  let insert_pos := S (get_first_insn b) in
  find_from (fun e => is_MFLOW_OPCODE (mie_type e))
            (drop insert_pos (block_entries b)) insert_pos.

Definition create_block_info (block : Block) (options : Options) : BlockInfo :=
  if Z.eqb (num_opcodes block) 0 then mkBlockInfo block BlockType.Empty None
  else if is_catch block && negb (instrument_catches options)
  then mkBlockInfo block BlockType.Catch None
  else
    let type0 := if is_catch block then BlockType.Catch else BlockType.Normal in
    let '(insert_pos, type) :=
      if starts_with_move_result block
      then (get_first_non_move_result_insn block, type0)
      else if starts_with_move_exception block
      then (get_first_next_of_move_except block,
            bt_or type0 BlockType.MoveException)
      else (get_first_non_param_loading_insn block, type0) in
    if Nat.eqb insert_pos (block_end block)
    then mkBlockInfo block (bt_or BlockType.Useless type) None
    else if negb (instrument_blocks_without_source_block options)
            && negb (has_source_blocks block)
            && negb (match succs block with [] => true | _ => false end)
    then mkBlockInfo block (bt_or BlockType.NoSourceBlock type) None
    else mkBlockInfo block (bt_or BlockType.Instrumentable type) (Some insert_pos).

(** The blocks collected by [block_start_fn]: every visited block except an
    entry block without outgoing throw edges. *)
Definition blocks_to_visit `{ControlFlowGraph Cfg} (cfg : Cfg) : list Block :=
  List.filter
    (fun b => negb (Z.eqb (block_id (entry_block cfg)) (block_id b)
                    && match get_outgoing_throws_in_order (entry_block cfg) with
                       | [] => true
                       | _ => false
                       end))
    (visit_in_order cfg).

(** The bit-id loop of [get_blocks_to_instrument]. *)
Fixpoint assign_bit_ids (max_num_blocks : Z) (options : Options)
    (blocks : list Block) (block_info_list : list BlockInfo) (id : BitId)
    : list BlockInfo * BitId * bool :=
  match blocks with
  | [] => (block_info_list, id, false)
  | b :: rest =>
      let info := create_block_info b options in
      if is_instrumentable info then
        if Z.leb max_num_blocks id
        then ([], 0, true) (* this is effectively rejecting all blocks *)
        else assign_bit_ids max_num_blocks options rest
               (block_info_list ++ [set_bit_id info id]) (size_t (id + 1))
      else assign_bit_ids max_num_blocks options rest
             (block_info_list ++ [info]) id
  end.

Definition get_blocks_to_instrument `{ControlFlowGraph Cfg} (cfg : Cfg)
    (max_num_blocks : Z) (options : Options) : list BlockInfo * BitId * bool :=
  assign_bit_ids max_num_blocks options (blocks_to_visit cfg) [] 0.


Definition new_IRInstruction (op : IROpcode) : IRInstruction :=
  {| insn_opcode := op; insn_literal := 0; insn_dest := None;
     insn_srcs := []; insn_method := None |}.

Definition const_insn (literal : Z) (dest : reg_t) : IRInstruction :=
  {| insn_opcode := OPCODE_CONST; insn_literal := literal;
     insn_dest := Some dest; insn_srcs := []; insn_method := None |}.

Definition invoke_static_insn (m : DexMethod) (srcs : list reg_t) : IRInstruction :=
  {| insn_opcode := OPCODE_INVOKE_STATIC; insn_literal := 0;
     insn_dest := None; insn_srcs := srcs; insn_method := Some m |}.

Definition or_int_lit16_insn (literal : Z) (src dest : reg_t) : IRInstruction :=
  {| insn_opcode := OPCODE_OR_INT_LIT16; insn_literal := literal;
     insn_dest := Some dest; insn_srcs := [src]; insn_method := None |}.

Section WithCfg.
Context `{ControlFlowGraph Cfg}.

(** The first loop of [insert_prologue_insts]: one zero-initialised vector
    register per 16 blocks. *)
Fixpoint allocate_vectors (num_vectors : nat) (cfg : Cfg)
    : list reg_t * list IRInstruction * Cfg :=
  match num_vectors with
  | O => ([], [], cfg)
  | S n =>
      let '(r, cfg1) := allocate_temp cfg in
      let '(regs, insns, cfg2) := allocate_vectors n cfg1 in
      (r :: regs, const_insn 0 r :: insns, cfg2)
  end.

Definition insert_prologue_insts (cfg : Cfg) (onMethodBegin : DexMethod)
    (num_vectors method_offset : Z) : list reg_t * reg_t * Cfg :=
  let '(reg_vectors, vector_insts, cfg1) :=
    allocate_vectors (Z.to_nat num_vectors) cfg in
  let '(reg_method_offset, cfg2) := allocate_temp cfg1 in
  let method_offset_inst := const_insn method_offset reg_method_offset in
  let invoke_inst := invoke_static_insn onMethodBegin [reg_method_offset] in
  let prologues := vector_insts ++ [method_offset_inst; invoke_inst] in
  let cfg3 :=
    insert_before cfg2 (block_id (entry_block cfg2))
      (get_first_non_param_loading_insn (entry_block cfg2)) prologues in
  (reg_vectors, reg_method_offset, cfg3).

(** [onMethodExit_map.at(arity)] *)
Definition onMethodExit_at (onMethodExit_map : gmap Z DexMethod) (arity : Z)
    : result DexMethod :=
  match onMethodExit_map !! arity with
  | Some m => Ok m
  | None => Fatal "std::out_of_range: onMethodExit_map.at"
  end.

(** [reg_vectors.at(i)] *)
Definition reg_vectors_at (reg_vectors : list reg_t) (i : Z) : result reg_t :=
  if Z.ltb i 0 then Fatal "std::out_of_range: reg_vectors.at" else
  match reg_vectors !! Z.to_nat i with
  | Some r => Ok r
  | None => Fatal "std::out_of_range: reg_vectors.at"
  end.

(** [max(1., ceil(double(num_vectors) / double(max_vector_arity)))]; the
    quotient by zero is not a number of invocations. *)
Definition get_num_invokes (num_vectors max_vector_arity : Z) : result Z :=
  if Z.eqb max_vector_arity 0
  then Fatal "onMethodExit: division by a zero vector arity"
  else Ok (Z.max 1 ((num_vectors + max_vector_arity - 1) / max_vector_arity)).

(** The loop of the lambda [create_invoke_insts]; [n] iterations are left,
    the current one has index [i]. *)
Fixpoint create_invoke_insts_loop (reg_vectors : list reg_t)
    (reg_method_offset : reg_t) (onMethodExit_map : gmap Z DexMethod)
    (max_vector_arity num_invokes : Z) (n : nat) (i v offset : Z)
    : result (list IRInstruction) :=
  match n with
  | O => Ok []
  | S n' =>
      let arity := Z.min v max_vector_arity in
      m ← onMethodExit_at onMethodExit_map arity;
      let srcs :=
        reg_method_offset ::
        List.map (fun j => nth (Z.to_nat (size_t (max_vector_arity * i) + Z.of_nat j))
                               reg_vectors 0)
                 (seq 0 (Z.to_nat arity)) in
      let inst := invoke_static_insn m srcs in
      if negb (Z.eqb i (size_t (num_invokes - 1))) then
        (* Move forward the offset. *)
        let offset' := size_t (offset + max_vector_arity) in
        rest ← create_invoke_insts_loop reg_vectors reg_method_offset
                 onMethodExit_map max_vector_arity num_invokes n'
                 (size_t (i + 1)) (size_t (v - max_vector_arity)) offset';
        Ok (inst :: const_insn offset' reg_method_offset :: rest)
      else
        rest ← create_invoke_insts_loop reg_vectors reg_method_offset
                 onMethodExit_map max_vector_arity num_invokes n'
                 (size_t (i + 1)) (size_t (v - max_vector_arity)) offset;
        Ok (inst :: rest)
  end.

Definition create_invoke_insts (reg_vectors : list reg_t) (method_offset : Z)
    (reg_method_offset : reg_t) (onMethodExit_map : gmap Z DexMethod)
    (max_vector_arity num_invokes : Z) : result (list IRInstruction) :=
  create_invoke_insts_loop reg_vectors reg_method_offset onMethodExit_map
    max_vector_arity num_invokes (Z.to_nat num_invokes) 0
    (Z.of_nat (length reg_vectors)) method_offset.

(** The loop over the exit blocks in [insert_onMethodExit_calls]. *)
Fixpoint insert_exit_calls_loop (exit_blocks : list Block)
    (mk_insts : result (list IRInstruction)) (cfg : Cfg) : result Cfg :=
  match exit_blocks with
  | [] => Ok cfg
  | b :: rest =>
      insts ← mk_insts;
      insert_exit_calls_loop rest mk_insts
        (insert_before cfg (block_id b) (get_last_insn b) insts)
  end.

Definition insert_onMethodExit_calls (cfg : Cfg) (reg_vectors : list reg_t)
    (method_offset : Z) (reg_method_offset : reg_t)
    (onMethodExit_map : gmap Z DexMethod) (max_vector_arity : Z)
    : result (Z * Cfg) :=
  match reg_vectors with
  | [] => Ok (0, cfg)
  | _ :: _ =>
      let num_vectors := Z.of_nat (length reg_vectors) in
      num_invokes ← get_num_invokes num_vectors max_vector_arity;
      let exit_blocks := only_terminal_return_or_throw_blocks cfg in
      cfg' ← insert_exit_calls_loop exit_blocks
                (create_invoke_insts reg_vectors method_offset reg_method_offset
                   onMethodExit_map max_vector_arity num_invokes) cfg;
      Ok (Z.of_nat (length exit_blocks), cfg')
  end.

Fixpoint insert_block_coverage_computations (blocks : list BlockInfo)
    (reg_vectors : list reg_t) (cfg : Cfg) : result Cfg :=
  match blocks with
  | [] => Ok cfg
  | info :: rest =>
      if negb (is_instrumentable info)
      then insert_block_coverage_computations rest reg_vectors cfg
      else
        let bit_id := bi_bit_id info in
        let vector_id := bit_id / BIT_VECTOR_SIZE in
        r ← reg_vectors_at reg_vectors vector_id;
        (* bit_vectors[vector_id] |= 1 << bit_id' *)
        let inst :=
          or_int_lit16_insn (int16_t (Z.shiftl 1 (bit_id mod BIT_VECTOR_SIZE))) r r in
        insert_block_coverage_computations rest reg_vectors
          (insert_before cfg (block_id (bi_block info))
             (default 0%nat (bi_it info)) [inst])
  end.

(** The loop that fills [bit_id_2_block_id], [bit_id_2_source_blocks] and
    [rejected_blocks]. *)
Fixpoint collect_blocks (cfg : Cfg) (blocks : list BlockInfo)
    (ids : list BlockId) (sbs : list (list SourceBlock))
    (rejected : gmap Z BlockType)
    : list BlockId * list (list SourceBlock) * gmap Z BlockType :=
  match blocks with
  | [] => (ids, sbs, rejected)
  | i :: rest =>
      if is_instrumentable i
      then collect_blocks cfg rest (ids ++ [block_id (bi_block i)])
             (sbs ++ [gather_source_blocks cfg (bi_block i)]) rejected
      else collect_blocks cfg rest ids sbs
             (<[block_id (bi_block i) := bi_type i]> rejected)
  end.

(** The condition under which the post-condition violation is traced. *)
Definition post_condition_violation (info : MethodInfo) (num_to_instrument : Z)
    : bool :=
  negb (match get_instrumented_type info with MethodOnly => true | _ => false end)
  && negb (Z.eqb num_to_instrument
             (size_t (num_non_entry_blocks info
                      - Z.of_nat (size (rejected_blocks info))))).

(** [instrument_basic_blocks], on the editable CFG built from the method's
    code.  Returns the record, the edited CFG, and whether the
    post-condition violation was traced. *)
Definition instrument_basic_blocks (cfg : Cfg) (method onMethodBegin : DexMethod)
    (onMethodExit_map : gmap Z DexMethod)
    (max_vector_arity method_offset max_num_blocks : Z) (options : Options)
    : result (MethodInfo * Cfg * bool) :=
  (* Step 1: Get sorted basic blocks to instrument with their information. *)
  let '(blocks, num_to_instrument, too_many_blocks) :=
    get_blocks_to_instrument cfg max_num_blocks options in
  (* Step 2: Insert onMethodBegin and the bit-vector allocation code. *)
  let num_vectors := (num_to_instrument + (BIT_VECTOR_SIZE - 1)) / BIT_VECTOR_SIZE in
  let '(reg_vectors, reg_method_offset, cfg1) :=
    insert_prologue_insts cfg onMethodBegin num_vectors method_offset in
  (* Step 3: Insert block coverage update instructions to each blocks. *)
  cfg2 ← insert_block_coverage_computations blocks reg_vectors cfg1;
  (* Step 4: Insert onMethodExit in exit block(s). *)
  '(num_exit_calls, cfg3) ←
    insert_onMethodExit_calls cfg2 reg_vectors method_offset reg_method_offset
      onMethodExit_map max_vector_arity;
  let cfg4 := recompute_registers_size cfg3 in
  let count := fun type => count_if (has_type type) blocks in
  let non_entry := size_t (blocks_size cfg4 - 1) in
  let '(ids, sbs, rejected) := collect_blocks cfg4 blocks [] [] ∅ in
  let info :=
    {| method := method;
       too_many_blocks := too_many_blocks;
       offset := method_offset;
       num_non_entry_blocks := non_entry;
       num_vectors := num_vectors;
       num_exit_calls := num_exit_calls;
       num_empty_blocks := count BlockType.Empty;
       num_useless_blocks := count BlockType.Useless;
       num_no_source_blocks := count BlockType.NoSourceBlock;
       num_blocks_too_large := if too_many_blocks then non_entry else 0;
       num_catches := count BlockType.Catch;
       num_instrumented_catches :=
         count (bt_or BlockType.Catch BlockType.Instrumentable);
       num_instrumented_blocks := num_to_instrument;
       bit_id_2_block_id := ids;
       bit_id_2_source_blocks := sbs;
       rejected_blocks := rejected |} in
  _ ← always_assert_log (Z.eqb (count BlockType.Instrumentable) num_to_instrument)
        "count(BlockType::Instrumentable) == num_to_instrument";
  let num_rejected_blocks :=
    size_t (size_t (size_t (size_t (num_empty_blocks info + num_useless_blocks info)
                            + num_no_source_blocks info)
                    + num_blocks_too_large info)
            + size_t (num_catches info - num_instrumented_catches info)) in
  _ ← always_assert_log
        (Z.eqb (num_non_entry_blocks info)
               (size_t (num_instrumented_blocks info + num_rejected_blocks)))
        "info.num_non_entry_blocks == info.num_instrumented_blocks + num_rejected_blocks";
  _ ← always_assert_log
        (too_many_blocks
         || Z.eqb (Z.of_nat (size (rejected_blocks info))) num_rejected_blocks)
        "too_many_blocks || info.rejected_blocks.size() == num_rejected_blocks";
  Ok (info, cfg4, post_condition_violation info num_to_instrument).

End WithCfg.

(** *** Cold-start classes and method selection *)

(** [s.back() = c]; writing through [back()] of an empty string is
    undefined and modelled as an abort. *)
Fixpoint set_back (s : string) (c : ascii) : result string :=
  match s with
  | EmptyString => Fatal "back() of an empty string"
  | String a EmptyString => Ok (String c EmptyString)
  | String a s' => s'' ← set_back s' c; Ok (String a s'')
  end.

(** The string [s] with its last character replaced by [c]. *)
Fixpoint with_back (c : ascii) (s : string) : string :=
  match s with
  | EmptyString => EmptyString
  | String a EmptyString => String c EmptyString
  | String a s' => String a (with_back c s')
  end.

Definition dex_end_marker0 : string := "LDexEndMarker0;".

(** The loop of [get_cold_start_classes]. *)
Fixpoint get_cold_start_classes_loop (interdex_list : list string)
    (cold_start_classes : gset string) : result (gset string) :=
  match interdex_list with
  | [] => Ok cold_start_classes
  | class_string :: rest =>
      if String.eqb class_string dex_end_marker0 then Ok cold_start_classes
      else
        class_string' ← set_back class_string "/"%char;
        get_cold_start_classes_loop rest ({[class_string']} ∪ cold_start_classes)
  end.

(** [get_cold_start_classes(cfg)], with [cfg.get_coldstart_classes()] for
    the configuration. *)
Definition get_cold_start_classes (coldstart_classes : list string)
    : result (gset string) :=
  get_cold_start_classes_loop coldstart_classes ∅.

(** What the [walk::code] callback of [do_basic_block_tracing] decides for
    one method before it instruments it. *)
Inductive Selection :=
| Special
| NotInAllowOrColdStart
| Blocklisted
| InstrumentIt (picked_by_allowlist picked_by_cs : bool).

Section Selection.
(** [InstrumentPass::is_included(method, set)] *)
Variable is_included : DexMethod -> gset string -> bool.

Definition select_method (options : Options) (analysis_clinit : option DexMethod)
    (onMethodBegin : DexMethod) (onMethodExit_map : gmap Z DexMethod)
    (cold_start_classes : gset string) (method : DexMethod) : Selection :=
  if bool_decide (Some method = analysis_clinit) || String.eqb method onMethodBegin
  then Special
  else if existsb (fun e => String.eqb (snd e) method) (map_to_list onMethodExit_map)
  then Special
  else
    let blocklist_check picked_a picked_cs :=
      if is_included method (blocklist options) then Blocklisted
      else InstrumentIt picked_a picked_cs in
    if negb (bool_decide (allowlist options = ∅)) || only_cold_start_class options
    then
      if is_included method (allowlist options) then blocklist_check true false
      else if is_included method cold_start_classes then blocklist_check false true
      else NotInAllowOrColdStart
    else blocklist_check false false.

(** The selection of every method of the scope, from the configured
    cold-start list. *)
Definition select_methods (options : Options) (analysis_clinit : option DexMethod)
    (onMethodBegin : DexMethod) (onMethodExit_map : gmap Z DexMethod)
    (coldstart_classes : list string) (methods : list DexMethod)
    : result (list Selection) :=
  cold_start_classes ← get_cold_start_classes coldstart_classes;
  Ok (List.map (select_method options analysis_clinit onMethodBegin
                  onMethodExit_map cold_start_classes) methods).

End Selection.

(** *** The analysis methods and the walk over the scope *)

(** A direct method of the analysis class, as [load_onMethodBegin] and
    [build_onMethodExit_map] read it: the method, its name and the argument
    types of its prototype. *)
Record DirectMethod := {
  dm_method : DexMethod;
  dm_name : string;
  dm_args : list string;
}.

(** The prototype test of [build_onMethodExit_map]: no argument, a first
    argument that is not [I], or a later one that is not [S]. *)
Definition bad_onMethodExit_proto (args : list string) : bool :=
  match args with
  | [] => true
  | first :: others =>
      negb (String.eqb first "I")
      || existsb (fun type => negb (String.eqb type "S")) others
  end.

Fixpoint build_onMethodExit_map_loop (dmethods : list DirectMethod)
    (onMethodExit_name : string) (onMethodExit_map : gmap Z DexMethod)
    : result (gmap Z DexMethod) :=
  match dmethods with
  | [] => Ok onMethodExit_map
  | m :: rest =>
      if negb (String.eqb onMethodExit_name (dm_name m))
      then build_onMethodExit_map_loop rest onMethodExit_name onMethodExit_map
      else
        _ ← always_assert_log (negb (bad_onMethodExit_proto (dm_args m)))
              "Proto type of onMethodExit must be (int) or (int, short, ..., short)";
        (* -1 is to exclude `int offset`. *)
        build_onMethodExit_map_loop rest onMethodExit_name
          (<[size_t (Z.of_nat (length (dm_args m)) - 1) := dm_method m]>
             onMethodExit_map)
  end.

Definition build_onMethodExit_map (dmethods : list DirectMethod)
    (onMethodExit_name : string) : result (gmap Z DexMethod) :=
  onMethodExit_map ← build_onMethodExit_map_loop dmethods onMethodExit_name ∅;
  _ ← always_assert_log (negb (bool_decide (onMethodExit_map = ∅)))
        "cannot find onMethodExit";
  Ok onMethodExit_map.

Fixpoint load_onMethodBegin (dmethods : list DirectMethod) (method_name : string)
    : result DexMethod :=
  match dmethods with
  | [] => Fatal "cannot find onMethodBegin"
  | m :: rest =>
      if negb (String.eqb method_name (dm_name m))
      then load_onMethodBegin rest method_name
      else
        _ ← always_assert_log
              (negb (negb (Nat.eqb (length (dm_args m)) 1)
                     || negb (String.eqb (hd "" (dm_args m)) "I")))
              "Proto type of onMethodBegin must be onMethodBegin(int)";
        Ok (dm_method m)
  end.

Section Tracing.
Context `{ControlFlowGraph Cfg}.
Variable is_included : DexMethod -> gset string -> bool.

(** The callback that [do_basic_block_tracing] hands to [walk::code], over
    the methods in the order of the walk, each with the editable CFG of its
    code; [method_offset] and [instrumented_methods] are the captured
    variables. *)
Fixpoint trace_methods (options : Options) (analysis_clinit : option DexMethod)
    (onMethodBegin : DexMethod) (onMethodExit_map : gmap Z DexMethod)
    (max_vector_arity : Z) (cold_start_classes : gset string)
    (methods : list (DexMethod * Cfg))
    (method_offset : Z) (instrumented_methods : list (MethodInfo * Cfg))
    : result (list (MethodInfo * Cfg) * Z) :=
  match methods with
  | [] => Ok (instrumented_methods, method_offset)
  | (method, cfg) :: rest =>
      match select_method is_included options analysis_clinit onMethodBegin
              onMethodExit_map cold_start_classes method with
      | InstrumentIt _ _ =>
          '(method_info, cfg', _) ←
            instrument_basic_blocks cfg method onMethodBegin onMethodExit_map
              max_vector_arity method_offset (max_num_blocks options) options;
          (* Update method offset for next method. 2 shorts are for method
             stats. *)
          trace_methods options analysis_clinit onMethodBegin onMethodExit_map
            max_vector_arity cold_start_classes rest
            (size_t (method_offset + size_t (2 + num_vectors method_info)))
            (instrumented_methods ++ [(method_info, cfg')])
      | _ =>
          trace_methods options analysis_clinit onMethodBegin onMethodExit_map
            max_vector_arity cold_start_classes rest
            method_offset instrumented_methods
      end
  end.

(** The walk from the state in which [do_basic_block_tracing] starts it: a
    header of 8 shorts in front of the first method profile, and no method
    instrumented. *)
Definition trace_scope (options : Options) (analysis_clinit : option DexMethod)
    (onMethodBegin : DexMethod) (onMethodExit_map : gmap Z DexMethod)
    (max_vector_arity : Z) (cold_start_classes : gset string)
    (methods : list (DexMethod * Cfg)) : result (list (MethodInfo * Cfg) * Z) :=
  trace_methods options analysis_clinit onMethodBegin onMethodExit_map
    max_vector_arity cold_start_classes methods 8 [].

(** The methods that the callback instruments. *)
Definition selected (options : Options) (analysis_clinit : option DexMethod)
    (onMethodBegin : DexMethod) (onMethodExit_map : gmap Z DexMethod)
    (cold_start_classes : gset string) (method : DexMethod) : bool :=
  match select_method is_included options analysis_clinit onMethodBegin
          onMethodExit_map cold_start_classes method with
  | InstrumentIt _ _ => true
  | _ => false
  end.

End Tracing.

(** The [sMethodStats] slot behind the profiles of [infos], from [start]. *)
Definition next_method_offset (start : Z) (infos : list MethodInfo) : Z :=
  fold_left (fun o info => size_t (o + size_t (2 + num_vectors info))) infos start.

(** *** Vocabulary of the properties *)

(** The vector registers that an [onMethodExit] call passes: its sources
    behind the method offset. *)
Definition vector_args (inst : IRInstruction) : list Z :=
  match insn_opcode inst with
  | OPCODE_INVOKE_STATIC => tl (insn_srcs inst)
  | _ => []
  end.

(** A catch block that is rejected as useless or for its missing source
    blocks. *)
Definition rejected_catch_counted_twice (i : BlockInfo) : bool :=
  has_type BlockType.Catch i
  && (has_type BlockType.Useless i || has_type BlockType.NoSourceBlock i).

(** A flag as a count. *)
Definition b2z (b : bool) : Z := if b then 1 else 0.

(** *** A list-backed control-flow graph

    Blocks are never split by an insertion; every edit is recorded. *)

Record ListCfg := {
  lc_entry : Block;
  lc_blocks : list Block;
  lc_order : list Block;
  lc_exits : list Block;
  lc_next_temp : reg_t;
  lc_registers_size : Z;
  lc_inserted : list (BlockId * iterator * list IRInstruction);
}.

#[global] Instance ListCfg_cfg : ControlFlowGraph ListCfg := {
  entry_block := lc_entry;
  blocks_size c := Z.of_nat (length (lc_blocks c));
  visit_in_order := lc_order;
  allocate_temp c :=
    (lc_next_temp c,
     {| lc_entry := lc_entry c; lc_blocks := lc_blocks c; lc_order := lc_order c;
        lc_exits := lc_exits c; lc_next_temp := lc_next_temp c + 1;
        lc_registers_size := lc_registers_size c;
        lc_inserted := lc_inserted c |});
  insert_before c b pos insns :=
    {| lc_entry := lc_entry c; lc_blocks := lc_blocks c; lc_order := lc_order c;
       lc_exits := lc_exits c; lc_next_temp := lc_next_temp c;
       lc_registers_size := lc_registers_size c;
       lc_inserted := lc_inserted c ++ [(b, pos, insns)] |};
  real_exit_blocks := lc_exits;
  recompute_registers_size c :=
    {| lc_entry := lc_entry c; lc_blocks := lc_blocks c; lc_order := lc_order c;
       lc_exits := lc_exits c; lc_next_temp := lc_next_temp c;
       lc_registers_size := lc_next_temp c;
       lc_inserted := lc_inserted c |};
  gather_source_blocks _ b :=
    if has_source_blocks b then [("LFoo;.bar:()V", block_id b)] else [];
}.

Definition opcode_entry (op : IROpcode) : MethodItemEntry :=
  {| mie_type := MFLOW_OPCODE; mie_opcode := op |}.
Definition source_block_entry : MethodItemEntry :=
  {| mie_type := MFLOW_SOURCE_BLOCK; mie_opcode := OPCODE_NOP |}.

(** A method of four blocks: entry [B0], a plain block [B1], a returning
    block [B2] and a catch handler [B3]. *)
Definition sample_B0 : Block :=
  {| block_id := 0;
     block_entries := [opcode_entry IOPCODE_LOAD_PARAM; source_block_entry;
                       opcode_entry (OPCODE_OTHER 1)];
     num_opcodes := 2; is_catch := false;
     starts_with_move_result := false; starts_with_move_exception := false;
     get_first_insn := 0%nat; get_last_insn := 2%nat;
     get_first_non_param_loading_insn := 2%nat;
     succs := [1]; get_outgoing_throws_in_order := [];
     has_source_blocks := true |}.
Definition sample_B1 : Block :=
  {| block_id := 1;
     block_entries := [source_block_entry; opcode_entry (OPCODE_OTHER 2)];
     num_opcodes := 1; is_catch := false;
     starts_with_move_result := false; starts_with_move_exception := false;
     get_first_insn := 1%nat; get_last_insn := 1%nat;
     get_first_non_param_loading_insn := 1%nat;
     succs := [2]; get_outgoing_throws_in_order := [3];
     has_source_blocks := true |}.
Definition sample_B2 : Block :=
  {| block_id := 2;
     block_entries := [opcode_entry OPCODE_RETURN_VOID];
     num_opcodes := 1; is_catch := false;
     starts_with_move_result := false; starts_with_move_exception := false;
     get_first_insn := 0%nat; get_last_insn := 0%nat;
     get_first_non_param_loading_insn := 0%nat;
     succs := []; get_outgoing_throws_in_order := [];
     has_source_blocks := false |}.
Definition sample_B3 : Block :=
  {| block_id := 3;
     block_entries := [opcode_entry OPCODE_MOVE_EXCEPTION; opcode_entry OPCODE_THROW];
     num_opcodes := 2; is_catch := true;
     starts_with_move_result := false; starts_with_move_exception := true;
     get_first_insn := 0%nat; get_last_insn := 1%nat;
     get_first_non_param_loading_insn := 0%nat;
     succs := []; get_outgoing_throws_in_order := [];
     has_source_blocks := false |}.

Definition sample_cfg : ListCfg :=
  {| lc_entry := sample_B0;
     lc_blocks := [sample_B0; sample_B1; sample_B2; sample_B3];
     lc_order := [sample_B0; sample_B1; sample_B2; sample_B3];
     lc_exits := [sample_B2; sample_B3];
     lc_next_temp := 4; lc_registers_size := 4; lc_inserted := [] |}.

Definition sample_options : Options :=
  {| instrument_catches := false;
     instrument_blocks_without_source_block := false;
     num_shards := 1; num_stats_per_method := 0;
     analysis_method_names := ["onMethodBegin"; "onMethodExit"];
     max_num_blocks := 500;
     allowlist := ∅; blocklist := ∅;
     only_cold_start_class := true;
     instrument_only_root_store := false |}.

Definition sample_onMethodExit_map : gmap Z DexMethod :=
  {[ 1 := "LAnalysis;.onMethodExit:(IS)V"; 2 := "LAnalysis;.onMethodExit:(ISS)V" ]}.

Definition sample_onMethodBegin : DexMethod := "LAnalysis;.onMethodBegin:(I)V".

(** A catch handler that only moves the exception: no instruction is left to
    insert in front of. *)
Definition sample_B4 : Block :=
  {| block_id := 4;
     block_entries := [opcode_entry OPCODE_MOVE_EXCEPTION];
     num_opcodes := 1; is_catch := true;
     starts_with_move_result := false; starts_with_move_exception := true;
     get_first_insn := 0%nat; get_last_insn := 0%nat;
     get_first_non_param_loading_insn := 0%nat;
     succs := [2]; get_outgoing_throws_in_order := [];
     has_source_blocks := false |}.

Definition sample_cfg_catch : ListCfg :=
  {| lc_entry := sample_B0;
     lc_blocks := [sample_B0; sample_B1; sample_B2; sample_B4];
     lc_order := [sample_B0; sample_B1; sample_B2; sample_B4];
     lc_exits := [sample_B2];
     lc_next_temp := 4; lc_registers_size := 4; lc_inserted := [] |}.

Definition sample_options_catches : Options :=
  {| instrument_catches := true;
     instrument_blocks_without_source_block := false;
     num_shards := 1; num_stats_per_method := 0;
     analysis_method_names := ["onMethodBegin"; "onMethodExit"];
     max_num_blocks := 500;
     allowlist := ∅; blocklist := ∅;
     only_cold_start_class := false;
     instrument_only_root_store := false |}.

Definition sample_dmethods : list DirectMethod :=
  [ {| dm_method := "LAnalysis;.onMethodBegin:(I)V"; dm_name := "onMethodBegin";
       dm_args := ["I"] |};
    {| dm_method := "LAnalysis;.onMethodExit:(IS)V"; dm_name := "onMethodExit";
       dm_args := ["I"; "S"] |};
    {| dm_method := "LAnalysis;.onMethodExit:(ISS)V"; dm_name := "onMethodExit";
       dm_args := ["I"; "S"; "S"] |} ].

(** A stand-in for [InstrumentPass::is_included]: the set lists the methods
    themselves. *)
Definition sample_is_included (method : DexMethod) (set : gset string) : bool :=
  bool_decide (method ∈ set).

End BlockInstrument.

(** ** opt/interdex/InterDex.cpp *)

Module InterDex.

Definition CANARY_PREFIX : string := "Lsecondary/dex".
Definition CANARY_CLASS_PREFIX : string := "Lsecondary/dex".
Definition CANARY_CLASS_SUFFIX : string := "/Canary;".
(** [sizeof("Lsecondary/dex%02d/Canary;")], the terminating zero included *)
Definition CANARY_CLASS_BUFSIZE : Z := 27.
Definition END_MARKER_FORMAT : string := "LDexEndMarker".
Definition SCROLL_SET_START_FORMAT : string := "LScrollSetStart".
Definition SCROLL_SET_END_FORMAT : string := "LScrollSetEnd".
Definition BG_SET_START_FORMAT : string := "LBackgroundSetStart".
Definition BG_SET_END_FORMAT : string := "LBackgroundSetEnd".
Definition MAX_DEX_NUM : Z := 99.

Abbreviation DexType := string (only parsing).

(** The object behind a [DexClass*].  Two pointers are equal when they name
    the same type. *)
Record DexClass := {
  cls_type : DexType;
  cls_is_interface : bool;
  cls_super_class : option DexType;
  cls_interfaces : list DexType;
  cls_mrefs : list string;   (* [gather_methods] *)
  cls_frefs : list string;   (* [gather_fields] *)
  cls_trefs : list string;   (* [gather_types] *)
}.

#[global] Instance DexClass_eq_dec : EqDecision DexClass.
Proof. solve_decision. Defined.

Record DexInfo := {
  primary : bool;
  coldstart : bool;
  extended : bool;
  scroll : bool;
  background : bool;
  betamap_ordered : bool;
}.

Definition EMPTY_DEX_INFO : DexInfo :=
  {| primary := false; coldstart := false; extended := false;
     scroll := false; background := false; betamap_ordered := false |}.

Definition set_coldstart (d : DexInfo) (b : bool) : DexInfo :=
  {| primary := primary d; coldstart := b; extended := extended d;
     scroll := scroll d; background := background d;
     betamap_ordered := betamap_ordered d |}.
Definition set_extended (d : DexInfo) (b : bool) : DexInfo :=
  {| primary := primary d; coldstart := coldstart d; extended := b;
     scroll := scroll d; background := background d;
     betamap_ordered := betamap_ordered d |}.
Definition set_scroll (d : DexInfo) (b : bool) : DexInfo :=
  {| primary := primary d; coldstart := coldstart d; extended := extended d;
     scroll := b; background := background d;
     betamap_ordered := betamap_ordered d |}.
Definition set_background (d : DexInfo) (b : bool) : DexInfo :=
  {| primary := primary d; coldstart := coldstart d; extended := extended d;
     scroll := scroll d; background := b;
     betamap_ordered := betamap_ordered d |}.
Definition set_betamap_ordered (d : DexInfo) (b : bool) : DexInfo :=
  {| primary := primary d; coldstart := coldstart d; extended := extended d;
     scroll := scroll d; background := background d;
     betamap_ordered := b |}.

(** *** The accumulator of the packer *)

(** Modelled from the spec: [DexesStructure] (DexStructure.h is not part of
    the sources).  Current-DEX state: accumulated method, field and type
    refs, classes, squashed classes; add-with-check returns [false] and
    changes nothing when the add would exceed a per-DEX cap; add-no-check
    always adds; end-dex closes the current DEX and yields its classes; the
    class-presence query ranges over every DEX. *)
Record DexesStructure := {
  ds_max_mrefs : Z;
  ds_max_frefs : Z;
  ds_max_trefs : Z;
  ds_current_classes : list DexClass;
  ds_current_squashed_classes : list DexClass;
  ds_current_mrefs : gset string;
  ds_current_frefs : gset string;
  ds_current_trefs : gset string;
  ds_classes : gset string;
  ds_num_dexes : Z;
  ds_num_secondary_dexes : Z;
  ds_num_coldstart_dexes : Z;
  ds_num_extended_dexes : Z;
  ds_num_scroll_dexes : Z;
}.

Definition has_class (ds : DexesStructure) (clazz : DexClass) : bool :=
  bool_decide (cls_type clazz ∈ ds_classes ds).
Definition get_current_dex_classes (ds : DexesStructure) : list DexClass :=
  ds_current_classes ds.
Definition get_current_dex_squashed_classes (ds : DexesStructure) : list DexClass :=
  ds_current_squashed_classes ds.
Definition get_num_dexes (ds : DexesStructure) : Z := ds_num_dexes ds.

(** [add_class_no_checks(mrefs, frefs, trefs, clazz)] *)
Definition add_class_no_checks (ds : DexesStructure)
    (mrefs frefs trefs : gset string) (clazz : DexClass) : DexesStructure :=
  {| ds_max_mrefs := ds_max_mrefs ds; ds_max_frefs := ds_max_frefs ds;
     ds_max_trefs := ds_max_trefs ds;
     ds_current_classes := ds_current_classes ds ++ [clazz];
     ds_current_squashed_classes := ds_current_squashed_classes ds;
     ds_current_mrefs := ds_current_mrefs ds ∪ mrefs;
     ds_current_frefs := ds_current_frefs ds ∪ frefs;
     ds_current_trefs := ds_current_trefs ds ∪ trefs;
     ds_classes := {[cls_type clazz]} ∪ ds_classes ds;
     ds_num_dexes := ds_num_dexes ds;
     ds_num_secondary_dexes := ds_num_secondary_dexes ds;
     ds_num_coldstart_dexes := ds_num_coldstart_dexes ds;
     ds_num_extended_dexes := ds_num_extended_dexes ds;
     ds_num_scroll_dexes := ds_num_scroll_dexes ds |}.

(** [add_class_no_checks(clazz)] *)
Definition add_class_no_checks_norefs (ds : DexesStructure) (clazz : DexClass)
    : DexesStructure :=
  add_class_no_checks ds ∅ ∅ ∅ clazz.

(** Would the current DEX stay within the caps with these refs added? *)
Definition fits_caps (ds : DexesStructure) (mrefs frefs trefs : gset string) : bool :=
  Z.leb (Z.of_nat (size (ds_current_mrefs ds ∪ mrefs))) (ds_max_mrefs ds)
  && Z.leb (Z.of_nat (size (ds_current_frefs ds ∪ frefs))) (ds_max_frefs ds)
  && Z.leb (Z.of_nat (size (ds_current_trefs ds ∪ trefs))) (ds_max_trefs ds).

Definition add_class_to_current_dex (ds : DexesStructure)
    (mrefs frefs trefs : gset string) (clazz : DexClass) : bool * DexesStructure :=
  if fits_caps ds mrefs frefs trefs
  then (true, add_class_no_checks ds mrefs frefs trefs clazz)
  else (false, ds).

Definition end_dex (ds : DexesStructure) (dex_info : DexInfo)
    : list DexClass * DexesStructure :=
  let bump (b : bool) (n : Z) := if b then n + 1 else n in
  (ds_current_classes ds,
   {| ds_max_mrefs := ds_max_mrefs ds; ds_max_frefs := ds_max_frefs ds;
      ds_max_trefs := ds_max_trefs ds;
      ds_current_classes := [];
      ds_current_squashed_classes := [];
      ds_current_mrefs := ∅; ds_current_frefs := ∅; ds_current_trefs := ∅;
      ds_classes := ds_classes ds;
      ds_num_dexes := ds_num_dexes ds + 1;
      ds_num_secondary_dexes := bump (negb (primary dex_info)) (ds_num_secondary_dexes ds);
      ds_num_coldstart_dexes := bump (coldstart dex_info) (ds_num_coldstart_dexes ds);
      ds_num_extended_dexes := bump (extended dex_info) (ds_num_extended_dexes ds);
      ds_num_scroll_dexes := bump (scroll dex_info) (ds_num_scroll_dexes ds) |}).

(** *** Plugins

    A plugin is seen through its callbacks, which are functions of their
    arguments here. *)
Record InterDexPassPlugin := {
  plugin_name : string;
  should_skip_class : DexClass -> bool;
  (** extra method, field and type refs, and erased classes *)
  plugin_gather_refs :
    DexInfo -> DexClass -> bool ->
    list string * list string * list string * list DexClass;
  plugin_should_not_relocate_methods_of_class : DexClass -> bool;
  additional_classes : list (list DexClass) -> list DexClass -> list DexClass;
  leftover_classes : list DexClass;
}.

(** The type system services used by the compressed-size order. *)
Class TypeSystem := {
  check_cast : DexType -> DexType -> bool;
  compare_dextypes : option DexType -> option DexType -> bool;
  compare_dextypelists : list DexType -> list DexType -> bool;
}.

(** *** The packer state

    The members of [InterDex] that this file reads or writes, and the part of
    the process-wide class table it touches. *)
Record State := {
  (** [type_class]: the class defined for a type, if any *)
  g_type_class : gmap string DexClass;
  (** the classes whose [is_perf_sensitive()] holds *)
  g_perf_sensitive : gset string;
  (** the classes whose [rstate] has [keepnames] set *)
  g_keepnames : gset string;
  m_dexes_structure : DexesStructure;
  m_plugins : list InterDexPassPlugin;
  m_scope : list DexClass;
  m_emit_canaries : bool;
  m_sort_remaining_classes : bool;
  m_minimize_cross_dex_refs : bool;
  m_emitting_scroll_set : bool;
  m_emitting_bg_set : bool;
  m_emitted_bg_set : bool;
  m_emitting_extended : bool;
  m_end_markers : list DexType;
  m_outdex : list (list DexClass);
  m_dex_infos : list (string * DexInfo);
  m_current_classes_when_emitting_remaining : Z;
}.

(** Assignments to one member. *)
Definition set_g_type_class (st : State) (v : gmap string DexClass) : State :=
  {| g_type_class := v;
     g_perf_sensitive := g_perf_sensitive st;
     g_keepnames := g_keepnames st;
     m_dexes_structure := m_dexes_structure st;
     m_plugins := m_plugins st;
     m_scope := m_scope st;
     m_emit_canaries := m_emit_canaries st;
     m_sort_remaining_classes := m_sort_remaining_classes st;
     m_minimize_cross_dex_refs := m_minimize_cross_dex_refs st;
     m_emitting_scroll_set := m_emitting_scroll_set st;
     m_emitting_bg_set := m_emitting_bg_set st;
     m_emitted_bg_set := m_emitted_bg_set st;
     m_emitting_extended := m_emitting_extended st;
     m_end_markers := m_end_markers st;
     m_outdex := m_outdex st;
     m_dex_infos := m_dex_infos st;
     m_current_classes_when_emitting_remaining := m_current_classes_when_emitting_remaining st |}.
Definition set_g_perf_sensitive (st : State) (v : gset string) : State :=
  {| g_type_class := g_type_class st;
     g_perf_sensitive := v;
     g_keepnames := g_keepnames st;
     m_dexes_structure := m_dexes_structure st;
     m_plugins := m_plugins st;
     m_scope := m_scope st;
     m_emit_canaries := m_emit_canaries st;
     m_sort_remaining_classes := m_sort_remaining_classes st;
     m_minimize_cross_dex_refs := m_minimize_cross_dex_refs st;
     m_emitting_scroll_set := m_emitting_scroll_set st;
     m_emitting_bg_set := m_emitting_bg_set st;
     m_emitted_bg_set := m_emitted_bg_set st;
     m_emitting_extended := m_emitting_extended st;
     m_end_markers := m_end_markers st;
     m_outdex := m_outdex st;
     m_dex_infos := m_dex_infos st;
     m_current_classes_when_emitting_remaining := m_current_classes_when_emitting_remaining st |}.
Definition set_g_keepnames (st : State) (v : gset string) : State :=
  {| g_type_class := g_type_class st;
     g_perf_sensitive := g_perf_sensitive st;
     g_keepnames := v;
     m_dexes_structure := m_dexes_structure st;
     m_plugins := m_plugins st;
     m_scope := m_scope st;
     m_emit_canaries := m_emit_canaries st;
     m_sort_remaining_classes := m_sort_remaining_classes st;
     m_minimize_cross_dex_refs := m_minimize_cross_dex_refs st;
     m_emitting_scroll_set := m_emitting_scroll_set st;
     m_emitting_bg_set := m_emitting_bg_set st;
     m_emitted_bg_set := m_emitted_bg_set st;
     m_emitting_extended := m_emitting_extended st;
     m_end_markers := m_end_markers st;
     m_outdex := m_outdex st;
     m_dex_infos := m_dex_infos st;
     m_current_classes_when_emitting_remaining := m_current_classes_when_emitting_remaining st |}.
Definition set_m_dexes_structure (st : State) (v : DexesStructure) : State :=
  {| g_type_class := g_type_class st;
     g_perf_sensitive := g_perf_sensitive st;
     g_keepnames := g_keepnames st;
     m_dexes_structure := v;
     m_plugins := m_plugins st;
     m_scope := m_scope st;
     m_emit_canaries := m_emit_canaries st;
     m_sort_remaining_classes := m_sort_remaining_classes st;
     m_minimize_cross_dex_refs := m_minimize_cross_dex_refs st;
     m_emitting_scroll_set := m_emitting_scroll_set st;
     m_emitting_bg_set := m_emitting_bg_set st;
     m_emitted_bg_set := m_emitted_bg_set st;
     m_emitting_extended := m_emitting_extended st;
     m_end_markers := m_end_markers st;
     m_outdex := m_outdex st;
     m_dex_infos := m_dex_infos st;
     m_current_classes_when_emitting_remaining := m_current_classes_when_emitting_remaining st |}.
Definition set_m_emitting_scroll_set (st : State) (v : bool) : State :=
  {| g_type_class := g_type_class st;
     g_perf_sensitive := g_perf_sensitive st;
     g_keepnames := g_keepnames st;
     m_dexes_structure := m_dexes_structure st;
     m_plugins := m_plugins st;
     m_scope := m_scope st;
     m_emit_canaries := m_emit_canaries st;
     m_sort_remaining_classes := m_sort_remaining_classes st;
     m_minimize_cross_dex_refs := m_minimize_cross_dex_refs st;
     m_emitting_scroll_set := v;
     m_emitting_bg_set := m_emitting_bg_set st;
     m_emitted_bg_set := m_emitted_bg_set st;
     m_emitting_extended := m_emitting_extended st;
     m_end_markers := m_end_markers st;
     m_outdex := m_outdex st;
     m_dex_infos := m_dex_infos st;
     m_current_classes_when_emitting_remaining := m_current_classes_when_emitting_remaining st |}.
Definition set_m_emitting_bg_set (st : State) (v : bool) : State :=
  {| g_type_class := g_type_class st;
     g_perf_sensitive := g_perf_sensitive st;
     g_keepnames := g_keepnames st;
     m_dexes_structure := m_dexes_structure st;
     m_plugins := m_plugins st;
     m_scope := m_scope st;
     m_emit_canaries := m_emit_canaries st;
     m_sort_remaining_classes := m_sort_remaining_classes st;
     m_minimize_cross_dex_refs := m_minimize_cross_dex_refs st;
     m_emitting_scroll_set := m_emitting_scroll_set st;
     m_emitting_bg_set := v;
     m_emitted_bg_set := m_emitted_bg_set st;
     m_emitting_extended := m_emitting_extended st;
     m_end_markers := m_end_markers st;
     m_outdex := m_outdex st;
     m_dex_infos := m_dex_infos st;
     m_current_classes_when_emitting_remaining := m_current_classes_when_emitting_remaining st |}.
Definition set_m_emitted_bg_set (st : State) (v : bool) : State :=
  {| g_type_class := g_type_class st;
     g_perf_sensitive := g_perf_sensitive st;
     g_keepnames := g_keepnames st;
     m_dexes_structure := m_dexes_structure st;
     m_plugins := m_plugins st;
     m_scope := m_scope st;
     m_emit_canaries := m_emit_canaries st;
     m_sort_remaining_classes := m_sort_remaining_classes st;
     m_minimize_cross_dex_refs := m_minimize_cross_dex_refs st;
     m_emitting_scroll_set := m_emitting_scroll_set st;
     m_emitting_bg_set := m_emitting_bg_set st;
     m_emitted_bg_set := v;
     m_emitting_extended := m_emitting_extended st;
     m_end_markers := m_end_markers st;
     m_outdex := m_outdex st;
     m_dex_infos := m_dex_infos st;
     m_current_classes_when_emitting_remaining := m_current_classes_when_emitting_remaining st |}.
Definition set_m_emitting_extended (st : State) (v : bool) : State :=
  {| g_type_class := g_type_class st;
     g_perf_sensitive := g_perf_sensitive st;
     g_keepnames := g_keepnames st;
     m_dexes_structure := m_dexes_structure st;
     m_plugins := m_plugins st;
     m_scope := m_scope st;
     m_emit_canaries := m_emit_canaries st;
     m_sort_remaining_classes := m_sort_remaining_classes st;
     m_minimize_cross_dex_refs := m_minimize_cross_dex_refs st;
     m_emitting_scroll_set := m_emitting_scroll_set st;
     m_emitting_bg_set := m_emitting_bg_set st;
     m_emitted_bg_set := m_emitted_bg_set st;
     m_emitting_extended := v;
     m_end_markers := m_end_markers st;
     m_outdex := m_outdex st;
     m_dex_infos := m_dex_infos st;
     m_current_classes_when_emitting_remaining := m_current_classes_when_emitting_remaining st |}.
Definition set_m_outdex (st : State) (v : list (list DexClass)) : State :=
  {| g_type_class := g_type_class st;
     g_perf_sensitive := g_perf_sensitive st;
     g_keepnames := g_keepnames st;
     m_dexes_structure := m_dexes_structure st;
     m_plugins := m_plugins st;
     m_scope := m_scope st;
     m_emit_canaries := m_emit_canaries st;
     m_sort_remaining_classes := m_sort_remaining_classes st;
     m_minimize_cross_dex_refs := m_minimize_cross_dex_refs st;
     m_emitting_scroll_set := m_emitting_scroll_set st;
     m_emitting_bg_set := m_emitting_bg_set st;
     m_emitted_bg_set := m_emitted_bg_set st;
     m_emitting_extended := m_emitting_extended st;
     m_end_markers := m_end_markers st;
     m_outdex := v;
     m_dex_infos := m_dex_infos st;
     m_current_classes_when_emitting_remaining := m_current_classes_when_emitting_remaining st |}.
Definition set_m_dex_infos (st : State) (v : list (string * DexInfo)) : State :=
  {| g_type_class := g_type_class st;
     g_perf_sensitive := g_perf_sensitive st;
     g_keepnames := g_keepnames st;
     m_dexes_structure := m_dexes_structure st;
     m_plugins := m_plugins st;
     m_scope := m_scope st;
     m_emit_canaries := m_emit_canaries st;
     m_sort_remaining_classes := m_sort_remaining_classes st;
     m_minimize_cross_dex_refs := m_minimize_cross_dex_refs st;
     m_emitting_scroll_set := m_emitting_scroll_set st;
     m_emitting_bg_set := m_emitting_bg_set st;
     m_emitted_bg_set := m_emitted_bg_set st;
     m_emitting_extended := m_emitting_extended st;
     m_end_markers := m_end_markers st;
     m_outdex := m_outdex st;
     m_dex_infos := v;
     m_current_classes_when_emitting_remaining := m_current_classes_when_emitting_remaining st |}.
Definition set_m_current_classes_when_emitting_remaining (st : State) (v : Z) : State :=
  {| g_type_class := g_type_class st;
     g_perf_sensitive := g_perf_sensitive st;
     g_keepnames := g_keepnames st;
     m_dexes_structure := m_dexes_structure st;
     m_plugins := m_plugins st;
     m_scope := m_scope st;
     m_emit_canaries := m_emit_canaries st;
     m_sort_remaining_classes := m_sort_remaining_classes st;
     m_minimize_cross_dex_refs := m_minimize_cross_dex_refs st;
     m_emitting_scroll_set := m_emitting_scroll_set st;
     m_emitting_bg_set := m_emitting_bg_set st;
     m_emitted_bg_set := m_emitted_bg_set st;
     m_emitting_extended := m_emitting_extended st;
     m_end_markers := m_end_markers st;
     m_outdex := m_outdex st;
     m_dex_infos := m_dex_infos st;
     m_current_classes_when_emitting_remaining := v |}.

(** [cls->set_perf_sensitive(true)] *)
Definition set_perf_sensitive (st : State) (cls : DexClass) : State :=
  set_g_perf_sensitive st ({[cls_type cls]} ∪ g_perf_sensitive st).

Definition is_perf_sensitive (st : State) (cls : DexClass) : bool :=
  bool_decide (cls_type cls ∈ g_perf_sensitive st).

Definition type_class (st : State) (type : DexType) : option DexClass :=
  g_type_class st !! type.

Definition is_canary (clazz : DexClass) : bool :=
  starts_with (cls_type clazz) CANARY_PREFIX.

Definition should_skip_class_due_to_plugin (st : State) (clazz : DexClass) : bool :=
  existsb (fun plugin => should_skip_class plugin clazz) (m_plugins st).

Definition should_not_relocate_methods_of_class (st : State) (clazz : DexClass) : bool :=
  existsb (fun plugin => plugin_should_not_relocate_methods_of_class plugin clazz)
          (m_plugins st).

(** The loop over the plugins in [gather_refs]. *)
Fixpoint gather_refs_plugins (plugins : list InterDexPassPlugin)
    (dex_info : DexInfo) (cls : DexClass)
    (method_refs field_refs type_refs : list string)
    (erased_classes : option (list DexClass))
    (should_not_relocate : bool)
    : list string * list string * list string * option (list DexClass) :=
  match plugins with
  | [] => (method_refs, field_refs, type_refs, erased_classes)
  | plugin :: rest =>
      let '(ms, fs, ts, es) :=
        plugin_gather_refs plugin dex_info cls should_not_relocate in
      gather_refs_plugins rest dex_info cls
        (method_refs ++ ms) (field_refs ++ fs) (type_refs ++ ts)
        ((fun erased => erased ++ es) <$> erased_classes)
        should_not_relocate
  end.

Definition gather_refs (plugins : list InterDexPassPlugin) (dex_info : DexInfo)
    (cls : DexClass) (mrefs frefs trefs : gset string)
    (erased_classes : option (list DexClass)) (should_not_relocate : bool)
    : gset string * gset string * gset string * option (list DexClass) :=
  let '(method_refs, field_refs, type_refs, erased_classes') :=
    gather_refs_plugins plugins dex_info cls
      (cls_mrefs cls) (cls_frefs cls) (cls_trefs cls)
      erased_classes should_not_relocate in
  (mrefs ∪ list_to_set method_refs, frefs ∪ list_to_set field_refs,
   trefs ∪ list_to_set type_refs, erased_classes').

(** *** Flushing a DEX *)

Section WithTypeSystem.
Context `{TypeSystem}.

Definition bool_to_int (b : bool) : Z := if b then 1 else 0.

(** Compare two classes for sorting in a way that is best for compression. *)
Definition compare_dexclasses_for_compressed_size (c1 c2 : DexClass) : result bool :=
  (* Canary classes go first *)
  if negb (Bool.eqb (is_canary c1) (is_canary c2))
  then Ok (Z.gtb (bool_to_int (is_canary c1)) (bool_to_int (is_canary c2)))
  (* Interfaces go after non-interfaces *)
  else if negb (Bool.eqb (cls_is_interface c1) (cls_is_interface c2))
  then Ok (Z.ltb (bool_to_int (cls_is_interface c1)) (bool_to_int (cls_is_interface c2)))
  (* Base types and implemented interfaces go last *)
  else if check_cast (cls_type c2) (cls_type c1) then Ok false
  else
    _ ← always_assert_log (negb (String.eqb (cls_type c1) (cls_type c2))) "c1 != c2";
    if check_cast (cls_type c1) (cls_type c2) then Ok true
    (* If types are unrelated, sort by super-classes and then interfaces *)
    else if negb (bool_decide (cls_super_class c1 = cls_super_class c2))
    then Ok (compare_dextypes (cls_super_class c1) (cls_super_class c2))
    else if negb (bool_decide (cls_interfaces c1 = cls_interfaces c2))
    then Ok (compare_dextypelists (cls_interfaces c1) (cls_interfaces c2))
    else Ok false.

(** [std::stable_sort] by insertion: an element, taken in the order of the
    input, goes in front of the first placed element that it compares less
    than, hence behind the equivalent ones. *)
Fixpoint stable_insert {A} (comp : A -> A -> result bool) (x : A) (l : list A)
    : result (list A) :=
  match l with
  | [] => Ok [x]
  | y :: l' =>
      lt ← comp x y;
      if (lt : bool) then Ok (x :: y :: l')
      else (r ← stable_insert comp x l'; Ok (y :: r))
  end.

Fixpoint stable_sort_from {A} (comp : A -> A -> result bool) (sorted l : list A)
    : result (list A) :=
  match l with
  | [] => Ok sorted
  | x :: l' =>
      sorted' ← stable_insert comp x sorted;
      stable_sort_from comp sorted' l'
  end.

Definition stable_sort {A} (comp : A -> A -> result bool) (l : list A)
    : result (list A) :=
  stable_sort_from comp [] l.

(** [snprintf] with [%02d], for a non-negative number. *)
Definition format_02d (n : Z) : string :=
  if Z.ltb n 10 then "0" +:+ to_string n else to_string n.

(** [snprintf(buf, sizeof(buf), CANARY_CLASS_FORMAT, dexnum)] *)
Definition canary_class_name (dexnum : Z) : string :=
  String.substring 0 (Z.to_nat (CANARY_CLASS_BUFSIZE - 1))
    (CANARY_CLASS_PREFIX +:+ format_02d dexnum +:+ CANARY_CLASS_SUFFIX).

(** [ClassCreator cc(canary_type); cc.set_access(ACC_PUBLIC | ACC_INTERFACE |
    ACC_ABSTRACT); cc.set_super(type::java_lang_Object()); cc.create()] *)
Definition create_canary (canary_type : DexType) : DexClass :=
  {| cls_type := canary_type; cls_is_interface := true;
     cls_super_class := Some "Ljava/lang/Object;"; cls_interfaces := [];
     cls_mrefs := []; cls_frefs := []; cls_trefs := [] |}.

(** Find the Canary class and add it in. *)
Definition flush_canary (dex_info : DexInfo) (dexnum : Z) (st : State) : State :=
  if m_emit_canaries st && negb (primary dex_info) then
    let canary_name := canary_class_name dexnum in
    let '(canary_cls, st1) :=
      match type_class st canary_name with
      | Some canary_cls => (canary_cls, st)
      | None =>
          let canary_cls := create_canary canary_name in
          (* Don't rename the Canary we've created *)
          (canary_cls,
           set_g_keepnames
             (set_g_type_class st (<[canary_name := canary_cls]> (g_type_class st)))
             ({[canary_name]} ∪ g_keepnames st))
      end in
    let st2 :=
      set_m_dexes_structure st1
        (add_class_no_checks_norefs (m_dexes_structure st1) canary_cls) in
    set_m_dex_infos st2 (m_dex_infos st2 ++ [(canary_name, dex_info)])
  else st.

(** The classes one plugin adds to the DEX about to be closed. *)
Fixpoint flush_additional_classes (dex_info : DexInfo) (classes : list DexClass)
    (additional_classes : gset string) (st : State) : gset string * State :=
  match classes with
  | [] => (additional_classes, st)
  | cls :: rest =>
      let st1 :=
        set_m_dexes_structure st
          (add_class_no_checks_norefs (m_dexes_structure st) cls) in
      let st2 :=
        if primary dex_info || betamap_ordered dex_info
        then set_perf_sensitive st1 cls else st1 in
      flush_additional_classes dex_info rest
        ({[cls_type cls]} ∪ additional_classes) st2
  end.

Fixpoint flush_plugins (plugins : list InterDexPassPlugin) (dex_info : DexInfo)
    (additional_classes : gset string) (st : State) : gset string * State :=
  match plugins with
  | [] => (additional_classes, st)
  | plugin :: rest =>
      let classes :=
        get_current_dex_classes (m_dexes_structure st)
        ++ get_current_dex_squashed_classes (m_dexes_structure st) in
      let '(additional_classes', st') :=
        flush_additional_classes dex_info
          (InterDex.additional_classes plugin (m_outdex st) classes)
          additional_classes st in
      flush_plugins rest dex_info additional_classes' st'
  end.

(** The [m_sort_remaining_classes] block: the leading ordered classes keep
    their place, the others are sorted for compressed size. *)
Definition sort_remaining_classes (st : State) (additional_classes : gset string)
    (classes : list DexClass) : result (list DexClass) :=
  let is_ordered := fun cls =>
    is_perf_sensitive st cls
    && negb (bool_decide (cls_type cls ∈ additional_classes)) in
  (* We skip over any initial ordered classes, and only order the rest. *)
  let ordered := take_while_b is_ordered classes in
  let remaining := drop (length ordered) classes in
  (* All remaining classes are unordered *)
  _ ← always_assert_log (negb (existsb is_ordered remaining))
        "std::find_if(begin, end, is_ordered) == end";
  sorted ← stable_sort compare_dexclasses_for_compressed_size remaining;
  Ok (ordered ++ sorted).

(** This needs to be called before getting to the next dex. *)
Definition flush_out_dex (dex_info : DexInfo) (st : State)
    : result (DexInfo * State) :=
  let dexnum := get_num_dexes (m_dexes_structure st) in
  let st1 := flush_canary dex_info dexnum st in
  let '(additional_classes, st2) := flush_plugins (m_plugins st1) dex_info ∅ st1 in
  let '(classes, ds) := end_dex (m_dexes_structure st2) dex_info in
  let st3 := set_m_dexes_structure st2 ds in
  classes' ← (if m_sort_remaining_classes st3
              then sort_remaining_classes st3 additional_classes classes
              else Ok classes);
  let st4 := set_m_outdex st3 (m_outdex st3 ++ [classes']) in
  let dex_info1 :=
    if negb (m_emitting_scroll_set st4) then set_scroll dex_info false else dex_info in
  let dex_info2 :=
    if negb (m_emitting_bg_set st4) then set_background dex_info1 false else dex_info1 in
  let dex_info3 :=
    if negb (m_emitting_extended st4) then set_extended dex_info2 false else dex_info2 in
  (* This resets the flag as this method advances to the next writable DEX. *)
  Ok (set_betamap_ordered dex_info3 false, st4).

(** *** Emitting one class *)

Definition emit_class (dex_info : DexInfo) (clazz : DexClass)
    (check_if_skip perf_sensitive : bool)
    (erased_classes : option (list DexClass)) (st : State)
    : result (bool * DexInfo * option (list DexClass) * State) :=
  if is_canary clazz then Ok (false, dex_info, erased_classes, st)
  else if has_class (m_dexes_structure st) clazz
  then Ok (false, dex_info, erased_classes, st)
  else if check_if_skip && should_skip_class_due_to_plugin st clazz
  then Ok (false, dex_info, erased_classes, st)
  else
    let st1 := if perf_sensitive then set_perf_sensitive st clazz else st in
    (* Calculate the extra method and field refs that we would need to add to
       the current dex if we defined clazz in it. *)
    let '(clazz_mrefs, clazz_frefs, clazz_trefs, erased1) :=
      gather_refs (m_plugins st1) dex_info clazz ∅ ∅ ∅ erased_classes
        (should_not_relocate_methods_of_class st1 clazz) in
    let '(fits_current_dex, ds) :=
      add_class_to_current_dex (m_dexes_structure st1)
        clazz_mrefs clazz_frefs clazz_trefs clazz in
    let st2 := set_m_dexes_structure st1 ds in
    if fits_current_dex then Ok (true, dex_info, erased1, st2)
    else
      '(dex_info', st3) ← flush_out_dex dex_info st2;
      (* redo gathering of refs to give plugins a chance to rebuild their
         internal state *)
      let erased2 := (fun _ => []) <$> erased1 in
      let '(clazz_mrefs', clazz_frefs', clazz_trefs', erased3) :=
        gather_refs (m_plugins st3) dex_info' clazz ∅ ∅ ∅ erased2
          (should_not_relocate_methods_of_class st3 clazz) in
      Ok (true, dex_info', erased3,
          set_m_dexes_structure st3
            (add_class_no_checks (m_dexes_structure st3)
               clazz_mrefs' clazz_frefs' clazz_trefs' clazz)).

(** *** The cold-start list *)

(** The body of the first loop of [emit_interdex_classes], for one entry. *)
Definition emit_interdex_entry (unreferenced_classes : gset string)
    (type : DexType) (dex_info : DexInfo) (st : State)
    : result (DexInfo * State) :=
  match type_class st type with
  | None =>
      if starts_with type SCROLL_SET_START_FORMAT then
        _ ← always_assert_log (negb (m_emitting_scroll_set st))
              "Scroll start marker discovered after another scroll start marker";
        _ ← always_assert_log (negb (m_emitting_bg_set st))
              "Scroll start marker discovered between background set markers";
        Ok (set_scroll dex_info true, set_m_emitting_scroll_set st true)
      else if starts_with type SCROLL_SET_END_FORMAT then
        _ ← always_assert_log (m_emitting_scroll_set st)
              "Scroll end marker discovered without scroll start marker";
        Ok (dex_info, set_m_emitting_scroll_set st false)
      else if starts_with type BG_SET_START_FORMAT then
        _ ← always_assert_log (negb (m_emitting_bg_set st))
              "Background start marker discovered after another background start marker";
        _ ← always_assert_log (negb (m_emitting_scroll_set st))
              "Background start marker discovered between scroll set markers";
        Ok (set_background dex_info true, set_m_emitting_bg_set st true)
      else if starts_with type BG_SET_END_FORMAT then
        _ ← always_assert_log (m_emitting_bg_set st)
              "Background end marker discovered without background start marker";
        Ok (dex_info, set_m_emitted_bg_set (set_m_emitting_bg_set st false) true)
      else
        match find_index type (m_end_markers st) 0 with
        | Some end_marker =>
            _ ← always_assert_log (negb (m_emitting_scroll_set st))
                  "End marker discovered between scroll start/end markers";
            _ ← always_assert_log (negb (m_emitting_bg_set st))
                  "End marker discovered between background start/end markers";
            '(dex_info', st') ← flush_out_dex dex_info st;
            (* Cold start end marker is the last dex end marker *)
            if Nat.eqb (S end_marker) (length (m_end_markers st))
            then Ok (set_coldstart dex_info' false, st')
            else Ok (dex_info', st')
        | None => Ok (dex_info, st)
        end
  | Some cls =>
      if bool_decide (cls_type cls ∈ unreferenced_classes)
      then Ok (dex_info, st)
      else
        let '(dex_info1, st1) :=
          if m_emitted_bg_set st
          then (set_extended dex_info true,
                set_m_emitting_extended (set_m_emitted_bg_set st false) true)
          else (dex_info, st) in
        let dex_info2 := set_betamap_ordered dex_info1 true in
        '(_, dex_info3, _, st2) ← emit_class dex_info2 cls true true None st1;
        Ok (dex_info3, st2)
  end.

Fixpoint emit_interdex_loop (unreferenced_classes : gset string)
    (interdex_types : list DexType) (dex_info : DexInfo) (st : State)
    : result (DexInfo * State) :=
  match interdex_types with
  | [] => Ok (dex_info, st)
  | type :: rest =>
      '(dex_info', st') ← emit_interdex_entry unreferenced_classes type dex_info st;
      emit_interdex_loop unreferenced_classes rest dex_info' st'
  end.

(** Now emit the classes we omitted from the original coldstart set. *)
Fixpoint emit_unreferenced_loop (unreferenced_classes : gset string)
    (interdex_types : list DexType) (dex_info : DexInfo) (st : State)
    : result (DexInfo * State) :=
  match interdex_types with
  | [] => Ok (dex_info, st)
  | type :: rest =>
      match type_class st type with
      | Some cls =>
          if bool_decide (cls_type cls ∈ unreferenced_classes) then
            '(_, dex_info', _, st') ← emit_class dex_info cls true false None st;
            emit_unreferenced_loop unreferenced_classes rest dex_info' st'
          else emit_unreferenced_loop unreferenced_classes rest dex_info st
      | None => emit_unreferenced_loop unreferenced_classes rest dex_info st
      end
  end.

Definition emit_interdex_classes (dex_info : DexInfo)
    (interdex_types : list DexType) (unreferenced_classes : gset string)
    (st : State) : result (DexInfo * State) :=
  match interdex_types with
  | [] => Ok (dex_info, st)
  | _ :: _ =>
      let dex_info0 := set_coldstart dex_info true in
      '(dex_info1, st1) ←
        emit_interdex_loop unreferenced_classes interdex_types dex_info0 st;
      '(dex_info2, st2) ←
        emit_unreferenced_loop unreferenced_classes interdex_types dex_info1 st1;
      _ ← always_assert_log (negb (m_emitting_scroll_set st2))
            "Unterminated scroll set marker";
      _ ← always_assert_log (negb (m_emitting_bg_set st2))
            "Unterminated background set marker";
      Ok (dex_info2, set_m_emitting_extended st2 false)
  end.

(** *** The remaining classes *)

(** [CrossDexRefMinimizer], seen through the calls of this file. *)
Class CrossDexRefMinimizer (M : Type) := {
  min_empty : M -> bool;
  min_worst : M -> DexClass;
  min_front : M -> DexClass;
  get_unapplied_refs : M -> DexClass -> Z;
  get_applied_refs : M -> Z;
  min_sample : M -> DexClass -> M;
  min_insert : M -> DexClass -> M;
  min_ignore : M -> DexClass -> M;
  (** [erase(cls, emitted, overflowed)] *)
  min_erase : M -> DexClass -> bool -> bool -> M;
}.

(** [CrossDexRelocator]; it works on the [DexesStructure] it was created
    with. *)
Class CrossDexRelocator (R : Type) := {
  relocate_methods : R -> DexClass -> list DexClass * R;
  current_dex_overflowed : R -> DexesStructure -> R * DexesStructure;
  add_to_current_dex : R -> DexClass -> DexesStructure -> R * DexesStructure;
}.

Section WithMinimizer.
Context `{CrossDexRefMinimizer M} `{CrossDexRelocator R}.

(** The classes relocated out of [cls], in
    [init_cross_dex_ref_minimizer_and_relocate_methods]. *)
Fixpoint init_relocated (st : State) (relocated_classes : list DexClass)
    (min : M) (classes_to_insert : list DexClass) : result (M * list DexClass) :=
  match relocated_classes with
  | [] => Ok (min, classes_to_insert)
  | relocated_cls :: rest =>
      _ ← always_assert_log (negb (should_skip_class_due_to_plugin st relocated_cls))
            "!should_skip_class_due_to_plugin(relocated_cls)";
      init_relocated st rest (min_ignore min relocated_cls)
        (classes_to_insert ++ [relocated_cls])
  end.

Fixpoint init_scope (st : State) (scope : list DexClass) (min : M)
    (relocator : option R) (classes_to_insert : list DexClass)
    : result (M * option R * list DexClass) :=
  match scope with
  | [] => Ok (min, relocator, classes_to_insert)
  | cls :: rest =>
      (* Don't bother with classes that emit_class will skip anyway. *)
      if is_canary cls || has_class (m_dexes_structure st) cls
      then init_scope st rest min relocator classes_to_insert
      else
        '(min1, relocator1, classes1) ←
          match relocator with
          | Some r =>
              if negb (should_not_relocate_methods_of_class st cls) then
                let '(relocated_classes, r') := relocate_methods r cls in
                '(min', classes') ←
                  init_relocated st relocated_classes min classes_to_insert;
                Ok (min', Some r', classes')
              else Ok (min, relocator, classes_to_insert)
          | None => Ok (min, relocator, classes_to_insert)
          end;
        if should_skip_class_due_to_plugin st cls
        then init_scope st rest (min_sample min1 cls) relocator1 classes1
        else init_scope st rest min1 relocator1 (classes1 ++ [cls])
  end.

(** [new_relocator] is the relocator that the configuration asks for, if
    any of its three relocation switches is on. *)
Definition init_cross_dex_ref_minimizer_and_relocate_methods
    (min : M) (new_relocator : option R) (st : State) : result (M * option R) :=
  '(min1, relocator, classes_to_insert) ←
    init_scope st (m_scope st) min new_relocator [];
  (* Initialize ref frequency counts *)
  let min2 := fold_left min_sample classes_to_insert min1 in
  let min3 := fold_left min_insert classes_to_insert min2 in
  (* the refs of the classes already in the current dex are applied *)
  let min4 :=
    fold_left (fun m cls => min_erase (min_insert (min_sample m cls) cls) cls true false)
              (get_current_dex_classes (m_dexes_structure st)) min3 in
  Ok (min4, relocator).

(** The class picked by one round of the loop of [emit_remaining_classes]. *)
Definition pick_class (min : M) (pick_worst : bool) : DexClass :=
  let cls :=
    if pick_worst then
      (* Figure out which class has the most unapplied references *)
      let worst := min_worst min in
      (* Use that worst class if it has more unapplied refs than already
         applied refs *)
      if Z.gtb (get_unapplied_refs min worst) (get_applied_refs min)
      then Some worst else None
    else None in
  match cls with
  | Some cls => cls
  | None => min_front min (* Default case *)
  end.

(** We can treat refs owned by erased classes as effectively being emitted. *)
Fixpoint apply_erased_classes (st : State) (erased_classes : list DexClass)
    (min : M) : result M :=
  match erased_classes with
  | [] => Ok min
  | erased_cls :: rest =>
      _ ← always_assert_log (should_skip_class_due_to_plugin st erased_cls)
            "should_skip_class_due_to_plugin(erased_cls)";
      apply_erased_classes st rest
        (min_erase (min_insert min erased_cls) erased_cls true false)
  end.

Record LoopState := {
  ls_pick_worst : bool;
  ls_dexnum : Z;
  ls_min : M;
  ls_relocator : option R;
  ls_dex_info : DexInfo;
  ls_state : State;
}.

(** One round of the [while] loop of [emit_remaining_classes]. *)
Definition emit_remaining_round (ls : LoopState) : result LoopState :=
  let cls := pick_class (ls_min ls) (ls_pick_worst ls) in
  '(emitted, dex_info, erased_classes, st) ←
    emit_class (ls_dex_info ls) cls false false (Some []) (ls_state ls);
  let new_dexnum := get_num_dexes (m_dexes_structure st) in
  let overflowed := negb (Z.eqb (ls_dexnum ls) new_dexnum) in
  let min1 := min_erase (ls_min ls) cls emitted overflowed in
  let '(relocator, st1) :=
    match ls_relocator ls with
    | Some r =>
        (* Let's merge relocated helper classes *)
        let '(r1, ds1) :=
          if overflowed then current_dex_overflowed r (m_dexes_structure st)
          else (r, m_dexes_structure st) in
        let '(r2, ds2) := add_to_current_dex r1 cls ds1 in
        (Some r2, set_m_dexes_structure st ds2)
    | None => (None, st)
    end in
  min2 ← apply_erased_classes st1 (default [] erased_classes) min1;
  Ok {| ls_pick_worst := (ls_pick_worst ls && negb emitted) || overflowed;
        ls_dexnum := new_dexnum;
        ls_min := min2;
        ls_relocator := relocator;
        ls_dex_info := dex_info;
        ls_state := st1 |}.

(** The [while] loop; [None] when [fuel] rounds did not empty the
    minimizer. *)
Fixpoint emit_remaining_loop (fuel : nat) (ls : LoopState)
    : option (result LoopState) :=
  if min_empty (ls_min ls) then Some (Ok ls)
  else
    match fuel with
    | O => None
    | S fuel' =>
        match emit_remaining_round ls with
        | Ok ls' => emit_remaining_loop fuel' ls'
        | Fatal msg => Some (Fatal msg)
        end
    end.

Fixpoint emit_scope_loop (scope : list DexClass) (dex_info : DexInfo) (st : State)
    : result (DexInfo * State) :=
  match scope with
  | [] => Ok (dex_info, st)
  | cls :: rest =>
      '(_, dex_info', _, st') ← emit_class dex_info cls true false None st;
      emit_scope_loop rest dex_info' st'
  end.

Definition emit_remaining_classes (fuel : nat) (min : M)
    (new_relocator : option R) (dex_info : DexInfo) (st : State)
    : option (result (M * option R * DexInfo * State)) :=
  let st0 :=
    set_m_current_classes_when_emitting_remaining st
      (Z.of_nat (length (get_current_dex_classes (m_dexes_structure st)))) in
  if negb (m_minimize_cross_dex_refs st0) then
    Some ('(dex_info', st') ← emit_scope_loop (m_scope st0) dex_info st0;
          Ok (min, None, dex_info', st'))
  else
    match init_cross_dex_ref_minimizer_and_relocate_methods min new_relocator st0 with
    | Fatal msg => Some (Fatal msg)
    | Ok (min0, relocator) =>
        let ls0 :=
          {| ls_pick_worst := true;
             ls_dexnum := get_num_dexes (m_dexes_structure st0);
             ls_min := min0;
             ls_relocator := relocator;
             ls_dex_info := dex_info;
             ls_state := st0 |} in
        match emit_remaining_loop fuel ls0 with
        | None => None
        | Some (Fatal msg) => Some (Fatal msg)
        | Some (Ok ls) =>
            Some (Ok (ls_min ls, ls_relocator ls, ls_dex_info ls, ls_state ls))
        end
    end.

(** The relocator merges helper classes into the current DEX; it does not
    close DEXes. *)
Definition relocator_keeps_num_dexes : Prop :=
  forall (r : R) (cls : DexClass) (ds : DexesStructure),
    get_num_dexes (current_dex_overflowed r ds).2 = get_num_dexes ds
    /\ get_num_dexes (add_to_current_dex r cls ds).2 = get_num_dexes ds.

(** [ls'] is the loop state at the head of some later round of the loop
    started in [ls]. *)
Inductive reaches_round : LoopState -> LoopState -> Prop :=
| reaches_here ls : reaches_round ls ls
| reaches_next ls ls1 ls2 :
    min_empty (ls_min ls) = false ->
    emit_remaining_round ls = Ok ls1 ->
    reaches_round ls1 ls2 ->
    reaches_round ls ls2.

(** The loop state that [emit_remaining_classes] enters its loop with. *)
Definition initial_loop_state (min0 : M) (relocator : option R)
    (dex_info : DexInfo) (st0 : State) : LoopState :=
  {| ls_pick_worst := true;
     ls_dexnum := get_num_dexes (m_dexes_structure st0);
     ls_min := min0;
     ls_relocator := relocator;
     ls_dex_info := dex_info;
     ls_state := st0 |}.

End WithMinimizer.

(** *** Vocabulary of the properties *)

(** What the if-chain of [emit_interdex_entry] takes an entry for. *)
Inductive EntryKind :=
| ClassEntry (cls : DexClass)
| ScrollStart
| ScrollEnd
| BgStart
| BgEnd
| EndMarker (position : nat)
| OtherEntry.

Definition entry_kind (st : State) (type : DexType) : EntryKind :=
  match type_class st type with
  | Some cls => ClassEntry cls
  | None =>
      if starts_with type SCROLL_SET_START_FORMAT then ScrollStart
      else if starts_with type SCROLL_SET_END_FORMAT then ScrollEnd
      else if starts_with type BG_SET_START_FORMAT then BgStart
      else if starts_with type BG_SET_END_FORMAT then BgEnd
      else match find_index type (m_end_markers st) 0 with
           | Some position => EndMarker position
           | None => OtherEntry
           end
  end.

(** The refs that [emit_class] gathers for [clazz], and whether the current
    DEX has room for them. *)
Definition clazz_refs (st : State) (dex_info : DexInfo) (clazz : DexClass)
    : gset string * gset string * gset string :=
  (gather_refs (m_plugins st) dex_info clazz ∅ ∅ ∅ None
     (should_not_relocate_methods_of_class st clazz)).1.

Definition fits_current_dex (st : State) (dex_info : DexInfo) (clazz : DexClass)
    : bool :=
  let '(mrefs, frefs, trefs) := clazz_refs st dex_info clazz in
  fits_caps (m_dexes_structure st) mrefs frefs trefs.

(** The refs held by the current DEX. *)
Definition current_refs (ds : DexesStructure)
    : gset string * gset string * gset string :=
  (ds_current_mrefs ds, ds_current_frefs ds, ds_current_trefs ds).

(** A scroll or background set is open. *)
Definition set_open (st : State) : bool :=
  m_emitting_scroll_set st || m_emitting_bg_set st.

(** [st'] has the marker flags and the configuration of [st]. *)
Definition same_markers (st st' : State) : Prop :=
  m_emitting_scroll_set st' = m_emitting_scroll_set st
  /\ m_emitting_bg_set st' = m_emitting_bg_set st
  /\ m_emitted_bg_set st' = m_emitted_bg_set st
  /\ m_emitting_extended st' = m_emitting_extended st
  /\ m_plugins st' = m_plugins st
  /\ m_end_markers st' = m_end_markers st
  /\ m_emit_canaries st' = m_emit_canaries st
  /\ m_sort_remaining_classes st' = m_sort_remaining_classes st.

End WithTypeSystem.

(** *** Ordering the scope by the cold-start list *)

(** [std::numeric_limits<uint32_t>::max()] *)
Definition UINT32_MAX : Z := 2 ^ 32 - 1.
Definition uint32_t (z : Z) : Z := z mod 2 ^ 32.

(** The first loop of [do_order_classes]: the class of a cold-start name,
    if there is one, gets the next priority (a later entry for the same class
    replaces the earlier) and is marked perf-sensitive.  A class is found
    through [DexType::get_type] and [type_class]; the map is keyed by the
    type of the class, which stands for the [DexClass*]. *)
Fixpoint do_order_priorities (coldstart_class_names : list string) (priority : Z)
    (class_to_priority : gmap string Z) (st : State)
    : gmap string Z * Z * State :=
  match coldstart_class_names with
  | [] => (class_to_priority, priority, st)
  | class_name :: rest =>
      match type_class st class_name with
      | Some cls =>
          do_order_priorities rest (uint32_t (priority + 1))
            (<[cls_type cls := priority]> class_to_priority)
            (set_perf_sensitive st cls)
      | None => do_order_priorities rest priority class_to_priority st
      end
  end.

(** The priority that the comparator of [do_order_classes] reads. *)
Definition priority_of (class_to_priority : gmap string Z) (cls : DexClass) : Z :=
  default UINT32_MAX (class_to_priority !! cls_type cls).

(** Order the classes in [scope] according to the [coldstart_class_names]. *)
Definition do_order_classes (coldstart_class_names : list string)
    (scope : list DexClass) (st : State) : result (list DexClass * State) :=
  let '(class_to_priority, _, st') :=
    do_order_priorities coldstart_class_names 0 ∅ st in
  scope' ← stable_sort
             (fun left right =>
                Ok (Z.ltb (priority_of class_to_priority left)
                          (priority_of class_to_priority right)))
             scope;
  Ok (scope', st').

(** *** A small application *)

(** Types are related by name only. *)
#[global] Instance name_type_system : TypeSystem := {
  check_cast t1 t2 := String.eqb t1 t2;
  compare_dextypes t1 t2 :=
    match t1, t2 with
    | Some a, Some b => String.ltb a b
    | None, Some _ => true
    | _, _ => false
    end;
  compare_dextypelists l1 l2 := Nat.ltb (length l1) (length l2);
}.

Definition sample_class (name : DexType) (mrefs : list string) : DexClass :=
  {| cls_type := name; cls_is_interface := false;
     cls_super_class := Some "Ljava/lang/Object;"; cls_interfaces := [];
     cls_mrefs := mrefs; cls_frefs := []; cls_trefs := [name] |}.

Definition sample_A : DexClass := sample_class "LA;" ["r1"; "r2"].
Definition sample_B : DexClass := sample_class "LB;" ["r1"; "r3"].
Definition sample_C : DexClass := sample_class "LC;" ["r4"; "r5"].
(** a class with more method refs than a DEX may hold *)
Definition sample_Big : DexClass :=
  sample_class "LBig;" ["b1"; "b2"; "b3"; "b4"; "b5"].

(** An empty structure whose DEXes hold at most four refs of each kind. *)
Definition sample_dexes_structure : DexesStructure :=
  {| ds_max_mrefs := 4; ds_max_frefs := 4; ds_max_trefs := 4;
     ds_current_classes := []; ds_current_squashed_classes := [];
     ds_current_mrefs := ∅; ds_current_frefs := ∅; ds_current_trefs := ∅;
     ds_classes := ∅; ds_num_dexes := 0; ds_num_secondary_dexes := 0;
     ds_num_coldstart_dexes := 0; ds_num_extended_dexes := 0;
     ds_num_scroll_dexes := 0 |}.

Definition sample_state (sort_remaining_classes : bool) : State :=
  {| g_type_class :=
       {[ "LA;" := sample_A; "LB;" := sample_B; "LC;" := sample_C;
          "LBig;" := sample_Big ]};
     g_perf_sensitive := ∅; g_keepnames := ∅;
     m_dexes_structure := sample_dexes_structure;
     m_plugins := [];
     m_scope := [sample_A; sample_B; sample_C; sample_Big];
     m_emit_canaries := true;
     m_sort_remaining_classes := sort_remaining_classes;
     m_minimize_cross_dex_refs := true;
     m_emitting_scroll_set := false; m_emitting_bg_set := false;
     m_emitted_bg_set := false; m_emitting_extended := false;
     m_end_markers := ["LDexEndMarker0;"; "LDexEndMarker1;"];
     m_outdex := []; m_dex_infos := [];
     m_current_classes_when_emitting_remaining := 0 |}.

(** A minimizer over a list of classes that counts method refs only: the
    applied refs are those of the classes emitted into the current DEX, the
    worst class is the first one with the most unapplied refs, the front
    class is the head of the list. *)
Record ListMinimizer := {
  lm_classes : list DexClass;
  lm_applied : gset string;
}.

Definition lm_unapplied (m : ListMinimizer) (cls : DexClass) : Z :=
  Z.of_nat (size ((list_to_set (cls_mrefs cls) : gset string) ∖ lm_applied m)).

Definition lm_worst (m : ListMinimizer) : DexClass :=
  fold_left (fun best cls =>
               if Z.ltb (lm_unapplied m best) (lm_unapplied m cls) then cls else best)
            (lm_classes m) (hd (sample_class "" []) (lm_classes m)).

#[global] Instance ListMinimizer_min : CrossDexRefMinimizer ListMinimizer := {
  min_empty m := match lm_classes m with [] => true | _ => false end;
  min_worst := lm_worst;
  min_front m := hd (sample_class "" []) (lm_classes m);
  get_unapplied_refs := lm_unapplied;
  get_applied_refs m := Z.of_nat (size (lm_applied m));
  min_sample m _ := m;
  min_insert m cls :=
    {| lm_classes := lm_classes m ++ [cls]; lm_applied := lm_applied m |};
  min_ignore m _ := m;
  min_erase m cls emitted overflowed :=
    {| lm_classes :=
         List.filter (fun c => negb (String.eqb (cls_type c) (cls_type cls)))
                     (lm_classes m);
       lm_applied :=
         if overflowed then list_to_set (cls_mrefs cls)
         else if emitted then lm_applied m ∪ list_to_set (cls_mrefs cls)
         else lm_applied m |};
}.

(** No method is relocated. *)
#[global] Instance unit_relocator : CrossDexRelocator unit := {
  relocate_methods r _ := ([], r);
  current_dex_overflowed r ds := (r, ds);
  add_to_current_dex r _ ds := (r, ds);
}.

Definition sample_minimizer : ListMinimizer :=
  {| lm_classes := [sample_A; sample_B; sample_C]; lm_applied := ∅ |}.

Definition sample_dex_info : DexInfo :=
  {| primary := false; coldstart := true; extended := true;
     scroll := true; background := true; betamap_ordered := true |}.

(** The state after [emit_class] of [sample_A], not perf-sensitive, and then
    of [sample_B], perf-sensitive. *)
Definition sample_state_AB (sort_remaining_classes : bool) : State :=
  match emit_class sample_dex_info sample_A false false None
          (sample_state sort_remaining_classes) with
  | Ok (_, _, _, st1) =>
      match emit_class sample_dex_info sample_B false true None st1 with
      | Ok (_, _, _, st2) => st2
      | Fatal _ => st1
      end
  | Fatal _ => sample_state sort_remaining_classes
  end.

End InterDex.

(** * Part II: properties *)

(** ** Integers and counting *)

Lemma size_t_range z : 0 <= size_t z < 2 ^ 64.
Proof. unfold size_t. apply Z.mod_pos_bound. lia. Qed.

Lemma size_t_small z : 0 <= z < 2 ^ 64 -> size_t z = z.
Proof. intros Hz. unfold size_t. apply Z.mod_small. exact Hz. Qed.

Lemma size_t_idem z : size_t (size_t z) = size_t z.
Proof. apply size_t_small, size_t_range. Qed.

Lemma count_if_nonneg {A} (p : A -> bool) l : 0 <= count_if p l.
Proof. unfold count_if. lia. Qed.

Lemma count_if_cons {A} (p : A -> bool) x l :
  count_if p (x :: l) = (if p x then 1 else 0) + count_if p l.
Proof. unfold count_if. simpl. destruct (p x); simpl length; lia. Qed.

Lemma count_if_app {A} (p : A -> bool) l1 l2 :
  count_if p (l1 ++ l2) = count_if p l1 + count_if p l2.
Proof. unfold count_if. rewrite List.filter_app, length_app. lia. Qed.

Lemma count_if_split {A} (p : A -> bool) l :
  count_if p l + count_if (fun x => negb (p x)) l = Z.of_nat (length l).
Proof.
  induction l as [|x l IH]; [reflexivity|].
  rewrite !count_if_cons. simpl length. destruct (p x); simpl; lia.
Qed.

Lemma bind_Ok {A B} (r : result A) (k : A -> result B) b :
  r ≫= k = Ok b -> exists a, r = Ok a /\ k a = Ok b.
Proof. destruct r as [a|msg]; simpl; intros E; [eauto | discriminate]. Qed.

Lemma bind_Ok_l {A B} (a : A) (k : A -> result B) : Ok a ≫= k = k a.
Proof. reflexivity. Qed.

Lemma always_assert_log_Ok cond msg u :
  always_assert_log cond msg = Ok u -> cond = true.
Proof. destruct cond; [reflexivity | discriminate]. Qed.

(** ** Block instrumentation *)

Section BlockInstrumentFacts.
Import BlockInstrument.
Context `{ControlFlowGraph Cfg}.

(** The bit-id loop either rejects everything, or keeps one [BlockInfo] per
    block and hands out as many ids as there are instrumentable blocks. *)
Lemma assign_bit_ids_length max options blocks acc id l n tm :
  assign_bit_ids max options blocks acc id = (l, n, tm) ->
  (tm = true /\ l = [] /\ n = 0)
  \/ (tm = false /\ length l = (length acc + length blocks)%nat).
Proof.
  revert acc id. induction blocks as [|b rest IH]; intros acc id E; simpl in E.
  - inversion E; subst. right. split; [reflexivity | simpl; lia].
  - destruct (is_instrumentable (create_block_info b options)).
    + destruct (Z.leb max id).
      * inversion E; subst. left. auto.
      * apply IH in E. destruct E as [E | [-> E]]; [left; exact E | right].
        split; [reflexivity|]. rewrite E, length_app. simpl. lia.
    + apply IH in E. destruct E as [E | [-> E]]; [left; exact E | right].
      split; [reflexivity|]. rewrite E, length_app. simpl. lia.
Qed.

Lemma blocks_to_visit_length (cfg : Cfg) :
  (length (blocks_to_visit cfg) <= length (visit_in_order cfg))%nat.
Proof. unfold blocks_to_visit. apply List.filter_length_le. Qed.

(** Every rejected block adds at most one entry to the map. *)
Lemma collect_blocks_size (cfg : Cfg) blocks ids sbs rejected ids' sbs' rejected' :
  collect_blocks cfg blocks ids sbs rejected = (ids', sbs', rejected') ->
  Z.of_nat (size rejected')
  <= Z.of_nat (size rejected) + count_if (fun i => negb (is_instrumentable i)) blocks.
Proof.
  revert ids sbs rejected.
  induction blocks as [|i rest IH]; intros ids sbs rejected E; simpl in E.
  - inversion E; subst. unfold count_if. simpl. lia.
  - rewrite count_if_cons. destruct (is_instrumentable i); simpl.
    + apply IH in E. lia.
    + apply IH in E.
      pose proof (map_size_insert (block_id (bi_block i)) (bi_type i) rejected) as Hs.
      destruct (rejected !! block_id (bi_block i)); simpl in Hs; unfold id in Hs; lia.
Qed.

Lemma has_type_Instrumentable_count blocks :
  count_if (has_type BlockType.Instrumentable) blocks
  + count_if (fun i => negb (is_instrumentable i)) blocks
  = Z.of_nat (length blocks).
Proof. apply (count_if_split is_instrumentable). Qed.

(** C1. Whenever [instrument_basic_blocks] completes on a method without
    falling back to method tracing ([too_many_blocks = false]), the record
    satisfies [num_instrumented_blocks + |rejected_blocks| =
    num_non_entry_blocks], equivalently [num_instrumented_blocks =
    num_non_entry_blocks - |rejected_blocks|]; [num_non_entry_blocks] is the
    number of blocks of the final CFG minus the entry block, and no
    post-condition violation is traced.  (The list of visited blocks is a
    [std::vector], hence shorter than [2^64].) *)
Theorem instrument_basic_blocks_post_condition
    (cfg : Cfg) (method onMethodBegin : string) (onMethodExit_map : gmap Z string)
    (max_vector_arity method_offset max_num_blocks : Z) (options : Options)
    (info : MethodInfo) (cfg' : Cfg) (traced : bool) :
  Z.of_nat (length (visit_in_order cfg)) < 2 ^ 64 ->
  instrument_basic_blocks cfg method onMethodBegin onMethodExit_map
    max_vector_arity method_offset max_num_blocks options
  = Ok (info, cfg', traced) ->
  too_many_blocks info = false ->
  num_instrumented_blocks info + Z.of_nat (size (rejected_blocks info))
  = num_non_entry_blocks info
  /\ num_instrumented_blocks info
     = num_non_entry_blocks info - Z.of_nat (size (rejected_blocks info))
  /\ num_non_entry_blocks info = size_t (blocks_size cfg' - 1)
  /\ traced = false.
Proof.
  intros Hlen Hrun Htm. unfold instrument_basic_blocks in Hrun.
  destruct (get_blocks_to_instrument cfg max_num_blocks options)
    as [[blocks n] tm] eqn:Hget.
  destruct (insert_prologue_insts _ _ _ _) as [[regs roff] cfg1].
  apply bind_Ok in Hrun as (cfg2 & _ & Hrun).
  apply bind_Ok in Hrun as ([exits cfg3] & _ & Hrun).
  destruct (collect_blocks _ blocks [] [] ∅) as [[ids sbs] rejected] eqn:Hcol.
  apply bind_Ok in Hrun as (? & Hcount%always_assert_log_Ok & Hrun).
  apply bind_Ok in Hrun as (? & Hsum%always_assert_log_Ok & Hrun).
  apply bind_Ok in Hrun as (? & Hrej%always_assert_log_Ok & Hrun).
  injection Hrun as <- <- <-. simpl in *. subst tm.
  apply Z.eqb_eq in Hcount, Hsum. simpl in Hrej. apply Z.eqb_eq in Hrej.
  (* both summands are bounded by the number of visited blocks *)
  apply collect_blocks_size in Hcol. rewrite map_size_empty in Hcol.
  pose proof (has_type_Instrumentable_count blocks) as Hsplit.
  unfold get_blocks_to_instrument in Hget.
  apply assign_bit_ids_length in Hget as [(? & _) | (_ & Hget)]; [discriminate|].
  pose proof (blocks_to_visit_length cfg) as Hvis. simpl in Hget.
  pose proof (count_if_nonneg (has_type BlockType.Instrumentable) blocks) as Hnn.
  assert (Hsmall : 0 <= n + Z.of_nat (size rejected) < 2 ^ 64) by lia.
  rewrite <- Hrej in Hsum. rewrite (size_t_small _ Hsmall) in Hsum.
  unfold post_condition_violation, get_instrumented_type. simpl.
  repeat split; try lia.
  replace (size_t (blocks_size (recompute_registers_size cfg3) - 1)
           - Z.of_nat (size rejected)) with n by lia.
  rewrite size_t_small by lia. rewrite Z.eqb_refl.
  cbn [negb]. apply andb_false_r.
Qed.

(** The bit-id loop falls back exactly when there are more instrumentable
    blocks than [max_num_blocks] allows ids for. *)
Lemma assign_bit_ids_too_many max options blocks acc id :
  0 <= id <= max -> max < 2 ^ 64 ->
  max - id
  < count_if is_instrumentable (List.map (fun b => create_block_info b options) blocks) ->
  assign_bit_ids max options blocks acc id = ([], 0, true).
Proof.
  intros Hid Hmax. revert acc id Hid.
  induction blocks as [|b rest IH]; intros acc id Hid Hcnt; simpl in *.
  - unfold count_if in Hcnt. simpl in Hcnt. lia.
  - rewrite count_if_cons in Hcnt.
    destruct (is_instrumentable (create_block_info b options)).
    + destruct (Z.leb_spec max id) as [Hle | Hlt]; [reflexivity|].
      rewrite size_t_small by lia. apply IH; lia.
    + apply IH; lia.
Qed.

Lemma assign_bit_ids_fits max options blocks acc id :
  0 <= id -> max < 2 ^ 64 ->
  id + count_if is_instrumentable (List.map (fun b => create_block_info b options) blocks)
  <= max ->
  exists l,
    assign_bit_ids max options blocks acc id
    = (l, id + count_if is_instrumentable
                 (List.map (fun b => create_block_info b options) blocks), false).
Proof.
  intros Hid Hmax. revert acc id Hid.
  induction blocks as [|b rest IH]; intros acc id Hid Hcnt; simpl in *.
  - exists acc. unfold count_if. simpl. f_equal. f_equal. lia.
  - rewrite count_if_cons in *.
    pose proof (count_if_nonneg is_instrumentable
                  (List.map (fun b => create_block_info b options) rest)) as Hnn.
    destruct (is_instrumentable (create_block_info b options)).
    + destruct (Z.leb_spec max id) as [Hle | Hlt]; [lia|].
      rewrite size_t_small by lia.
      destruct (IH (acc ++ [set_bit_id (create_block_info b options) id]) (id + 1))
        as [l El]; [lia | lia |].
      exists l. rewrite El. f_equal. f_equal. lia.
    + destruct (IH (acc ++ [create_block_info b options]) id) as [l El]; [lia | lia |].
      exists l. rewrite El. f_equal.
Qed.

(** C4. When there are more instrumentable blocks than [max_num_blocks]
    (the next fresh bit id would reach [max_num_blocks]), every block is
    rejected: the record has [too_many_blocks = true], [num_vectors = 0], no
    instrumented and no individually rejected block, all non-entry blocks
    counted as too large and no exit call; the only edit of the CFG is the
    insertion of the two-instruction [onMethodBegin] prologue in the entry
    block (no or-int/lit16, no [onMethodExit]); and the metadata row has
    [instrument = 1] (method-only tracing). *)
Theorem too_many_blocks_method_tracing
    (cfg : Cfg) (method onMethodBegin : string) (onMethodExit_map : gmap Z string)
    (max_vector_arity method_offset max_num_blocks : Z) (options : Options) :
  0 <= max_num_blocks < 2 ^ 64 ->
  max_num_blocks
  < count_if is_instrumentable
      (List.map (fun b => create_block_info b options) (blocks_to_visit cfg)) ->
  exists info,
    instrument_basic_blocks cfg method onMethodBegin onMethodExit_map
      max_vector_arity method_offset max_num_blocks options
    = Ok (info,
          let '(reg_method_offset, cfg1) := allocate_temp cfg in
          recompute_registers_size
            (insert_before cfg1 (block_id (entry_block cfg1))
               (get_first_non_param_loading_insn (entry_block cfg1))
               [const_insn method_offset reg_method_offset;
                invoke_static_insn onMethodBegin [reg_method_offset]]),
          false)
    /\ too_many_blocks info = true
    /\ num_vectors info = 0
    /\ num_instrumented_blocks info = 0
    /\ bit_id_2_block_id info = []
    /\ rejected_blocks info = ∅
    /\ num_blocks_too_large info = num_non_entry_blocks info
    /\ num_exit_calls info = 0
    /\ get_instrumented_type info = MethodOnly
    /\ metadata_instrument_field info = "1".
Proof.
  intros Hmax Hcnt. unfold instrument_basic_blocks, get_blocks_to_instrument.
  rewrite (assign_bit_ids_too_many _ _ _ [] 0) by lia.
  change ((0 + (BIT_VECTOR_SIZE - 1)) / BIT_VECTOR_SIZE) with 0.
  unfold insert_prologue_insts. simpl.
  destruct (allocate_temp cfg) as [reg_method_offset cfg1]. simpl.
  set (cfg4 := recompute_registers_size _).
  pose proof (size_t_range (blocks_size cfg4 - 1)) as Hne.
  change (count_if _ []) with 0. change (size_t (0 + 0)) with 0.
  change (size_t (0 - 0)) with 0.
  rewrite ?Z.add_0_l, ?Z.add_0_r, ?size_t_idem.
  simpl. rewrite Z.eqb_refl. simpl.
  eexists. split; [reflexivity|]. simpl. repeat split; reflexivity.
Qed.

End BlockInstrumentFacts.

Section ColdStartFacts.
Import BlockInstrument.

Lemma set_back_with_back s c : s <> "" -> set_back s c = Ok (with_back c s).
Proof.
  induction s as [|a s IH]; intros Hs; [congruence|].
  destruct s as [|b s]; [reflexivity|].
  change (set_back (String a (String b s)) c)
    with (set_back (String b s) c ≫= fun s'' => Ok (String a s'')).
  rewrite IH by discriminate. reflexivity.
Qed.

Lemma get_cold_start_classes_loop_app pre rest acc :
  Forall (fun s => s <> "") pre ->
  dex_end_marker0 ∉ pre ->
  get_cold_start_classes_loop (pre ++ rest) acc
  = get_cold_start_classes_loop rest (list_to_set (with_back "/" <$> pre) ∪ acc).
Proof.
  intros Hne. revert acc. induction Hne as [|s pre Hs Hne IH]; intros acc Hm.
  - simpl. f_equal. set_solver.
  - apply not_elem_of_cons in Hm as [Hm1 Hm2]. simpl.
    destruct (String.eqb_spec s dex_end_marker0) as [->|_]; [congruence|].
    rewrite (set_back_with_back s) by exact Hs. simpl.
    rewrite IH by exact Hm2. f_equal. set_solver.
Qed.

(** C10. The cold-start class set of the instrumenter consists of exactly
    the entries of the configured list in front of the first
    ["LDexEndMarker0;"], each with its last character replaced by ['/'];
    what is listed behind that marker has no influence on the set, nor on
    what the method selection decides for any method. *)
Theorem cold_start_classes_before_first_end_marker
    (pre post : list string) :
  Forall (fun s => s <> "") pre ->
  dex_end_marker0 ∉ pre ->
  get_cold_start_classes (pre ++ dex_end_marker0 :: post)
  = Ok (list_to_set (with_back "/" <$> pre))
  /\ (forall s, s ∈ (list_to_set (with_back "/" <$> pre) : gset string)
                <-> exists e, e ∈ pre /\ s = with_back "/" e)
  /\ forall is_included options analysis_clinit onMethodBegin onMethodExit_map methods,
       select_methods is_included options analysis_clinit onMethodBegin
         onMethodExit_map (pre ++ dex_end_marker0 :: post) methods
       = select_methods is_included options analysis_clinit onMethodBegin
           onMethodExit_map pre methods.
Proof.
  intros Hne Hm.
  assert (E1 : get_cold_start_classes (pre ++ dex_end_marker0 :: post)
               = Ok (list_to_set (with_back "/" <$> pre))).
  { unfold get_cold_start_classes.
    rewrite get_cold_start_classes_loop_app by assumption.
    simpl. f_equal. set_solver. }
  assert (E2 : get_cold_start_classes pre
               = Ok (list_to_set (with_back "/" <$> pre))).
  { unfold get_cold_start_classes.
    rewrite <- (app_nil_r pre) at 1.
    rewrite get_cold_start_classes_loop_app by assumption.
    simpl. f_equal. set_solver. }
  split; [exact E1 | split].
  - intros s. rewrite elem_of_list_to_set, list_elem_of_fmap. naive_solver.
  - intros. unfold select_methods. rewrite E1, E2. reflexivity.
Qed.

End ColdStartFacts.


Lemma instrument_basic_blocks_post_condition_witness :
  let info :=
    {| BlockInstrument.method := "LFoo;.bar:()V";
       BlockInstrument.too_many_blocks := false;
       BlockInstrument.offset := 8;
       BlockInstrument.num_non_entry_blocks := 3;
       BlockInstrument.num_vectors := 1;
       BlockInstrument.num_exit_calls := 2;
       BlockInstrument.num_empty_blocks := 0;
       BlockInstrument.num_useless_blocks := 0;
       BlockInstrument.num_no_source_blocks := 0;
       BlockInstrument.num_blocks_too_large := 0;
       BlockInstrument.num_catches := 1;
       BlockInstrument.num_instrumented_catches := 0;
       BlockInstrument.num_instrumented_blocks := 2;
       BlockInstrument.bit_id_2_block_id := [1; 2];
       BlockInstrument.bit_id_2_source_blocks := [[("LFoo;.bar:()V", 1)]; []];
       BlockInstrument.rejected_blocks := {[ 3 := 16 ]} |} in
  BlockInstrument.num_instrumented_blocks info
  + Z.of_nat (size (BlockInstrument.rejected_blocks info))
  = BlockInstrument.num_non_entry_blocks info.
Proof.
  intros info.
  refine (proj1 (instrument_basic_blocks_post_condition
            BlockInstrument.sample_cfg "LFoo;.bar:()V"
            BlockInstrument.sample_onMethodBegin
            BlockInstrument.sample_onMethodExit_map 2 8 500
            BlockInstrument.sample_options info _ false _ _ _)).
  - vm_compute. reflexivity.
  - vm_compute. reflexivity.
  - reflexivity.
Defined.

Lemma too_many_blocks_method_tracing_witness :
  exists info,
    BlockInstrument.instrument_basic_blocks BlockInstrument.sample_cfg
      "LFoo;.bar:()V" BlockInstrument.sample_onMethodBegin
      BlockInstrument.sample_onMethodExit_map 2 8 1 BlockInstrument.sample_options
    = Ok (info,
          {| BlockInstrument.lc_entry := BlockInstrument.sample_B0;
             BlockInstrument.lc_blocks := BlockInstrument.lc_blocks BlockInstrument.sample_cfg;
             BlockInstrument.lc_order := BlockInstrument.lc_order BlockInstrument.sample_cfg;
             BlockInstrument.lc_exits := BlockInstrument.lc_exits BlockInstrument.sample_cfg;
             BlockInstrument.lc_next_temp := 5;
             BlockInstrument.lc_registers_size := 5;
             BlockInstrument.lc_inserted :=
               [(0, 2%nat,
                 [BlockInstrument.const_insn 8 4;
                  BlockInstrument.invoke_static_insn
                    BlockInstrument.sample_onMethodBegin [4]])] |},
          false)
    /\ BlockInstrument.too_many_blocks info = true
    /\ BlockInstrument.num_vectors info = 0
    /\ BlockInstrument.metadata_instrument_field info = "1".
Proof.
  destruct (too_many_blocks_method_tracing BlockInstrument.sample_cfg
              "LFoo;.bar:()V" BlockInstrument.sample_onMethodBegin
              BlockInstrument.sample_onMethodExit_map 2 8 1
              BlockInstrument.sample_options)
    as (info & Hrun & Htm & Hnv & _ & _ & _ & _ & _ & _ & Hcol).
  - lia.
  - vm_compute. reflexivity.
  - exists info. repeat split; assumption.
Defined.

Lemma cold_start_classes_before_first_end_marker_witness :
  BlockInstrument.get_cold_start_classes
    (["Lcom/A;"; "Lcom/B;"] ++ BlockInstrument.dex_end_marker0 :: ["Lcom/C;"])
  = Ok {[ "Lcom/A/"; "Lcom/B/" ]}.
Proof.
  refine (eq_trans
            (proj1 (cold_start_classes_before_first_end_marker
                      ["Lcom/A;"; "Lcom/B;"] ["Lcom/C;"] _ _)) _).
  - repeat constructor; discriminate.
  - intros Hin. repeat (apply elem_of_cons in Hin as [Hin|Hin]; [discriminate|]).
    inversion Hin.
  - vm_compute. reflexivity.
Defined.

(** ** Inter-dex packing *)

Section InterDexFacts.
Import InterDex.
Context `{TypeSystem}.

Lemma same_markers_refl st : same_markers st st.
Proof. repeat split. Qed.

Lemma same_markers_trans st1 st2 st3 :
  same_markers st1 st2 -> same_markers st2 st3 -> same_markers st1 st3.
Proof. unfold same_markers. intuition congruence. Qed.

Lemma flush_canary_same_markers dex_info dexnum st :
  same_markers st (flush_canary dex_info dexnum st).
Proof.
  unfold flush_canary. destruct (_ && _); [|apply same_markers_refl].
  destruct (type_class st _); repeat split.
Qed.

Lemma flush_additional_classes_same_markers dex_info classes add st add' st' :
  flush_additional_classes dex_info classes add st = (add', st') ->
  same_markers st st'.
Proof.
  revert add st. induction classes as [|cls rest IH]; intros add st E; simpl in E.
  - injection E as _ <-. apply same_markers_refl.
  - apply IH in E. eapply same_markers_trans; [|exact E].
    destruct (_ || _); repeat split.
Qed.

Lemma flush_plugins_same_markers plugins dex_info add st add' st' :
  flush_plugins plugins dex_info add st = (add', st') -> same_markers st st'.
Proof.
  revert add st. induction plugins as [|p rest IH]; intros add st E; simpl in E.
  - injection E as _ <-. apply same_markers_refl.
  - destruct (flush_additional_classes _ _ _ _) as [add1 st1] eqn:E1.
    apply flush_additional_classes_same_markers in E1. apply IH in E.
    eapply same_markers_trans; eassumption.
Qed.

Lemma flush_out_dex_same_markers dex_info st dex_info' st' :
  flush_out_dex dex_info st = Ok (dex_info', st') -> same_markers st st'.
Proof.
  unfold flush_out_dex. intros E.
  destruct (flush_plugins _ _ _ _) as [add st2] eqn:E2.
  apply flush_plugins_same_markers in E2.
  destruct (end_dex _ _) as [classes ds].
  apply bind_Ok in E as (classes' & _ & E). injection E as _ <-.
  pose proof (flush_canary_same_markers dex_info
                (get_num_dexes (m_dexes_structure st)) st) as E1.
  eapply same_markers_trans; [exact E1|].
  eapply same_markers_trans; [exact E2|]. repeat split.
Qed.

(** C9. When [flush_out_dex] returns, the carried [DexInfo] is reset for the
    next DEX: [betamap_ordered] is false; [scroll], [background] and
    [extended] are false unless the scroll set, the background set or the
    extended set is still being emitted, in which case they are kept; and
    [primary] and [coldstart] are what they were. *)
Theorem flush_out_dex_resets_dex_info dex_info st dex_info' st' :
  flush_out_dex dex_info st = Ok (dex_info', st') ->
  betamap_ordered dex_info' = false
  /\ scroll dex_info' = (if m_emitting_scroll_set st then scroll dex_info else false)
  /\ background dex_info' = (if m_emitting_bg_set st then background dex_info else false)
  /\ extended dex_info' = (if m_emitting_extended st then extended dex_info else false)
  /\ primary dex_info' = primary dex_info
  /\ coldstart dex_info' = coldstart dex_info.
Proof.
  intros E. pose proof (flush_out_dex_same_markers _ _ _ _ E) as Hm.
  unfold flush_out_dex in E.
  destruct (flush_plugins _ _ _ _) as [add st2] eqn:E2.
  apply flush_plugins_same_markers in E2.
  pose proof (flush_canary_same_markers dex_info
                (get_num_dexes (m_dexes_structure st)) st) as E1.
  destruct (end_dex _ _) as [classes ds].
  apply bind_Ok in E as (classes' & _ & E). injection E as <- _.
  destruct E1 as (S1 & B1 & _ & X1 & _), E2 as (S2 & B2 & _ & X2 & _).
  simpl. rewrite S2, S1, B2, B1, X2, X1.
  destruct (m_emitting_scroll_set st), (m_emitting_bg_set st),
    (m_emitting_extended st); simpl; repeat split; reflexivity.
Qed.

Lemma flush_canary_num_dexes dex_info dexnum st :
  get_num_dexes (m_dexes_structure (flush_canary dex_info dexnum st))
  = get_num_dexes (m_dexes_structure st).
Proof.
  unfold flush_canary. destruct (_ && _); [|reflexivity].
  destruct (type_class st _); reflexivity.
Qed.

Lemma flush_additional_classes_num_dexes dex_info classes add st add' st' :
  flush_additional_classes dex_info classes add st = (add', st') ->
  get_num_dexes (m_dexes_structure st') = get_num_dexes (m_dexes_structure st).
Proof.
  revert add st. induction classes as [|cls rest IH]; intros add st E; simpl in E.
  - injection E as _ <-. reflexivity.
  - apply IH in E. rewrite E. destruct (_ || _); reflexivity.
Qed.

Lemma flush_plugins_num_dexes plugins dex_info add st add' st' :
  flush_plugins plugins dex_info add st = (add', st') ->
  get_num_dexes (m_dexes_structure st') = get_num_dexes (m_dexes_structure st).
Proof.
  revert add st. induction plugins as [|p rest IH]; intros add st E; simpl in E.
  - injection E as _ <-. reflexivity.
  - destruct (flush_additional_classes _ _ _ _) as [add1 st1] eqn:E1.
    apply flush_additional_classes_num_dexes in E1. apply IH in E. congruence.
Qed.

(** A flush leaves an empty current DEX behind and counts one more DEX. *)
Lemma flush_out_dex_fresh dex_info st dex_info' st' :
  flush_out_dex dex_info st = Ok (dex_info', st') ->
  get_current_dex_classes (m_dexes_structure st') = []
  /\ current_refs (m_dexes_structure st') = (∅, ∅, ∅)
  /\ get_num_dexes (m_dexes_structure st')
     = get_num_dexes (m_dexes_structure st) + 1.
Proof.
  unfold flush_out_dex. intros E.
  destruct (flush_plugins _ _ _ _) as [add st2] eqn:E2.
  apply flush_plugins_num_dexes in E2.
  rewrite flush_canary_num_dexes in E2.
  unfold end_dex in E.
  apply bind_Ok in E as (classes' & _ & E). injection E as _ <-.
  simpl. unfold get_num_dexes in E2. rewrite E2. repeat split.
Qed.

(** Only the compressed-size sort can make a flush abort. *)
Lemma flush_out_dex_without_sort dex_info st :
  m_sort_remaining_classes st = false ->
  exists r, flush_out_dex dex_info st = Ok r.
Proof.
  intros Hs. unfold flush_out_dex.
  destruct (flush_plugins _ _ _ _) as [add st2] eqn:E2.
  apply flush_plugins_same_markers in E2.
  pose proof (flush_canary_same_markers dex_info
                (get_num_dexes (m_dexes_structure st)) st) as E1.
  destruct (end_dex _ _) as [classes ds]. simpl.
  destruct E1 as (_ & _ & _ & _ & _ & _ & _ & S1).
  destruct E2 as (_ & _ & _ & _ & _ & _ & _ & S2).
  rewrite S2, S1, Hs. simpl. eauto.
Qed.

Lemma has_class_add_class_no_checks ds mrefs frefs trefs clazz :
  has_class (add_class_no_checks ds mrefs frefs trefs clazz) clazz = true.
Proof. unfold has_class. simpl. apply bool_decide_eq_true. set_solver. Qed.

Lemma gather_refs_erased plugins dex_info cls mrefs frefs trefs erased snr :
  (gather_refs plugins dex_info cls mrefs frefs trefs erased snr).1
  = (gather_refs plugins dex_info cls mrefs frefs trefs None snr).1.
Proof.
  unfold gather_refs.
  assert (G : forall ms fs ts e,
             (gather_refs_plugins plugins dex_info cls ms fs ts e snr).1
             = (gather_refs_plugins plugins dex_info cls ms fs ts None snr).1).
  { induction plugins as [|p rest IH]; intros ms fs ts e; simpl; [reflexivity|].
    destruct (plugin_gather_refs p dex_info cls snr) as [[[ms' fs'] ts'] es].
    apply IH. }
  specialize (G (cls_mrefs cls) (cls_frefs cls) (cls_trefs cls) erased).
  destruct (gather_refs_plugins plugins dex_info cls _ _ _ erased snr)
    as [[[a b] c] d].
  destruct (gather_refs_plugins plugins dex_info cls _ _ _ None snr)
    as [[[a' b'] c'] d'].
  simpl in G. injection G as -> -> ->. reflexivity.
Qed.

(** C8 (amended). A class that is not a canary, is not yet in a DEX and is
    not skipped by a plugin (when skips are checked) is never turned down by
    [emit_class]: whenever [emit_class] returns, it returns [true] and the
    class is in the current DEX.  If the current DEX has room, nothing is
    flushed.  Otherwise the current DEX is flushed and the class becomes the
    only class of the fresh DEX, with all its refs and no cap check.  The one
    way not to return is an abort of this flush, which only happens when the
    remaining classes are sorted for compressed size. *)
Theorem emit_class_never_rejects
    dex_info clazz (check_if_skip perf_sensitive : bool) erased_classes st :
  is_canary clazz = false ->
  has_class (m_dexes_structure st) clazz = false ->
  check_if_skip && should_skip_class_due_to_plugin st clazz = false ->
  match emit_class dex_info clazz check_if_skip perf_sensitive erased_classes st with
  | Ok (emitted, dex_info', _, st') =>
      emitted = true
      /\ has_class (m_dexes_structure st') clazz = true
      /\ In clazz (get_current_dex_classes (m_dexes_structure st'))
      /\ if fits_current_dex st dex_info clazz
         then get_num_dexes (m_dexes_structure st')
              = get_num_dexes (m_dexes_structure st)
              /\ dex_info' = dex_info
         else get_num_dexes (m_dexes_structure st')
              = get_num_dexes (m_dexes_structure st) + 1
              /\ get_current_dex_classes (m_dexes_structure st') = [clazz]
              /\ current_refs (m_dexes_structure st')
                 = clazz_refs st' dex_info' clazz
  | Fatal msg =>
      fits_current_dex st dex_info clazz = false
      /\ m_sort_remaining_classes st = true
      /\ flush_out_dex dex_info
           (if perf_sensitive then set_perf_sensitive st clazz else st)
         = Fatal msg
  end.
Proof.
  intros Hcanary Hhas Hskip. unfold emit_class.
  rewrite Hcanary, Hhas, Hskip.
  set (st1 := if perf_sensitive then set_perf_sensitive st clazz else st).
  assert (Hp : m_plugins st1 = m_plugins st) by (subst st1; destruct perf_sensitive; reflexivity).
  assert (Hd : m_dexes_structure st1 = m_dexes_structure st)
    by (subst st1; destruct perf_sensitive; reflexivity).
  assert (Hs : m_sort_remaining_classes st1 = m_sort_remaining_classes st)
    by (subst st1; destruct perf_sensitive; reflexivity).
  assert (Hr : should_not_relocate_methods_of_class st1 clazz
               = should_not_relocate_methods_of_class st clazz)
    by (unfold should_not_relocate_methods_of_class; rewrite Hp; reflexivity).
  unfold fits_current_dex, clazz_refs.
  rewrite Hp, Hr, Hd.
  pose proof (gather_refs_erased (m_plugins st) dex_info clazz ∅ ∅ ∅ erased_classes
                (should_not_relocate_methods_of_class st clazz)) as Hg.
  destruct (gather_refs (m_plugins st) dex_info clazz ∅ ∅ ∅ erased_classes _)
    as [[[mrefs frefs] trefs] erased1].
  simpl in Hg. rewrite <- Hg. clear Hg.
  unfold add_class_to_current_dex.
  destruct (fits_caps (m_dexes_structure st) mrefs frefs trefs) eqn:Hfits.
  - (* the class fits *)
    simpl. split; [reflexivity|]. split; [apply has_class_add_class_no_checks|].
    split; [apply in_or_app; right; left; reflexivity|].
    split; reflexivity.
  - (* overflow: flush, then add without checks *)
    assert (Est : set_m_dexes_structure st1 (m_dexes_structure st) = st1).
    { rewrite <- Hd. destruct st1; reflexivity. }
    rewrite Est.
    destruct (flush_out_dex dex_info st1) as [[dex_info' st3]|msg] eqn:Hflush.
    + simpl.
      pose proof (flush_out_dex_fresh _ _ _ _ Hflush) as (Hcur & Hrefs & Hnum).
      pose proof (flush_out_dex_same_markers _ _ _ _ Hflush)
        as (_ & _ & _ & _ & Hp3 & _).
      pose proof (gather_refs_erased (m_plugins st3) dex_info' clazz ∅ ∅ ∅
                    ((fun _ => []) <$> erased1)
                    (should_not_relocate_methods_of_class st3 clazz)) as Hg.
      destruct (gather_refs (m_plugins st3) dex_info' clazz ∅ ∅ ∅
                  ((fun _ => []) <$> erased1) _)
        as [[[mrefs' frefs'] trefs'] erased3].
      simpl in Hg. simpl.
      split; [reflexivity|]. split; [apply has_class_add_class_no_checks|].
      unfold get_current_dex_classes in *. rewrite Hcur. simpl.
      split; [left; reflexivity|].
      unfold get_num_dexes in *. rewrite Hnum, Hd.
      split; [reflexivity|]. split; [reflexivity|].
      unfold current_refs in *. injection Hrefs as Hm Hf Ht.
      change (should_not_relocate_methods_of_class (set_m_dexes_structure st3 _) clazz)
        with (should_not_relocate_methods_of_class st3 clazz).
      rewrite <- Hg. cbn [add_class_no_checks ds_current_mrefs ds_current_frefs
                            ds_current_trefs].
      rewrite Hm, Hf, Ht. f_equal; [f_equal|]; apply (left_id_L ∅ (∪)).
    + simpl. split; [reflexivity|]. split; [|reflexivity].
      destruct (m_sort_remaining_classes st) eqn:Hsort; [reflexivity|].
      destruct (flush_out_dex_without_sort dex_info st1) as [r Hr'];
        [congruence|]. congruence.
Qed.

Lemma emit_class_same_markers dex_info clazz cis ps erased st b dex_info' erased' st' :
  emit_class dex_info clazz cis ps erased st = Ok (b, dex_info', erased', st') ->
  same_markers st st'.
Proof.
  unfold emit_class. intros E.
  destruct (is_canary clazz); [injection E as _ _ _ <-; apply same_markers_refl|].
  destruct (has_class _ _); [injection E as _ _ _ <-; apply same_markers_refl|].
  destruct (cis && _); [injection E as _ _ _ <-; apply same_markers_refl|].
  set (st1 := if ps then set_perf_sensitive st clazz else st) in *.
  assert (H1 : same_markers st st1) by (subst st1; destruct ps; repeat split).
  destruct (gather_refs _ _ _ _ _ _ _ _) as [[[m f] t] e1].
  destruct (add_class_to_current_dex _ _ _ _ _) as [fits ds].
  destruct fits.
  - injection E as _ _ _ <-. eapply same_markers_trans; [exact H1|]. repeat split.
  - apply bind_Ok in E as ([di3 st3] & Hflush & E).
    apply flush_out_dex_same_markers in Hflush.
    destruct (gather_refs _ _ _ _ _ _ _ _) as [[[m' f'] t'] e3].
    injection E as _ _ _ <-.
    eapply same_markers_trans; [exact H1|].
    eapply same_markers_trans; [|exact Hflush]. repeat split.
Qed.

Lemma emit_unreferenced_loop_same_markers unref types dex_info st dex_info' st' :
  emit_unreferenced_loop unref types dex_info st = Ok (dex_info', st') ->
  same_markers st st'.
Proof.
  revert dex_info st. induction types as [|type rest IH]; intros dex_info st E;
    simpl in E.
  - injection E as _ <-. apply same_markers_refl.
  - destruct (type_class st type) as [cls|]; [|apply IH in E; exact E].
    destruct (bool_decide _); [|apply IH in E; exact E].
    apply bind_Ok in E as ([[[b di1] e1] st1] & Hemit & E).
    apply emit_class_same_markers in Hemit. apply IH in E.
    eapply same_markers_trans; eassumption.
Qed.

Lemma emit_interdex_loop_app unref pre post dex_info st r :
  emit_interdex_loop unref (pre ++ post) dex_info st = Ok r ->
  exists dex_info1 st1,
    emit_interdex_loop unref pre dex_info st = Ok (dex_info1, st1)
    /\ emit_interdex_loop unref post dex_info1 st1 = Ok r.
Proof.
  revert dex_info st. induction pre as [|type pre IH]; intros dex_info st E.
  - exists dex_info, st. split; [reflexivity | exact E].
  - simpl in E. apply bind_Ok in E as ([di1 st1] & Hentry & E).
    apply IH in E as (di2 & st2 & Hpre & Hpost).
    exists di2, st2. split; [|exact Hpost]. simpl. rewrite Hentry. exact Hpre.
Qed.

(** C2. The marker protocol of the cold-start list is enforced by fatal
    assertions.  An entry taken for a scroll start while a scroll or a
    background set is open, for a scroll end while no scroll set is open, for
    a background start while a background or a scroll set is open, for a
    background end while no background set is open, or for an end marker
    while a scroll or a background set is open, aborts; so does reaching the
    end of a list with a set still open.  Hence whenever the loop gets past
    an end marker, both sets were closed when that marker flushed the DEX. *)
Theorem marker_protocol_enforced unreferenced type dex_info st :
  (entry_kind st type = ScrollStart -> set_open st = true ->
   exists msg, emit_interdex_entry unreferenced type dex_info st = Fatal msg)
  /\ (entry_kind st type = ScrollEnd -> m_emitting_scroll_set st = false ->
      exists msg, emit_interdex_entry unreferenced type dex_info st = Fatal msg)
  /\ (entry_kind st type = BgStart -> set_open st = true ->
      exists msg, emit_interdex_entry unreferenced type dex_info st = Fatal msg)
  /\ (entry_kind st type = BgEnd -> m_emitting_bg_set st = false ->
      exists msg, emit_interdex_entry unreferenced type dex_info st = Fatal msg)
  /\ (forall position,
        entry_kind st type = EndMarker position -> set_open st = true ->
        exists msg, emit_interdex_entry unreferenced type dex_info st = Fatal msg)
  /\ (forall rest dex_info1 st1,
        emit_interdex_loop unreferenced (type :: rest)
          (set_coldstart dex_info true) st = Ok (dex_info1, st1) ->
        set_open st1 = true ->
        exists msg,
          emit_interdex_classes dex_info (type :: rest) unreferenced st = Fatal msg)
  /\ (forall pre post r,
        emit_interdex_loop unreferenced (pre ++ type :: post) dex_info st = Ok r ->
        exists dex_info1 st1,
          emit_interdex_loop unreferenced pre dex_info st = Ok (dex_info1, st1)
          /\ forall position,
               entry_kind st1 type = EndMarker position ->
               set_open st1 = false
               /\ exists r', flush_out_dex dex_info1 st1 = Ok r').
Proof.
  assert (Hend : forall di s position,
             entry_kind s type = EndMarker position ->
             (set_open s = true ->
              exists msg, emit_interdex_entry unreferenced type di s = Fatal msg)
             /\ (forall r, emit_interdex_entry unreferenced type di s = Ok r ->
                 set_open s = false /\ exists r', flush_out_dex di s = Ok r')).
  { intros di s position. unfold entry_kind, emit_interdex_entry, set_open.
    destruct (type_class s type); [discriminate|].
    repeat (destruct (starts_with type _); [discriminate|]).
    destruct (find_index type (m_end_markers s) 0); [|discriminate]. intros _.
    destruct (m_emitting_scroll_set s), (m_emitting_bg_set s); simpl;
      (split; [intros; try discriminate; eauto | intros r E; try discriminate]).
    split; [reflexivity|].
    destruct (flush_out_dex di s) as [r'|msg]; [eauto | discriminate]. }
  unfold entry_kind, emit_interdex_entry, set_open.
  repeat split.
  - destruct (type_class st type); [discriminate|].
    destruct (starts_with type SCROLL_SET_START_FORMAT); [|
      repeat (destruct (starts_with type _); try discriminate);
      destruct (find_index _ _ _); discriminate].
    intros _ Hopen.
    destruct (m_emitting_scroll_set st), (m_emitting_bg_set st);
      try discriminate; simpl; eauto.
  - destruct (type_class st type); [discriminate|].
    destruct (starts_with type SCROLL_SET_START_FORMAT); [discriminate|].
    destruct (starts_with type SCROLL_SET_END_FORMAT); [|
      repeat (destruct (starts_with type _); try discriminate);
      destruct (find_index _ _ _); discriminate].
    intros _ ->. simpl. eauto.
  - destruct (type_class st type); [discriminate|].
    destruct (starts_with type SCROLL_SET_START_FORMAT); [discriminate|].
    destruct (starts_with type SCROLL_SET_END_FORMAT); [discriminate|].
    destruct (starts_with type BG_SET_START_FORMAT); [|
      repeat (destruct (starts_with type _); try discriminate);
      destruct (find_index _ _ _); discriminate].
    intros _ Hopen.
    destruct (m_emitting_scroll_set st), (m_emitting_bg_set st);
      try discriminate; simpl; eauto.
  - destruct (type_class st type); [discriminate|].
    destruct (starts_with type SCROLL_SET_START_FORMAT); [discriminate|].
    destruct (starts_with type SCROLL_SET_END_FORMAT); [discriminate|].
    destruct (starts_with type BG_SET_START_FORMAT); [discriminate|].
    destruct (starts_with type BG_SET_END_FORMAT); [|
      destruct (find_index _ _ _); discriminate].
    intros _ ->. simpl. eauto.
  - intros position Hkind Hopen.
    destruct (Hend dex_info st position Hkind) as [Hfatal _].
    apply Hfatal. exact Hopen.
  - intros rest dex_info1 st1 Hloop Hopen.
    unfold emit_interdex_classes. rewrite Hloop, bind_Ok_l. cbv beta iota.
    destruct (emit_unreferenced_loop _ _ _ _) as [[dex_info2 st2]|msg] eqn:E2;
      [rewrite bind_Ok_l; cbv beta iota | eexists; reflexivity].
    apply emit_unreferenced_loop_same_markers in E2 as (S2 & B2 & _).
    rewrite S2, B2.
    destruct (m_emitting_scroll_set st1), (m_emitting_bg_set st1);
      try discriminate; simpl; eauto.
  - intros pre post r Hloop.
    apply emit_interdex_loop_app in Hloop as (dex_info1 & st1 & Hpre & Hpost).
    exists dex_info1, st1. split; [exact Hpre|].
    intros position Hkind. simpl in Hpost.
    apply bind_Ok in Hpost as (r1 & Hentry & _).
    destruct (Hend dex_info1 st1 position Hkind) as [_ Hflush].
    exact (Hflush r1 Hentry).
Qed.

(** [emit_class] closes at most one DEX. *)
Lemma emit_class_num_dexes dex_info clazz cis ps erased st b dex_info' erased' st' :
  emit_class dex_info clazz cis ps erased st = Ok (b, dex_info', erased', st') ->
  get_num_dexes (m_dexes_structure st') = get_num_dexes (m_dexes_structure st)
  \/ get_num_dexes (m_dexes_structure st') = get_num_dexes (m_dexes_structure st) + 1.
Proof.
  unfold emit_class. intros E.
  destruct (is_canary clazz); [injection E as _ _ _ <-; left; reflexivity|].
  destruct (has_class _ _); [injection E as _ _ _ <-; left; reflexivity|].
  destruct (cis && _); [injection E as _ _ _ <-; left; reflexivity|].
  set (st1 := if ps then set_perf_sensitive st clazz else st) in *.
  assert (Hd : m_dexes_structure st1 = m_dexes_structure st)
    by (subst st1; destruct ps; reflexivity).
  destruct (gather_refs _ _ _ _ _ _ _ _) as [[[m f] t] e1].
  unfold add_class_to_current_dex in E. rewrite Hd in E.
  destruct (fits_caps _ _ _ _).
  - injection E as _ _ _ <-. left. reflexivity.
  - apply bind_Ok in E as ([di3 st3] & Hflush & E).
    apply flush_out_dex_fresh in Hflush as (_ & _ & Hnum).
    destruct (gather_refs _ _ _ _ _ _ _ _) as [[[m' f'] t'] e3].
    injection E as _ _ _ <-. right.
    unfold get_num_dexes in *. simpl in *. rewrite Hnum. reflexivity.
Qed.

Section RemainingClasses.
Context `{CrossDexRefMinimizer M} `{CrossDexRelocator R}.

Lemma pick_class_spec (min : M) (pick_worst : bool) :
  pick_class min pick_worst
  = if pick_worst
       && Z.gtb (get_unapplied_refs min (min_worst min)) (get_applied_refs min)
    then min_worst min else min_front min.
Proof.
  unfold pick_class. destruct pick_worst; [|reflexivity].
  destruct (Z.gtb _ _); reflexivity.
Qed.

(** What one round of the loop does to the loop variables. *)
Lemma emit_remaining_round_spec (ls ls' : LoopState) :
  emit_remaining_round ls = Ok ls' ->
  exists emitted dex_info erased st,
    emit_class (ls_dex_info ls) (pick_class (ls_min ls) (ls_pick_worst ls))
      false false (Some []) (ls_state ls)
    = Ok (emitted, dex_info, erased, st)
    /\ ls_pick_worst ls'
       = (ls_pick_worst ls && negb emitted)
         || negb (Z.eqb (ls_dexnum ls) (get_num_dexes (m_dexes_structure st)))
    /\ ls_dexnum ls' = get_num_dexes (m_dexes_structure st)
    /\ (relocator_keeps_num_dexes ->
        get_num_dexes (m_dexes_structure (ls_state ls'))
        = get_num_dexes (m_dexes_structure st)).
Proof.
  unfold emit_remaining_round. intros E.
  apply bind_Ok in E as ([[[emitted dex_info] erased] st] & Hemit & E).
  exists emitted, dex_info, erased, st. split; [exact Hemit|].
  destruct (ls_relocator ls) as [r|].
  - destruct (if negb (Z.eqb _ _) then _ else _) as [r1 ds1] eqn:E1.
    destruct (add_to_current_dex r1 _ ds1) as [r2 ds2] eqn:E2.
    apply bind_Ok in E as (min2 & _ & E). injection E as <-. simpl.
    repeat split. intros Hkeep.
    pose proof (Hkeep r1 (pick_class (ls_min ls) (ls_pick_worst ls)) ds1) as [_ K2].
    rewrite E2 in K2. simpl in K2. rewrite K2.
    destruct (negb (Z.eqb _ _)).
    + pose proof (Hkeep r (pick_class (ls_min ls) (ls_pick_worst ls))
                    (m_dexes_structure st)) as [K1 _].
      rewrite E1 in K1. exact K1.
    + injection E1 as _ <-. reflexivity.
  - apply bind_Ok in E as (min2 & _ & E). injection E as <-. simpl.
    repeat split.
Qed.

(** The loop variable [dexnum] is the number of DEXes at the head of every
    round. *)
Lemma reaches_round_dexnum (ls0 ls : LoopState) :
  relocator_keeps_num_dexes ->
  ls_dexnum ls0 = get_num_dexes (m_dexes_structure (ls_state ls0)) ->
  reaches_round ls0 ls ->
  ls_dexnum ls = get_num_dexes (m_dexes_structure (ls_state ls)).
Proof.
  intros Hkeep Hinv Hreach. induction Hreach as [ls | ls ls1 ls2 _ Hround _ IH].
  - exact Hinv.
  - apply IH.
    apply emit_remaining_round_spec in Hround
      as (emitted & di & erased & st & _ & _ & Hnum & Hst).
    rewrite Hnum, (Hst Hkeep). reflexivity.
Qed.

(** C5. In every round of the minimized loop of [emit_remaining_classes]
    the class handed to [emit_class] is the worst class when [pick_worst]
    holds and the worst class has more unapplied refs than there are
    applied refs, and the front class otherwise; after the attempt
    [pick_worst] is [(pick_worst && !emitted) || overflowed], where
    [overflowed] holds exactly when [emit_class] raised the number of
    DEXes. *)
Theorem emit_remaining_round_pick_worst
    (min0 : M) (relocator : option R) (dex_info0 : DexInfo) (st0 : State)
    (ls ls' : LoopState) :
  relocator_keeps_num_dexes ->
  reaches_round (initial_loop_state min0 relocator dex_info0 st0) ls ->
  emit_remaining_round ls = Ok ls' ->
  let min := ls_min ls in
  let cls :=
    if ls_pick_worst ls
       && Z.gtb (get_unapplied_refs min (min_worst min)) (get_applied_refs min)
    then min_worst min else min_front min in
  exists emitted dex_info erased st,
    emit_class (ls_dex_info ls) cls false false (Some []) (ls_state ls)
    = Ok (emitted, dex_info, erased, st)
    /\ let overflowed :=
         bool_decide (get_num_dexes (m_dexes_structure (ls_state ls))
                      < get_num_dexes (m_dexes_structure st)) in
       ls_pick_worst ls' = (ls_pick_worst ls && negb emitted) || overflowed.
Proof.
  intros Hkeep Hreach Hround. simpl.
  pose proof (reaches_round_dexnum
                (initial_loop_state min0 relocator dex_info0 st0) ls
                Hkeep eq_refl Hreach) as Hinv.
  apply emit_remaining_round_spec in Hround
    as (emitted & di & erased & st & Hemit & Hpick & _ & _).
  rewrite pick_class_spec in Hemit.
  exists emitted, di, erased, st. split; [exact Hemit|].
  rewrite Hpick, Hinv. f_equal.
  apply emit_class_num_dexes in Hemit.
  destruct (Z.eqb_spec (get_num_dexes (m_dexes_structure (ls_state ls)))
              (get_num_dexes (m_dexes_structure st))) as [Heq|Hne]; simpl;
    symmetry; [apply bool_decide_eq_false | apply bool_decide_eq_true]; lia.
Qed.

End RemainingClasses.

End InterDexFacts.

Lemma flush_out_dex_resets_dex_info_witness :
  exists dex_info' st',
    InterDex.flush_out_dex InterDex.sample_dex_info (InterDex.sample_state true)
    = Ok (dex_info', st')
    /\ dex_info'
       = {| InterDex.primary := false; InterDex.coldstart := true;
            InterDex.extended := false; InterDex.scroll := false;
            InterDex.background := false; InterDex.betamap_ordered := false |}.
Proof.
  destruct (InterDex.flush_out_dex InterDex.sample_dex_info (InterDex.sample_state true))
    as [[dex_info' st']|msg] eqn:E; [|vm_compute in E; discriminate].
  exists dex_info', st'. split; [reflexivity|].
  destruct (flush_out_dex_resets_dex_info _ _ _ _ E) as (Hb & Hs & Hg & He & Hp & Hc).
  destruct dex_info'; simpl in *. subst. reflexivity.
Defined.

(** C8, as claimed, fails: with the compressed-size sort on and a
    perf-sensitive class emitted behind another one, a class that is no
    canary, in no DEX and not skipped, but does not fit, makes [emit_class]
    abort in the flush instead of returning [true]. *)
Lemma emit_class_abort_counterexample :
  InterDex.is_canary InterDex.sample_C = false
  /\ InterDex.has_class (InterDex.m_dexes_structure (InterDex.sample_state_AB true))
       InterDex.sample_C = false
  /\ InterDex.should_skip_class_due_to_plugin (InterDex.sample_state_AB true)
       InterDex.sample_C = false
  /\ InterDex.emit_class InterDex.sample_dex_info InterDex.sample_C false false None
       (InterDex.sample_state_AB true)
     = Fatal "std::find_if(begin, end, is_ordered) == end".
Proof. vm_compute. repeat split; reflexivity. Qed.

Lemma emit_class_never_rejects_witness :
  exists dex_info' erased' st',
    InterDex.emit_class InterDex.sample_dex_info InterDex.sample_Big true false None
      (InterDex.sample_state false)
    = Ok (true, dex_info', erased', st')
    /\ InterDex.get_current_dex_classes (InterDex.m_dexes_structure st')
       = [InterDex.sample_Big]
    /\ InterDex.fits_caps InterDex.sample_dexes_structure
         (InterDex.ds_current_mrefs (InterDex.m_dexes_structure st')) ∅ ∅ = false.
Proof.
  pose proof (emit_class_never_rejects InterDex.sample_dex_info InterDex.sample_Big
                true false None (InterDex.sample_state false)
                eq_refl eq_refl eq_refl) as Hthm.
  destruct (InterDex.emit_class _ _ _ _ _ _) as [[[[emitted dex_info'] erased'] st']|msg] eqn:E.
  - destruct Hthm as (-> & _ & _ & Hfit).
    change (InterDex.fits_current_dex (InterDex.sample_state false)
              InterDex.sample_dex_info InterDex.sample_Big) with false in Hfit.
    destruct Hfit as (_ & Hcur & Hrefs).
    exists dex_info', erased', st'. split; [reflexivity|]. split; [exact Hcur|].
    injection E as _ _ <-. vm_compute. reflexivity.
  - destruct Hthm as (_ & Hsort & _). discriminate Hsort.
Defined.



Lemma marker_protocol_enforced_witness :
  exists msg,
    InterDex.emit_interdex_entry ∅ "LDexEndMarker0;" InterDex.sample_dex_info
      (InterDex.set_m_emitting_scroll_set (InterDex.sample_state true) true)
    = Fatal msg.
Proof.
  refine (proj1 (proj2 (proj2 (proj2 (proj2
            (marker_protocol_enforced ∅ "LDexEndMarker0;" InterDex.sample_dex_info
               (InterDex.set_m_emitting_scroll_set (InterDex.sample_state true) true))))))
            0%nat _ _).
  - vm_compute. reflexivity.
  - vm_compute. reflexivity.
Defined.

Lemma emit_remaining_round_pick_worst_witness :
  exists ls' emitted dex_info erased st,
    InterDex.emit_remaining_round
      (InterDex.initial_loop_state InterDex.sample_minimizer (Some tt)
         InterDex.sample_dex_info (InterDex.sample_state false)) = Ok ls'
    /\ InterDex.emit_class InterDex.sample_dex_info InterDex.sample_A false false
         (Some []) (InterDex.sample_state false)
       = Ok (emitted, dex_info, erased, st)
    /\ InterDex.ls_pick_worst ls' = false.
Proof.
  set (ls0 := InterDex.initial_loop_state InterDex.sample_minimizer (Some tt)
                InterDex.sample_dex_info (InterDex.sample_state false)).
  destruct (InterDex.emit_remaining_round ls0) as [ls'|msg] eqn:E;
    [|vm_compute in E; discriminate].
  assert (Hkeep : InterDex.relocator_keeps_num_dexes (R := unit))
    by (intros r cls ds; split; reflexivity).
  destruct (emit_remaining_round_pick_worst InterDex.sample_minimizer (Some tt)
              InterDex.sample_dex_info (InterDex.sample_state false) ls0 ls'
              Hkeep (InterDex.reaches_here ls0) E)
    as (emitted & dex_info & erased & st & Hemit & Hpick).
  exists ls', emitted, dex_info, erased, st.
  split; [reflexivity|]. split; [exact Hemit|].
  rewrite Hpick. vm_compute in Hemit. injection Hemit as <- _ _ <-.
  vm_compute. reflexivity.
Defined.


(** ** Keep-rule parser *)

Section SortFacts.
Import ProguardParser.
Context {A : Type} (comp : A -> A -> bool).

Lemma sort_insert_perm x l : Permutation (x :: l) (sort_insert comp x l).
Proof.
  induction l as [|y l IH]; simpl; [reflexivity|].
  destruct (comp x y); [reflexivity|].
  rewrite perm_swap. apply perm_skip. exact IH.
Qed.

Lemma sort_insert_sorted x l :
  strict_weak_order comp -> sorted_by comp l -> sorted_by comp (sort_insert comp x l).
Proof.
  intros (Hirr & Htrans & _). unfold sorted_by.
  induction l as [|y l IH]; intros Hs; simpl.
  - repeat constructor.
  - apply StronglySorted_inv in Hs as [Hs Hy].
    destruct (comp x y) eqn:Hxy.
    + constructor; [constructor; assumption|].
      constructor.
      * destruct (comp y x) eqn:Hyx; [|reflexivity].
        pose proof (Htrans x y x Hxy Hyx) as Hxx. rewrite Hirr in Hxx. discriminate.
      * rewrite List.Forall_forall in *. intros b Hb.
        destruct (comp b x) eqn:Hbx; [|reflexivity].
        pose proof (Htrans b x y Hbx Hxy) as Hby. rewrite (Hy b Hb) in Hby.
        discriminate.
    + constructor; [apply IH; exact Hs|].
      eapply Permutation_Forall; [apply sort_insert_perm|].
      constructor; assumption.
Qed.

Lemma insertion_sort_contract l :
  strict_weak_order comp ->
  Permutation l (insertion_sort comp l) /\ sorted_by comp (insertion_sort comp l).
Proof.
  intros Hswo. unfold insertion_sort.
  assert (G : forall acc,
             sorted_by comp acc ->
             Permutation (acc ++ l)
               (fold_left (fun sorted x => sort_insert comp x sorted) l acc)
             /\ sorted_by comp
                  (fold_left (fun sorted x => sort_insert comp x sorted) l acc)).
  { induction l as [|x l IH]; intros acc Hacc; simpl.
    - rewrite app_nil_r. split; [reflexivity | exact Hacc].
    - destruct (IH (sort_insert comp x acc)) as [Hp Hs];
        [apply sort_insert_sorted; assumption|].
      split; [|exact Hs]. rewrite <- Hp.
      rewrite <- (sort_insert_perm x acc). symmetry. apply Permutation_middle. }
  apply (G []). constructor.
Qed.

Lemma backward_insertion_sort_contract l :
  strict_weak_order comp ->
  Permutation l (backward_insertion_sort comp l)
  /\ sorted_by comp (backward_insertion_sort comp l).
Proof.
  intros Hswo. unfold backward_insertion_sort.
  induction l as [|x l [Hp Hs]]; simpl.
  - split; [reflexivity | constructor].
  - split; [|apply sort_insert_sorted; assumption].
    rewrite <- sort_insert_perm. apply perm_skip. exact Hp.
Qed.

End SortFacts.

Section ClassSpecificationFacts.
Import ProguardParser.

Lemma ltb_irrefl s : String.ltb s s = false.
Proof.
  unfold String.ltb.
  assert (String_as_OT.cmp s s = Eq) as E by (apply String_as_OT.cmp_eq; reflexivity).
  unfold String_as_OT.cmp in E. rewrite E. reflexivity.
Qed.

Lemma ltb_lt s1 s2 : String.ltb s1 s2 = true <-> String_as_OT.lt s1 s2.
Proof.
  rewrite <- String_as_OT.cmp_lt. unfold String.ltb, String_as_OT.cmp.
  destruct (String.compare s1 s2); split; intros; congruence.
Qed.

Lemma ltb_trans s1 s2 s3 :
  String.ltb s1 s2 = true -> String.ltb s2 s3 = true -> String.ltb s1 s3 = true.
Proof. rewrite !ltb_lt. apply String_as_OT.lt_trans. Qed.

Lemma ltb_incomparable s1 s2 :
  String.ltb s1 s2 = false -> String.ltb s2 s1 = false -> s1 = s2.
Proof.
  unfold String.ltb.
  pose proof (String_as_OT.cmp_antisym s2 s1) as Hanti.
  unfold String_as_OT.cmp in Hanti. rewrite Hanti.
  destruct (String.compare s1 s2) eqn:E; simpl; try discriminate.
  intros _ _. apply String_as_OT.cmp_eq. exact E.
Qed.

Lemma member_comparison_strict_weak_order : strict_weak_order member_comparison.
Proof.
  unfold member_comparison. repeat split.
  - intros a. apply ltb_irrefl.
  - intros a b c. apply ltb_trans.
  - rewrite (ltb_incomparable _ _ H H0). exact H1.
  - rewrite (ltb_incomparable _ _ H H0). exact H2.
Qed.

Lemma forward_services_contract : @std_sort_contract forward_services.
Proof. intros A comp l. apply insertion_sort_contract. Qed.

Lemma backward_services_contract : @std_sort_contract backward_services.
Proof. intros A comp l. apply backward_insertion_sort_contract. Qed.

(** C7 (amended). When [parse_class_specification] returns a class
    specification, its field and its method specifications are the members
    collected by [parse_member_specifications], in the order in which
    [std::sort] with [member_comparison] leaves them: sorted by member
    name, and a permutation of the members parsed.  Nothing is promised on
    the order of members with the same name. *)
Theorem parse_class_specification_sorted `{ParserServices}
    (idx idx' : list Token) (allow_return : bool) (cs : ClassSpecification) :
  std_sort_contract ->
  parse_class_specification idx allow_return = Ok (Some cs, idx') ->
  sorted_by member_comparison (fieldSpecifications cs)
  /\ sorted_by member_comparison (methodSpecifications cs)
  /\ exists idx1 cs0 cs1,
       parse_member_specifications idx1 cs0 allow_return = Ok (true, cs1, idx')
       /\ fieldSpecifications cs0 = [] /\ methodSpecifications cs0 = []
       /\ fieldSpecifications cs
          = std_sort _ member_comparison (fieldSpecifications cs1)
       /\ methodSpecifications cs
          = std_sort _ member_comparison (methodSpecifications cs1)
       /\ Permutation (fieldSpecifications cs1) (fieldSpecifications cs)
       /\ Permutation (methodSpecifications cs1) (methodSpecifications cs).
Proof.
  intros Hsort E. unfold parse_class_specification in E.
  apply bind_Ok in E as ([annotation idx0] & _ & E).
  apply bind_Ok in E as ([[[ok1 sf] uf] idx1] & _ & E).
  destruct ok1; simpl in E; [|discriminate].
  apply bind_Ok in E as ([[[ok2 sf2] uf2] idx2] & _ & E).
  destruct ok2; simpl in E; [|discriminate].
  apply bind_Ok in E as ([[ok3 class_names] idx3] & _ & E).
  destruct ok3; simpl in E; [|discriminate].
  apply bind_Ok in E as ([[[ok4 ea] ec] idx4] & _ & E).
  apply bind_Ok in E as ([[member_ok cs1] idx5] & Hmembers & E).
  destruct ok4, member_ok; simpl in E; try discriminate.
  injection E as <- <-. simpl.
  destruct (Hsort _ member_comparison (fieldSpecifications cs1)
              member_comparison_strict_weak_order) as [Hpf Hsf].
  destruct (Hsort _ member_comparison (methodSpecifications cs1)
              member_comparison_strict_weak_order) as [Hpm Hsm].
  split; [exact Hsf|]. split; [exact Hsm|].
  eexists _, _, cs1. split; [exact Hmembers|]. simpl.
  repeat split; assumption.
Qed.

End ClassSpecificationFacts.

Lemma parse_class_specification_sorted_witness :
  exists cs idx',
    @ProguardParser.parse_class_specification ProguardParser.forward_services
      ProguardParser.tokens_two_fields false = Ok (Some cs, idx')
    /\ ProguardParser.sorted_by ProguardParser.member_comparison
         (ProguardParser.fieldSpecifications cs).
Proof.
  destruct (@ProguardParser.parse_class_specification
              ProguardParser.forward_services
              ProguardParser.tokens_two_fields false)
    as [[[cs|] idx']|msg] eqn:E; try (vm_compute in E; discriminate).
  exists cs, idx'. split; [reflexivity|].
  exact (proj1 (@parse_class_specification_sorted ProguardParser.forward_services
                  _ _ _ _ forward_services_contract E)).
Defined.

(** C7, as claimed, fails: a sort that meets the contract of [std::sort]
    may return the two fields named [a] of [class Foo { int a; long a; }]
    in the opposite of the order in which they were parsed. *)
Lemma parse_class_specification_unstable_counterexample :
  let field d :=
    {| ProguardParser.requiredSetAccessFlags := 0;
       ProguardParser.requiredUnsetAccessFlags := 0;
       ProguardParser.member_annotationType := "";
       ProguardParser.name := "a"; ProguardParser.descriptor := d;
       ProguardParser.return_value :=
         {| ProguardParser.value_type := ProguardParser.ValueUnknownType;
            ProguardParser.value_v := 0 |} |} in
  @ProguardParser.std_sort_contract ProguardParser.backward_services
  /\ exists cs cs1 idx',
       @ProguardParser.parse_class_specification ProguardParser.backward_services
         ProguardParser.tokens_two_fields false = Ok (Some cs, idx')
       /\ @ProguardParser.parse_member_specifications
            ProguardParser.backward_services
            (drop 2 ProguardParser.tokens_two_fields)
            ProguardParser.default_ClassSpecification false
          = Ok (true, cs1, idx')
       /\ ProguardParser.fieldSpecifications cs1 = [field "I"; field "J"]
       /\ ProguardParser.fieldSpecifications cs = [field "J"; field "I"]
       /\ ~ ProguardParser.keeps_order_of_name "a"
              [field "I"; field "J"] (ProguardParser.fieldSpecifications cs).
Proof.
  intros field. split; [exact backward_services_contract|].
  eexists _, _, _. split; [vm_compute; reflexivity|].
  split; [vm_compute; reflexivity|].
  split; [vm_compute; reflexivity|].
  split; [vm_compute; reflexivity|].
  vm_compute. discriminate.
Qed.

Section KeepFacts.
Import ProguardParser.
Context `{ParserServices} {Rules : Type} `{KeepSpecSet Rules}.

Lemma put_get_spec_set (d : KeepSpecDesc) (pg : @ProguardConfiguration Rules) :
  put_spec_set d pg (get_spec_set d pg) = pg.
Proof.
  unfold put_spec_set, get_spec_set. destruct pg, (desc_spec_set d); reflexivity.
Qed.

Lemma is_type_true idx t : is_type idx t = true <-> idx_type idx = t.
Proof. unfold is_type, TokenType.eqb. apply bool_decide_eq_true. Qed.

Lemma parse_keep_other_token idx keep_kind (spec : Rules) mc mcond ash ar fn line :
  is_type idx keep_kind = false ->
  parse_keep idx keep_kind spec mc mcond ash ar fn line = Ok (None, spec, idx).
Proof. intros E. unfold parse_keep. rewrite E. reflexivity. Qed.

(** The modifiers only ever switch flags on; without a comma there is
    nothing to fold in. *)
Lemma parse_modifiers_loop_flags bound idx keep okm keep' idx' :
  parse_modifiers_loop bound idx keep = Ok (okm, keep', idx') ->
  mark_classes keep' = mark_classes keep
  /\ mark_conditionally keep' = mark_conditionally keep
  /\ class_spec keep' = class_spec keep
  /\ source_filename keep' = source_filename keep
  /\ source_line keep' = source_line keep
  /\ (allowshrinking keep = true -> allowshrinking keep' = true)
  /\ (is_type idx TokenType.comma = false -> keep' = keep /\ okm = true).
Proof.
  revert idx keep. induction bound as [|bound IH]; intros idx keep E; simpl in E.
  - destruct (is_type idx TokenType.comma); [discriminate|].
    injection E as <- <- <-. repeat split; auto.
  - destruct (is_type idx TokenType.comma) eqn:Hcomma.
    + apply bind_Ok in E as (idx1 & _ & E).
      destruct (negb (is_modifier (idx_type idx1))).
      * injection E as <- <- <-. repeat split; auto; discriminate.
      * apply bind_Ok in E as (idx2 & _ & E). apply IH in E.
        destruct E as (E1 & E2 & E3 & E4 & E5 & E6 & _).
        destruct (idx_type idx1); simpl in *;
          repeat split; auto; discriminate.
    + injection E as <- <- <-. repeat split; auto.
Qed.

(** What [parse_keep] does once its directive token is there. *)
Lemma parse_keep_matched (d : KeepSpecDesc) idx (spec : Rules) fn line r :
  is_type idx (desc_token_type d) = true ->
  parse_keep idx (desc_token_type d) spec (desc_mark_classes d)
    (desc_mark_conditionally d) (desc_allowshrinking d) (desc_allow_return d)
    fn line = Ok r ->
  exists idx1 okm keep1 idx2,
    next idx = Ok idx1
    /\ parse_modifiers idx1 (initial_keep d fn line) = Ok (okm, keep1, idx2)
    /\ if (okm : bool)
       then exists cso idx',
              parse_class_specification idx2 (desc_allow_return d) = Ok (cso, idx')
              /\ r = (Some (bool_decide (is_Some cso)),
                      emplace spec (match cso with
                                    | Some c => set_class_spec keep1 c
                                    | None => keep1
                                    end),
                      idx')
       else exists idx',
              skip_to_next_command idx2 = Ok idx'
              /\ r = (Some false, spec, idx').
Proof.
  intros Hty E. unfold parse_keep in E. rewrite Hty in E.
  apply bind_Ok in E as (idx1 & Hnext & E).
  change {| includedescriptorclasses := _ |} with (initial_keep d fn line) in E.
  apply bind_Ok in E as ([[okm keep1] idx2] & Hmod & E).
  exists idx1, okm, keep1, idx2. split; [exact Hnext|]. split; [exact Hmod|].
  destruct okm; simpl in E.
  - apply bind_Ok in E as ([cso idx'] & Hcs & E). injection E as <-.
    exists cso, idx'. split; [exact Hcs | reflexivity].
  - apply bind_Ok in E as (idx' & Hskip & E). injection E as <-.
    exists idx'. split; [exact Hskip | reflexivity].
Qed.

(** [parse_all_keep] runs [parse_keep] for the one directive of the table
    whose token is there. *)
Lemma parse_all_keep_matched specs (d : KeepSpecDesc) idx
    (pg : @ProguardConfiguration Rules) stats fn line r :
  In d specs ->
  List.NoDup (List.map desc_token_type specs) ->
  is_type idx (desc_token_type d) = true ->
  parse_all_keep specs idx pg stats fn line = Ok r ->
  exists val_ok spec idx',
    parse_keep idx (desc_token_type d) (get_spec_set d pg) (desc_mark_classes d)
      (desc_mark_conditionally d) (desc_allowshrinking d) (desc_allow_return d)
      fn line = Ok (Some val_ok, spec, idx')
    /\ r = (true, idx', put_spec_set d pg spec, check_keep stats val_ok).
Proof.
  intros Hin Hnd Hty. apply is_type_true in Hty.
  induction specs as [|d0 specs IH]; [destruct Hin|]. intros E.
  simpl in Hnd. apply List.NoDup_cons_iff in Hnd as [Hnotin Hnd]. simpl in E.
  destruct (TokenType.eq_dec (desc_token_type d0) (desc_token_type d)) as [Heq|Hne].
  - assert (d0 = d) as ->.
    { destruct Hin as [Hd|Hd]; [exact Hd|]. exfalso. apply Hnotin.
      rewrite Heq. apply in_map. exact Hd. }
    apply bind_Ok in E as ([[val_ok spec] idx'] & Hkeep & E).
    pose proof Hkeep as Hk.
    apply parse_keep_matched in Hk; [|apply is_type_true; exact Hty].
    destruct Hk as (idx1 & okm & keep1 & idx2 & _ & _ & Hk).
    destruct okm.
    + destruct Hk as (cso & idx'' & _ & Hr). injection Hr as -> -> ->.
      injection E as <-. eexists _, _, _. split; [exact Hkeep | reflexivity].
    + destruct Hk as (idx'' & _ & Hr). injection Hr as -> -> ->.
      injection E as <-. eexists _, _, _. split; [exact Hkeep | reflexivity].
  - rewrite parse_keep_other_token in E.
    + rewrite bind_Ok_l in E. cbv beta iota in E.
      rewrite put_get_spec_set in E. apply IH; [|exact Hnd|exact E].
      destruct Hin as [Hd|Hd]; [congruence | exact Hd].
    + unfold is_type, TokenType.eqb. apply bool_decide_eq_false. congruence.
Qed.

Lemma KEEP_SPECS_NoDup : List.NoDup (List.map desc_token_type KEEP_SPECS).
Proof.
  simpl. repeat (constructor; [simpl; intuition discriminate|]). constructor.
Qed.



End KeepFacts.





(** ** Runs of the parser *)

(** The loops of the parser are modelled with a bound on their rounds.  This
    part shows that the bound is never reached, and that on the vectors the
    lexer produces the parsing of a keep rule never aborts. *)

Create HintDb in_bounds.
Create HintDb returns.

Section ParserRuns.
Import ProguardParser.

Lemma in_bounds_bind {A B} (P : A -> Prop) (Q : B -> Prop) (r : result A) (k : A -> result B) :
  in_bounds P r -> (forall a, P a -> in_bounds Q (k a)) -> in_bounds Q (r ≫= k).
Proof. destruct r; simpl; auto. Qed.

Lemma in_bounds_weaken {A} (P Q : A -> Prop) (r : result A) :
  in_bounds P r -> (forall a, P a -> Q a) -> in_bounds Q r.
Proof. destruct r; simpl; auto. Qed.

(** Arithmetic on the tokens left, from the facts on the calls made so far. *)
Ltac idx_solve :=
  simpl in *; unfold le_idx, lt_idx in *; cbn [length] in *;
  repeat split; intros;
  repeat match goal with
    | H : negb _ = true |- _ => apply negb_true_iff in H
    | H : negb _ = false |- _ => apply negb_false_iff in H
    end;
  repeat match goal with
    | H : _ /\ _ |- _ => destruct H
    | H : _ = _ \/ _ |- _ => destruct H as [H|H]; [try subst|]
    | H : ?A -> _ |- _ =>
        let HA := fresh in
        assert (HA : A) by (assumption || congruence || lia);
        specialize (H HA); clear HA
    end;
  try lia; try congruence; try (left; reflexivity); try (right; lia); auto.

Lemma skip_comments_length idx : (length (skip_comments idx) <= length idx)%nat.
Proof.
  induction idx as [|t idx IH]; simpl; [lia|].
  destruct (TokenType.eqb _ _); simpl; lia.
Qed.

(** [next] consumes at least one token. *)
Lemma next_in_bounds idx : in_bounds (lt_idx idx) (next idx).
Proof.
  unfold next. destruct idx as [|t idx]; simpl; [discriminate|].
  destruct (negb _); simpl; [|discriminate].
  pose proof (skip_comments_length idx). unfold lt_idx. simpl. lia.
Qed.

Lemma result_bind_assoc {A B C} (r : result A) (f : A -> result B) (g : B -> result C) :
  (r ≫= f) ≫= g = r ≫= (fun a => f a ≫= g).
Proof. destruct r; reflexivity. Qed.

Lemma always_assert_log_in_bounds c msg :
  msg <> "loop bound exceeded" ->
  in_bounds (fun _ => c = true) (always_assert_log c msg).
Proof. destruct c; simpl; auto. Qed.

(** One step through the body of a parsing function: a test is split, a
    call is replaced by what is known of its result. *)
Ltac pcall := solve [ eauto with in_bounds nocore ].
Ltac pstep :=
  cbv beta iota zeta;
  lazymatch goal with
  | |- in_bounds _ (Ok _) => solve [idx_solve]
  | |- in_bounds _ (Fatal _) => simpl; (discriminate || congruence)
  | |- in_bounds _ (if ?c then _ else _) => destruct c eqn:?
  | |- in_bounds _ (match ?x with _ => _ end) => destruct x eqn:?
  | |- in_bounds _ (Ok _ ≫= _) => rewrite bind_Ok_l
  | |- in_bounds _ (Fatal _ ≫= _) => simpl; (discriminate || congruence)
  | |- in_bounds _ ((if ?c then _ else _) ≫= _) => destruct c eqn:?
  | |- in_bounds _ ((match ?x with _ => _ end) ≫= _) => destruct x eqn:?
  | |- in_bounds _ ((_ ≫= _) ≫= _) => rewrite result_bind_assoc
  | |- in_bounds _ (assert_some ?o _ ≫= _) => destruct o; simpl assert_some
  | |- in_bounds _ (always_assert_log _ _ ≫= _) =>
      eapply in_bounds_bind; [ apply always_assert_log_in_bounds; discriminate | intros ? ? ]
  | |- in_bounds _ (_ ≫= _) =>
      eapply in_bounds_bind;
      [ pcall | let a := fresh "a" in intros a ?; repeat (destruct a as [a ?]); simpl in * |- ]
  | |- in_bounds _ _ =>
      eapply in_bounds_weaken;
      [ pcall
      | let a := fresh "a" in intros a ?; repeat (destruct a as [a ?]); solve [idx_solve] ]
  end.
Ltac psteps := repeat pstep.

#[local] Hint Resolve next_in_bounds : in_bounds.

Lemma str_next_in_bounds idx : in_bounds (fun a => lt_idx idx (snd a)) (str_next idx).
Proof. unfold str_next. psteps. Qed.
#[local] Hint Resolve str_next_in_bounds : in_bounds.

Lemma skip_to_next_command_loop_in_bounds bound idx :
  (length idx <= bound)%nat ->
  in_bounds (le_idx idx) (skip_to_next_command_loop bound idx).
Proof.
  revert idx. induction bound as [|bound IH]; intros idx Hb; simpl.
  - destruct idx; [simpl; left; reflexivity | simpl in Hb; lia].
  - pstep; [|psteps].
    eapply in_bounds_bind; [apply next_in_bounds|]. intros idx1 H1.
    eapply in_bounds_weaken; [apply IH; unfold lt_idx in H1; lia|].
    intros a ?. idx_solve.
Qed.

Lemma skip_to_next_command_in_bounds idx : in_bounds (le_idx idx) (skip_to_next_command idx).
Proof. apply skip_to_next_command_loop_in_bounds. lia. Qed.
#[local] Hint Resolve skip_to_next_command_in_bounds : in_bounds.

Lemma parse_boolean_command_in_bounds idx t v :
  in_bounds (fun a => le_idx idx (snd a) /\ (fst a <> None -> lt_idx idx (snd a)))
    (parse_boolean_command idx t v).
Proof. unfold parse_boolean_command. psteps. Qed.

Lemma parse_single_filepath_command_in_bounds idx t :
  in_bounds (fun a => le_idx idx (snd a) /\ (fst a <> None -> lt_idx idx (snd a)))
    (parse_single_filepath_command idx t).
Proof. unfold parse_single_filepath_command. psteps. Qed.

Lemma parse_filepaths_loop_in_bounds bound idx res :
  (length idx <= bound)%nat ->
  in_bounds (fun a => le_idx idx (snd a)) (parse_filepaths_loop bound idx res).
Proof.
  revert idx res. induction bound as [|bound IH]; intros idx res Hb; simpl.
  - destruct idx; [simpl; left; reflexivity | simpl in Hb; lia].
  - pstep; [|psteps].
    eapply in_bounds_bind; [apply str_next_in_bounds|]. intros [s idx1] H1; simpl in H1.
    eapply in_bounds_weaken; [apply IH; unfold lt_idx in H1; lia|].
    intros a ?. idx_solve.
Qed.

Lemma parse_filepaths_in_bounds idx :
  in_bounds (fun a => le_idx idx (snd a)) (parse_filepaths idx).
Proof. apply parse_filepaths_loop_in_bounds. lia. Qed.
#[local] Hint Resolve parse_filepaths_in_bounds : in_bounds.

Lemma parse_filepath_command_in_bounds idx t b :
  in_bounds (fun a => le_idx idx (snd a) /\ (fst a <> None -> lt_idx idx (snd a)))
    (parse_filepath_command idx t b).
Proof. unfold parse_filepath_command. psteps. Qed.

Lemma parse_optional_filepath_command_in_bounds idx t :
  in_bounds (fun a => le_idx idx (snd a) /\ (fst a <> None -> lt_idx idx (snd a)))
    (parse_optional_filepath_command idx t).
Proof. unfold parse_optional_filepath_command. psteps. Qed.

Lemma parse_jars_in_bounds idx t b :
  in_bounds (fun a => le_idx idx (snd a) /\ (fst a <> None -> lt_idx idx (snd a)))
    (parse_jars idx t b).
Proof. unfold parse_jars. psteps. Qed.

Lemma parse_repackageclasses_in_bounds idx :
  in_bounds (fun a => le_idx idx (snd a) /\ (fst a = true -> lt_idx idx (snd a)))
    (parse_repackageclasses idx).
Proof. unfold parse_repackageclasses. psteps. Qed.

Lemma parse_target_in_bounds idx :
  in_bounds (fun a => le_idx idx (snd a) /\ (fst a <> None -> lt_idx idx (snd a)))
    (parse_target idx).
Proof. unfold parse_target. psteps. Qed.

Lemma test_and_consume_in_bounds idx t :
  in_bounds (fun a => le_idx idx (snd a) /\ (fst a = true -> lt_idx idx (snd a)))
    (test_and_consume idx t).
Proof. unfold test_and_consume. psteps. Qed.

Lemma parse_filter_list_loop_in_bounds bound idx res :
  (length idx <= bound)%nat ->
  in_bounds (fun a => le_idx idx (snd a)) (parse_filter_list_loop bound idx res).
Proof.
  revert idx res. induction bound as [|bound IH]; intros idx res Hb; simpl.
  - destruct idx; [simpl; left; reflexivity | simpl in Hb; lia].
  - pstep; [|psteps].
    eapply in_bounds_bind; [apply str_next_in_bounds|]. intros [s idx1] H1; simpl in H1.
    eapply in_bounds_weaken; [apply IH; unfold lt_idx in H1; lia|].
    intros a ?. idx_solve.
Qed.

Lemma parse_filter_list_in_bounds idx res :
  in_bounds (fun a => le_idx idx (snd a)) (parse_filter_list_loop (length idx) idx res).
Proof. apply parse_filter_list_loop_in_bounds. lia. Qed.
#[local] Hint Resolve parse_filter_list_in_bounds : in_bounds.

Lemma parse_filter_list_command_in_bounds idx t :
  in_bounds (fun a => le_idx idx (snd a) /\ (fst a <> None -> lt_idx idx (snd a)))
    (parse_filter_list_command idx t).
Proof. unfold parse_filter_list_command. psteps. Qed.

Lemma parse_optimizationpasses_command_in_bounds idx :
  in_bounds (fun a => le_idx idx (snd a) /\ (fst a <> None -> lt_idx idx (snd a)))
    (parse_optimizationpasses_command idx).
Proof. unfold parse_optimizationpasses_command. psteps. Qed.

Lemma parse_modifiers_loop_in_bounds bound idx keep :
  (length idx <= bound)%nat ->
  in_bounds (fun a => le_idx idx (snd a)) (parse_modifiers_loop bound idx keep).
Proof.
  revert idx keep. induction bound as [|bound IH]; intros idx keep Hb; simpl.
  - destruct idx; [simpl; left; reflexivity | simpl in Hb; lia].
  - pstep; [|psteps].
    eapply in_bounds_bind; [apply next_in_bounds|]. intros idx1 H1.
    pstep; [psteps|].
    eapply in_bounds_bind; [apply next_in_bounds|]. intros idx2 H2.
    eapply in_bounds_weaken; [apply IH; unfold lt_idx in *; lia|].
    intros a ?. idx_solve.
Qed.

Lemma parse_modifiers_in_bounds idx keep :
  in_bounds (fun a => le_idx idx (snd a)) (parse_modifiers idx keep).
Proof. apply parse_modifiers_loop_in_bounds. lia. Qed.
#[local] Hint Resolve parse_modifiers_in_bounds : in_bounds.

Lemma length_tl {A} (l : list A) : (length (tl l) <= length l)%nat.
Proof. destruct l; simpl; lia. Qed.

Lemma parse_access_flags_loop_in_bounds bound idx s u n :
  (length idx <= bound)%nat ->
  in_bounds (fun a => le_idx idx (snd a) /\ (fst (fst (fst a)) = false -> lt_idx idx (snd a)))
    (parse_access_flags_loop bound idx s u n).
Proof.
  revert idx s u n. induction bound as [|bound IH]; intros idx s u n Hb; simpl.
  - destruct idx; [simpl; split; [left; reflexivity | discriminate] | simpl in Hb; lia].
  - pstep; [|psteps].
    assert (Hne : (0 < length idx)%nat).
    { destruct idx; [discriminate | simpl; lia]. }
    pose proof (length_tl idx) as Ht.
    pose proof (length_tl (tl idx)) as Htt.
    assert (Hlt : (length (tl idx) < length idx)%nat).
    { destruct idx; simpl in *; lia. }
    assert (Hrec : forall idx' s' u' n', (length idx' < length idx)%nat ->
      in_bounds (fun a => le_idx idx (snd a) /\ (fst (fst (fst a)) = false -> lt_idx idx (snd a)))
        (parse_access_flags_loop bound idx' s' u' n')).
    { intros idx' s' u' n' Hl.
      eapply in_bounds_weaken; [apply IH; lia|].
      intros a [[Ha|Ha] Hb']; [rewrite Ha|]; unfold le_idx, lt_idx in *;
        (split; intros; [right|]; lia). }
    assert (Hok : forall (b : bool) (s' u' : Z) idx', (length idx' < length idx)%nat ->
      in_bounds (fun a => le_idx idx (snd a) /\ (fst (fst (fst a)) = false -> lt_idx idx (snd a)))
        (Ok (b, s', u', idx'))).
    { intros. simpl. unfold le_idx, lt_idx. split; intros; [right|]; lia. }
    destruct (is_type idx TokenType.notToken); cbv beta iota zeta;
      (destruct (process_access_modifier _); [|psteps]);
      repeat match goal with
        | |- in_bounds _ (if ?c then _ else _) => destruct c
        | |- in_bounds _ (Ok _) => apply Hok; lia
        | |- in_bounds _ (parse_access_flags_loop _ _ _ _ _) => apply Hrec; lia
        end.
Qed.

Lemma parse_access_flags_in_bounds idx s u :
  in_bounds (fun a => le_idx idx (snd a) /\ (fst (fst (fst a)) = false -> lt_idx idx (snd a)))
    (parse_access_flags idx s u).
Proof. apply parse_access_flags_loop_in_bounds. lia. Qed.
#[local] Hint Resolve parse_access_flags_in_bounds : in_bounds.

Lemma parse_class_token_in_bounds idx s u :
  in_bounds (fun a => le_idx idx (snd a)) (parse_class_token idx s u).
Proof. unfold parse_class_token. psteps. Qed.

Lemma consume_token_in_bounds idx t :
  in_bounds (fun a => le_idx idx (snd a) /\ (is_type idx t = true -> lt_idx idx (snd a)))
    (consume_token idx t).
Proof. unfold consume_token. psteps. Qed.
#[local] Hint Resolve consume_token_in_bounds parse_class_token_in_bounds : in_bounds.

Lemma gobble_semicolon_in_bounds idx :
  in_bounds (fun a => le_idx idx (snd a)) (gobble_semicolon idx).
Proof. unfold gobble_semicolon. psteps. Qed.
#[local] Hint Resolve gobble_semicolon_in_bounds : in_bounds.

Lemma skip_to_semicolon_loop_in_bounds bound idx :
  (length idx <= bound)%nat ->
  in_bounds (fun a => le_idx idx a /\
          (is_type idx TokenType.semiColon = false ->
           is_type idx TokenType.eof_token = false -> lt_idx idx a))
    (skip_to_semicolon_loop bound idx).
Proof.
  revert idx. induction bound as [|bound IH]; intros idx Hb; simpl.
  - destruct idx; [simpl; split; [left; reflexivity | discriminate] | simpl in Hb; lia].
  - pstep.
    + eapply in_bounds_bind; [apply next_in_bounds|]. intros idx1 H1.
      eapply in_bounds_weaken; [apply IH; unfold lt_idx in H1; lia|].
      intros a [Ha _]. idx_solve.
    + apply andb_false_iff in Heqb. simpl. split; [left; reflexivity|].
      intros H1 H2. rewrite H1, H2 in Heqb. simpl in Heqb. intuition discriminate.
Qed.

Lemma skip_to_semicolon_loop_in_bounds_len idx :
  in_bounds (fun a => le_idx idx a /\
          (is_type idx TokenType.semiColon = false ->
           is_type idx TokenType.eof_token = false -> lt_idx idx a))
    (skip_to_semicolon_loop (length idx) idx).
Proof. apply skip_to_semicolon_loop_in_bounds. lia. Qed.
#[local] Hint Resolve skip_to_semicolon_loop_in_bounds_len : in_bounds.

Lemma skip_to_semicolon_in_bounds idx :
  in_bounds (fun a => le_idx idx a /\ (is_type idx TokenType.eof_token = false -> lt_idx idx a))
    (skip_to_semicolon idx).
Proof.
  unfold skip_to_semicolon.
  destruct (is_type idx TokenType.semiColon) eqn:Hs; psteps.
Qed.
#[local] Hint Resolve skip_to_semicolon_in_bounds : in_bounds.

Ltac prec IH :=
  eapply in_bounds_weaken;
  [ apply IH; solve [idx_solve]
  | let a := fresh "a" in intros a ?; repeat (destruct a as [a ?]); solve [idx_solve] ].


Lemma returns_bind {A B} (P : A -> Prop) (Q : B -> Prop) (r : result A) (k : A -> result B) :
  returns P r -> (forall a, P a -> returns Q (k a)) -> returns Q (r ≫= k).
Proof. destruct r; simpl; auto. Qed.

Lemma returns_weaken {A} (P Q : A -> Prop) (r : result A) :
  returns P r -> (forall a, P a -> Q a) -> returns Q r.
Proof. destruct r; simpl; auto. Qed.

Lemma returns_conj {A} (P Q : A -> Prop) (r : result A) :
  returns P r -> in_bounds Q r -> returns (fun a => P a /\ Q a) r.
Proof. destruct r; simpl; auto. Qed.

Lemma returns_Ok {A} (P : A -> Prop) (r : result A) :
  returns P r -> exists a, r = Ok a /\ P a.
Proof. destruct r; simpl; [eauto | contradiction]. Qed.

Lemma is_type_eq idx t : is_type idx t = true <-> idx_type idx = t.
Proof. unfold is_type, TokenType.eqb. apply bool_decide_eq_true. Qed.

Lemma lexed_tl idx :
  lexed idx = true -> is_type idx TokenType.eof_token = false -> lexed (tl idx) = true.
Proof.
  unfold lexed. destruct idx as [|t [|t' rest]]; simpl; try discriminate.
  - unfold is_type. simpl. intros H1 H2. rewrite H2 in H1. discriminate.
  - intros H1 _. apply andb_true_iff in H1 as [H1 H2].
    apply andb_true_iff in H2 as [_ H2]. rewrite H1. exact H2.
Qed.

Lemma lexed_skip_comments idx : lexed idx = true -> lexed (skip_comments idx) = true.
Proof.
  induction idx as [|t idx IH]; simpl; [auto|].
  destruct (TokenType.eqb (type t) TokenType.comment) eqn:E; [|auto].
  intros Hl. apply IH. apply (lexed_tl (t :: idx) Hl).
  unfold is_type. simpl. apply bool_decide_eq_true in E. rewrite E. reflexivity.
Qed.

Lemma lexed_data idx s :
  lexed idx = true -> s <> "" -> String.eqb (idx_data idx) s = true ->
  is_type idx TokenType.eof_token = false.
Proof.
  unfold lexed. intros Hl Hs Hd. apply String.eqb_eq in Hd.
  destruct idx as [|t idx]; [simpl in Hl; discriminate|].
  apply andb_true_iff in Hl as [_ Hl]. simpl in Hl.
  apply andb_true_iff in Hl as [Hl _]. simpl in Hd.
  unfold eof_without_data in Hl. unfold is_type. simpl.
  destruct (TokenType.eqb (type t) TokenType.eof_token); [|reflexivity].
  simpl in Hl. apply String.eqb_eq in Hl. congruence.
Qed.

(** [next] keeps the vector one of the lexer, and does not abort in front of
    a token that is not the end of the input. *)
Lemma next_returns idx :
  lexed idx = true -> is_type idx TokenType.eof_token = false ->
  returns (fun a => lexed a = true) (next idx).
Proof.
  intros Hl He. unfold next.
  destruct idx as [|t idx]; [simpl in Hl; discriminate|].
  simpl. rewrite He. simpl. apply lexed_skip_comments. apply (lexed_tl (t :: idx) Hl He).
Qed.

(** The current token is not the end of the input, by the test that guards
    the call. *)
Ltac eof_solve :=
  repeat match goal with
    | H : negb _ = true |- _ => apply negb_true_iff in H
    | H : negb _ = false |- _ => apply negb_false_iff in H
    | H : _ && _ = true |- _ => apply andb_true_iff in H; destruct H
    | H : is_type _ _ || _ = true |- _ => apply orb_true_iff in H; destruct H
    end;
  first
    [ assumption
    | match goal with
      | H : is_type ?i _ = true |- is_type ?i _ = false =>
          apply is_type_eq in H; unfold is_type; rewrite H; reflexivity
      end
    | match goal with
      | H : idx_type ?i = _ |- is_type ?i _ = false =>
          unfold is_type; rewrite H; reflexivity
      end
    | match goal with
      | H : is_modifier (idx_type ?i) = true |- is_type ?i _ = false =>
          unfold is_type; revert H; destruct (idx_type i); vm_compute;
          intros; congruence
      end
    | match goal with
      | H : String.eqb (idx_data ?i) _ = true, L : lexed ?i = true
        |- is_type ?i _ = false =>
          refine (lexed_data _ _ L _ H); discriminate
      end
    | match goal with
      | H1 : String.eqb ?d _ = true, H2 : String.eqb ?d _ = true |- _ =>
          apply String.eqb_eq in H1, H2; congruence
      end ].

#[local] Hint Extern 1 (returns _ (next _)) =>
  (apply next_returns; [assumption | eof_solve]) : returns.

Ltac lexed_solve :=
  simpl in *;
  repeat match goal with
    | H : _ /\ _ |- _ => destruct H
    end;
  repeat split; intros; try assumption; try congruence; auto.

Ltac rcall := solve [ eauto with returns nocore ].
Ltac rboth := apply returns_conj; [ rcall | pcall ].
Ltac rstep :=
  cbv beta iota zeta;
  lazymatch goal with
  | |- returns _ (Ok _) => solve [lexed_solve]
  | |- returns _ (if ?c then _ else _) => destruct c eqn:?
  | |- returns _ (match ?x with _ => _ end) => destruct x eqn:?
  | |- returns _ (Ok _ ≫= _) => rewrite bind_Ok_l
  | |- returns _ ((if ?c then _ else _) ≫= _) => destruct c eqn:?
  | |- returns _ ((match ?x with _ => _ end) ≫= _) => destruct x eqn:?
  | |- returns _ ((_ ≫= _) ≫= _) => rewrite result_bind_assoc
  | |- returns _ (_ ≫= _) =>
      eapply returns_bind;
      [ rboth
      | let a := fresh "a" in
        intros a [? ?]; repeat (destruct a as [a ?]); simpl in * |- ]
  | |- returns _ _ =>
      eapply returns_weaken;
      [ rboth
      | let a := fresh "a" in
        intros a [? ?]; repeat (destruct a as [a ?]); solve [lexed_solve] ]
  end.
Ltac rsteps := repeat rstep.
Ltac rrec IH :=
  eapply returns_weaken;
  [ apply IH; [solve [idx_solve] | assumption]
  | let a := fresh "a" in intros a ?; repeat (destruct a as [a ?]); solve [lexed_solve] ].

Lemma str_next_returns idx :
  lexed idx = true -> is_type idx TokenType.eof_token = false ->
  returns (fun a => lexed (snd a) = true) (str_next idx).
Proof. intros Hl He. unfold str_next. rsteps. Qed.
#[local] Hint Extern 1 (returns _ (str_next _)) =>
  (apply str_next_returns; [assumption | eof_solve]) : returns.

Lemma skip_to_next_command_loop_returns bound idx :
  (length idx <= bound)%nat -> lexed idx = true ->
  returns (fun a => lexed a = true) (skip_to_next_command_loop bound idx).
Proof.
  revert idx. induction bound as [|bound IH]; intros idx Hb Hl; simpl.
  - destruct idx; [simpl in Hl; discriminate | simpl in Hb; lia].
  - repeat (rstep || rrec IH).
Qed.

Lemma skip_to_next_command_returns idx :
  lexed idx = true -> returns (fun a => lexed a = true) (skip_to_next_command idx).
Proof. apply skip_to_next_command_loop_returns. lia. Qed.
#[local] Hint Resolve skip_to_next_command_returns : returns.

Lemma parse_modifiers_loop_returns bound idx keep :
  (length idx <= bound)%nat -> lexed idx = true ->
  returns (fun a => lexed (snd a) = true) (parse_modifiers_loop bound idx keep).
Proof.
  revert idx keep. induction bound as [|bound IH]; intros idx keep Hb Hl; simpl.
  - destruct idx; [simpl in Hl; discriminate | simpl in Hb; lia].
  - repeat (rstep || rrec IH).
Qed.

Lemma parse_modifiers_returns idx keep :
  lexed idx = true ->
  returns (fun a => lexed (snd a) = true) (parse_modifiers idx keep).
Proof. apply parse_modifiers_loop_returns. lia. Qed.
#[local] Hint Resolve parse_modifiers_returns : returns.


Lemma access_modifier_not_eof idx f :
  process_access_modifier (idx_type idx) = Some f ->
  is_type idx TokenType.eof_token = false.
Proof.
  unfold is_type. destruct (idx_type idx); simpl; intros E;
    first [discriminate E | reflexivity].
Qed.

Lemma negation_or_modifier_not_eof idx :
  is_negation_or_class_access_modifier (idx_type idx) = true ->
  is_type idx TokenType.eof_token = false.
Proof.
  unfold is_type. destruct (idx_type idx); simpl; intros E;
    first [discriminate E | reflexivity].
Qed.

Lemma parse_access_flags_loop_returns bound idx s u n :
  (length idx <= bound)%nat -> lexed idx = true ->
  returns (fun a => lexed (snd a) = true) (parse_access_flags_loop bound idx s u n).
Proof.
  revert idx s u n. induction bound as [|bound IH]; intros idx s u n Hb Hl; simpl.
  - destruct idx; [simpl in Hl; discriminate | simpl in Hb; lia].
  - destruct (is_negation_or_class_access_modifier (idx_type idx)) eqn:Hg;
      [|exact Hl].
    pose proof (lexed_tl idx Hl (negation_or_modifier_not_eof idx Hg)) as Hl1.
    assert (Hlt : (length (tl idx) < length idx)%nat).
    { destruct idx; [simpl in Hl; discriminate | simpl; lia]. }
    pose proof (length_tl (tl idx)) as Htt.
    destruct (is_type idx TokenType.notToken); cbv beta iota zeta;
      (destruct (process_access_modifier _) eqn:Hp; [|exact Hl]).
    + pose proof (lexed_tl _ Hl1 (access_modifier_not_eof _ _ Hp)) as Hl2.
      destruct (is_access_flag_set s z); [exact Hl2|].
      apply IH; [lia | exact Hl2].
    + destruct n; [destruct (is_access_flag_set s z)
                  |destruct (is_access_flag_set u z)];
        first [exact Hl1 | apply IH; [lia | exact Hl1]].
Qed.

Lemma parse_access_flags_returns idx s u :
  lexed idx = true ->
  returns (fun a => lexed (snd a) = true) (parse_access_flags idx s u).
Proof. apply parse_access_flags_loop_returns. lia. Qed.
#[local] Hint Resolve parse_access_flags_returns : returns.

Lemma parse_class_token_returns idx s u :
  lexed idx = true ->
  returns (fun a => lexed (snd a) = true) (parse_class_token idx s u).
Proof. intros Hl. unfold parse_class_token. rsteps. Qed.
#[local] Hint Resolve parse_class_token_returns : returns.

Lemma consume_token_returns idx t :
  lexed idx = true -> t <> TokenType.eof_token ->
  returns (fun a => lexed (snd a) = true) (consume_token idx t).
Proof.
  intros Hl Ht. unfold consume_token.
  destruct (negb (is_type idx t)) eqn:E; [exact Hl|].
  assert (He : is_type idx TokenType.eof_token = false).
  { apply negb_false_iff, is_type_eq in E. unfold is_type. rewrite E.
    apply bool_decide_eq_false. exact Ht. }
  rsteps.
Qed.
#[local] Hint Extern 1 (returns _ (consume_token _ _)) =>
  (apply consume_token_returns; [assumption | discriminate]) : returns.

Lemma gobble_semicolon_returns idx :
  lexed idx = true ->
  returns (fun a => lexed (snd a) = true) (gobble_semicolon idx).
Proof. intros Hl. unfold gobble_semicolon. rsteps. Qed.
#[local] Hint Resolve gobble_semicolon_returns : returns.

Lemma skip_to_semicolon_loop_returns bound idx :
  (length idx <= bound)%nat -> lexed idx = true ->
  returns (fun a => lexed a = true) (skip_to_semicolon_loop bound idx).
Proof.
  revert idx. induction bound as [|bound IH]; intros idx Hb Hl; simpl.
  - destruct idx; [simpl in Hl; discriminate | simpl in Hb; lia].
  - repeat (rstep || rrec IH).
Qed.

Lemma skip_to_semicolon_loop_returns_len idx :
  lexed idx = true ->
  returns (fun a => lexed a = true) (skip_to_semicolon_loop (length idx) idx).
Proof. apply skip_to_semicolon_loop_returns. lia. Qed.
#[local] Hint Resolve skip_to_semicolon_loop_returns_len : returns.

Lemma skip_to_semicolon_returns idx :
  lexed idx = true -> returns (fun a => lexed a = true) (skip_to_semicolon idx).
Proof. intros Hl. unfold skip_to_semicolon. rsteps. Qed.
#[local] Hint Resolve skip_to_semicolon_returns : returns.

Section ClassSpecificationRuns.
Context `{ParserServices}.

Lemma parse_annotation_type_in_bounds idx :
  in_bounds (fun a => le_idx idx (snd a)) (parse_annotation_type idx).
Proof. unfold parse_annotation_type. psteps. Qed.
#[local] Hint Resolve parse_annotation_type_in_bounds : in_bounds.

Lemma parse_args_loop_in_bounds bound idx arg :
  (length idx <= bound)%nat ->
  in_bounds (fun a => le_idx idx (snd a)) (parse_args_loop bound idx arg).
Proof.
  revert idx arg. induction bound as [|bound IH]; intros idx arg Hb; simpl.
  - destruct idx; [simpl; idx_solve | simpl in Hb; lia].
  - repeat (pstep || prec IH).
Qed.

Lemma parse_args_in_bounds idx arg :
  in_bounds (fun a => le_idx idx (snd a)) (parse_args_loop (length idx) idx arg).
Proof. apply parse_args_loop_in_bounds. lia. Qed.
#[local] Hint Resolve parse_args_in_bounds : in_bounds.

Lemma parse_member_tail_in_bounds idx cs ar m :
  in_bounds (fun a => le_idx idx (snd a)) (parse_member_tail idx cs ar m).
Proof. unfold parse_member_tail. psteps. Qed.
#[local] Hint Resolve parse_member_tail_in_bounds : in_bounds.

(** A member specification consumes a token unless the input is at its
    end; this is what bounds the loop of [parse_member_specifications]. *)
Lemma parse_member_specification_in_bounds idx cs ar :
  in_bounds (fun a => le_idx idx (snd a) /\
          (is_type idx TokenType.eof_token = false -> lt_idx idx (snd a)))
    (parse_member_specification idx cs ar).
Proof. unfold parse_member_specification. psteps. Qed.
#[local] Hint Resolve parse_member_specification_in_bounds : in_bounds.

Lemma parse_member_specifications_loop_in_bounds bound idx cs ar ok :
  (length idx <= bound)%nat ->
  in_bounds (fun a => le_idx idx (snd a)) (parse_member_specifications_loop bound idx cs ar ok).
Proof.
  revert idx cs ok. induction bound as [|bound IH]; intros idx cs ok Hb; simpl.
  - destruct idx; [simpl; idx_solve | simpl in Hb; lia].
  - pstep; [|psteps].
    apply andb_true_iff in Heqb. destruct Heqb as [_ Heof].
    apply negb_true_iff in Heof.
    repeat (pstep || prec IH).
Qed.

Lemma parse_member_specifications_loop_in_bounds_len idx cs ar ok :
  in_bounds (fun a => le_idx idx (snd a))
    (parse_member_specifications_loop (length idx) idx cs ar ok).
Proof. apply parse_member_specifications_loop_in_bounds. lia. Qed.
#[local] Hint Resolve parse_member_specifications_loop_in_bounds_len : in_bounds.

Lemma parse_member_specifications_in_bounds idx cs ar :
  in_bounds (fun a => le_idx idx (snd a)) (parse_member_specifications idx cs ar).
Proof. unfold parse_member_specifications. psteps. Qed.
#[local] Hint Resolve parse_member_specifications_in_bounds : in_bounds.

Lemma parse_class_name_in_bounds idx :
  in_bounds (fun a => le_idx idx (snd a)) (parse_class_name idx).
Proof. unfold parse_class_name. psteps. Qed.

Lemma maybe_negated_in_bounds idx n :
  in_bounds (fun a => le_idx idx (snd a)) (maybe_negated idx n).
Proof. unfold maybe_negated. psteps. Qed.
#[local] Hint Resolve parse_class_name_in_bounds maybe_negated_in_bounds : in_bounds.

Lemma parse_class_names_loop_in_bounds bound idx cns :
  (length idx <= bound)%nat ->
  in_bounds (fun a => le_idx idx (snd a)) (parse_class_names_loop bound idx cns).
Proof.
  revert idx cns. induction bound as [|bound IH]; intros idx cns Hb; simpl.
  - destruct idx; [simpl; idx_solve | simpl in Hb; lia].
  - repeat (pstep || prec IH).
Qed.

Lemma parse_class_names_loop_in_bounds_len idx cns :
  in_bounds (fun a => le_idx idx (snd a)) (parse_class_names_loop (length idx) idx cns).
Proof. apply parse_class_names_loop_in_bounds. lia. Qed.
#[local] Hint Resolve parse_class_names_loop_in_bounds_len : in_bounds.

Lemma parse_class_names_in_bounds idx cns :
  in_bounds (fun a => le_idx idx (snd a)) (parse_class_names idx cns).
Proof. unfold parse_class_names. psteps. Qed.
#[local] Hint Resolve parse_class_names_in_bounds : in_bounds.

Lemma parse_class_specification_in_bounds idx ar :
  in_bounds (fun a => le_idx idx (snd a)) (parse_class_specification idx ar).
Proof. unfold parse_class_specification. psteps. Qed.
#[local] Hint Resolve parse_class_specification_in_bounds : in_bounds.


Lemma parse_annotation_type_returns idx :
  lexed idx = true ->
  returns (fun a => lexed (snd a) = true) (parse_annotation_type idx).
Proof. intros Hl. unfold parse_annotation_type. rsteps. Qed.
#[local] Hint Resolve parse_annotation_type_returns : returns.

Lemma parse_args_loop_returns bound idx arg :
  (length idx <= bound)%nat -> lexed idx = true ->
  returns (fun a => lexed (snd a) = true) (parse_args_loop bound idx arg).
Proof.
  revert idx arg. induction bound as [|bound IH]; intros idx arg Hb Hl; simpl.
  - destruct idx; [simpl in Hl; discriminate | simpl in Hb; lia].
  - repeat (rstep || rrec IH).
Qed.

Lemma parse_args_returns idx arg :
  lexed idx = true ->
  returns (fun a => lexed (snd a) = true) (parse_args_loop (length idx) idx arg).
Proof. apply parse_args_loop_returns. lia. Qed.
#[local] Hint Resolve parse_args_returns : returns.

Lemma parse_member_tail_returns idx cs ar m :
  lexed idx = true ->
  returns (fun a => lexed (snd a) = true) (parse_member_tail idx cs ar m).
Proof. intros Hl. unfold parse_member_tail. rsteps. Qed.
#[local] Hint Resolve parse_member_tail_returns : returns.

Lemma parse_member_specification_returns idx cs ar :
  lexed idx = true ->
  returns (fun a => lexed (snd a) = true) (parse_member_specification idx cs ar).
Proof. intros Hl. unfold parse_member_specification. rsteps. Qed.
#[local] Hint Resolve parse_member_specification_returns : returns.

Lemma parse_member_specifications_loop_returns bound idx cs ar ok :
  (length idx <= bound)%nat -> lexed idx = true ->
  returns (fun a => lexed (snd a) = true)
    (parse_member_specifications_loop bound idx cs ar ok).
Proof.
  revert idx cs ok. induction bound as [|bound IH]; intros idx cs ok Hb Hl; simpl.
  - destruct idx; [simpl in Hl; discriminate | simpl in Hb; lia].
  - rstep; [|rsteps].
    apply andb_true_iff in Heqb. destruct Heqb as [_ Heof].
    apply negb_true_iff in Heof.
    repeat (rstep || rrec IH).
Qed.

Lemma parse_member_specifications_loop_returns_len idx cs ar ok :
  lexed idx = true ->
  returns (fun a => lexed (snd a) = true)
    (parse_member_specifications_loop (length idx) idx cs ar ok).
Proof. apply parse_member_specifications_loop_returns. lia. Qed.
#[local] Hint Resolve parse_member_specifications_loop_returns_len : returns.

Lemma parse_member_specifications_returns idx cs ar :
  lexed idx = true ->
  returns (fun a => lexed (snd a) = true) (parse_member_specifications idx cs ar).
Proof. intros Hl. unfold parse_member_specifications. rsteps. Qed.
#[local] Hint Resolve parse_member_specifications_returns : returns.

Lemma parse_class_name_returns idx :
  lexed idx = true ->
  returns (fun a => lexed (snd a) = true) (parse_class_name idx).
Proof. intros Hl. unfold parse_class_name. rsteps. Qed.

Lemma maybe_negated_returns idx n :
  lexed idx = true ->
  returns (fun a => lexed (snd a) = true) (maybe_negated idx n).
Proof. intros Hl. unfold maybe_negated. rsteps. Qed.
#[local] Hint Resolve parse_class_name_returns maybe_negated_returns : returns.

Lemma parse_class_names_loop_returns bound idx cns :
  (length idx <= bound)%nat -> lexed idx = true ->
  returns (fun a => lexed (snd a) = true) (parse_class_names_loop bound idx cns).
Proof.
  revert idx cns. induction bound as [|bound IH]; intros idx cns Hb Hl; simpl.
  - destruct idx; [simpl in Hl; discriminate | simpl in Hb; lia].
  - repeat (rstep || rrec IH).
Qed.

Lemma parse_class_names_loop_returns_len idx cns :
  lexed idx = true ->
  returns (fun a => lexed (snd a) = true)
    (parse_class_names_loop (length idx) idx cns).
Proof. apply parse_class_names_loop_returns. lia. Qed.
#[local] Hint Resolve parse_class_names_loop_returns_len : returns.

Lemma parse_class_names_returns idx cns :
  lexed idx = true ->
  returns (fun a => lexed (snd a) = true) (parse_class_names idx cns).
Proof. intros Hl. unfold parse_class_names. rsteps. Qed.
#[local] Hint Resolve parse_class_names_returns : returns.

Lemma parse_class_specification_returns idx ar :
  lexed idx = true ->
  returns (fun a => lexed (snd a) = true) (parse_class_specification idx ar).
Proof. intros Hl. unfold parse_class_specification. rsteps. Qed.
#[local] Hint Resolve parse_class_specification_returns : returns.

(** X25. On a vector of the lexer, [parse_class_specification] does not
    abort: every [next] it calls is behind a test that rules out the end of
    the input.  The tokens it leaves are again closed by the end-of-file
    token. *)
Theorem class_specification_returns idx ar :
  lexed idx = true ->
  exists cs idx', parse_class_specification idx ar = Ok (cs, idx') /\ lexed idx' = true.
Proof.
  intros Hl.
  destruct (returns_Ok _ _ (parse_class_specification_returns idx ar Hl))
    as ([cs idx'] & E & Hl').
  eauto.
Qed.

(** Without any assumption on the tokens, [parse_class_specification] stays
    within the bounds of its loops. *)
Theorem class_specification_within_loop_bounds idx ar :
  parse_class_specification idx ar <> loop_bound_exceeded.
Proof.
  pose proof (parse_class_specification_in_bounds idx ar) as Hp.
  destruct (parse_class_specification idx ar); [discriminate|].
  simpl in Hp. unfold loop_bound_exceeded. congruence.
Qed.

Section KeepRuns.
Context {Rules : Type} `{KeepSpecSet Rules}.

Lemma parse_keep_in_bounds idx kind (spec : Rules) mc mcond ash ar fn line :
  in_bounds (fun a => le_idx idx (snd a) /\ (fst (fst a) <> None -> lt_idx idx (snd a)))
    (parse_keep idx kind spec mc mcond ash ar fn line).
Proof. unfold parse_keep. psteps. Qed.
#[local] Hint Resolve parse_keep_in_bounds : in_bounds.

Lemma parse_all_keep_in_bounds specs idx cfg stats fn line :
  in_bounds (fun a => le_idx idx (snd (fst (fst a))) /\
          (fst (fst (fst a)) = true -> lt_idx idx (snd (fst (fst a)))))
    (parse_all_keep specs idx cfg stats fn line).
Proof.
  revert idx cfg stats.
  induction specs as [|d specs IH]; intros idx cfg stats; cbn [parse_all_keep]; [psteps|].
  repeat (pstep || prec IH).
Qed.
#[local] Hint Resolve parse_all_keep_in_bounds : in_bounds.

#[local] Hint Resolve parse_boolean_command_in_bounds parse_single_filepath_command_in_bounds
  parse_filepath_command_in_bounds parse_optional_filepath_command_in_bounds
  parse_jars_in_bounds parse_repackageclasses_in_bounds parse_target_in_bounds
  test_and_consume_in_bounds parse_filter_list_command_in_bounds
  parse_optimizationpasses_command_in_bounds : in_bounds.

(** Every command that returns has consumed its directive. *)
Lemma parse_command_in_bounds idx cfg stats fn line :
  in_bounds (fun a => lt_idx idx (fst (fst a))) (parse_command idx cfg stats fn line).
Proof. unfold parse_command. psteps. Qed.
#[local] Hint Resolve parse_command_in_bounds : in_bounds.

Lemma parse_loop_in_bounds bound idx cfg stats fn :
  (length idx <= bound)%nat ->
  in_bounds (fun _ => True) (parse_loop bound idx cfg stats fn).
Proof.
  revert idx cfg stats. induction bound as [|bound IH]; intros idx cfg stats Hb.
  - destruct idx; [exact I | simpl in Hb; lia].
  - destruct idx as [|t idx]; [exact I|].
    cbn [parse_loop].
    repeat (pstep || prec IH).
Qed.

(** [parse] never reaches the bound of a loop: each round of each loop
    consumes a token, so an abort of the model is an abort of the parser. *)
Theorem parse_within_loop_bounds vec cfg stats fn :
  parse vec cfg stats fn <> loop_bound_exceeded.
Proof.
  pose proof (parse_loop_in_bounds (length vec) vec cfg stats fn (le_n _)) as Hp.
  unfold parse. destruct (parse_loop _ _ _ _ _); [discriminate|].
  simpl in Hp. unfold loop_bound_exceeded. congruence.
Qed.


Lemma parse_keep_returns idx kind (spec : Rules) mc mcond ash ar fn line :
  lexed idx = true -> kind <> TokenType.eof_token ->
  returns (fun a => lexed (snd a) = true /\
             (fst (fst a) = None -> is_type idx kind = false /\ snd a = idx))
    (parse_keep idx kind spec mc mcond ash ar fn line).
Proof.
  intros Hl Hk. unfold parse_keep.
  destruct (is_type idx kind) eqn:E; [|simpl; auto].
  assert (He : is_type idx TokenType.eof_token = false).
  { apply is_type_eq in E. unfold is_type. rewrite E.
    apply bool_decide_eq_false. exact Hk. }
  rsteps.
Qed.

Lemma parse_all_keep_returns specs idx cfg stats fn line :
  lexed idx = true ->
  Forall (fun d => desc_token_type d <> TokenType.eof_token) specs ->
  returns (fun a => lexed (snd (fst (fst a))) = true /\
             (fst (fst (fst a)) = false ->
              Forall (fun d => is_type idx (desc_token_type d) = false) specs))
    (parse_all_keep specs idx cfg stats fn line).
Proof.
  intros Hl Hs. revert cfg stats.
  induction Hs as [|d specs Hd Hs IH]; intros cfg stats; cbn [parse_all_keep].
  - simpl. split; [exact Hl | constructor].
  - eapply returns_bind; [apply (parse_keep_returns _ _ _ _ _ _ _ _ _ Hl Hd)|].
    intros [[[val_ok|] spec] idx'] [Hl' Hn]; simpl in Hl', Hn; cbv beta iota zeta.
    + simpl. split; [exact Hl' | discriminate].
    + destruct (Hn eq_refl) as [Hty ->].
      eapply returns_weaken; [apply IH|].
      intros a [Ha Hf]. split; [exact Ha|].
      intros Hr. constructor; [exact Hty | exact (Hf Hr)].
Qed.

(** X24. On a vector of the lexer that starts with a keep-family directive,
    [parse_all_keep] does not abort and reports the directive as matched,
    whatever follows the directive. *)
Theorem keep_directive_returns (d : KeepSpecDesc) idx
    (pg : @ProguardConfiguration Rules) stats fn line :
  lexed idx = true ->
  In d KEEP_SPECS ->
  is_type idx (desc_token_type d) = true ->
  exists idx' pg' stats',
    parse_all_keep KEEP_SPECS idx pg stats fn line = Ok (true, idx', pg', stats')
    /\ lexed idx' = true.
Proof.
  intros Hl Hin Hty.
  assert (Hs : Forall (fun d => desc_token_type d <> TokenType.eof_token) KEEP_SPECS).
  { unfold KEEP_SPECS. repeat constructor; discriminate. }
  destruct (returns_Ok _ _ (parse_all_keep_returns _ idx pg stats fn line Hl Hs))
    as ([[[res idx'] pg'] stats'] & E & Hl' & Hf).
  simpl in Hl', Hf. exists idx', pg', stats'. split; [|exact Hl'].
  rewrite E. destruct res; [reflexivity|].
  exfalso. specialize (Hf eq_refl).
  rewrite List.Forall_forall in Hf. specialize (Hf d Hin). congruence.
Qed.

(** Without any assumption on the tokens, [parse_all_keep] stays within the
    bounds of its loops. *)
Theorem parse_all_keep_within_loop_bounds specs idx
    (pg : @ProguardConfiguration Rules) stats fn line :
  parse_all_keep specs idx pg stats fn line <> loop_bound_exceeded.
Proof.
  pose proof (parse_all_keep_in_bounds specs idx pg stats fn line) as Hp.
  destruct (parse_all_keep _ _ _ _ _ _); [discriminate|].
  simpl in Hp. unfold loop_bound_exceeded. congruence.
Qed.

End KeepRuns.
End ClassSpecificationRuns.

End ParserRuns.

(** [-keepnames class Foo] is matched without an abort. *)
Lemma keep_directive_returns_witness :
  ProguardParser.lexed ProguardParser.tokens_keepnames = true
  /\ exists idx' pg' stats',
       @ProguardParser.parse_all_keep ProguardParser.forward_services _ _
         ProguardParser.KEEP_SPECS ProguardParser.tokens_keepnames
         ProguardParser.empty_configuration ProguardParser.empty_stats "f.pro" 1
       = Ok (true, idx', pg', stats')
       /\ ProguardParser.lexed idx' = true.
Proof.
  split; [reflexivity|].
  apply (@keep_directive_returns ProguardParser.forward_services _ _
           {| ProguardParser.desc_token_type := TokenType.keepnames;
              ProguardParser.desc_spec_set := ProguardParser.Keep;
              ProguardParser.desc_mark_classes := true;
              ProguardParser.desc_mark_conditionally := false;
              ProguardParser.desc_allowshrinking := true;
              ProguardParser.desc_allow_return := false |}).
  - reflexivity.
  - simpl. tauto.
  - reflexivity.
Defined.

(** ** Block instrumentation: blocks, vectors and analysis methods *)

Section BlockInfoFacts.
Import BlockInstrument.
Context `{ControlFlowGraph Cfg}.

Lemma is_instrumentable_set_bit_id info id :
  is_instrumentable (set_bit_id info id) = is_instrumentable info.
Proof. reflexivity. Qed.

Lemma create_block_info_fields (block : Block) (options : Options) :
  bi_block (create_block_info block options) = block
  /\ bi_bit_id (create_block_info block options) = SIZE_MAX.
Proof.
  unfold create_block_info.
  repeat match goal with
    | |- context [if ?c then _ else _] => destruct c
    | |- context [let '(_, _) := ?x in _] => destruct x
    end; split; reflexivity.
Qed.

(** X1. [create_block_info] classifies a block without touching it: the
    record keeps the block and the bit id [SIZE_MAX]; it is instrumentable
    exactly when it carries an insertion point, which is then never the end
    of the block; and a block that is not instrumentable is empty, useless,
    without source block, or a catch block while catch blocks are not
    instrumented. *)
Theorem create_block_info_insertion_point (block : Block) (options : Options) :
  let info := create_block_info block options in
  bi_block info = block
  /\ bi_bit_id info = SIZE_MAX
  /\ (is_instrumentable info = true <-> bi_it info <> None)
  /\ (forall pos, bi_it info = Some pos -> pos <> block_end block)
  /\ (is_instrumentable info = false ->
      has_type BlockType.Empty info = true
      \/ has_type BlockType.Useless info = true
      \/ has_type BlockType.NoSourceBlock info = true
      \/ (is_catch block = true /\ instrument_catches options = false
          /\ bi_type info = BlockType.Catch)).
Proof.
  unfold create_block_info.
  destruct (Z.eqb (num_opcodes block) 0).
  { cbn. repeat split; try discriminate; try congruence; auto. }
  destruct (is_catch block) eqn:Hc, (instrument_catches options) eqn:Hi; cbn [andb negb];
    try (cbn; repeat split; try discriminate; try congruence; auto 10; fail);
    (destruct (starts_with_move_result block);
     [|destruct (starts_with_move_exception block)]);
    cbv beta iota zeta;
    (destruct (Nat.eqb _ (block_end block)) eqn:Hp;
     [cbn; repeat split; try discriminate; try congruence; auto 10|]);
    (destruct (negb (instrument_blocks_without_source_block options)
               && negb (has_source_blocks block)
               && negb (match succs block with [] => true | _ => false end));
     [cbn; repeat split; try discriminate; try congruence; auto 10|]);
    (cbn; repeat split; try discriminate; try congruence; auto;
     intros pos E; injection E as <-; apply Nat.eqb_neq; exact Hp).
Qed.


Lemma assign_bit_ids_spec max options blocks acc id l n :
  0 <= id <= max -> max < 2 ^ 64 ->
  assign_bit_ids max options blocks acc id = (l, n, false) ->
  exists new,
    l = acc ++ new
    /\ List.map bi_block new = blocks
    /\ n = id + Z.of_nat (length (List.filter is_instrumentable new))
    /\ n <= max
    /\ List.map bi_bit_id (List.filter is_instrumentable new)
       = List.map (fun k => id + Z.of_nat k)
           (seq 0 (length (List.filter is_instrumentable new)))
    /\ Forall (fun i => is_instrumentable i = false -> bi_bit_id i = SIZE_MAX) new.
Proof.
  intros Hid Hmax. revert acc id Hid.
  induction blocks as [|b rest IH]; intros acc id Hid E; simpl in E.
  - injection E as <- <-. exists []. rewrite app_nil_r. simpl.
    repeat split; try lia; auto.
  - destruct (create_block_info_fields b options) as [Hb Hbit].
    destruct (is_instrumentable (create_block_info b options)) eqn:Hins.
    + destruct (Z.leb_spec max id) as [Hle | Hlt]; [discriminate|].
      rewrite size_t_small in E by lia.
      apply IH in E as (new & -> & Hblocks & -> & Hle & Hids & Hrej); [|lia].
      exists (set_bit_id (create_block_info b options) id :: new).
      rewrite <- app_assoc. simpl.
      rewrite is_instrumentable_set_bit_id, Hins. simpl.
      repeat split.
      * rewrite Hb, Hblocks. reflexivity.
      * lia.
      * exact Hle.
      * f_equal; [f_equal; lia|].
        rewrite Hids, <- seq_shift, List.map_map.
        apply List.map_ext. intros k. lia.
      * constructor; [|exact Hrej].
        rewrite is_instrumentable_set_bit_id, Hins. discriminate.
    + apply IH in E as (new & -> & Hblocks & -> & Hle & Hids & Hrej); [|lia].
      exists (create_block_info b options :: new).
      rewrite <- app_assoc. simpl. rewrite Hins.
      repeat split.
      * rewrite Hb, Hblocks. reflexivity.
      * exact Hle.
      * exact Hids.
      * constructor; [intros _; exact Hbit | exact Hrej].
Qed.

(** X2. When [get_blocks_to_instrument] does not give up for too many
    blocks, it returns one record per visited block, in the order of the
    visit; the instrumentable ones carry the bit ids 0, 1, ..., n-1 in that
    order, where n is the count returned and at most [max_num_blocks]; every
    other record keeps the bit id [SIZE_MAX]. *)
Theorem get_blocks_to_instrument_bit_ids (cfg : Cfg) (max_num_blocks : Z)
    (options : Options) (blocks : list BlockInfo) (n : Z) :
  0 <= max_num_blocks < 2 ^ 64 ->
  get_blocks_to_instrument cfg max_num_blocks options = (blocks, n, false) ->
  List.map bi_block blocks = blocks_to_visit cfg
  /\ n = Z.of_nat (length (List.filter is_instrumentable blocks))
  /\ n <= max_num_blocks
  /\ List.map bi_bit_id (List.filter is_instrumentable blocks)
     = List.map Z.of_nat (seq 0 (Z.to_nat n))
  /\ Forall (fun i => is_instrumentable i = false -> bi_bit_id i = SIZE_MAX) blocks.
Proof.
  intros Hmax E. unfold get_blocks_to_instrument in E.
  apply assign_bit_ids_spec in E as (new & -> & Hb & -> & Hle & Hids & Hrej); try lia.
  rewrite !Z.add_0_l, Nat2Z.id. simpl.
  repeat split; auto.
Qed.


Lemma allocate_vectors_length k (cfg : Cfg) regs insns cfg1 :
  allocate_vectors k cfg = (regs, insns, cfg1) ->
  length regs = k /\ length insns = k.
Proof.
  revert cfg regs insns cfg1. induction k as [|k IH]; intros cfg regs insns cfg1 E; simpl in E.
  - injection E as <- <- _. split; reflexivity.
  - destruct (allocate_temp cfg) as [r c1].
    destruct (allocate_vectors k c1) as [[rs ins] c2] eqn:E2.
    injection E as <- <- _. apply IH in E2 as [E2 E3]. simpl. rewrite E2, E3. split; reflexivity.
Qed.

Lemma insert_block_coverage_computations_in_range blocks regs (cfg : Cfg) :
  Forall (fun i => is_instrumentable i = true ->
                   0 <= bi_bit_id i < BIT_VECTOR_SIZE * Z.of_nat (length regs)) blocks ->
  exists cfg', insert_block_coverage_computations blocks regs cfg = Ok cfg'.
Proof.
  intros Hall. revert cfg. induction Hall as [|i rest Hi Hrest IH]; intros cfg; simpl.
  - eauto.
  - destruct (is_instrumentable i) eqn:Hins; simpl; [|apply IH].
    specialize (Hi eq_refl). unfold reg_vectors_at, BIT_VECTOR_SIZE in *.
    assert (Hlo : 0 <= bi_bit_id i / 16) by (apply Z.div_pos; lia).
    assert (Hhi : bi_bit_id i / 16 < Z.of_nat (length regs))
      by (apply Z.div_lt_upper_bound; lia).
    destruct (Z.ltb_spec (bi_bit_id i / 16) 0) as [?|_]; [lia|].
    destruct (lookup_lt_is_Some_2 regs (Z.to_nat (bi_bit_id i / 16))) as [r Hr]; [lia|].
    rewrite Hr. simpl. apply IH.
Qed.

(** X3. With the [ceil(n / 16)] vectors that [instrument_basic_blocks]
    allocates for the n blocks to instrument, [reg_vectors.at(vector_id)] in
    [insert_block_coverage_computations] is always in range: the insertion
    of the coverage updates does not abort. *)
Theorem block_coverage_vectors_in_range (cfg cfg' : Cfg) (max_num_blocks : Z)
    (options : Options) (blocks : list BlockInfo) (n : Z) (too_many : bool)
    (regs : list Z) (insns : list IRInstruction) (cfg1 : Cfg) :
  0 <= max_num_blocks < 2 ^ 64 ->
  get_blocks_to_instrument cfg max_num_blocks options = (blocks, n, too_many) ->
  allocate_vectors (Z.to_nat ((n + (BIT_VECTOR_SIZE - 1)) / BIT_VECTOR_SIZE)) cfg
  = (regs, insns, cfg1) ->
  Z.of_nat (length regs) = (n + (BIT_VECTOR_SIZE - 1)) / BIT_VECTOR_SIZE
  /\ exists cfg2, insert_block_coverage_computations blocks regs cfg' = Ok cfg2.
Proof.
  intros Hmax E Ea. unfold get_blocks_to_instrument in E.
  apply allocate_vectors_length in Ea as [Hlen _].
  destruct too_many.
  - destruct (assign_bit_ids_length _ _ _ _ _ _ _ _ E) as [(_ & -> & ->) | [? _]];
      [|discriminate].
    split; [rewrite Hlen; reflexivity | simpl; eauto].
  - apply assign_bit_ids_spec in E as (new & -> & Hb & -> & Hle & Hids & Hrej); try lia.
    rewrite Z.add_0_l in *. simpl.
    set (k := length (List.filter is_instrumentable new)) in *.
    assert (Hk : 0 <= (Z.of_nat k + (BIT_VECTOR_SIZE - 1)) / BIT_VECTOR_SIZE)
      by (apply Z.div_pos; unfold BIT_VECTOR_SIZE; lia).
    split; [rewrite Hlen; lia|].
    apply insert_block_coverage_computations_in_range.
    rewrite Hlen, Z2Nat.id by exact Hk.
    apply List.Forall_forall. intros i Hin Hins.
    assert (Hf : In (bi_bit_id i) (List.map bi_bit_id (List.filter is_instrumentable new))).
    { apply List.in_map, List.filter_In. split; assumption. }
    rewrite Hids in Hf. apply List.in_map_iff in Hf as (j & Hj & Hseq).
    apply List.in_seq in Hseq. unfold BIT_VECTOR_SIZE in *.
    change (16 - 1) with 15 in *.
    pose proof (Z.mul_div_le (Z.of_nat k + 15) 16 ltac:(lia)).
    pose proof (Z.mod_pos_bound (Z.of_nat k + 15) 16 ltac:(lia)).
    pose proof (Z.div_mod (Z.of_nat k + 15) 16 ltac:(lia)).
    lia.
Qed.

End BlockInfoFacts.


Section ExitCallFacts.
Import BlockInstrument.

(** X4. Two different bit ids that share a vector get different
    [or-int/lit16] literals: the 16-bit literal of bit 15, which is negative
    as an [int16_t], included. *)
Theorem coverage_bit_distinct (a b : Z) :
  0 <= a -> 0 <= b -> a <> b ->
  a / BIT_VECTOR_SIZE = b / BIT_VECTOR_SIZE ->
  int16_t (Z.shiftl 1 (a mod BIT_VECTOR_SIZE))
  <> int16_t (Z.shiftl 1 (b mod BIT_VECTOR_SIZE)).
Proof.
  unfold BIT_VECTOR_SIZE. intros Ha Hb Hne Hq Hl. apply Hne.
  pose proof (Z.mod_pos_bound a 16 ltac:(lia)) as Hra.
  pose proof (Z.mod_pos_bound b 16 ltac:(lia)) as Hrb.
  rewrite (Z.div_mod a 16), (Z.div_mod b 16), Hq by lia. f_equal.
  assert (Ea : In (a mod 16) (List.map Z.of_nat (seq 0 16))).
  { apply List.in_map_iff. exists (Z.to_nat (a mod 16)). split; [lia|].
    apply List.in_seq. lia. }
  assert (Eb : In (b mod 16) (List.map Z.of_nat (seq 0 16))).
  { apply List.in_map_iff. exists (Z.to_nat (b mod 16)). split; [lia|].
    apply List.in_seq. lia. }
  revert Hl. generalize dependent (b mod 16). generalize dependent (a mod 16).
  intros x _ Hx y _ Hy. simpl in Hx, Hy.
  repeat (destruct Hx as [<- | Hx]; [
    repeat (destruct Hy as [<- | Hy]; [vm_compute; intros E; first [reflexivity | discriminate E]|]);
    destruct Hy |]).
  destruct Hx.
Qed.

Lemma nth_segment (l : list Z) (base a : nat) :
  (base + a <= length l)%nat ->
  List.map (fun j => nth (base + j) l 0) (seq 0 a) = take a (drop base l).
Proof.
  revert base l. induction a as [|a IH]; intros base l Hlen; [reflexivity|].
  destruct (drop base l) as [|x rest] eqn:Ed.
  { apply (f_equal length) in Ed. rewrite length_drop in Ed. simpl in Ed. lia. }
  simpl. f_equal.
  - rewrite Nat.add_0_r.
    assert (Hx : l !! base = Some x).
    { rewrite <- (Nat.add_0_r base), <- lookup_drop, Ed. reflexivity. }
    apply nth_lookup_Some with (d := 0) in Hx. exact Hx.
  - rewrite <- seq_shift, List.map_map.
    assert (Er : rest = drop (S base) l).
    { rewrite <- (Nat.add_1_r base), <- drop_drop, Ed. reflexivity. }
    rewrite Er, <- IH by lia.
    apply List.map_ext. intros j. f_equal. lia.
Qed.

Lemma create_invoke_insts_loop_spec (regs : list Z) (rmo : Z)
    (onMethodExit_map : gmap Z DexMethod) (max k : Z) :
  let nv := Z.of_nat (length regs) in
  1 <= max -> 1 <= k -> max * (k - 1) < nv <= max * k -> nv < 2 ^ 64 ->
  (forall a, 1 <= a <= max -> is_Some (onMethodExit_map !! a)) ->
  forall (n : nat) (i v off : Z),
    (1 <= n)%nat -> 0 <= i -> i + Z.of_nat n = k -> v = nv - max * i ->
    exists insts,
      create_invoke_insts_loop regs rmo onMethodExit_map max k n i v off = Ok insts
      /\ Z.of_nat (length insts) = 2 * Z.of_nat n - 1
      /\ concat (List.map vector_args insts) = drop (Z.to_nat (max * i)) regs.
Proof.
  intros nv Hmax Hk Hnv Hsz Hmap n.
  induction n as [|n IH]; intros i v off Hn Hi Hik Hv; [lia|].
  cbn [create_invoke_insts_loop]. cbv zeta.
  assert (Hki : i <= k - 1) by lia.
  assert (Hmi : max * i <= max * (k - 1)) by (apply Z.mul_le_mono_nonneg_l; lia).
  assert (Hmi0 : 0 <= max * i) by (apply Z.mul_nonneg_nonneg; lia).
  assert (Hv1 : 1 <= v) by lia.
  assert (Hk1 : k - 1 <= max * (k - 1)) by nia.
  destruct (Hmap (Z.min v max)) as [m Hm]; [lia|].
  unfold onMethodExit_at. rewrite Hm. simpl.
  rewrite (size_t_small (max * i)) by lia.
  rewrite (size_t_small (k - 1)) by lia.
  set (arity := Z.min v max) in *.
  assert (Hseg :
    List.map (fun j => nth (Z.to_nat (max * i + Z.of_nat j)) regs 0)
      (seq 0 (Z.to_nat arity))
    = take (Z.to_nat arity) (drop (Z.to_nat (max * i)) regs)).
  { rewrite <- nth_segment by (unfold nv in *; lia).
    apply List.map_ext. intros j. f_equal. lia. }
  rewrite Hseg.
  destruct (Z.eqb_spec i (k - 1)) as [Hlast | Hnot]; simpl.
  - assert (n = 0%nat) by lia. subst n. simpl.
    eexists. split; [reflexivity|]. split; [simpl; lia|].
    simpl. rewrite app_nil_r.
    apply take_ge. rewrite length_drop. unfold arity, nv in *. lia.
  - assert (Hmi1 : max * (i + 1) <= max * (k - 1))
      by (apply Z.mul_le_mono_nonneg_l; lia).
    rewrite (size_t_small (i + 1)), (size_t_small (v - max)) by lia.
    destruct (IH (i + 1) (v - max) (size_t (off + max)))
      as (rest & -> & Hlen & Hcat); try lia.
    simpl. eexists. split; [reflexivity|]. split; [simpl; lia|].
    simpl. rewrite Hcat.
    assert (Ha : arity = max) by (unfold arity; lia). rewrite Ha.
    replace (max * (i + 1)) with (max * i + max) by ring.
    rewrite Z2Nat.inj_add by lia.
    rewrite <- drop_drop. apply take_drop.
Qed.

(** X5. If [onMethodExit] has an overload for every arity from 1 to
    [max_vector_arity], the instructions that [create_invoke_insts] builds for
    a non-empty list of vectors are [2 * num_invokes - 1] many, and the vector
    arguments of the calls, read in order, are exactly the vector registers:
    every vector is reported once. *)
Theorem onMethodExit_reports_each_vector (regs : list Z) (method_offset rmo : Z)
    (onMethodExit_map : gmap Z DexMethod) (max_vector_arity : Z) :
  regs <> [] -> 1 <= max_vector_arity ->
  Z.of_nat (length regs) < 2 ^ 64 ->
  (forall a, 1 <= a <= max_vector_arity -> is_Some (onMethodExit_map !! a)) ->
  exists num_invokes insts,
    get_num_invokes (Z.of_nat (length regs)) max_vector_arity = Ok num_invokes
    /\ create_invoke_insts regs method_offset rmo onMethodExit_map
         max_vector_arity num_invokes = Ok insts
    /\ Z.of_nat (length insts) = 2 * num_invokes - 1
    /\ concat (List.map vector_args insts) = regs.
Proof.
  intros Hne Hmax Hsz Hmap.
  set (nv := Z.of_nat (length regs)).
  assert (Hnv : 1 <= nv) by (destruct regs; [congruence | unfold nv; simpl; lia]).
  unfold get_num_invokes.
  destruct (Z.eqb_spec max_vector_arity 0) as [?|_]; [lia|].
  set (q := (nv + max_vector_arity - 1) / max_vector_arity).
  pose proof (Z.div_mod (nv + max_vector_arity - 1) max_vector_arity ltac:(lia)) as Hdm.
  pose proof (Z.mod_pos_bound (nv + max_vector_arity - 1) max_vector_arity ltac:(lia)) as Hmb.
  fold q in Hdm.
  assert (Hq : 1 <= q) by (apply Z.div_le_lower_bound; lia).
  rewrite Z.max_r by lia.
  destruct (create_invoke_insts_loop_spec regs rmo onMethodExit_map
              max_vector_arity q Hmax Hq ltac:(fold nv; nia) Hsz Hmap
              (Z.to_nat q) 0 nv method_offset)
    as (insts & E & Hlen & Hcat); try lia.
  exists q, insts. split; [reflexivity|].
  unfold create_invoke_insts. fold nv. rewrite E.
  split; [reflexivity|]. split; [lia|].
  rewrite Hcat, Z.mul_0_r. reflexivity.
Qed.

End ExitCallFacts.

Section SelectionFacts.
Import BlockInstrument.
Variable is_included : DexMethod -> gset string -> bool.

(** X6. A method that the walk of [do_basic_block_tracing] instruments is
    neither the class initialiser of the analysis class, nor [onMethodBegin],
    nor an [onMethodExit] overload, and it is not block-listed; it is counted
    as picked by the allow list only if it is on it, as picked by the
    cold-start list only if it is on that list and not on the allow list, and
    as one of the two whenever an allow list or [only_cold_start_class] is
    set. *)
Theorem select_method_instrumented (options : Options)
    (analysis_clinit : option DexMethod) (onMethodBegin : DexMethod)
    (onMethodExit_map : gmap Z DexMethod) (cold_start_classes : gset string)
    (method : DexMethod) (by_allowlist by_cs : bool) :
  select_method is_included options analysis_clinit onMethodBegin
    onMethodExit_map cold_start_classes method
  = InstrumentIt by_allowlist by_cs ->
  analysis_clinit <> Some method
  /\ method <> onMethodBegin
  /\ (forall arity, onMethodExit_map !! arity <> Some method)
  /\ is_included method (blocklist options) = false
  /\ (by_allowlist = true ->
      is_included method (allowlist options) = true /\ by_cs = false)
  /\ (by_cs = true ->
      is_included method (allowlist options) = false
      /\ is_included method cold_start_classes = true)
  /\ (allowlist options <> ∅ \/ only_cold_start_class options = true ->
      by_allowlist = true \/ by_cs = true).
Proof.
  unfold select_method. intros E.
  destruct (bool_decide (Some method = analysis_clinit)) eqn:Hc; [discriminate|].
  destruct (String.eqb method onMethodBegin) eqn:Hb; [discriminate|].
  simpl in E.
  destruct (existsb _ (map_to_list onMethodExit_map)) eqn:Hex; [discriminate|].
  apply bool_decide_eq_false in Hc. apply String.eqb_neq in Hb.
  split; [congruence|]. split; [exact Hb|].
  split.
  { intros arity Hm. apply elem_of_map_to_list in Hm.
    assert (Ht : existsb (fun e : Z * string => String.eqb e.2 method)
                   (map_to_list onMethodExit_map) = true).
    { apply existsb_exists. exists (arity, method).
      split; [apply list_elem_of_In; exact Hm | apply String.eqb_refl]. }
    congruence. }
  destruct (negb (bool_decide (allowlist options = ∅)) || only_cold_start_class options)
    eqn:Hmode.
  - destruct (is_included method (allowlist options)) eqn:Ha;
      [|destruct (is_included method cold_start_classes) eqn:Hcs; [|discriminate]];
      (destruct (is_included method (blocklist options)) eqn:Hbl; [discriminate|]);
      injection E as <- <-; repeat split; auto; try discriminate.
  - destruct (is_included method (blocklist options)) eqn:Hbl; [discriminate|].
    injection E as <- <-.
    apply orb_false_iff in Hmode as [Hal Hoc].
    apply negb_false_iff, bool_decide_eq_true in Hal.
    repeat split; auto; try discriminate.
    intros [Hne | Ht]; congruence.
Qed.

End SelectionFacts.

Section InsertionPointFacts.
Import BlockInstrument.

Lemma find_from_spec {A} (p : A -> bool) (l : list A) (i : nat) :
  (i <= find_from p l i <= i + length l)%nat
  /\ (forall k x, l !! k = Some x -> (i + k < find_from p l i)%nat -> p x = false)
  /\ ((find_from p l i < i + length l)%nat ->
      exists x, l !! (find_from p l i - i)%nat = Some x /\ p x = true).
Proof.
  revert i. induction l as [|y l IH]; intros i; simpl.
  - split; [lia|]. split; [intros k x Hk; discriminate | lia].
  - destruct (p y) eqn:Hy.
    + split; [lia|]. split; [intros k x _ Hlt; lia|].
      intros _. rewrite Nat.sub_diag. exists y. split; [reflexivity | exact Hy].
    + destruct (IH (S i)) as (Hr & Hbefore & Hat).
      split; [lia|]. split.
      * intros [|k] x Hk Hlt; simpl in Hk.
        -- injection Hk as <-. exact Hy.
        -- apply (Hbefore k x Hk). lia.
      * intros Hlt. destruct Hat as (x & Hx & Hpx); [lia|].
        exists x. split; [|exact Hpx].
        replace (find_from p l (S i) - i)%nat
          with (S (find_from p l (S i) - S i)) by lia.
        exact Hx.
Qed.

(** X7. [get_first_non_move_result_insn] returns the first entry of the
    block that is an opcode other than a move-result: every entry in front of
    it is no opcode or is a move-result, and the result is the end of the
    block if there is no such entry. *)
Theorem first_non_move_result_insn (b : Block) :
  let pos := get_first_non_move_result_insn b in
  (pos <= block_end b)%nat
  /\ (forall k e, block_entries b !! k = Some e -> (k < pos)%nat ->
        mie_type e <> MFLOW_OPCODE \/ is_move_result_any (mie_opcode e) = true)
  /\ ((pos < block_end b)%nat ->
      exists e, block_entries b !! pos = Some e
                /\ mie_type e = MFLOW_OPCODE
                /\ is_move_result_any (mie_opcode e) = false).
Proof.
  unfold get_first_non_move_result_insn, block_end. cbv zeta.
  destruct (find_from_spec
              (fun e => is_MFLOW_OPCODE (mie_type e)
                        && negb (is_move_result_any (mie_opcode e)))
              (block_entries b) 0) as (Hr & Hbefore & Hat).
  split; [lia|]. split.
  - intros k e Hk Hlt. specialize (Hbefore k e Hk ltac:(lia)).
    apply andb_false_iff in Hbefore as [Ht | Hm].
    + left. intros Et. rewrite Et in Ht. discriminate.
    + right. apply negb_false_iff. exact Hm.
  - intros Hlt. destruct Hat as (e & He & Hp); [lia|].
    rewrite Nat.sub_0_r in He. exists e. split; [exact He|].
    apply andb_true_iff in Hp as [Ht Hm]. split.
    + destruct (mie_type e); try discriminate. reflexivity.
    + apply negb_true_iff. exact Hm.
Qed.

End InsertionPointFacts.


Section AnalysisMethodFacts.
Import BlockInstrument.

(** X8. When [load_onMethodBegin] returns, it returns the first direct
    method of the analysis class that has the name looked for, and the
    prototype of that method is [(int)]; later methods of the same name are
    not looked at. *)
Theorem load_onMethodBegin_first (dmethods : list DirectMethod)
    (method_name : string) (m : DexMethod) :
  load_onMethodBegin dmethods method_name = Ok m ->
  exists pre d post,
    dmethods = pre ++ d :: post
    /\ Forall (fun x => dm_name x <> method_name) pre
    /\ dm_name d = method_name
    /\ dm_args d = ["I"]
    /\ m = dm_method d.
Proof.
  induction dmethods as [|x rest IH]; simpl; intros E; [discriminate|].
  destruct (String.eqb method_name (dm_name x)) eqn:Hn; simpl in E.
  - apply String.eqb_eq in Hn.
    apply bind_Ok in E as (u & Ha & E). injection E as <-.
    apply always_assert_log_Ok in Ha.
    apply negb_true_iff, orb_false_iff in Ha as [Hlen Hfirst].
    apply negb_false_iff, Nat.eqb_eq in Hlen.
    apply negb_false_iff, String.eqb_eq in Hfirst.
    exists [], x, rest. repeat split; auto.
    destruct (dm_args x) as [|a [|b l]]; simpl in *; try discriminate.
    congruence.
  - apply String.eqb_neq in Hn.
    destruct (IH E) as (pre & d & post & -> & Hpre & Hd & Ha & Hm).
    exists (x :: pre), d, post. repeat split; auto.
Qed.

Lemma bad_onMethodExit_proto_false (args : list string) :
  bad_onMethodExit_proto args = false <->
  args = "I" :: replicate (length args - 1) "S".
Proof.
  destruct args as [|first others]; simpl.
  - split; discriminate.
  - rewrite Nat.sub_0_r, orb_false_iff, negb_false_iff, String.eqb_eq.
    split.
    + intros [-> Hs]. f_equal.
      induction others as [|t others IH]; [reflexivity|]. simpl in *.
      apply orb_false_iff in Hs as [Ht Hs].
      apply negb_false_iff, String.eqb_eq in Ht. subst t. f_equal. apply IH, Hs.
    + intros E. injection E as -> Eo. split; [reflexivity|].
      rewrite Eo. clear Eo.
      induction (length others) as [|n IH]; [reflexivity|]. simpl. exact IH.
Qed.

Lemma build_onMethodExit_map_loop_spec dmethods name map0 map :
  build_onMethodExit_map_loop dmethods name map0 = Ok map ->
  Forall (fun d => dm_name d = name ->
                   bad_onMethodExit_proto (dm_args d) = false
                   /\ is_Some (map !! size_t (Z.of_nat (length (dm_args d)) - 1)))
         dmethods
  /\ (forall k, is_Some (map0 !! k) -> is_Some (map !! k))
  /\ (forall k m, map !! k = Some m ->
        map0 !! k = Some m
        \/ exists d, In d dmethods /\ dm_method d = m /\ dm_name d = name
                     /\ bad_onMethodExit_proto (dm_args d) = false
                     /\ k = size_t (Z.of_nat (length (dm_args d)) - 1)).
Proof.
  revert map0. induction dmethods as [|x rest IH]; intros map0 E; simpl in E.
  - injection E as <-. split; [constructor|]. split; auto.
  - destruct (String.eqb name (dm_name x)) eqn:Hn; simpl in E.
    + apply String.eqb_eq in Hn.
      apply bind_Ok in E as (u & Ha & E).
      apply always_assert_log_Ok, negb_true_iff in Ha.
      destruct (IH _ E) as (Hall & Hmono & Hsrc).
      split; [|split].
      * constructor; [|exact Hall]. intros _. split; [exact Ha|].
        apply Hmono. rewrite lookup_insert_eq. eauto.
      * intros k Hk. apply Hmono.
        destruct (decide (size_t (Z.of_nat (length (dm_args x)) - 1) = k)) as [<-|Hne].
        -- rewrite lookup_insert_eq. eauto.
        -- rewrite lookup_insert_ne by exact Hne. exact Hk.
      * intros k m Hk. destruct (Hsrc k m Hk) as [H0 | (d & Hin & Hd)].
        -- destruct (decide (size_t (Z.of_nat (length (dm_args x)) - 1) = k)) as [<-|Hne].
           ++ rewrite lookup_insert_eq in H0. injection H0 as <-.
              right. exists x. repeat split; auto. left. reflexivity.
           ++ rewrite lookup_insert_ne in H0 by exact Hne. left. exact H0.
        -- right. exists d. split; [right; exact Hin | exact Hd].
    + apply String.eqb_neq in Hn.
      destruct (IH _ E) as (Hall & Hmono & Hsrc).
      split; [|split].
      * constructor; [|exact Hall]. intros Hx. congruence.
      * exact Hmono.
      * intros k m Hk. destruct (Hsrc k m Hk) as [H0 | (d & Hin & Hd)]; [left; exact H0|].
        right. exists d. split; [right; exact Hin | exact Hd].
Qed.

(** X9. When [build_onMethodExit_map] returns, the map is not empty,
    every direct method named [onMethodExit] has a prototype [(int, short,
    ..., short)] and its number of shorts is a key of the map, and every
    entry of the map is such a method under its number of shorts. *)
Theorem build_onMethodExit_map_overloads (dmethods : list DirectMethod)
    (onMethodExit_name : string) (onMethodExit_map : gmap Z DexMethod) :
  build_onMethodExit_map dmethods onMethodExit_name = Ok onMethodExit_map ->
  onMethodExit_map <> ∅
  /\ (forall d, In d dmethods -> dm_name d = onMethodExit_name ->
        dm_args d = "I" :: replicate (length (dm_args d) - 1) "S"
        /\ is_Some (onMethodExit_map !! size_t (Z.of_nat (length (dm_args d)) - 1)))
  /\ (forall arity m, onMethodExit_map !! arity = Some m ->
        exists d, In d dmethods /\ dm_method d = m
                  /\ dm_name d = onMethodExit_name
                  /\ dm_args d = "I" :: replicate (length (dm_args d) - 1) "S"
                  /\ arity = size_t (Z.of_nat (length (dm_args d)) - 1)).
Proof.
  unfold build_onMethodExit_map. intros E.
  apply bind_Ok in E as (map & Hloop & E).
  apply bind_Ok in E as (u & Ha & E). injection E as <-.
  apply always_assert_log_Ok, negb_true_iff, bool_decide_eq_false in Ha.
  destruct (build_onMethodExit_map_loop_spec _ _ _ _ Hloop) as (Hall & _ & Hsrc).
  split; [exact Ha|]. split.
  - intros d Hin Hd. rewrite List.Forall_forall in Hall.
    destruct (Hall d Hin Hd) as [Hp Hs].
    split; [apply bad_onMethodExit_proto_false; exact Hp | exact Hs].
  - intros arity m Hm. destruct (Hsrc arity m Hm) as [H0 | (d & Hin & Hdm & Hdn & Hp & Hk)].
    + rewrite lookup_empty in H0. discriminate.
    + exists d. repeat split; auto. apply bad_onMethodExit_proto_false; exact Hp.
Qed.

End AnalysisMethodFacts.

Section TracingFacts.
Import BlockInstrument.
Context `{ControlFlowGraph Cfg}.
Variable is_included : DexMethod -> gset string -> bool.

Lemma instrument_basic_blocks_fields (cfg : Cfg) method onMethodBegin
    onMethodExit_map max_vector_arity method_offset max_num_blocks options
    info cfg' violation :
  instrument_basic_blocks cfg method onMethodBegin onMethodExit_map
    max_vector_arity method_offset max_num_blocks options
  = Ok (info, cfg', violation) ->
  BlockInstrument.method info = method /\ offset info = method_offset.
Proof.
  unfold instrument_basic_blocks. intros E.
  destruct (get_blocks_to_instrument cfg max_num_blocks options) as [[blocks n] tm].
  destruct (insert_prologue_insts cfg onMethodBegin _ method_offset)
    as [[regs r] cfg1].
  apply bind_Ok in E as (cfg2 & _ & E).
  apply bind_Ok in E as ([nec cfg3] & _ & E). cbv zeta in E.
  destruct (collect_blocks _ blocks [] [] ∅) as [[ids sbs] rej].
  apply bind_Ok in E as (u1 & _ & E).
  apply bind_Ok in E as (u2 & _ & E).
  apply bind_Ok in E as (u3 & _ & E).
  injection E as <- _ _. split; reflexivity.
Qed.


Lemma next_method_offset_snoc start infos info :
  next_method_offset start (infos ++ [info])
  = size_t (next_method_offset start infos + size_t (2 + num_vectors info)).
Proof. unfold next_method_offset. rewrite fold_left_app. reflexivity. Qed.

Lemma trace_methods_spec options analysis_clinit onMethodBegin onMethodExit_map
    max_vector_arity cold methods start acc results final :
  trace_methods is_included options analysis_clinit onMethodBegin onMethodExit_map
    max_vector_arity cold methods
    (next_method_offset start (List.map fst acc)) acc = Ok (results, final) ->
  (forall k info, List.map fst acc !! k = Some info ->
     offset info = next_method_offset start (take k (List.map fst acc))) ->
  exists new,
    results = acc ++ new
    /\ List.map (fun r => BlockInstrument.method (fst r)) new
       = List.filter (selected is_included options analysis_clinit onMethodBegin
                        onMethodExit_map cold) (List.map fst methods)
    /\ final = next_method_offset start (List.map fst results)
    /\ (forall k info, List.map fst results !! k = Some info ->
          offset info = next_method_offset start (take k (List.map fst results))).
Proof.
  revert acc. induction methods as [|[method cfg] rest IH]; intros acc E Hacc;
    cbn [trace_methods] in E.
  - injection E as <- <-. exists []. rewrite app_nil_r. repeat split; auto.
  - unfold selected. cbn [List.map List.filter fst].
    destruct (select_method is_included options analysis_clinit onMethodBegin
                onMethodExit_map cold method) eqn:Hsel;
      try (destruct (IH acc E Hacc) as (new & -> & Hm & Hf & Ho);
           exists new; repeat split; auto; fail).
    apply bind_Ok in E as ([[info cfg'] v] & Hinstr & E).
    apply instrument_basic_blocks_fields in Hinstr as [Hmeth Hoff].
    rewrite <- next_method_offset_snoc in E.
    replace (List.map fst acc ++ [info])
      with (List.map fst (acc ++ [(info, cfg')])) in E
      by (rewrite List.map_app; reflexivity).
    apply IH in E as (new & Hres & Hm & Hf & Ho).
    + exists ((info, cfg') :: new). subst results.
      rewrite <- app_assoc in Hf, Ho |- *. simpl in Hf, Ho |- *.
      split; [reflexivity|]. split; [f_equal; [exact Hmeth | exact Hm]|].
      split; [exact Hf | exact Ho].
    + intros k i Hk. rewrite List.map_app in Hk |- *. simpl in Hk |- *.
      destruct (decide (k < length (List.map fst acc))%nat) as [Hlt | Hge].
      * rewrite lookup_app_l in Hk by exact Hlt.
        rewrite take_app_le by lia. apply Hacc. exact Hk.
      * rewrite lookup_app_r in Hk by lia.
        destruct (k - length (List.map fst acc))%nat as [|j] eqn:Hj;
          simpl in Hk; [|destruct j; discriminate].
        injection Hk as <-.
        assert (k = length (List.map fst acc)) as -> by lia.
        rewrite take_app_length. exact Hoff.
Qed.

(** X10. The walk of [do_basic_block_tracing] records the instrumented
    methods in the order of the walk, skipping those that are not selected;
    the first offset is 8 and the offset of each method is the offset of the
    one before plus 2 plus its number of vectors (in [size_t] arithmetic), so
    that the profiles lie one behind the other in [sMethodStats]. *)
Theorem method_offsets_are_laid_out (options : Options)
    (analysis_clinit : option DexMethod) (onMethodBegin : DexMethod)
    (onMethodExit_map : gmap Z DexMethod) (max_vector_arity : Z)
    (cold_start_classes : gset string) (methods : list (DexMethod * Cfg))
    (results : list (MethodInfo * Cfg)) (final : Z) :
  trace_scope is_included options analysis_clinit onMethodBegin onMethodExit_map
    max_vector_arity cold_start_classes methods = Ok (results, final) ->
  let infos := List.map fst results in
  List.map BlockInstrument.method infos
  = List.filter
      (selected is_included options analysis_clinit onMethodBegin onMethodExit_map
         cold_start_classes)
      (List.map fst methods)
  /\ (forall k info, infos !! k = Some info ->
        offset info = next_method_offset 8 (take k infos))
  /\ final = next_method_offset 8 infos.
Proof.
  intros E infos. unfold trace_scope in E.
  assert (Hacc : forall (k : nat) (info : MethodInfo),
            List.map fst ([] : list (MethodInfo * Cfg)) !! k = Some info ->
            offset info
            = next_method_offset 8
                (take k (List.map fst ([] : list (MethodInfo * Cfg)))))
    by (intros k info Hk; discriminate Hk).
  destruct (trace_methods_spec options analysis_clinit onMethodBegin
              onMethodExit_map max_vector_arity cold_start_classes methods 8 []
              results final E Hacc)
    as (new & Hr & Hm & Hf & Ho).
  simpl in Hr. subst new. unfold infos.
  split; [rewrite List.map_map; exact Hm|]. split; [exact Ho | exact Hf].
Qed.

End TracingFacts.


Section RejectedCatchFacts.
Import BlockInstrument.
Context `{ControlFlowGraph Cfg}.


Lemma create_block_info_counts (b : Block) (options : Options) (i : BlockInfo) :
  bi_type i = bi_type (create_block_info b options) ->
  b2z (has_type BlockType.Empty i) + b2z (has_type BlockType.Useless i)
  + b2z (has_type BlockType.NoSourceBlock i)
  + (b2z (has_type BlockType.Catch i)
     - b2z (has_type (bt_or BlockType.Catch BlockType.Instrumentable) i))
  = b2z (negb (is_instrumentable i)) + b2z (rejected_catch_counted_twice i)
  /\ b2z (has_type (bt_or BlockType.Catch BlockType.Instrumentable) i)
     <= b2z (has_type BlockType.Catch i).
Proof.
  unfold rejected_catch_counted_twice, is_instrumentable, has_type.
  intros ->. unfold create_block_info.
  destruct (Z.eqb (num_opcodes b) 0); [vm_compute; split; [reflexivity | discriminate]|].
  destruct (is_catch b), (instrument_catches options); cbn [andb negb];
    try (vm_compute; split; [reflexivity | discriminate]);
    (destruct (starts_with_move_result b);
     [|destruct (starts_with_move_exception b)]);
    cbv beta iota zeta;
    (destruct (Nat.eqb _ (block_end b));
     [vm_compute; split; [reflexivity | discriminate]|]);
    (destruct (negb (instrument_blocks_without_source_block options)
               && negb (has_source_blocks b)
               && negb (match succs b with [] => true | _ => false end));
     vm_compute; split; first [reflexivity | discriminate]).
Qed.

Lemma assign_bit_ids_types max options blocks acc id l n :
  assign_bit_ids max options blocks acc id = (l, n, false) ->
  exists new,
    l = acc ++ new
    /\ Forall2 (fun i b => bi_type i = bi_type (create_block_info b options))
         new blocks.
Proof.
  revert acc id. induction blocks as [|b rest IH]; intros acc id E; simpl in E.
  - injection E as <- _. exists []. rewrite app_nil_r. split; [reflexivity | constructor].
  - destruct (is_instrumentable (create_block_info b options)).
    + destruct (Z.leb max id); [discriminate|].
      apply IH in E as (new & -> & Hnew).
      eexists (_ :: new). rewrite <- app_assoc. split; [reflexivity|].
      constructor; [reflexivity | exact Hnew].
    + apply IH in E as (new & -> & Hnew).
      eexists (_ :: new). rewrite <- app_assoc. split; [reflexivity|].
      constructor; [reflexivity | exact Hnew].
Qed.

Lemma rejected_counts (options : Options) (infos : list BlockInfo) (blocks : list Block) :
  Forall2 (fun i b => bi_type i = bi_type (create_block_info b options)) infos blocks ->
  count_if (has_type BlockType.Empty) infos
  + count_if (has_type BlockType.Useless) infos
  + count_if (has_type BlockType.NoSourceBlock) infos
  + (count_if (has_type BlockType.Catch) infos
     - count_if (has_type (bt_or BlockType.Catch BlockType.Instrumentable)) infos)
  = count_if (fun i => negb (is_instrumentable i)) infos
    + count_if rejected_catch_counted_twice infos
  /\ count_if (has_type (bt_or BlockType.Catch BlockType.Instrumentable)) infos
     <= count_if (has_type BlockType.Catch) infos.
Proof.
  induction 1 as [|i b infos blocks Hi _ IH].
  - unfold count_if. simpl. lia.
  - rewrite !count_if_cons.
    destruct (create_block_info_counts b options i Hi) as [Hs Hle].
    unfold b2z in Hs, Hle. destruct IH as [IHs IHle]. lia.
Qed.

(** X11. With [instrument_catches] on, a catch block that is rejected as
    useless or for its missing source blocks is counted twice in
    [num_rejected_blocks], once under its reason and once as a catch block
    that is not instrumented, but once in [rejected_blocks]: unless the method
    has too many blocks, an [always_assert] of [instrument_basic_blocks]
    fails. *)
Theorem rejected_catch_block_aborts (cfg : Cfg) (method onMethodBegin : DexMethod)
    (onMethodExit_map : gmap Z DexMethod)
    (max_vector_arity method_offset max_num_blocks : Z) (options : Options)
    (blocks : list BlockInfo) (n : Z) :
  Z.of_nat (length (visit_in_order cfg)) < 2 ^ 62 ->
  get_blocks_to_instrument cfg max_num_blocks options = (blocks, n, false) ->
  existsb rejected_catch_counted_twice blocks = true ->
  forall r,
    instrument_basic_blocks cfg method onMethodBegin onMethodExit_map
      max_vector_arity method_offset max_num_blocks options <> Ok r.
Proof.
  intros Hlen Hget Hex [[info cfg'] traced] Hrun.
  unfold instrument_basic_blocks in Hrun. rewrite Hget in Hrun.
  destruct (insert_prologue_insts _ _ _ _) as [[regs roff] cfg1].
  apply bind_Ok in Hrun as (cfg2 & _ & Hrun).
  apply bind_Ok in Hrun as ([exits cfg3] & _ & Hrun).
  destruct (collect_blocks _ blocks [] [] ∅) as [[ids sbs] rejected] eqn:Hcol.
  apply bind_Ok in Hrun as (? & _ & Hrun).
  apply bind_Ok in Hrun as (? & _ & Hrun).
  apply bind_Ok in Hrun as (? & Hrej%always_assert_log_Ok & _).
  simpl in Hrej. apply Z.eqb_eq in Hrej.
  apply collect_blocks_size in Hcol. rewrite map_size_empty in Hcol.
  unfold get_blocks_to_instrument in Hget.
  pose proof Hget as Hty. apply assign_bit_ids_types in Hty as (new & Hnew & Hty).
  simpl in Hnew. subst new.
  apply assign_bit_ids_length in Hget as [(? & _) | (_ & Hget)]; [discriminate|].
  simpl in Hget. pose proof (blocks_to_visit_length cfg) as Hvis.
  destruct (rejected_counts options blocks _ Hty) as [Hsum Hle].
  assert (Htwice : 1 <= count_if rejected_catch_counted_twice blocks).
  { apply existsb_exists in Hex as (i & Hin & Hi).
    apply in_split in Hin as (l1 & l2 & ->).
    rewrite count_if_app, count_if_cons, Hi.
    pose proof (count_if_nonneg rejected_catch_counted_twice l1).
    pose proof (count_if_nonneg rejected_catch_counted_twice l2). lia. }
  pose proof (count_if_split (has_type BlockType.Empty) blocks).
  pose proof (count_if_split (has_type BlockType.Useless) blocks).
  pose proof (count_if_split (has_type BlockType.NoSourceBlock) blocks).
  pose proof (count_if_split (has_type BlockType.Catch) blocks).
  pose proof (count_if_split is_instrumentable blocks).
  pose proof (count_if_nonneg (has_type BlockType.Empty) blocks).
  pose proof (count_if_nonneg (has_type BlockType.Useless) blocks).
  pose proof (count_if_nonneg (has_type BlockType.NoSourceBlock) blocks).
  pose proof (count_if_nonneg (has_type BlockType.Catch) blocks).
  pose proof (count_if_nonneg
                (has_type (bt_or BlockType.Catch BlockType.Instrumentable)) blocks).
  pose proof (count_if_nonneg (fun x => negb (has_type BlockType.Empty x)) blocks).
  pose proof (count_if_nonneg (fun x => negb (has_type BlockType.Useless x)) blocks).
  pose proof (count_if_nonneg (fun x => negb (has_type BlockType.NoSourceBlock x)) blocks).
  pose proof (count_if_nonneg (fun x => negb (has_type BlockType.Catch x)) blocks).
  pose proof (count_if_nonneg (fun x => negb (is_instrumentable x)) blocks).
  pose proof (count_if_nonneg is_instrumentable blocks).
  rewrite !Z.add_0_r in Hrej.
  rewrite ?size_t_idem in Hrej.
  rewrite (size_t_small (count_if (has_type BlockType.Catch) blocks - _)) in Hrej by lia.
  rewrite (size_t_small (count_if (has_type BlockType.Empty) blocks + _)) in Hrej by lia.
  rewrite (size_t_small (_ + count_if (has_type BlockType.NoSourceBlock) blocks)) in Hrej by lia.
  rewrite size_t_small in Hrej by lia.
  lia.
Qed.

End RejectedCatchFacts.


Section BlockInstrumentWitnesses.
Import BlockInstrument.

Lemma get_blocks_to_instrument_bit_ids_witness :
  exists blocks,
    get_blocks_to_instrument sample_cfg 500 sample_options = (blocks, 2, false)
    /\ List.map bi_bit_id (List.filter is_instrumentable blocks) = [0; 1].
Proof.
  destruct (get_blocks_to_instrument sample_cfg 500 sample_options)
    as [[blocks n] tm] eqn:E.
  assert (n = 2 /\ tm = false) as [-> ->]
    by (vm_compute in E; injection E as _ <- <-; split; reflexivity).
  exists blocks. split; [reflexivity|].
  exact (proj1 (proj2 (proj2 (proj2
           (get_blocks_to_instrument_bit_ids sample_cfg 500 sample_options
              blocks 2 ltac:(lia) E))))).
Defined.

Lemma block_coverage_vectors_in_range_witness :
  exists blocks regs cfg2,
    get_blocks_to_instrument sample_cfg 500 sample_options = (blocks, 2, false)
    /\ Z.of_nat (length regs) = 1
    /\ insert_block_coverage_computations blocks regs sample_cfg = Ok cfg2.
Proof.
  destruct (get_blocks_to_instrument sample_cfg 500 sample_options)
    as [[blocks n] tm] eqn:E.
  assert (n = 2 /\ tm = false) as [-> ->]
    by (vm_compute in E; injection E as _ <- <-; split; reflexivity).
  destruct (allocate_vectors
              (Z.to_nat ((2 + (BIT_VECTOR_SIZE - 1)) / BIT_VECTOR_SIZE)) sample_cfg)
    as [[regs insns] cfg1] eqn:Ea.
  destruct (block_coverage_vectors_in_range sample_cfg sample_cfg 500
              sample_options blocks 2 false regs insns cfg1 ltac:(lia) E Ea)
    as [Hlen [cfg2 Hins]].
  exists blocks, regs, cfg2. split; [reflexivity|]. split; [exact Hlen | exact Hins].
Defined.

Lemma coverage_bit_distinct_witness :
  int16_t (Z.shiftl 1 (17 mod BIT_VECTOR_SIZE))
  <> int16_t (Z.shiftl 1 (18 mod BIT_VECTOR_SIZE)).
Proof.
  apply (coverage_bit_distinct 17 18); [lia | lia | lia | reflexivity].
Defined.

Lemma onMethodExit_reports_each_vector_witness :
  exists insts,
    create_invoke_insts [4; 5; 6] 8 7 sample_onMethodExit_map 2 2 = Ok insts
    /\ length insts = 3%nat
    /\ concat (List.map vector_args insts) = [4; 5; 6].
Proof.
  destruct (onMethodExit_reports_each_vector [4; 5; 6] 8 7
              sample_onMethodExit_map 2) as (k & insts & Hk & Hi & Hlen & Hcat).
  - discriminate.
  - lia.
  - simpl. lia.
  - intros a Ha. assert (a = 1 \/ a = 2) as [-> | ->] by lia;
      vm_compute; eauto.
  - assert (k = 2) as -> by (vm_compute in Hk; injection Hk as <-; reflexivity).
    exists insts. split; [exact Hi|]. split; [lia | exact Hcat].
Defined.

Lemma select_method_instrumented_witness :
  sample_is_included "LFoo;.bar:()V" (blocklist sample_options_catches) = false.
Proof.
  refine (proj1 (proj2 (proj2 (proj2
            (select_method_instrumented sample_is_included sample_options_catches
               (Some "LAnalysis;.<clinit>:()V") sample_onMethodBegin
               sample_onMethodExit_map ∅ "LFoo;.bar:()V" false false _))))).
  vm_compute. reflexivity.
Defined.

Lemma load_onMethodBegin_first_witness :
  exists pre d post,
    sample_dmethods = pre ++ d :: post
    /\ dm_args d = ["I"]
    /\ dm_method d = "LAnalysis;.onMethodBegin:(I)V".
Proof.
  destruct (load_onMethodBegin_first sample_dmethods "onMethodBegin"
              "LAnalysis;.onMethodBegin:(I)V" eq_refl)
    as (pre & d & post & Hd & _ & _ & Ha & Hm).
  exists pre, d, post. split; [exact Hd|]. split; [exact Ha | symmetry; exact Hm].
Defined.

Lemma build_onMethodExit_map_overloads_witness :
  exists onMethodExit_map,
    build_onMethodExit_map sample_dmethods "onMethodExit" = Ok onMethodExit_map
    /\ onMethodExit_map <> ∅.
Proof.
  destruct (build_onMethodExit_map sample_dmethods "onMethodExit")
    as [onMethodExit_map|msg] eqn:E; [|vm_compute in E; discriminate].
  exists onMethodExit_map. split; [reflexivity|].
  exact (proj1 (build_onMethodExit_map_overloads sample_dmethods "onMethodExit"
                  onMethodExit_map E)).
Defined.

Lemma method_offsets_are_laid_out_witness :
  exists results final,
    trace_scope sample_is_included sample_options_catches
      (Some "LAnalysis;.<clinit>:()V") sample_onMethodBegin sample_onMethodExit_map
      2 ∅ [("LFoo;.bar:()V", sample_cfg); ("LFoo;.baz:()V", sample_cfg)]
    = Ok (results, final)
    /\ final = next_method_offset 8 (List.map fst results).
Proof.
  destruct (trace_scope sample_is_included sample_options_catches
              (Some "LAnalysis;.<clinit>:()V") sample_onMethodBegin
              sample_onMethodExit_map 2 ∅
              [("LFoo;.bar:()V", sample_cfg); ("LFoo;.baz:()V", sample_cfg)])
    as [[results final]|msg] eqn:E; [|vm_compute in E; discriminate].
  exists results, final. split; [reflexivity|].
  exact (proj2 (proj2 (method_offsets_are_laid_out sample_is_included _ _ _ _ _ _ _
                         results final E))).
Defined.

Lemma rejected_catch_block_aborts_witness :
  exists msg,
    instrument_basic_blocks sample_cfg_catch "LFoo;.bar:()V" sample_onMethodBegin
      sample_onMethodExit_map 2 8 500 sample_options_catches = Fatal msg.
Proof.
  destruct (instrument_basic_blocks sample_cfg_catch "LFoo;.bar:()V"
              sample_onMethodBegin sample_onMethodExit_map 2 8 500
              sample_options_catches) as [r|msg] eqn:E; [exfalso | eauto].
  revert E.
  apply (rejected_catch_block_aborts sample_cfg_catch "LFoo;.bar:()V"
           sample_onMethodBegin sample_onMethodExit_map 2 8 500
           sample_options_catches
           (get_blocks_to_instrument sample_cfg_catch 500 sample_options_catches).1.1
           (get_blocks_to_instrument sample_cfg_catch 500 sample_options_catches).1.2).
  - vm_compute. reflexivity.
  - vm_compute. reflexivity.
  - vm_compute. reflexivity.
Defined.

End BlockInstrumentWitnesses.

(** ** Inter-dex packing: canaries and the order of classes *)

Section CanaryFacts.
Import InterDex.
Context `{TypeSystem}.

Lemma forall_below (P : Z -> Prop) (f : Z -> bool) (lo : Z) (len : nat) :
  (forall n, f n = true -> P n) ->
  forallb f (List.map (fun k => lo + Z.of_nat k) (seq 0 len)) = true ->
  forall n, lo <= n < lo + Z.of_nat len -> P n.
Proof.
  intros Hf Hall n Hn. apply Hf.
  rewrite forallb_forall in Hall. apply Hall.
  apply List.in_map_iff. exists (Z.to_nat (n - lo)). split; [lia|].
  apply List.in_seq. lia.
Qed.

(** X12. For the DEX numbers below 10000 the canary name fits the buffer
    of [flush_out_dex], so that it is [Lsecondary/dex], the number on at least
    two digits, and [/Canary;]; the class made from it is recognised by
    [is_canary]; and different DEX numbers give different names. *)
Theorem canary_class_name_distinct (n m : Z) :
  0 <= n < 10000 -> 0 <= m < 10000 ->
  canary_class_name n
  = CANARY_CLASS_PREFIX +:+ format_02d n +:+ CANARY_CLASS_SUFFIX
  /\ is_canary (create_canary (canary_class_name n)) = true
  /\ (canary_class_name n = canary_class_name m -> n = m).
Proof.
  intros Hn Hm.
  (* the number written in a name, read back from its digits *)
  pose (digit := fun c : ascii =>
          let k := Z.of_N (N_of_ascii c) in
          if Z.leb 48 k && Z.leb k 57 then Some (k - 48) else None).
  pose (number := fix number (s : string) (acc : Z) : Z :=
          match s with
          | EmptyString => acc
          | String c s' =>
              number s' (match digit c with Some d => 10 * acc + d | None => acc end)
          end).
  assert (H1 : forall n, 0 <= n < 0 + Z.of_nat (Z.to_nat 10000) ->
             canary_class_name n
             = CANARY_CLASS_PREFIX +:+ format_02d n +:+ CANARY_CLASS_SUFFIX
             /\ is_canary (create_canary (canary_class_name n)) = true
             /\ number (canary_class_name n) 0 = n).
  { apply (forall_below _
             (fun n => String.eqb (canary_class_name n)
                         (CANARY_CLASS_PREFIX +:+ format_02d n +:+ CANARY_CLASS_SUFFIX)
                       && is_canary (create_canary (canary_class_name n))
                       && Z.eqb (number (canary_class_name n) 0) n)).
    - intros k Hk. apply andb_true_iff in Hk as [Hk H3].
      apply andb_true_iff in Hk as [H1 H2].
      apply String.eqb_eq in H1. apply Z.eqb_eq in H3. auto.
    - vm_compute. reflexivity. }
  destruct (H1 n ltac:(lia)) as (Ha & Hb & Hc).
  destruct (H1 m ltac:(lia)) as (_ & _ & Hd).
  split; [exact Ha|]. split; [exact Hb|].
  intros E. rewrite <- Hc, <- Hd, E. reflexivity.
Qed.

End CanaryFacts.

Section SortRemainingFacts.
Import InterDex.
Context `{TypeSystem}.

Lemma stable_insert_perm {A} (comp : A -> A -> result bool) x l r :
  stable_insert comp x l = Ok r -> Permutation (x :: l) r.
Proof.
  revert r. induction l as [|y l IH]; intros r E; simpl in E.
  - injection E as <-. reflexivity.
  - apply bind_Ok in E as (lt & _ & E). destruct lt.
    + injection E as <-. reflexivity.
    + apply bind_Ok in E as (r' & Hr & E). injection E as <-.
      rewrite perm_swap. constructor. apply IH. exact Hr.
Qed.

Lemma stable_sort_from_perm {A} (comp : A -> A -> result bool) sorted l r :
  stable_sort_from comp sorted l = Ok r -> Permutation (sorted ++ l) r.
Proof.
  revert sorted r. induction l as [|x l IH]; intros sorted r E; simpl in E.
  - injection E as <-. rewrite app_nil_r. reflexivity.
  - apply bind_Ok in E as (sorted' & Hi & E).
    apply stable_insert_perm in Hi. apply IH in E.
    etransitivity; [symmetry; apply Permutation_middle|].
    etransitivity; [|exact E].
    apply (Permutation_app_tail l Hi).
Qed.

Lemma take_while_b_prefix {A} (p : A -> bool) (l : list A) :
  take_while_b p l ++ drop (length (take_while_b p l)) l = l
  /\ Forall (fun x => p x = true) (take_while_b p l).
Proof.
  induction l as [|x l [IH1 IH2]]; simpl; [split; [reflexivity | constructor]|].
  destruct (p x) eqn:Hx; simpl.
  - split; [f_equal; exact IH1 | constructor; assumption].
  - split; [reflexivity | constructor].
Qed.

(** X13. When the sort of [flush_out_dex] for compressed size returns, it
    has left the leading run of ordered classes (perf-sensitive and not added
    by a plugin) where it was and has permuted the classes behind it, none of
    which is ordered; the DEX holds the same classes as before. *)
Theorem sort_remaining_classes_keeps_ordered_prefix (st : State)
    (additional_classes : gset string) (classes classes' : list DexClass) :
  sort_remaining_classes st additional_classes classes = Ok classes' ->
  let is_ordered := fun cls =>
    is_perf_sensitive st cls
    && negb (bool_decide (cls_type cls ∈ additional_classes)) in
  exists ordered remaining sorted,
    classes = ordered ++ remaining
    /\ classes' = ordered ++ sorted
    /\ Forall (fun cls => is_ordered cls = true) ordered
    /\ Forall (fun cls => is_ordered cls = false) remaining
    /\ Permutation remaining sorted
    /\ Permutation classes classes'.
Proof.
  intros E is_ordered. unfold sort_remaining_classes in E.
  apply bind_Ok in E as (u & Ha & E). apply bind_Ok in E as (sorted & Hs & E).
  injection E as <-.
  apply always_assert_log_Ok, negb_true_iff in Ha.
  fold is_ordered in Ha, Hs |- *.
  destruct (take_while_b_prefix is_ordered classes) as [Hsplit Hord].
  apply stable_sort_from_perm in Hs. simpl in Hs.
  exists (take_while_b is_ordered classes),
         (drop (length (take_while_b is_ordered classes)) classes), sorted.
  split; [symmetry; exact Hsplit|]. split; [reflexivity|].
  split; [exact Hord|]. split.
  - apply List.Forall_forall. intros cls Hin.
    destruct (is_ordered cls) eqn:Hc; [|reflexivity].
    assert (Ht : existsb is_ordered
                   (drop (length (take_while_b is_ordered classes)) classes) = true)
      by (apply existsb_exists; exists cls; split; assumption).
    congruence.
  - split; [exact Hs|].
    rewrite <- Hsplit at 1. apply Permutation_app_head. exact Hs.
Qed.

End SortRemainingFacts.


Section OrderFacts.
Import InterDex.

Lemma filter_none {A} (p : A -> bool) (l : list A) :
  (forall a, In a l -> p a = false) -> List.filter p l = [].
Proof.
  induction l as [|x l IH]; intros Hall; [reflexivity|]. simpl.
  rewrite (Hall x (or_introl eq_refl)). apply IH. intros a Ha. apply Hall. right. exact Ha.
Qed.

Section ByKey.
Context {A : Type} (key : A -> Z).

Lemma stable_insert_by_key x l :
  StronglySorted (fun a b => key a <= key b) l ->
  exists r,
    stable_insert (fun a b => Ok (Z.ltb (key a) (key b))) x l = Ok r
    /\ StronglySorted (fun a b => key a <= key b) r
    /\ Permutation (x :: l) r
    /\ forall p, List.filter (fun a => Z.eqb (key a) p) r
                 = List.filter (fun a => Z.eqb (key a) p) (l ++ [x]).
Proof.
  induction 1 as [|y l Hl IH Hy]; cbn [stable_insert].
  - exists [x]. repeat split; auto. repeat constructor.
  - cbv beta. rewrite bind_Ok_l.
    destruct (Z.ltb_spec (key x) (key y)) as [Hlt | Hge].
    + exists (x :: y :: l). split; [reflexivity|]. split.
      { constructor; [constructor; assumption|].
        constructor; [lia|]. eapply Forall_impl; [exact Hy|]. simpl. intros; lia. }
      split; [reflexivity|].
      intros p.
      change (List.filter (fun a => Z.eqb (key a) p) ([x] ++ (y :: l))
              = List.filter (fun a => Z.eqb (key a) p) ((y :: l) ++ [x])).
      rewrite (List.filter_app _ (y :: l) [x]), (List.filter_app _ [x] (y :: l)).
      destruct (Z.eqb_spec (key x) p) as [Hp | Hp].
      * assert (Hnone : List.filter (fun a => Z.eqb (key a) p) (y :: l) = []).
        { apply filter_none. intros a [<- | Ha]; cbv beta.
          - apply Z.eqb_neq. lia.
          - rewrite List.Forall_forall in Hy. specialize (Hy a Ha).
            apply Z.eqb_neq. lia. }
        rewrite Hnone, app_nil_r. reflexivity.
      * assert (Hx : List.filter (fun a => Z.eqb (key a) p) [x] = []).
        { simpl. apply Z.eqb_neq in Hp. rewrite Hp. reflexivity. }
        rewrite Hx, app_nil_r. reflexivity.
    + destruct IH as (r & -> & Hs & Hperm & Hfil). rewrite bind_Ok_l.
      exists (y :: r). split; [reflexivity|]. split.
      { constructor; [exact Hs|].
        rewrite <- Hperm. constructor; [lia | exact Hy]. }
      split; [rewrite perm_swap; constructor; exact Hperm|].
      intros p. simpl. rewrite Hfil. reflexivity.
Qed.

Lemma stable_sort_from_by_key sorted l :
  StronglySorted (fun a b => key a <= key b) sorted ->
  exists r,
    stable_sort_from (fun a b => Ok (Z.ltb (key a) (key b))) sorted l = Ok r
    /\ StronglySorted (fun a b => key a <= key b) r
    /\ Permutation (sorted ++ l) r
    /\ forall p, List.filter (fun a => Z.eqb (key a) p) r
                 = List.filter (fun a => Z.eqb (key a) p) (sorted ++ l).
Proof.
  revert sorted. induction l as [|x l IH]; intros sorted Hs; simpl.
  - exists sorted. rewrite app_nil_r. repeat split; auto.
  - destruct (stable_insert_by_key x sorted Hs) as (s' & -> & Hs' & Hp & Hf). simpl.
    destruct (IH s' Hs') as (r & -> & Hr & Hpr & Hfr).
    exists r. split; [reflexivity|]. split; [exact Hr|]. split.
    + etransitivity; [symmetry; apply Permutation_middle|].
      etransitivity; [|exact Hpr]. apply (Permutation_app_tail l Hp).
    + intros p. rewrite Hfr, !List.filter_app, Hf, List.filter_app, <- app_assoc.
      change (x :: l) with ([x] ++ l). rewrite List.filter_app. reflexivity.
Qed.

End ByKey.

Lemma do_order_priorities_perf_sensitive names priority map st :
  let '(map', _, st') := do_order_priorities names priority map st in
  (forall t, t ∈ g_perf_sensitive st' <->
     t ∈ g_perf_sensitive st
     \/ exists name cls, In name names /\ type_class st name = Some cls
                         /\ cls_type cls = t)
  /\ g_type_class st' = g_type_class st
  /\ (forall t, is_Some (map' !! t) <->
        is_Some (map !! t)
        \/ exists name cls, In name names /\ type_class st name = Some cls
                            /\ cls_type cls = t).
Proof.
  revert priority map st. induction names as [|name rest IH]; intros priority map st.
  - simpl. split; [|split]; [intros t | reflexivity | intros t];
      (split; [auto | intros [? | (? & ? & [] & _)]; assumption]).
  - simpl. destruct (type_class st name) as [cls|] eqn:Hc.
    + specialize (IH (uint32_t (priority + 1)) (<[cls_type cls := priority]> map)
                    (set_perf_sensitive st cls)).
      destruct (do_order_priorities rest _ _ _) as [[map' p'] st'].
      destruct IH as (Hperf & Htc & Hkeys).
      assert (Htc' : forall n, type_class (set_perf_sensitive st cls) n = type_class st n)
        by reflexivity.
      split; [|split].
      * intros t. rewrite Hperf. unfold set_perf_sensitive. simpl.
        rewrite elem_of_union, elem_of_singleton. split.
        -- intros [[-> | Ht] | (n & c & Hin & Hn & Ht)].
           ++ right. exists name, cls. auto.
           ++ left. exact Ht.
           ++ right. exists n, c. rewrite Htc' in Hn. auto.
        -- intros [Ht | (n & c & [<- | Hin] & Hn & Ht)].
           ++ left. right. exact Ht.
           ++ left. left. congruence.
           ++ right. exists n, c. rewrite Htc'. auto.
      * rewrite Htc. reflexivity.
      * intros t. rewrite Hkeys. split.
        -- intros [Ht | (n & c & Hin & Hn & Ht)].
           ++ destruct (decide (cls_type cls = t)) as [<- | Hne].
              ** right. exists name, cls. auto.
              ** rewrite lookup_insert_ne in Ht by exact Hne. left. exact Ht.
           ++ right. exists n, c. rewrite Htc' in Hn. auto.
        -- intros [Ht | (n & c & [<- | Hin] & Hn & Ht)].
           ++ left. destruct (decide (cls_type cls = t)) as [<- | Hne].
              ** rewrite lookup_insert_eq. eauto.
              ** rewrite lookup_insert_ne by exact Hne. exact Ht.
           ++ left. assert (c = cls) as -> by congruence. subst t.
              rewrite lookup_insert_eq. eauto.
           ++ right. exists n, c. rewrite Htc'. auto.
    + specialize (IH priority map st).
      destruct (do_order_priorities rest _ _ _) as [[map' p'] st'].
      destruct IH as (Hperf & Htc & Hkeys).
      split; [|split].
      * intros t. rewrite Hperf. split.
        -- intros [Ht | (n & c & Hin & Hn)]; [left; exact Ht|].
           right. exists n, c. split; [right; exact Hin | exact Hn].
        -- intros [Ht | (n & c & [<- | Hin] & Hn & Ht)]; [left; exact Ht | congruence |].
           right. exists n, c. auto.
      * exact Htc.
      * intros t. rewrite Hkeys. split.
        -- intros [Ht | (n & c & Hin & Hn)]; [left; exact Ht|].
           right. exists n, c. split; [right; exact Hin | exact Hn].
        -- intros [Ht | (n & c & [<- | Hin] & Hn & Ht)]; [left; exact Ht | congruence |].
           right. exists n, c. auto.
Qed.

(** X14. [do_order_classes] never aborts.  It returns a permutation of
    the scope that is sorted by priority and keeps the classes of equal
    priority in their order; the classes that no cold-start name resolves to
    have the priority [UINT32_MAX], so they stay behind in their order; and
    the perf-sensitive classes afterwards are those from before and the
    classes that a cold-start name resolves to. *)
Theorem do_order_classes_stable (coldstart_class_names : list string)
    (scope : list DexClass) (st : State) :
  let class_to_priority := (do_order_priorities coldstart_class_names 0 ∅ st).1.1 in
  let st' := (do_order_priorities coldstart_class_names 0 ∅ st).2 in
  let named := fun t =>
    exists name cls, In name coldstart_class_names
                     /\ type_class st name = Some cls /\ cls_type cls = t in
  exists scope',
    do_order_classes coldstart_class_names scope st = Ok (scope', st')
    /\ Permutation scope scope'
    /\ StronglySorted
         (fun a b => priority_of class_to_priority a <= priority_of class_to_priority b)
         scope'
    /\ (forall p,
          List.filter (fun c => Z.eqb (priority_of class_to_priority c) p) scope'
          = List.filter (fun c => Z.eqb (priority_of class_to_priority c) p) scope)
    /\ (forall c, ~ named (cls_type c) -> priority_of class_to_priority c = UINT32_MAX)
    /\ (forall t, t ∈ g_perf_sensitive st' <-> t ∈ g_perf_sensitive st \/ named t).
Proof.
  intros class_to_priority st' named. unfold do_order_classes.
  pose proof (do_order_priorities_perf_sensitive coldstart_class_names 0 ∅ st) as Hp.
  subst class_to_priority st'.
  destruct (do_order_priorities coldstart_class_names 0 ∅ st) as [[map p] st1].
  destruct Hp as (Hperf & _ & Hkeys). simpl.
  destruct (stable_sort_from_by_key (priority_of map) [] scope (SSorted_nil _))
    as (r & Hr & Hs & Hperm & Hfil).
  unfold stable_sort. rewrite Hr. simpl.
  exists r. split; [reflexivity|]. split; [exact Hperm|]. split; [exact Hs|].
  split; [exact Hfil|]. split; [|exact Hperf].
  intros c Hc. unfold priority_of.
  destruct (map !! cls_type c) eqn:Hm; [|reflexivity].
  exfalso. apply Hc. destruct (proj1 (Hkeys (cls_type c))) as [He | Hn]; [eauto | | exact Hn].
  rewrite lookup_empty in He. destruct He. discriminate.
Qed.

End OrderFacts.

Section FlushFacts.
Import InterDex.
Context `{TypeSystem}.

Lemma flush_additional_classes_frame dex_info classes add st add' st' :
  flush_additional_classes dex_info classes add st = (add', st') ->
  m_dex_infos st' = m_dex_infos st /\ m_outdex st' = m_outdex st
  /\ m_emit_canaries st' = m_emit_canaries st
  /\ m_sort_remaining_classes st' = m_sort_remaining_classes st.
Proof.
  revert add st. induction classes as [|cls rest IH]; intros add st E; simpl in E.
  - injection E as _ <-. repeat split.
  - apply IH in E as (-> & -> & -> & ->). destruct (_ || _); repeat split.
Qed.

Lemma flush_plugins_frame plugins dex_info add st add' st' :
  flush_plugins plugins dex_info add st = (add', st') ->
  m_dex_infos st' = m_dex_infos st /\ m_outdex st' = m_outdex st
  /\ m_emit_canaries st' = m_emit_canaries st
  /\ m_sort_remaining_classes st' = m_sort_remaining_classes st.
Proof.
  revert add st. induction plugins as [|p rest IH]; intros add st E; simpl in E.
  - injection E as _ <-. repeat split.
  - destruct (flush_additional_classes _ _ _ _) as [add1 st1] eqn:E1.
    apply flush_additional_classes_frame in E1 as (E1a & E1b & E1c & E1d).
    apply IH in E as (-> & -> & -> & ->). auto.
Qed.

(** X15. A [flush_out_dex] that returns appends one DEX to the output;
    it adds one entry to [m_dex_infos], the canary name of the number of
    DEXes emitted so far with the flags of the DEX as they were on entry, if
    canaries are emitted and the DEX is not the primary one, and no entry
    otherwise. *)
Theorem flush_out_dex_records_canary (dex_info dex_info' : DexInfo) (st st' : State) :
  flush_out_dex dex_info st = Ok (dex_info', st') ->
  m_dex_infos st'
  = m_dex_infos st
    ++ (if m_emit_canaries st && negb (primary dex_info)
        then [(canary_class_name (get_num_dexes (m_dexes_structure st)), dex_info)]
        else [])
  /\ exists classes, m_outdex st' = m_outdex st ++ [classes].
Proof.
  unfold flush_out_dex. intros E.
  destruct (flush_plugins _ _ _ _) as [add st2] eqn:E2.
  apply flush_plugins_frame in E2 as (E2a & E2b & _).
  destruct (end_dex _ _) as [classes ds].
  apply bind_Ok in E as (classes' & _ & E). injection E as _ <-. simpl.
  rewrite E2a, E2b. unfold flush_canary.
  destruct (m_emit_canaries st && negb (primary dex_info)).
  - destruct (type_class st _); simpl; split; eauto.
  - rewrite app_nil_r. split; eauto.
Qed.

End FlushFacts.

Section InterDexWitnesses.
Import InterDex.

Lemma canary_class_name_distinct_witness :
  canary_class_name 7 = "Lsecondary/dex07/Canary;"
  /\ is_canary (create_canary (canary_class_name 7)) = true
  /\ (canary_class_name 7 = canary_class_name 123 -> 7 = 123).
Proof.
  destruct (canary_class_name_distinct 7 123 ltac:(lia) ltac:(lia)) as (Ha & Hb & Hc).
  split; [exact Ha|]. split; [exact Hb | exact Hc].
Defined.

Lemma sort_remaining_classes_keeps_ordered_prefix_witness :
  exists ordered remaining sorted,
    [sample_A; sample_C; sample_B] = ordered ++ remaining
    /\ [sample_A; sample_C; sample_B] = ordered ++ sorted
    /\ Forall (fun cls =>
                is_perf_sensitive (set_perf_sensitive (sample_state true) sample_A) cls
                && negb (bool_decide (cls_type cls ∈ (∅ : gset string))) = true)
         ordered
    /\ Forall (fun cls =>
                is_perf_sensitive (set_perf_sensitive (sample_state true) sample_A) cls
                && negb (bool_decide (cls_type cls ∈ (∅ : gset string))) = false)
         remaining
    /\ Permutation remaining sorted
    /\ Permutation [sample_A; sample_C; sample_B] [sample_A; sample_C; sample_B].
Proof.
  assert (E : sort_remaining_classes
                 (set_perf_sensitive (sample_state true) sample_A) ∅
                 [sample_A; sample_C; sample_B]
               = Ok [sample_A; sample_C; sample_B]) by (vm_compute; reflexivity).
  exact (sort_remaining_classes_keeps_ordered_prefix _ _ _ _ E).
Defined.

Lemma flush_out_dex_records_canary_witness :
  exists dex_info' st',
    flush_out_dex sample_dex_info (sample_state true) = Ok (dex_info', st')
    /\ m_dex_infos st' = [("Lsecondary/dex00/Canary;", sample_dex_info)].
Proof.
  destruct (flush_out_dex sample_dex_info (sample_state true))
    as [[dex_info' st']|msg] eqn:E; [|vm_compute in E; discriminate].
  exists dex_info', st'. split; [reflexivity|].
  destruct (flush_out_dex_records_canary _ _ _ _ E) as [Hi _].
  rewrite Hi. reflexivity.
Defined.

End InterDexWitnesses.

(** ** Keep-rule parser: directives and access flags *)

(** Inversion of a run that returned: every call it made returned. *)
Ltac inv_run :=
  repeat match goal with
    | E : Ok _ = Ok _ |- _ => injection E as E; subst
    | E : (_, _) = (_, _) |- _ => injection E as E; subst
    | E : Fatal _ = Ok _ |- _ => discriminate E
    | E : None = Some _ |- _ => discriminate E
    | E : Some _ = None |- _ => discriminate E
    | E : Some _ = Some _ |- _ => injection E as E; subst
    | E : ProguardParser.loop_bound_exceeded = Ok _ |- _ => discriminate E
    | E : (_ ≫= _) = Ok _ |- _ =>
        let a := fresh "a" in let Ha := fresh "Ha" in
        apply bind_Ok in E as (a & Ha & E)
    | E : (let '(_, _) := ?x in _) = Ok _ |- _ => destruct x
    | E : (if ?c then _ else _) = Ok _ |- _ =>
        let Hc := fresh "Hc" in destruct c eqn:Hc
    | E : match ?x with _ => _ end = Ok _ |- _ =>
        let Hx := fresh "Hx" in destruct x eqn:Hx
    end.

Section DirectiveFacts.
Import ProguardParser.
Context `{ParserServices} {Rules : Type} `{KeepSpecSet Rules}.

Lemma next_Ok idx ty :
  is_type idx ty = true -> ty <> TokenType.eof_token ->
  next idx = Ok (skip_comments (tl idx)).
Proof.
  intros Hty Hne. apply is_type_eq in Hty. unfold next, redex_assert.
  assert (E : is_type idx TokenType.eof_token = false).
  { apply not_true_is_false. intros E. apply is_type_eq in E. congruence. }
  rewrite E. destruct idx as [|t idx]; [|reflexivity].
  simpl in Hty. congruence.
Qed.

Lemma is_type_idx_type idx ty : is_type idx ty = true -> idx_type idx = ty.
Proof. apply is_type_eq. Qed.

(** X16. A directive that [parse] handles without aborting leaves fewer
    tokens than it found: every round of the loop of [parse] makes
    progress. *)
Theorem parse_command_consumes_a_token idx (cfg : @ProguardConfiguration Rules)
    stats fn line idx' cfg' stats' :
  lexed idx = true ->
  parse_command idx cfg stats fn line = Ok (idx', cfg', stats') ->
  (length idx' < length idx)%nat.
Proof.
  intros _ E. pose proof (parse_command_in_bounds idx cfg stats fn line) as Hp.
  rewrite E in Hp. exact Hp.
Qed.

(** X17. [-include] and [-keepdirectories] without a file path behind
    them, and [-injars], [-outjars] and [-libraryjars] at the end of the
    input, abort the parser: [return {}] of [parse_filepath_command] and of
    [parse_jars] is the empty optional, on which [always_assert] fails. *)
Theorem filepath_directive_without_path_aborts idx (cfg : @ProguardConfiguration Rules)
    stats fn line :
  lexed idx = true ->
  ((is_type idx TokenType.include = true \/ is_type idx TokenType.keepdirectories = true)
   /\ is_type (skip_comments (tl idx)) TokenType.filepath = false)
  \/ ((is_type idx TokenType.injars = true \/ is_type idx TokenType.outjars = true
       \/ is_type idx TokenType.libraryjars = true)
      /\ is_type (skip_comments (tl idx)) TokenType.eof_token = true) ->
  exists msg, parse_command idx cfg stats fn line = Fatal msg.
Proof.
  intros _ [[Hty Hnext] | [Hty Hnext]].
  - assert (Hfp : forall ty, is_type idx ty = true -> ty <> TokenType.eof_token ->
                    parse_filepath_command idx ty (basedirectory cfg)
                    = Ok (None, skip_comments (tl idx))).
    { intros ty Ht Hne. unfold parse_filepath_command.
      rewrite Ht, (next_Ok _ _ Ht Hne). simpl. rewrite Hnext. simpl.
      destruct (is_type _ TokenType.eof_token); [reflexivity|].
      destruct (idx_is_command _); reflexivity. }
    unfold parse_command.
    destruct Hty as [Ht | Ht]; rewrite (is_type_idx_type _ _ Ht);
      rewrite (Hfp _ Ht) by discriminate; simpl; eauto.
  - assert (Hj : forall ty, is_type idx ty = true -> ty <> TokenType.eof_token ->
                   parse_jars idx ty (basedirectory cfg)
                   = Ok (None, skip_comments (tl idx))).
    { intros ty Ht Hne. unfold parse_jars.
      rewrite Ht, (next_Ok _ _ Ht Hne). simpl. rewrite Hnext. reflexivity. }
    unfold parse_command.
    destruct Hty as [Ht | [Ht | Ht]]; rewrite (is_type_idx_type _ _ Ht);
      rewrite (Hj _ Ht) by discriminate; simpl; eauto.
Qed.

Lemma skip_comments_split idx :
  exists comments,
    idx = comments ++ skip_comments idx
    /\ Forall (fun t => type t = TokenType.comment) comments.
Proof.
  induction idx as [|t idx (cs & E & Hcs)]; [exists []; split; [reflexivity|constructor]|].
  simpl. unfold TokenType.eqb. destruct (bool_decide_reflect (type t = TokenType.comment)) as [Ht|Ht].
  - exists (t :: cs). split; [simpl; f_equal; exact E | constructor; assumption].
  - exists []. split; [reflexivity | constructor].
Qed.

Lemma skip_comments_no_comment idx :
  is_type (skip_comments idx) TokenType.comment = false.
Proof.
  induction idx as [|t idx IH]; [reflexivity|]. simpl.
  destruct (TokenType.eqb (type t) TokenType.comment) eqn:E; [exact IH | exact E].
Qed.

Lemma comment_is_no_command t : type t = TokenType.comment -> is_command t = false.
Proof. intros Ht. unfold is_command. rewrite Ht. reflexivity. Qed.

Lemma skip_to_next_command_loop_spec bound idx :
  (length idx <= bound)%nat ->
  exists skipped idx',
    skip_to_next_command_loop bound idx = Ok idx'
    /\ idx = skipped ++ idx'
    /\ Forall (fun t => is_command t = false) skipped
    /\ (is_type idx' TokenType.eof_token = true \/ idx_is_command idx' = true).
Proof.
  revert idx. induction bound as [|bound IH]; intros idx Hb.
  - destruct idx; [|simpl in Hb; lia].
    exists [], []. repeat split; [constructor | left; reflexivity].
  - cbn [skip_to_next_command_loop].
    destruct (is_type idx TokenType.eof_token) eqn:He; simpl.
    { exists [], idx. repeat split; [constructor | left; exact He]. }
    destruct (idx_is_command idx) eqn:Hc; simpl.
    { exists [], idx. repeat split; [constructor | right; exact Hc]. }
    destruct idx as [|t idx]; [discriminate|].
    unfold next, redex_assert. rewrite He. simpl.
    destruct (skip_comments_split idx) as (cs & E & Hcs).
    destruct (IH (skip_comments idx)) as (sk & idx' & Hr & Hsplit & Hsk & Hstop).
    { pose proof (skip_comments_length idx). simpl in Hb. lia. }
    exists (t :: cs ++ sk), idx'. split; [exact Hr|]. split.
    + simpl. f_equal. rewrite <- app_assoc, <- Hsplit. exact E.
    + split; [|exact Hstop]. constructor; [exact Hc|].
      apply Forall_app. split; [|exact Hsk].
      eapply Forall_impl; [exact Hcs|]. intros x. apply comment_is_no_command.
Qed.

(** X18. A directive without an implementation leaves the configuration
    as it is; it raises [unimplemented] by one, unless it is [dontnote]; and
    the parser goes on at the next command token or at the end of the input,
    having skipped the directive and the tokens behind it that are no
    commands. *)
Theorem unimplemented_directive_is_skipped idx (cfg : @ProguardConfiguration Rules)
    stats fn line :
  lexed idx = true ->
  In (idx_type idx)
     [TokenType.command; TokenType.dump; TokenType.mergeinterfacesaggressively;
      TokenType.returns] ->
  idx_is_command idx = true ->
  exists skipped idx',
    parse_command idx cfg stats fn line
    = Ok (idx', cfg,
          if String.eqb (idx_data idx) "dontnote" then stats
          else add_unimplemented stats 1)
    /\ idx = skipped ++ idx'
    /\ skipped <> []
    /\ Forall (fun t => is_command t = false) (tl skipped)
    /\ (is_type idx' TokenType.eof_token = true \/ idx_is_command idx' = true).
Proof.
  intros _ Hty Hc.
  assert (Hn : next idx = Ok (skip_comments (tl idx))).
  { apply (next_Ok idx (idx_type idx)); [apply is_type_eq; reflexivity|].
    simpl in Hty. intuition congruence. }
  destruct (skip_comments_split (tl idx)) as (cs & E & Hcs).
  destruct (skip_to_next_command_loop_spec (length (skip_comments (tl idx)))
              (skip_comments (tl idx)) (le_n _))
    as (sk & idx' & Hr & Hsplit & Hsk & Hstop).
  destruct idx as [|t idx]; [discriminate|]. simpl in E, Hn, Hr, Hsplit.
  exists (t :: cs ++ sk), idx'.
  assert (Hrun : parse_command (t :: idx) cfg stats fn line
                 = Ok (idx', cfg,
                       if String.eqb (data t) "dontnote" then stats
                       else add_unimplemented stats 1)).
  { unfold parse_command. cbn [idx_type].
    simpl in Hty. destruct Hty as [Ht | [Ht | [Ht | [Ht | []]]]]; rewrite <- Ht;
      rewrite Hc; simpl always_assert_log; rewrite bind_Ok_l, Hn, bind_Ok_l;
      unfold skip_to_next_command; rewrite Hr, bind_Ok_l; simpl;
      destruct (String.eqb (data t) "dontnote"); reflexivity. }
  split; [exact Hrun|]. split.
  - simpl. f_equal. rewrite <- app_assoc, <- Hsplit. exact E.
  - split; [discriminate|]. split; [|exact Hstop]. simpl.
    apply Forall_app. split; [|exact Hsk].
    eapply Forall_impl; [exact Hcs|]. intros x. apply comment_is_no_command.
Qed.

(** X19. On an input without any command token [parse] returns the
    configuration as it is; it counts one unknown command if there is a token
    other than comments in front of the end of the input, and none if there
    is not. *)
Theorem parse_without_directive (vec : list Token) (cfg : @ProguardConfiguration Rules)
    stats fn :
  lexed vec = true ->
  Forall (fun t => is_command t = false) vec ->
  parse vec cfg stats fn
  = Ok (cfg,
        if is_type (skip_comments vec) TokenType.eof_token then stats
        else add_unknown_commands stats 1).
Proof.
  intros _ Hvec.
  assert (Hstop : forall bound idx (c : @ProguardConfiguration Rules) s,
            is_type idx TokenType.eof_token = true ->
            parse_loop bound idx c s fn = Ok (c, s)).
  { intros bound idx c s He. destruct bound, idx; simpl; try reflexivity;
      rewrite He; reflexivity. }
  assert (Hskip : forall idx, Forall (fun t => is_command t = false) idx ->
            exists idx', skip_to_next_command idx = Ok idx'
                         /\ is_type idx' TokenType.eof_token = true).
  { intros idx Hidx.
    destruct (skip_to_next_command_loop_spec (length idx) idx (le_n _))
      as (sk & idx' & Hr & Hsplit & _ & Hs).
    exists idx'. split; [exact Hr|]. destruct Hs as [Hs|Hs]; [exact Hs|].
    destruct idx' as [|t' idx']; [reflexivity|]. simpl in Hs.
    rewrite Hsplit in Hidx. apply Forall_app in Hidx as [_ Hidx].
    inversion Hidx; congruence. }
  assert (Hsc : forall idx, Forall (fun t => is_command t = false) idx ->
            Forall (fun t => is_command t = false) (skip_comments idx)).
  { intros idx Hidx. destruct (skip_comments_split idx) as (cs & E & _).
    rewrite E in Hidx. apply Forall_app in Hidx as [_ Hidx]. exact Hidx. }
  (* one round on a token that is no comment *)
  assert (Hround : forall bound idx (c : @ProguardConfiguration Rules) s,
            Forall (fun t => is_command t = false) idx ->
            is_type idx TokenType.comment = false ->
            (1 <= bound)%nat \/ is_type idx TokenType.eof_token = true ->
            parse_loop bound idx c s fn
            = Ok (c, if is_type idx TokenType.eof_token then s
                     else add_unknown_commands s 1)).
  { intros bound idx c s Hidx Hco Hb.
    destruct (is_type idx TokenType.eof_token) eqn:He; [apply Hstop; exact He|].
    destruct Hb as [Hb|Hb]; [|discriminate].
    destruct bound as [|bound]; [lia|].
    destruct idx as [|t idx]; [discriminate|].
    cbn [parse_loop]. rewrite He, Hco.
    inversion Hidx as [|? ? Ht Hrest]; subst.
    simpl idx_is_command. rewrite Ht. simpl negb. cbv iota.
    unfold next, redex_assert. rewrite He. simpl.
    destruct (Hskip (skip_comments idx) (Hsc _ Hrest)) as (idx' & Hr & He').
    rewrite Hr. simpl. apply Hstop. exact He'. }
  unfold parse. destruct vec as [|t vec]; [reflexivity|].
  destruct (is_type (t :: vec) TokenType.comment) eqn:Hco.
  - assert (Hs : skip_comments (t :: vec) = skip_comments vec).
    { simpl. apply is_type_eq in Hco. simpl in Hco. rewrite Hco. reflexivity. }
    rewrite Hs. cbn [parse_loop length].
    assert (He : is_type (t :: vec) TokenType.eof_token = false).
    { apply not_true_is_false. intros E. apply is_type_eq in E, Hco. congruence. }
    rewrite He, Hco. unfold next, redex_assert. rewrite He. simpl.
    inversion Hvec as [|? ? Ht Hrest]; subst.
    apply Hround.
    + apply Hsc. exact Hrest.
    + apply skip_comments_no_comment.
    + destruct vec; [right; reflexivity | left; simpl; lia].
  - assert (Hs : skip_comments (t :: vec) = t :: vec).
    { simpl. unfold is_type in Hco. simpl in Hco. rewrite Hco. reflexivity. }
    rewrite Hs. apply Hround; [exact Hvec | exact Hco | left; simpl; lia].
Qed.

End DirectiveFacts.


Section AccessFlagFacts.
Import ProguardParser.
Context `{ParserServices}.


Lemma land_lor_zero a b f :
  Z.land a b = 0 -> Z.land f b = 0 -> Z.land (Z.lor a f) b = 0.
Proof. intros Ha Hf. rewrite Z.land_lor_distr_l, Ha, Hf. reflexivity. Qed.

Lemma land_sub_zero a k f :
  Z.land a k = 0 -> Z.land k f = f -> Z.land a f = 0.
Proof. intros Ha Hf. rewrite <- Hf, Z.land_assoc, Ha. reflexivity. Qed.

Lemma process_access_modifier_kind ty f :
  process_access_modifier ty = Some f -> Z.land f ACC_CLASS_KIND = 0.
Proof. destruct ty; simpl; intros E; try discriminate; injection E as <-; reflexivity. Qed.

Lemma parse_access_flags_loop_consistent bound idx s u n ok s' u' idx' :
  flags_consistent s u -> Z.land s ACC_CLASS_KIND = 0 -> Z.land u ACC_CLASS_KIND = 0 ->
  parse_access_flags_loop bound idx s u n = Ok (ok, s', u', idx') ->
  flags_consistent s' u' /\ Z.land s' ACC_CLASS_KIND = 0 /\ Z.land u' ACC_CLASS_KIND = 0.
Proof.
  unfold flags_consistent.
  revert idx s u n. induction bound as [|bound IH]; intros idx s u n Hc Hs Hu E;
    cbn [parse_access_flags_loop] in E.
  - destruct (is_negation_or_class_access_modifier _); inv_run. auto.
  - destruct (is_negation_or_class_access_modifier _); [|inv_run; auto].
    destruct (if is_type idx TokenType.notToken then _ else _) as [negated access_it].
    destruct (process_access_modifier _) as [f|] eqn:Hf; [|inv_run; auto].
    apply process_access_modifier_kind in Hf.
    destruct negated.
    + destruct (is_access_flag_set s f) eqn:Hset; [inv_run; auto|].
      apply negb_false_iff, Z.eqb_eq in Hset.
      apply IH in E; [exact E | | exact Hs | apply land_lor_zero; assumption].
      unfold set_access_flag. rewrite Z.land_comm. apply land_lor_zero.
      * rewrite Z.land_comm. exact Hc.
      * rewrite Z.land_comm. exact Hset.
    + destruct (is_access_flag_set u f) eqn:Hset; [inv_run; auto|].
      apply negb_false_iff, Z.eqb_eq in Hset.
      apply IH in E; [exact E | | apply land_lor_zero; assumption | exact Hu].
      unfold set_access_flag. apply land_lor_zero; [exact Hc|].
      rewrite Z.land_comm. exact Hset.
Qed.

Lemma parse_access_flags_consistent idx ok s' u' idx' :
  parse_access_flags idx 0 0 = Ok (ok, s', u', idx') ->
  flags_consistent s' u' /\ Z.land s' ACC_CLASS_KIND = 0 /\ Z.land u' ACC_CLASS_KIND = 0.
Proof. apply parse_access_flags_loop_consistent; reflexivity. Qed.

Lemma flags_consistent_kind s u k :
  flags_consistent s u -> Z.land s ACC_CLASS_KIND = 0 -> Z.land u ACC_CLASS_KIND = 0 ->
  Z.land ACC_CLASS_KIND k = k ->
  flags_consistent (set_access_flag s k) u /\ flags_consistent s (set_access_flag u k).
Proof.
  unfold flags_consistent, set_access_flag. intros Hc Hs Hu Hk. split.
  - apply land_lor_zero; [exact Hc|]. rewrite Z.land_comm.
    apply (land_sub_zero _ _ _ Hu Hk).
  - rewrite Z.land_comm. apply land_lor_zero; [rewrite Z.land_comm; exact Hc|].
    rewrite Z.land_comm. apply (land_sub_zero _ _ _ Hs Hk).
Qed.

Lemma parse_class_token_consistent idx s u ok s' u' idx' :
  flags_consistent s u -> Z.land s ACC_CLASS_KIND = 0 -> Z.land u ACC_CLASS_KIND = 0 ->
  parse_class_token idx s u = Ok (ok, s', u', idx') ->
  flags_consistent s' u'.
Proof.
  intros Hc Hs Hu E. unfold parse_class_token in E.
  apply bind_Ok in E as ([negated idx1] & _ & E).
  pose proof (flags_consistent_kind s u ACC_INTERFACE Hc Hs Hu eq_refl) as [Hi1 Hi2].
  pose proof (flags_consistent_kind s u ACC_ENUM Hc Hs Hu eq_refl) as [He1 He2].
  pose proof (flags_consistent_kind s u ACC_ANNOTATION Hc Hs Hu eq_refl) as [Ha1 Ha2].
  destruct (idx_type idx1), negated; inv_run; assumption.
Qed.

Lemma push_consistent c m :
  class_flags_consistent c -> member_flags_consistent m ->
  class_flags_consistent (push_field c m) /\ class_flags_consistent (push_method c m).
Proof.
  unfold class_flags_consistent. intros (Hc & Hf & Hm) Hmem. simpl.
  repeat split; try assumption; apply Forall_app; split; auto.
Qed.

Lemma parse_member_tail_consistent idx c ar m ok c' idx' :
  class_flags_consistent c -> member_flags_consistent m ->
  parse_member_tail idx c ar m = Ok (ok, c', idx') ->
  class_flags_consistent c'.
Proof.
  intros Hc Hm E. unfold parse_member_tail in E.
  assert (Hp : forall m', requiredSetAccessFlags m' = requiredSetAccessFlags m ->
                 requiredUnsetAccessFlags m' = requiredUnsetAccessFlags m ->
                 class_flags_consistent (push_field c m')
                 /\ class_flags_consistent (push_method c m')).
  { intros m' H1 H2. apply push_consistent; [exact Hc|].
    unfold member_flags_consistent in *. rewrite H1, H2. exact Hm. }
  inv_run; try assumption;
    first [refine (proj1 (Hp _ _ _)); reflexivity
          | refine (proj2 (Hp _ _ _)); reflexivity].
Qed.

Lemma parse_member_specification_consistent idx c ar ok c' idx' :
  class_flags_consistent c ->
  parse_member_specification idx c ar = Ok (ok, c', idx') ->
  class_flags_consistent c'.
Proof.
  intros Hc E. unfold parse_member_specification in E.
  apply bind_Ok in E as ([annotation idx0] & _ & E).
  apply bind_Ok in E as ([[[ok1 sf] uf] idx1] & Hflags & E).
  apply parse_access_flags_consistent in Hflags as (Hsu & Hs & Hu).
  assert (Hp : forall m', requiredSetAccessFlags m' = sf ->
                 requiredUnsetAccessFlags m' = uf ->
                 member_flags_consistent m').
  { intros m' H1 H2. unfold member_flags_consistent. rewrite H1, H2. exact Hsu. }
  pose proof (flags_consistent_kind sf uf ACC_CONSTRUCTOR Hsu Hs Hu eq_refl) as [Hi _].
  destruct ok1; cbn [negb] in E; cbv iota in E; [|inv_run; exact Hc].
  destruct (negb (is_type idx1 TokenType.identifier)); [inv_run; exact Hc|].
  destruct (String.eqb (idx_data idx1) "*").
  { inv_run; [exact Hc|].
    apply push_consistent; [apply push_consistent; [exact Hc|] |];
      apply Hp; reflexivity. }
  destruct (String.eqb (idx_data idx1) "<methods>").
  { inv_run; [exact Hc|]. apply push_consistent; [exact Hc | apply Hp; reflexivity]. }
  destruct (String.eqb (idx_data idx1) "<fields>").
  { inv_run; [exact Hc|]. apply push_consistent; [exact Hc | apply Hp; reflexivity]. }
  destruct (String.eqb (idx_data idx1) "<init>").
  { apply bind_Ok in E as (idx2 & _ & E).
    eapply parse_member_tail_consistent in E; [exact E | exact Hc | exact Hi]. }
  apply bind_Ok in E as (idx2 & _ & E).
  destruct (negb (is_type idx2 TokenType.identifier)); [inv_run; exact Hc|].
  apply bind_Ok in E as ([n idx3] & _ & E).
  eapply parse_member_tail_consistent in E; [exact E | exact Hc |].
  apply Hp; reflexivity.
Qed.

Lemma parse_member_specifications_loop_consistent bound idx c ar ok0 ok c' idx' :
  class_flags_consistent c ->
  parse_member_specifications_loop bound idx c ar ok0 = Ok (ok, c', idx') ->
  class_flags_consistent c'.
Proof.
  revert idx c ok0. induction bound as [|bound IH]; intros idx c ok0 Hc E;
    cbn [parse_member_specifications_loop] in E.
  - destruct (_ && _); inv_run. exact Hc.
  - destruct (_ && _); [|inv_run; exact Hc].
    apply bind_Ok in E as ([[member_ok c1] idx1] & Hm & E).
    apply parse_member_specification_consistent in Hm; [|exact Hc].
    destruct member_ok; cbn [negb] in E; cbv iota in E.
    + exact (IH _ _ _ Hm E).
    + apply bind_Ok in E as (idx2 & _ & E). exact (IH _ _ _ Hm E).
Qed.

(** X20. In a class specification that [parse_class_specification]
    returns no access flag is both required to be set and required to be
    unset, neither for the class nor for any of its field or method
    specifications. *)
Theorem parsed_access_flags_never_conflict idx ar c idx' :
  std_sort_contract ->
  lexed idx = true ->
  parse_class_specification idx ar = Ok (Some c, idx') ->
  class_flags_consistent c.
Proof.
  intros Hsort _ E. unfold parse_class_specification in E.
  apply bind_Ok in E as ([annotation idx0] & _ & E).
  apply bind_Ok in E as ([[[ok1 sf] uf] idx1] & Hflags & E).
  apply parse_access_flags_consistent in Hflags as (Hsu & Hs & Hu).
  destruct ok1; simpl in E; [|discriminate].
  apply bind_Ok in E as ([[[ok2 sf2] uf2] idx2] & Htok & E).
  apply parse_class_token_consistent in Htok; [|assumption..].
  destruct ok2; simpl in E; [|discriminate].
  apply bind_Ok in E as ([[ok3 class_names] idx3] & _ & E).
  destruct ok3; simpl in E; [|discriminate].
  apply bind_Ok in E as ([[[ok4 ea] ec] idx4] & _ & E).
  apply bind_Ok in E as ([[member_ok c1] idx5] & Hmembers & E).
  destruct ok4, member_ok; simpl in E; try discriminate.
  injection E as <- <-.
  assert (Hc1 : class_flags_consistent c1).
  { unfold parse_member_specifications in Hmembers.
    destruct (is_type idx4 TokenType.openCurlyBracket).
    - apply bind_Ok in Hmembers as (idx6 & _ & Hmembers).
      apply bind_Ok in Hmembers as ([[ok6 c6] idx7] & Hloop & Hmembers).
      apply parse_member_specifications_loop_consistent in Hloop.
      + destruct (is_type idx7 TokenType.closeCurlyBracket); inv_run; exact Hloop.
      + repeat split; [exact Htok | constructor | constructor].
    - inv_run. repeat split; [exact Htok | constructor | constructor]. }
  destruct Hc1 as (Hc & Hf & Hm).
  destruct (Hsort _ member_comparison (fieldSpecifications c1)
              member_comparison_strict_weak_order) as [Hpf _].
  destruct (Hsort _ member_comparison (methodSpecifications c1)
              member_comparison_strict_weak_order) as [Hpm _].
  split; [exact Hc|]. simpl. split.
  - eapply Permutation_Forall; [exact Hpf | exact Hf].
  - eapply Permutation_Forall; [exact Hpm | exact Hm].
Qed.

End AccessFlagFacts.



Section ConfigFacts.
Import ProguardParser.
Context `{ParserServices} {Rules : Type} `{KeepSpecSet Rules}.


(** The counters that a directive may raise, each by at most one; the
    count of unknown tokens is not one of them. *)
Lemma parse_all_keep_stats specs idx (cfg : @ProguardConfiguration Rules) stats fn line
    res idx' cfg' stats' :
  parse_all_keep specs idx cfg stats fn line = Ok (res, idx', cfg', stats') ->
  unknown_tokens stats' = unknown_tokens stats
  /\ parse_errors stats <= parse_errors stats'.
Proof.
  revert idx cfg stats. induction specs as [|d specs IH]; intros idx cfg stats E;
    cbn [parse_all_keep] in E.
  - inv_run. split; [reflexivity | lia].
  - apply bind_Ok in E as ([[val_ok spec] idx1] & _ & E).
    destruct val_ok as [[|]|]; [| |exact (IH _ _ _ E)]; inv_run; simpl;
      split; try reflexivity; lia.
Qed.

Lemma parse_command_stats idx (cfg : @ProguardConfiguration Rules) stats fn line
    idx' cfg' stats' :
  parse_command idx cfg stats fn line = Ok (idx', cfg', stats') ->
  unknown_tokens stats' = unknown_tokens stats
  /\ parse_errors stats <= parse_errors stats'.
Proof.
  intros E. unfold parse_command in E.
  destruct (idx_type idx);
    try (apply bind_Ok in E as ([[[res idx1] cfg1] stats1] & Hk & E);
         apply parse_all_keep_stats in Hk);
    inv_run; unfold check_empty; simpl;
    repeat match goal with |- context [match ?l with [] => _ | _ => _ end] => destruct l end;
    repeat match goal with |- context [if ?c then _ else _] => destruct c end;
    simpl; try (split; [reflexivity | lia]); try assumption.
Qed.

Lemma parse_loop_stats bound idx (cfg : @ProguardConfiguration Rules) stats fn
    cfg' stats' :
  parse_loop bound idx cfg stats fn = Ok (cfg', stats') ->
  unknown_tokens stats' = unknown_tokens stats
  /\ parse_errors stats <= parse_errors stats'.
Proof.
  revert idx cfg stats. induction bound as [|bound IH]; intros idx cfg stats E.
  - destruct idx; simpl in E; inv_run; split; try reflexivity; lia.
  - destruct idx as [|t idx]; [simpl in E; inv_run; split; [reflexivity|lia]|].
    cbn [parse_loop] in E.
    destruct (is_type (t :: idx) TokenType.eof_token);
      [inv_run; split; [reflexivity|lia]|].
    destruct (is_type (t :: idx) TokenType.comment).
    { apply bind_Ok in E as (idx1 & _ & E). exact (IH _ _ _ E). }
    destruct (negb (idx_is_command (t :: idx))).
    { apply bind_Ok in E as (idx1 & _ & E). apply bind_Ok in E as (idx2 & _ & E).
      apply IH in E. exact E. }
    apply bind_Ok in E as ([[idx1 cfg1] stats1] & Hc & E).
    apply parse_command_stats in Hc as [Hc1 Hc2].
    apply IH in E as [E1 E2]. split; [congruence | lia].
Qed.

(** X21. When [parse(config, pg_config, filename)] returns,
    [unknown_tokens] is the number of unknown tokens of the input and [ok] is
    set to whether there is neither an unknown token nor a parse error,
    whatever [ok] was before; unknown commands and directives without an
    implementation do not clear it.  If there is an unknown token, nothing
    is parsed: only [ok] changes. *)
Theorem parse_config_ok_flag (tokens : list Token) (cfg cfg' : @ProguardConfiguration Rules)
    (fn : string) (stats' : Stats) :
  lexed tokens = true ->
  parse_config tokens cfg fn = Ok (stats', cfg') ->
  unknown_tokens stats'
  = count_if (fun tok => TokenType.eqb (type tok) TokenType.unknownToken) tokens
  /\ 0 <= parse_errors stats'
  /\ ok cfg' = Z.eqb (unknown_tokens stats') 0 && Z.eqb (parse_errors stats') 0
  /\ (unknown_tokens stats' <> 0 ->
      cfg' = set_ok cfg false
      /\ parse_errors stats' = 0 /\ unknown_commands stats' = 0
      /\ unimplemented stats' = 0).
Proof.
  assert (Hbad : forall toks ret okf,
            unknown_tokens (check_bad_tokens toks ret okf).1
            = unknown_tokens ret
              + count_if (fun tok => TokenType.eqb (type tok) TokenType.unknownToken) toks
            /\ parse_errors (check_bad_tokens toks ret okf).1 = parse_errors ret
            /\ unknown_commands (check_bad_tokens toks ret okf).1 = unknown_commands ret
            /\ unimplemented (check_bad_tokens toks ret okf).1 = unimplemented ret
            /\ (check_bad_tokens toks ret okf).2
               = okf && Z.eqb (count_if (fun tok => TokenType.eqb (type tok)
                                                     TokenType.unknownToken) toks) 0).
  { unfold check_bad_tokens, count_if.
    induction toks as [|t toks IH]; intros ret okf; simpl.
    - rewrite Z.add_0_r, andb_true_r. repeat split.
    - destruct (TokenType.eqb (type t) TokenType.unknownToken).
      + destruct (IH (add_unknown_tokens ret 1) false) as (-> & -> & -> & -> & ->).
        simpl length. rewrite andb_false_l.
        repeat split; simpl; try lia.
      + apply IH. }
  intros _ E. unfold parse_config in E.
  specialize (Hbad tokens
                {| unknown_tokens := 0; parse_errors := 0; unknown_commands := 0;
                   unimplemented := 0 |} true).
  destruct (check_bad_tokens tokens _ true) as [ret okf].
  simpl in Hbad. destruct Hbad as (Hu & Hp & Hc & Hi & Hok).
  destruct okf; cbn [negb] in E; cbv iota in E.
  - symmetry in Hok. apply Z.eqb_eq in Hok.
    apply bind_Ok in E as ([cfg1 ret1] & Hparse & E).
    unfold parse in Hparse. apply parse_loop_stats in Hparse as [Hf Hle].
    assert (Hu1 : unknown_tokens ret1 = 0) by lia.
    destruct (Z.eqb (parse_errors ret1) 0) eqn:Hz; injection E as <- <-;
      rewrite Hu1, Hz; simpl; (split; [lia|]); (split; [lia|]);
      (split; [reflexivity|]); intros Hne; congruence.
  - injection E as <- <-. symmetry in Hok. apply Z.eqb_neq in Hok.
    split; [lia|]. split; [lia|]. split.
    + simpl. symmetry. apply andb_false_iff. left. apply Z.eqb_neq. lia.
    + intros _. repeat split; assumption.
Qed.

End ConfigFacts.


Section FilepathFacts.
Import ProguardParser.
Context `{ParserServices} {Rules : Type} `{KeepSpecSet Rules}.

(** X22. [-basedirectory] without a file path behind it does not abort:
    it counts one parse error, consumes the directive only, and sets the base
    directory to the empty string. *)
Theorem basedirectory_without_path idx (cfg : @ProguardConfiguration Rules)
    stats fn line :
  lexed idx = true ->
  is_type idx TokenType.basedirectory = true ->
  is_type (skip_comments (tl idx)) TokenType.filepath = false ->
  parse_command idx cfg stats fn line
  = Ok (skip_comments (tl idx), set_basedirectory cfg "", add_parse_errors stats 1).
Proof.
  intros _ Hty Hnext. unfold parse_command.
  rewrite (is_type_idx_type _ _ Hty). unfold parse_single_filepath_command.
  rewrite Hty, (next_Ok _ _ Hty) by discriminate. simpl. rewrite Hnext. simpl.
  destruct (is_type _ TokenType.eof_token); [reflexivity|].
  destruct (idx_is_command _); reflexivity.
Qed.

Lemma parse_filepaths_loop_spec bound paths rest res :
  (length paths <= bound)%nat ->
  Forall (fun t => type t = TokenType.filepath) paths ->
  is_type rest TokenType.filepath = false ->
  is_type rest TokenType.comment = false ->
  parse_filepaths_loop bound (paths ++ rest) res
  = Ok (res ++ List.map data paths, rest).
Proof.
  intros Hb Hp Hr Hc. revert bound res Hb.
  induction Hp as [|t paths Ht Hp IH]; intros bound res Hb.
  - simpl. rewrite app_nil_r. destruct bound; simpl; rewrite Hr; reflexivity.
  - destruct bound as [|bound]; [simpl in Hb; lia|].
    cbn [parse_filepaths_loop].
    assert (Hty : is_type ((t :: paths) ++ rest) TokenType.filepath = true)
      by (apply is_type_eq; exact Ht).
    rewrite Hty. unfold str_next. rewrite (next_Ok _ _ Hty) by discriminate.
    simpl.
    assert (Hs : skip_comments (paths ++ rest) = paths ++ rest).
    { destruct Hp as [|t' paths' Ht' Hp'].
      - simpl. destruct rest as [|r rest]; [reflexivity|]. simpl.
        unfold is_type in Hc. simpl in Hc. rewrite Hc. reflexivity.
      - simpl. unfold TokenType.eqb. rewrite Ht'. reflexivity. }
    rewrite Hs, IH by (simpl in Hb; lia).
    rewrite <- app_assoc. reflexivity.
Qed.

(** X23. [-include], [-injars], [-outjars], [-libraryjars] and
    [-keepdirectories] followed by one or more file paths append these paths,
    in their order, to the matching list of the configuration; the other
    lists, the base directory and the keep rules stay as they are, no error
    is counted, and the parser goes on behind the last path. *)
Theorem filepath_directive_appends (directive : Token) (paths rest : list Token)
    (cfg : @ProguardConfiguration Rules) stats fn line (l : list string) :
  filepath_list (type directive) cfg = Some l ->
  paths <> [] ->
  Forall (fun t => type t = TokenType.filepath) paths ->
  is_type rest TokenType.filepath = false ->
  is_type rest TokenType.comment = false ->
  lexed rest = true ->
  exists cfg',
    parse_command (directive :: paths ++ rest) cfg stats fn line
    = Ok (rest, cfg', stats)
    /\ filepath_list (type directive) cfg' = Some (l ++ List.map data paths)
    /\ (forall other, other <> type directive ->
        filepath_list other cfg' = filepath_list other cfg)
    /\ basedirectory cfg' = basedirectory cfg
    /\ keep_rules cfg' = keep_rules cfg.
Proof.
  intros Hl Hne Hp Hr Hc _.
  destruct paths as [|p paths]; [congruence|].
  assert (Hs : skip_comments ((p :: paths) ++ rest) = (p :: paths) ++ rest).
  { inversion Hp as [|? ? Ht _]; subst. simpl. unfold TokenType.eqb.
    rewrite Ht. reflexivity. }
  assert (Hfp : is_type ((p :: paths) ++ rest) TokenType.filepath = true).
  { inversion Hp; subst. apply is_type_eq. assumption. }
  assert (He : is_type ((p :: paths) ++ rest) TokenType.eof_token = false).
  { apply is_type_eq in Hfp. apply not_true_is_false. intros E.
    apply is_type_eq in E. congruence. }
  assert (Hcmd : idx_is_command ((p :: paths) ++ rest) = false).
  { inversion Hp as [|? ? Ht _]; subst. simpl. unfold is_command.
    rewrite Ht. reflexivity. }
  assert (Hloop : parse_filepaths ((p :: paths) ++ rest)
                  = Ok (List.map data (p :: paths), rest)).
  { unfold parse_filepaths.
    rewrite (parse_filepaths_loop_spec _ (p :: paths) rest []); try assumption.
    - reflexivity.
    - rewrite length_app. lia. }
  assert (Hty : is_type (directive :: (p :: paths) ++ rest) (type directive) = true)
    by (apply is_type_eq; reflexivity).
  unfold parse_command. cbn [idx_type].
  unfold filepath_list in Hl.
  destruct (type directive) eqn:Hd; try discriminate; injection Hl as <-;
    unfold parse_filepath_command, parse_jars;
    rewrite Hty, (next_Ok _ _ Hty) by discriminate;
    cbn [tl negb]; cbv iota; rewrite bind_Ok_l, Hs, ?He, ?Hcmd, ?Hfp;
    cbn [negb]; cbv iota; rewrite Hloop; simpl;
    (eexists; split; [reflexivity|]); simpl;
    (split; [reflexivity|]); (split; [|split; reflexivity]);
    intros other Ho; destruct other; try reflexivity; congruence.
Qed.

End FilepathFacts.

Section ParserWitnesses.
Import ProguardParser.

Lemma parse_command_consumes_a_token_witness :
  exists idx' cfg' stats',
    @parse_command forward_services _ _ tokens_keepnames empty_configuration
      empty_stats "f.pro" 1 = Ok (idx', cfg', stats')
    /\ (length idx' < length tokens_keepnames)%nat.
Proof.
  destruct (@parse_command forward_services _ _ tokens_keepnames empty_configuration
              empty_stats "f.pro" 1) as [[[idx' cfg'] stats']|] eqn:E;
    [|vm_compute in E; discriminate].
  exists idx', cfg', stats'. split; [reflexivity|].
  exact (@parse_command_consumes_a_token forward_services _ _ tokens_keepnames
           _ _ _ _ _ _ _ eq_refl E).
Defined.

Lemma filepath_directive_without_path_aborts_witness :
  exists msg,
    @parse_command forward_services _ _ tokens_include_eof empty_configuration
      empty_stats "f.pro" 1 = Fatal msg.
Proof.
  apply (@filepath_directive_without_path_aborts forward_services).
  - reflexivity.
  - left. split; [left; reflexivity | reflexivity].
Defined.

Lemma unimplemented_directive_is_skipped_witness :
  exists skipped idx',
    @parse_command forward_services _ _ tokens_dump empty_configuration
      empty_stats "f.pro" 1
    = Ok (idx', empty_configuration, add_unimplemented empty_stats 1)
    /\ tokens_dump = skipped ++ idx'
    /\ skipped <> []
    /\ Forall (fun t => is_command t = false) (tl skipped)
    /\ (is_type idx' TokenType.eof_token = true \/ idx_is_command idx' = true).
Proof.
  apply (@unimplemented_directive_is_skipped forward_services _ _ tokens_dump).
  - reflexivity.
  - simpl. tauto.
  - reflexivity.
Defined.

Lemma parse_without_directive_witness :
  @parse forward_services _ _ tokens_no_directive empty_configuration empty_stats "f.pro"
  = Ok (empty_configuration, add_unknown_commands empty_stats 1).
Proof.
  apply (@parse_without_directive forward_services _ _ tokens_no_directive).
  - reflexivity.
  - repeat constructor.
Defined.

Lemma parsed_access_flags_never_conflict_witness :
  exists c idx',
    @parse_class_specification forward_services tokens_access_flags false
    = Ok (Some c, idx')
    /\ class_flags_consistent c.
Proof.
  destruct (@parse_class_specification forward_services tokens_access_flags false)
    as [[[c|] idx']|] eqn:E; try (vm_compute in E; discriminate).
  exists c, idx'. split; [reflexivity|].
  exact (@parsed_access_flags_never_conflict forward_services
           tokens_access_flags _ _ _ forward_services_contract eq_refl E).
Defined.

Lemma parse_config_ok_flag_witness :
  exists stats' cfg',
    @parse_config forward_services _ _ tokens_keep_bad_class empty_configuration "f.pro"
    = Ok (stats', cfg')
    /\ ok cfg' = Z.eqb (unknown_tokens stats') 0 && Z.eqb (parse_errors stats') 0.
Proof.
  destruct (@parse_config forward_services _ _ tokens_keep_bad_class
              empty_configuration "f.pro") as [[stats' cfg']|] eqn:E;
    [|vm_compute in E; discriminate].
  exists stats', cfg'. split; [reflexivity|].
  exact (proj1 (proj2 (proj2
           (@parse_config_ok_flag forward_services _ _ tokens_keep_bad_class
              _ _ _ _ eq_refl E)))).
Defined.

Lemma basedirectory_without_path_witness :
  @parse_command forward_services _ _ tokens_basedirectory empty_configuration
    empty_stats "f.pro" 1
  = Ok (tl tokens_basedirectory, set_basedirectory empty_configuration "",
        add_parse_errors empty_stats 1).
Proof.
  apply (@basedirectory_without_path forward_services _ _ tokens_basedirectory);
    reflexivity.
Defined.

Lemma filepath_directive_appends_witness :
  exists cfg',
    @parse_command forward_services _ _ tokens_injars empty_configuration
      empty_stats "f.pro" 1
    = Ok ([tok TokenType.dontshrink "dontshrink" 2; tok TokenType.eof_token "" 3],
          cfg', empty_stats)
    /\ injars cfg' = ["a.jar"; "b.jar"].
Proof.
  destruct (@filepath_directive_appends forward_services _ _
              (tok TokenType.injars "injars" 1)
              [tok TokenType.filepath "a.jar" 1; tok TokenType.filepath "b.jar" 1]
              [tok TokenType.dontshrink "dontshrink" 2; tok TokenType.eof_token "" 3]
              empty_configuration empty_stats "f.pro" 1 [])
    as (cfg' & E & Hl & _).
  - reflexivity.
  - discriminate.
  - repeat constructor.
  - reflexivity.
  - reflexivity.
  - reflexivity.
  - exists cfg'. split; [exact E|]. simpl in Hl. injection Hl as Hl. exact Hl.
Defined.

Lemma class_specification_returns_witness :
  lexed tokens_two_fields = true
  /\ exists cs idx',
       @parse_class_specification forward_services tokens_two_fields false
       = Ok (cs, idx')
       /\ lexed idx' = true.
Proof.
  split; [reflexivity|].
  apply (@class_specification_returns forward_services tokens_two_fields false).
  reflexivity.
Defined.

End ParserWitnesses.
